(** * fami.js: a shallow embedding of the emulator core

    The development follows the TypeScript sources of the emulator:
    [util.ts], [addressable.ts], [ram.ts], [rom.ts], [bus.ts], [clock.ts],
    [cartridge.ts], [palette.ts], [tile.ts], [ppu.ts], [cpu.ts] and the
    wiring of [nes.ts].

    Conventions.
    - A JavaScript number that is always an integer in the code is a [Z].
    - A value that may be [undefined] or [NaN] (an array read out of range,
      a bus read no region answers, a remainder by zero) is an [option Z]
      with [None] for "not a number".
    - The bit operators of JavaScript work on 32-bit integers; the wrap is
      written out in [JS.to_int32].
    - Objects mutated in place become values passed in and returned.
    - Console output and the debug log are not part of the state; the bus
      reads the debug log performs are kept, since a read can change a
      device. *)

From Stdlib Require Import ZArith Lia Bool List String Sorted Permutation.
From stdpp Require Import base list.
Import ListNotations.

Local Open Scope Z_scope.

(** ** JavaScript arithmetic *)

Module JS.

(** ToInt32: the operand of every bit operator is first wrapped. *)
Definition to_int32 (z : Z) : Z := (z + 2 ^ 31) mod 2 ^ 32 - 2 ^ 31.

(** ToInt32 of a value that may be [undefined] or [NaN]: both give 0. *)
Definition num (v : option Z) : Z := default 0 v.

Definition band (a b : Z) : Z := Z.land (to_int32 a) (to_int32 b).
Definition bor (a b : Z) : Z := Z.lor (to_int32 a) (to_int32 b).
Definition bxor (a b : Z) : Z := Z.lxor (to_int32 a) (to_int32 b).
Definition bnot (a : Z) : Z := Z.lnot (to_int32 a).
Definition shl (a n : Z) : Z := to_int32 (Z.shiftl (to_int32 a) (Z.land n 31)).
Definition shr (a n : Z) : Z := Z.shiftr (to_int32 a) (Z.land n 31).

(** [a % b]: the remainder takes the sign of the dividend, and a zero
    divisor gives [NaN]. *)
Definition rem (a b : Z) : option Z :=
  if b =? 0 then None else Some (Z.rem a b).

(** [!!v] and the truth value of a number in a condition. *)
Definition truthy (v : Z) : bool := negb (v =? 0).

(** Reading an array: [undefined] unless the index is an integer inside
    the array. *)
Definition ta_get {A : Type} (l : list A) (i : option Z) : option A :=
  match i with
  | Some z => if 0 <=? z then l !! Z.to_nat z else None
  | None => None
  end.

(** Writing a [Uint8Array]: the value is reduced modulo 256 ([undefined]
    and [NaN] store 0); a write outside the array is ignored and the
    array never grows. *)
Definition ta_set (l : list Z) (i : option Z) (v : option Z) : list Z :=
  match i with
  | Some z => if 0 <=? z then <[Z.to_nat z := num v mod 256]> l else l
  | None => l
  end.

(** Writing a [Uint8ClampedArray]: the value is clamped to 0..255. *)
Definition clamp (v : Z) : Z := Z.max 0 (Z.min 255 v).

Definition ta_set_clamped (l : list Z) (i : Z) (v : Z) : list Z :=
  if 0 <=? i then <[Z.to_nat i := clamp v]> l else l.

(** [new Uint8Array(n)]: [n] zero bytes. *)
Definition ta_new (n : Z) : list Z := replicate (Z.to_nat n) 0.

End JS.

(** The outcome of a call that may throw. *)
Inductive Result (A : Type) : Type :=
  | Ok (a : A)
  | Throw (message : string).
Arguments Ok {A} a.
Arguments Throw {A} message.

(** ** util.ts *)

Module Util.

Fixpoint compareBytes_loop (a b : list Z) : bool :=
  match a, b with
  | x :: a', y :: b' => if x =? y then compareBytes_loop a' b' else false
  | _, _ => true
  end.

Definition compareBytes (a b : list Z) : bool :=
  if negb (Nat.eqb (length a) (length b)) then false
  else compareBytes_loop a b.

Definition getBit (byte index : Z) : Z :=
  if negb (JS.truthy (JS.band byte (JS.shl 1 index))) then 0 else 1.

Definition setBit (byte index : Z) (bit : bool) : Z :=
  if bit then JS.bor byte (JS.shl 1 index)
  else JS.band byte (JS.bnot (JS.shl 1 index)).

(** [formatHex] and [formatBinary] build a string for the log. The model
    keeps only whether the call returns: [value.toString] throws a
    [TypeError] when the value is [undefined]. *)
Definition formatHex (value : option Z) : Result unit :=
  match value with
  | Some _ => Ok tt
  | None => Throw "TypeError"%string
  end.

Definition isSamePage (a b : Z) : bool :=
  JS.band a 0xff00 =? JS.band b 0xff00.

Definition unsignedByteToSignedByte (byte : Z) : Z :=
  if 127 <? byte then byte - 256 else byte.

End Util.

(** ** events.ts *)

Module EventEmitter.

(** The property names that every object inherits from
    [Object.prototype]. [listeners] starts as [{}], so
    [this.listeners[event]] finds a function or an object, not an array,
    under these names, and [push] or [forEach] on it is a [TypeError]. *)
Definition inherited (event : string) : bool :=
  existsb (String.eqb event)
    [ "constructor"; "hasOwnProperty"; "isPrototypeOf";
      "propertyIsEnumerable"; "toLocaleString"; "toString"; "valueOf";
      "__proto__"; "__defineGetter__"; "__defineSetter__";
      "__lookupGetter__"; "__lookupSetter__" ]%string.

Section WithListener.
(** A listener is a function: [off] compares listeners by identity and
    [emit] calls them for their effect. The model names them by the
    elements of a type with decidable equality, and [emit] returns the
    listeners it called, in order. *)
Context {L : Type} `{EqDecision L}.

(** The own properties of [this.listeners], oldest first. *)
Definition t : Type := list (string * list L).

Definition new : t := [].

Fixpoint own (event : string) (e : t) : option (list L) :=
  match e with
  | [] => None
  | (name, listeners) :: e' =>
      if String.eqb name event then Some listeners else own event e'
  end.

(** [this.listeners[event] = listeners] *)
Fixpoint store (event : string) (listeners : list L) (e : t) : t :=
  match e with
  | [] => [(event, listeners)]
  | (name, old) :: e' =>
      if String.eqb name event then (name, listeners) :: e'
      else (name, old) :: store event listeners e'
  end.

(** [this.listeners[event] ?? []]: the own array, else what the
    prototype gives, else a new empty array. *)
Definition lookup (event : string) (e : t) : Result (list L) :=
  match own event e with
  | Some listeners => Ok listeners
  | None => if inherited event then Throw "TypeError"%string else Ok []
  end.

Definition on (event : string) (listener : L) (e : t) : Result t :=
  match lookup event e with
  | Ok listeners => Ok (store event (listeners ++ [listener]) e)
  | Throw m => Throw m
  end.

(** The callback of [forEach] in [off]: [!listener || listener ===
    aListener] decides whether [splice(index, 1)] removes the element. *)
Definition off_matches (listener : option L) (aListener : L) : bool :=
  match listener with
  | None => true
  | Some l => bool_decide (l = aListener)
  end.

(** [forEach] visits the indexes below the length the array had when the
    loop started ([remaining] counts them down) and skips an index that
    is no longer in the array; [splice] shortens the array under it. *)
Fixpoint off_loop (remaining : nat) (index : nat) (listener : option L)
  (listeners : list L) : list L :=
  match remaining with
  | O => listeners
  | S remaining' =>
      match listeners !! index with
      | Some aListener =>
          off_loop remaining' (S index) listener
            (if off_matches listener aListener then delete index listeners
             else listeners)
      | None => off_loop remaining' (S index) listener listeners
      end
  end.

Definition off (event : string) (listener : option L) (e : t) : Result t :=
  match lookup event e with
  | Ok listeners =>
      Ok (store event (off_loop (length listeners) 0 listener listeners) e)
  | Throw m => Throw m
  end.

(** [emit] calls the listeners of the event in the order of the array and
    changes nothing itself. A listener that registers or removes
    listeners while it runs is not covered. *)
Definition emit (event : string) (e : t) : Result (list L) :=
  lookup event e.

End WithListener.
Arguments t : clear implicits.
End EventEmitter.

(** ** addressable.ts *)

(** What a device access can signal to the rest of the machine: the
    ["nmi"] event emitted on the PPU bus, and the presentation of the
    frame buffer on the canvas. *)
Inductive Event : Type :=
  | EvNmi
  | EvFlush.

Module Addressable.

(** The fields of the base class. [actualSize] is mutable: [ROM.load]
    overwrites it. *)
Record t : Type := mk {
  startAddress : Z;
  endAddress : Z;
  mirrorEndAddress : Z;
  actualSize : Z;
  mirrorSize : Z
}.

Definition new (startAddress endAddress : Z) (mirrorEndAddress : option Z) : t :=
  let mirrorEnd := default endAddress mirrorEndAddress in
  mk startAddress endAddress mirrorEnd
     (endAddress - startAddress + 1)
     (mirrorEnd - startAddress + 1).

Definition set_actualSize (n : Z) (a : t) : t :=
  mk (startAddress a) (endAddress a) (mirrorEndAddress a) n (mirrorSize a).

(** The methods of the base class: a region that is not overridden reads
    as zero and ignores writes. *)
Definition read (address : Z) (a : t) : Z := 0x00.
Definition write (address byte : Z) (a : t) : t := a.

End Addressable.

(** The interface the bus dispatches on: every device extends
    [Addressable] and may override [read] and [write]. A read returns the
    byte and the device after the read; a write returns the device and the
    events it emitted. *)
Class Device (D : Type) : Type := {
  base : D -> Addressable.t;
  dev_read : Z -> D -> Z * D;
  dev_write : Z -> Z -> D -> D * list Event
}.

(** ** ram.ts *)

Module RAM.

Record t : Type := mk {
  hdr : Addressable.t;
  bytes : list Z
}.

Definition new (startAddress endAddress : Z) (mirrorEndAddress : option Z) : t :=
  let h := Addressable.new startAddress endAddress mirrorEndAddress in
  mk h (JS.ta_new (Addressable.actualSize h)).

Definition read (address : Z) (r : t) : Z :=
  let index := JS.rem (address - Addressable.startAddress (hdr r))
                      (Addressable.actualSize (hdr r)) in
  JS.band 0xff (JS.num (JS.ta_get (bytes r) index)).

Definition write (address byte : Z) (r : t) : t :=
  let index := JS.rem (address - Addressable.startAddress (hdr r))
                      (Addressable.actualSize (hdr r)) in
  mk (hdr r) (JS.ta_set (bytes r) index (Some byte)).

End RAM.

(** ** rom.ts *)

Module ROM.

Record t : Type := mk {
  hdr : Addressable.t;
  bytes : list Z
}.

Definition new (startAddress endAddress : Z) (mirrorEndAddress : option Z) : t :=
  let h := Addressable.new startAddress endAddress mirrorEndAddress in
  mk h (JS.ta_new (Addressable.actualSize h)).

Definition setByte (address : Z) (byte : option Z) (r : t) : t :=
  let index := JS.rem (address - Addressable.startAddress (hdr r))
                      (Addressable.actualSize (hdr r)) in
  mk (hdr r) (JS.ta_set (bytes r) index byte).

(** The loop of [load]: [i] runs from [i0] to the end of [bs]; the list
    argument is the part of [bs] still to be copied. *)
Fixpoint load_loop (startAddress : Z) (i : Z) (rest : list Z) (r : t) : t :=
  match rest with
  | [] => r
  | b :: rest' =>
      load_loop startAddress (i + 1) rest' (setByte (startAddress + i) (Some b) r)
  end.

Definition load (startAddress : Z) (bs : list Z) (r : t) : t :=
  let r1 := mk (Addressable.set_actualSize (Z.of_nat (length bs)) (hdr r)) (bytes r) in
  load_loop startAddress 0 bs r1.

Definition read (address : Z) (r : t) : Z :=
  let index := JS.rem (address - Addressable.startAddress (hdr r))
                      (Addressable.actualSize (hdr r)) in
  JS.band 0xff (JS.num (JS.ta_get (bytes r) index)).

(** A write only logs a warning. *)
Definition write (address byte : Z) (r : t) : t := r.

End ROM.

(** The devices of the PPU bus: pattern ROM, name-table RAM and palette
    RAM; [MBase] is a region that keeps the base-class methods (the APU
    and the disabled I/O window of the CPU bus). *)
Inductive MemDevice : Type :=
  | MBase (a : Addressable.t)
  | MRAM (r : RAM.t)
  | MROM (r : ROM.t).

#[export] Instance MemDevice_Device : Device MemDevice := {
  base d :=
    match d with
    | MBase a => a
    | MRAM r => RAM.hdr r
    | MROM r => ROM.hdr r
    end;
  dev_read address d :=
    match d with
    | MBase a => (Addressable.read address a, d)
    | MRAM r => (RAM.read address r, d)
    | MROM r => (ROM.read address r, d)
    end;
  dev_write address byte d :=
    match d with
    | MBase a => (MBase (Addressable.write address byte a), [])
    | MRAM r => (MRAM (RAM.write address byte r), [])
    | MROM r => (MROM (ROM.write address byte r), [])
    end
}.

(** ** bus.ts *)

Module Bus.
Section WithDevice.
Context {D : Type} `{Device D}.

Definition start (d : D) : Z := Addressable.startAddress (base d).

(** [Array.prototype.sort] with the comparator
    [(a, b) => b.startAddress - a.startAddress]: a stable sort, high
    start addresses first. *)
Fixpoint insert_desc (x : D) (l : list D) : list D :=
  match l with
  | [] => [x]
  | y :: l' =>
      if start y <=? start x then x :: y :: l' else y :: insert_desc x l'
  end.

Definition reset (addressables : list D) : list D :=
  foldr insert_desc [] addressables.

(** The constructor stores the list and sorts it. *)
Definition new (addressables : list D) : list D := reset addressables.

(** [read] falls out of the loop without a [return] when no region
    starts at or below the address: the result is [undefined]. *)
Fixpoint read (addressables : list D) (address : Z) : option Z * list D :=
  match addressables with
  | [] => (None, [])
  | d :: rest =>
      if address <? start d then
        let '(v, rest') := read rest address in (v, d :: rest')
      else
        let '(v, d') := dev_read address d in (Some v, d' :: rest)
  end.

Fixpoint write (addressables : list D) (address byte : Z)
  : list D * list Event :=
  match addressables with
  | [] => ([], [])
  | d :: rest =>
      if address <? start d then
        let '(rest', evs) := write rest address byte in (d :: rest', evs)
      else
        let '(d', evs) := dev_write address byte d in (d' :: rest, evs)
  end.

End WithDevice.
End Bus.

(** ** clock.ts *)

Module Clock.
Section WithCallback.
(** The callbacks are closures run for their effect; they are modelled
    by a name, and a step returns the names it ran, in order. *)
Context {C : Type}.

Record TickCallback : Type := mkTick {
  callback : C;
  divider : Z;
  cyclesRemaining : option Z
}.

Record t : Type := mk {
  isRunning : bool;
  yieldInterval : Z;
  yieldDelay : Z;
  tickCallbacks : list TickCallback
}.

Definition new (yieldInterval yieldDelay : Z) : t :=
  mk false yieldInterval yieldDelay [].

(** [offset || 0] is [offset] unless it is zero. *)
Definition addTickCallback (cb : C) (divider : Z) (offset : Z) (c : t) : t :=
  let cyclesRemaining := JS.rem (divider + (if JS.truthy offset then offset else 0)) divider in
  mk (isRunning c) (yieldInterval c) (yieldDelay c)
     (tickCallbacks c ++ [mkTick cb divider cyclesRemaining]).

(** One turn of the loop of [step]: a comparison with [NaN] is false
    and arithmetic on [NaN] stays [NaN]. *)
Definition step_callback (tc : TickCallback) : TickCallback * list C :=
  let fired :=
    match cyclesRemaining tc with
    | Some r => if r <=? 0 then [callback tc] else []
    | None => []
    end in
  let remaining :=
    match cyclesRemaining tc with
    | Some r => JS.rem (divider tc + r - 1) (divider tc)
    | None => None
    end in
  (mkTick (callback tc) (divider tc) remaining, fired).

Fixpoint step_loop (tcs : list TickCallback) : list TickCallback * list C :=
  match tcs with
  | [] => ([], [])
  | tc :: rest =>
      let '(tc', fired) := step_callback tc in
      let '(rest', fired') := step_loop rest in
      (tc' :: rest', fired ++ fired')
  end.

Definition step (c : t) : t * list C :=
  let '(tcs, fired) := step_loop (tickCallbacks c) in
  (mk (isRunning c) (yieldInterval c) (yieldDelay c) tcs, fired).

(** [n] consecutive steps (the batch loop of [tick] runs
    [yieldInterval] of them); the result lists, step by step, the
    callbacks that ran. *)
Fixpoint steps (n : nat) (c : t) : t * list (list C) :=
  match n with
  | O => (c, [])
  | S n' =>
      let '(c1, fired) := step c in
      let '(c2, trace) := steps n' c1 in
      (c2, fired :: trace)
  end.

Definition stop (c : t) : t :=
  mk false (yieldInterval c) (yieldDelay c) (tickCallbacks c).

End WithCallback.
Arguments TickCallback : clear implicits.
Arguments t : clear implicits.
End Clock.

(** ** palette.ts *)

Module Palette.

Definition SYSTEM_PALETTE_NTSC : list Z := [
  0x656565; 0x002b9b; 0x110ec0; 0x3f00bc; 0x66008f; 0x7b0045; 0x790100; 0x601c00;
  0x363800; 0x084f00; 0x005a00; 0x005702; 0x004555; 0x000000; 0x000000; 0x000000;
  0xaeaeae; 0x0761f5; 0x3e3bff; 0x7c1dff; 0xaf0ee5; 0xcb1383; 0xc82a15; 0xa74d00;
  0x6f7200; 0x329100; 0x009f00; 0x009b2a; 0x008498; 0x000000; 0x000000; 0x000000;
  0xffffff; 0x56b1ff; 0x8e8bff; 0xcc6cff; 0xff5dff; 0xff62d4; 0xff7964; 0xf89d06;
  0xc0c300; 0x81e200; 0x4df116; 0x30ec7a; 0x34d5ea; 0x4e4e4e; 0x000000; 0x000000;
  0xffffff; 0xbadfff; 0xd1d0ff; 0xebc3ff; 0xffbdff; 0xffbfff; 0xffc8c0; 0xfcd799;
  0xe5e784; 0xccf387; 0xb6f9a0; 0xaaf8c9; 0xaceef7; 0xb7b7b7; 0x000000; 0x000000
].

Definition PALETTE_SIZE : Z := 4.

Record Color : Type := mkColor { r : Z; g : Z; b : Z }.

(** [new Color(rgb)]; an entry missing from the system palette is
    [undefined] and gives black. *)
Definition Color_new (rgb : option Z) : Color :=
  mkColor (JS.shr (JS.band (JS.num rgb) 0xff0000) 16)
          (JS.shr (JS.band (JS.num rgb) 0x00ff00) 8)
          (JS.band (JS.num rgb) 0x0000ff).

Record t : Type := mk {
  systemPalette : list Z;
  systemPaletteIndexes : list (option Z);
  colors : list Color
}.

Definition new (systemPalette : list Z) (systemPaletteIndexes : list (option Z)) : t :=
  mk systemPalette systemPaletteIndexes
     (map (fun systemPaletteIndex => Color_new (JS.ta_get systemPalette systemPaletteIndex))
          systemPaletteIndexes).

(** [this.colors[index]]: the index is a two-bit value and the PPU
    builds every palette from four entries, so the lookup never
    misses; black stands for the miss. *)
Definition getColor (index : Z) (pal : t) : Color :=
  default (mkColor 0 0 0) (JS.ta_get (colors pal) (Some index)).

End Palette.

(** ** tile.ts (the constants the PPU uses) *)

Module Tile.
Definition TILE_WIDTH : Z := 8.
Definition TILE_HEIGHT : Z := 8.
Definition TILE_BIT_PLANE_BYTES : Z := 8.
Definition TILE_BYTES : Z := 16.
End Tile.

(** ** ppu.ts *)

Module PPU.

Definition CLOCK_OFFSET : Z := 0.

Definition CHR_START_ADDRESS : Z := 0x0000.
Definition CHR_END_ADDRESS : Z := 0x1fff.

Definition NAMETABLE_0_START_ADDRESS : Z := 0x2000.
Definition NAMETABLE_0_END_ADDRESS : Z := 0x23ff.
Definition NAMETABLE_1_START_ADDRESS : Z := 0x2400.
Definition NAMETABLE_2_START_ADDRESS : Z := 0x2800.
Definition NAMETABLE_3_START_ADDRESS : Z := 0x2c00.
Definition NAMETABLE_3_END_ADDRESS : Z := 0x2fff.

Definition NAMETABLE_MIRROR_END_ADDRESS : Z := 0x3eff.
Definition NAMETABLE_ATTRIBUTE_OFFSET : Z := 0x03c0.

Definition PALETTE_START_ADDRESS : Z := 0x3f00.
Definition PALETTE_END_ADDRESS : Z := 0x3f1f.
Definition PALETTE_MIRROR_END_ADDRESS : Z := 0x3fff.

Definition NAMETABLE_WIDTH : Z := 32.

Definition PATTERN_TABLE_0_START_ADDRESS : Z := 0x0000.

(** The table is indexed by [PPUCTRL & 3] only, so one of the four
    entries is always found. *)
Definition NAMETABLE_SELECT_TO_BASE_ADDRESS (select : Z) : Z :=
  if select =? 0 then NAMETABLE_0_START_ADDRESS
  else if select =? 1 then NAMETABLE_1_START_ADDRESS
  else if select =? 2 then NAMETABLE_2_START_ADDRESS
  else NAMETABLE_3_START_ADDRESS.

Definition BACKGROUND_COLOR_ADDRESS : Z := 0x3f00.
Definition BACKGROUND_PALETTE_0_ADDRESS : Z := 0x3f01.

Definition REGISTER_START_ADDRESS : Z := 0x2000.
Definition REGISTER_END_ADDRESS : Z := 0x2007.
Definition REGISTER_MIRROR_END_ADDRESS : Z := 0x3fff.

Definition REGISTER_PPUCTRL : Z := 0x2000.
Definition REGISTER_PPUMASK : Z := 0x2001.
Definition REGISTER_PPUSTATUS : Z := 0x2002.
Definition REGISTER_OAMADDR : Z := 0x2003.
Definition REGISTER_OAMDATA : Z := 0x2004.
Definition REGISTER_PPUSCROLL : Z := 0x2005.
Definition REGISTER_PPUADDR : Z := 0x2006.
Definition REGISTER_PPUDATA : Z := 0x2007.

Definition STATUS_FLAG_BIT_PPUCTRL_NMI_ENABLE : Z := 7.
Definition STATUS_FLAG_BIT_PPUCTRL_INCREMENT_MODE : Z := 2.
Definition STATUS_FLAG_BIT_PPUMASK_BACKGROUND_ENABLE : Z := 3.
Definition STATUS_FLAG_BIT_PPUSTATUS_VBLANK : Z := 7.
Definition STATUS_FLAG_BIT_PPUSTATUS_SPRITE_ZERO_HIT : Z := 6.

Definition REGISTER_MASK_PPUCTRL_NAMETABLE_SELECT : Z := 0x03.

Definition DISPLAY_WIDTH : Z := 256.
Definition DISPLAY_HEIGHT : Z := 240.

Definition NTSC_CYCLES_PER_SCANLINE : Z := 341.
Definition NTSC_SCANLINES : Z := 262.
Definition NTSC_PRE_RENDER_SCANLINE : Z := 261.
Definition NTSC_VBLANK_START_SCANLINE : Z := 241.
Definition NTSC_VBLANK_END_SCANLINE : Z := 262.
Definition NTSC_VBLANK_START_CYCLE : Z := 1.
Definition NTSC_VBLANK_END_CYCLE : Z := 1.
Definition NTSC_VISIBLE_START_SCANLINE : Z := 0.
Definition NTSC_VISIBLE_END_SCANLINE : Z := 239.
Definition NTSC_VISIBLE_START_CYCLE : Z := 1.
Definition NTSC_VISIBLE_END_CYCLE : Z := 256.

(** The fields of the object that [read], [write] and [tick] use. The
    canvas is represented by the [EvFlush] event; [nametableStartAddress]
    and [nametableEndAddress] are never read and are left out. The PPU
    bus is kept inside the PPU: after the cartridge is loaded the PPU is
    the only component that reads or writes through it. *)
Record t : Type := mk {
  hdr : Addressable.t;
  cycle : Z;
  scanline : Z;
  visibleX : Z;
  visibleY : Z;
  imageBytes : list Z;
  bytes : list Z;
  ppuBus : list MemDevice;
  vramAddress : Z;
  vramAddressLatch : option Z;
  lastCycleIsVBlank : bool;
  lastCycleIsVisible : bool
}.

Definition set_cycle (v : Z) (p : t) : t :=
  mk (hdr p) v (scanline p) (visibleX p) (visibleY p) (imageBytes p) (bytes p)
     (ppuBus p) (vramAddress p) (vramAddressLatch p) (lastCycleIsVBlank p)
     (lastCycleIsVisible p).
Definition set_scanline (v : Z) (p : t) : t :=
  mk (hdr p) (cycle p) v (visibleX p) (visibleY p) (imageBytes p) (bytes p)
     (ppuBus p) (vramAddress p) (vramAddressLatch p) (lastCycleIsVBlank p)
     (lastCycleIsVisible p).
Definition set_visible (x y : Z) (p : t) : t :=
  mk (hdr p) (cycle p) (scanline p) x y (imageBytes p) (bytes p)
     (ppuBus p) (vramAddress p) (vramAddressLatch p) (lastCycleIsVBlank p)
     (lastCycleIsVisible p).
Definition set_imageBytes (v : list Z) (p : t) : t :=
  mk (hdr p) (cycle p) (scanline p) (visibleX p) (visibleY p) v (bytes p)
     (ppuBus p) (vramAddress p) (vramAddressLatch p) (lastCycleIsVBlank p)
     (lastCycleIsVisible p).
Definition set_bytes (v : list Z) (p : t) : t :=
  mk (hdr p) (cycle p) (scanline p) (visibleX p) (visibleY p) (imageBytes p) v
     (ppuBus p) (vramAddress p) (vramAddressLatch p) (lastCycleIsVBlank p)
     (lastCycleIsVisible p).
Definition set_ppuBus (v : list MemDevice) (p : t) : t :=
  mk (hdr p) (cycle p) (scanline p) (visibleX p) (visibleY p) (imageBytes p)
     (bytes p) v (vramAddress p) (vramAddressLatch p) (lastCycleIsVBlank p)
     (lastCycleIsVisible p).
Definition set_vramAddress (v : Z) (p : t) : t :=
  mk (hdr p) (cycle p) (scanline p) (visibleX p) (visibleY p) (imageBytes p)
     (bytes p) (ppuBus p) v (vramAddressLatch p) (lastCycleIsVBlank p)
     (lastCycleIsVisible p).
Definition set_vramAddressLatch (v : option Z) (p : t) : t :=
  mk (hdr p) (cycle p) (scanline p) (visibleX p) (visibleY p) (imageBytes p)
     (bytes p) (ppuBus p) (vramAddress p) v (lastCycleIsVBlank p)
     (lastCycleIsVisible p).
Definition set_lastCycle (vblank visible : bool) (p : t) : t :=
  mk (hdr p) (cycle p) (scanline p) (visibleX p) (visibleY p) (imageBytes p)
     (bytes p) (ppuBus p) (vramAddress p) (vramAddressLatch p) vblank visible.

Definition new (ppuBus : list MemDevice) : t :=
  let h := Addressable.new REGISTER_START_ADDRESS REGISTER_END_ADDRESS
                           (Some REGISTER_MIRROR_END_ADDRESS) in
  mk h 0 0 0 0
     (replicate (Z.to_nat (DISPLAY_WIDTH * DISPLAY_HEIGHT * 4)) 0xff)
     (JS.ta_new (Addressable.actualSize h))
     ppuBus NAMETABLE_0_START_ADDRESS None false false.

(** *** Registers *)

Definition getRegister (address : Z) (p : t) : Z :=
  let index := JS.rem (address - Addressable.startAddress (hdr p))
                      (Addressable.actualSize (hdr p)) in
  JS.band 0xff (JS.num (JS.ta_get (bytes p) index)).

Definition setRegister (address : Z) (byte : option Z) (p : t) : t :=
  let index := JS.rem (address - Addressable.startAddress (hdr p))
                      (Addressable.actualSize (hdr p)) in
  set_bytes (JS.ta_set (bytes p) index byte) p.

Definition registerPPUCTRL (p : t) : Z := getRegister REGISTER_PPUCTRL p.
Definition registerPPUMASK (p : t) : Z := getRegister REGISTER_PPUMASK p.
Definition registerPPUSTATUS (p : t) : Z := getRegister REGISTER_PPUSTATUS p.
Definition registerPPUADDR (p : t) : Z := getRegister REGISTER_PPUADDR p.
Definition registerPPUDATA (p : t) : Z := getRegister REGISTER_PPUDATA p.

Definition ppuctrlNMIEnable (p : t) : Z :=
  Util.getBit (registerPPUCTRL p) STATUS_FLAG_BIT_PPUCTRL_NMI_ENABLE.
Definition ppuctrlIncrementMode (p : t) : Z :=
  Util.getBit (registerPPUCTRL p) STATUS_FLAG_BIT_PPUCTRL_INCREMENT_MODE.
Definition ppuctrlNametableSelect (p : t) : Z :=
  JS.band (registerPPUCTRL p) REGISTER_MASK_PPUCTRL_NAMETABLE_SELECT.
Definition ppumaskBackgroundEnable (p : t) : Z :=
  Util.getBit (registerPPUMASK p) STATUS_FLAG_BIT_PPUMASK_BACKGROUND_ENABLE.

Definition ppustatusVBlank (p : t) : Z :=
  Util.getBit (registerPPUSTATUS p) STATUS_FLAG_BIT_PPUSTATUS_VBLANK.
Definition set_ppustatusVBlank (bit : bool) (p : t) : t :=
  setRegister REGISTER_PPUSTATUS
    (Some (Util.setBit (registerPPUSTATUS p) STATUS_FLAG_BIT_PPUSTATUS_VBLANK bit)) p.

Definition ppustatusSpriteZeroHit (p : t) : Z :=
  Util.getBit (registerPPUSTATUS p) STATUS_FLAG_BIT_PPUSTATUS_SPRITE_ZERO_HIT.
Definition set_ppustatusSpriteZeroHit (bit : bool) (p : t) : t :=
  setRegister REGISTER_PPUSTATUS
    (Some (Util.setBit (registerPPUSTATUS p) STATUS_FLAG_BIT_PPUSTATUS_SPRITE_ZERO_HIT bit)) p.

(** *** Internal state *)

(** A read on the PPU bus. Its devices are memories, whose reads change
    nothing (lemma [mem_bus_read_pure] below), so only the value is
    kept. *)
Definition busRead (address : Z) (p : t) : option Z :=
  fst (Bus.read (ppuBus p) address).

Definition backgroundColorIndex (p : t) : option Z :=
  busRead BACKGROUND_COLOR_ADDRESS p.

Definition isVBlank (p : t) : bool :=
  (NTSC_VBLANK_START_SCANLINE <=? scanline p) &&
  (scanline p <=? NTSC_VBLANK_END_SCANLINE).

Definition isVisible (p : t) : bool :=
  (NTSC_VISIBLE_START_SCANLINE <=? scanline p) &&
  (scanline p <=? NTSC_VISIBLE_END_SCANLINE) &&
  (NTSC_VISIBLE_START_CYCLE <=? cycle p) &&
  (cycle p <=? NTSC_VISIBLE_END_CYCLE).

(** [ppuctrlIncrementMode ? 32 : 1] *)
Definition vramIncrement (p : t) : Z :=
  if JS.truthy (ppuctrlIncrementMode p) then 32 else 1.

(** The condition [if (this.vramAddressLatch)]: [null] and 0 are both
    false. *)
Definition latchTruthy (latch : option Z) : bool :=
  match latch with
  | Some v => JS.truthy v
  | None => false
  end.

(** *** The register window seen from the CPU *)

(** [address % REGISTER_START_ADDRESS]: the divisor is a non-zero
    constant, so the remainder is a number. *)
Definition baseAddressOf (address : Z) : Z :=
  Z.rem address REGISTER_START_ADDRESS + REGISTER_START_ADDRESS.

Definition read (address : Z) (p : t) : Z * t :=
  let byte := 0x00 in
  let baseAddress := baseAddressOf address in
  if baseAddress =? REGISTER_PPUSTATUS then
    let byte := JS.band 0xe0 (registerPPUSTATUS p) + JS.band 0x1f (registerPPUDATA p) in
    let p := set_ppustatusVBlank false p in
    let p := set_vramAddressLatch None p in
    (byte, p)
  else if baseAddress =? REGISTER_PPUDATA then
    let byte := registerPPUDATA p in
    let p := setRegister REGISTER_PPUDATA (busRead (vramAddress p) p) p in
    let byte := if PALETTE_START_ADDRESS <=? address then registerPPUDATA p else byte in
    let p := set_vramAddress (vramAddress p + vramIncrement p) p in
    (byte, p)
  else (byte, p).

(** [ppuBus.emit('nmi')] *)
Definition generateNMI : list Event := [EvNmi].

Definition write (address byte : Z) (p : t) : t * list Event :=
  let baseAddress := baseAddressOf address in
  if baseAddress =? REGISTER_PPUCTRL then
    let previousPPUCTRLNametableSelect := ppuctrlNametableSelect p in
    let p := setRegister REGISTER_PPUCTRL (Some byte) p in
    let evs :=
      if JS.truthy (ppuctrlNMIEnable p) && JS.truthy (ppustatusVBlank p)
      then generateNMI else [] in
    let baseNametableAddress := NAMETABLE_SELECT_TO_BASE_ADDRESS (ppuctrlNametableSelect p) in
    let p :=
      if negb (ppuctrlNametableSelect p =? previousPPUCTRLNametableSelect)
      then set_vramAddress baseNametableAddress p else p in
    (p, evs)
  else if baseAddress =? REGISTER_PPUMASK then
    (setRegister REGISTER_PPUMASK (Some byte) p, [])
  else if baseAddress =? REGISTER_PPUADDR then
    let p := setRegister REGISTER_PPUADDR (Some byte) p in
    if latchTruthy (vramAddressLatch p) then
      let p := set_vramAddress (JS.shl (JS.num (vramAddressLatch p)) 8 + byte) p in
      (set_vramAddressLatch None p, [])
    else
      (set_vramAddressLatch (Some byte) p, [])
  else if baseAddress =? REGISTER_PPUDATA then
    let p := setRegister REGISTER_PPUDATA (Some byte) p in
    let p := set_ppuBus (fst (Bus.write (ppuBus p) (vramAddress p) byte)) p in
    let p := set_vramAddress (vramAddress p + vramIncrement p) p in
    (p, [])
  else (p, []).

(** *** Rendering *)

Definition getPalette (nametableY nametableX basePaletteAddress : Z) (p : t)
  : Palette.t :=
  let nametableStartAddress := NAMETABLE_SELECT_TO_BASE_ADDRESS (ppuctrlNametableSelect p) in
  let attributeTableY := JS.shr nametableY 2 in
  let attributeTableX := JS.shr nametableX 2 in
  let attributeTableEntryIndex := JS.shl attributeTableY 3 + attributeTableX in
  let attributeTableEntryAddress :=
    nametableStartAddress + NAMETABLE_ATTRIBUTE_OFFSET + attributeTableEntryIndex in
  let attributeTableEntry := JS.num (busRead attributeTableEntryAddress p) in
  let isTopQuadrant := Z.rem nametableY 2 =? 0 in
  let isLeftQuadrant := Z.rem nametableX 2 =? 0 in
  let '(paletteIndexLo, paletteIndexHi) :=
    if isTopQuadrant then
      if isLeftQuadrant
      then (Util.getBit attributeTableEntry 0, Util.getBit attributeTableEntry 1)
      else (Util.getBit attributeTableEntry 2, Util.getBit attributeTableEntry 3)
    else
      if isLeftQuadrant
      then (Util.getBit attributeTableEntry 4, Util.getBit attributeTableEntry 5)
      else (Util.getBit attributeTableEntry 6, Util.getBit attributeTableEntry 7) in
  let paletteIndex := JS.bor (JS.shl paletteIndexHi 1) paletteIndexLo in
  let paletteAddress := basePaletteAddress + JS.shl paletteIndex 2 in
  Palette.new Palette.SYSTEM_PALETTE_NTSC
    [ backgroundColorIndex p;
      busRead paletteAddress p;
      busRead (paletteAddress + 1) p;
      busRead (paletteAddress + 2) p ].

Definition drawBackground (p : t) : t :=
  let nametableY := JS.shr (visibleY p) 3 in
  let nametableX := JS.shr (visibleX p) 3 in
  let nametableEntryIndex := nametableY * NAMETABLE_WIDTH + nametableX in
  let nametableStartAddress := NAMETABLE_SELECT_TO_BASE_ADDRESS (ppuctrlNametableSelect p) in
  let nametableEntryAddress := nametableStartAddress + nametableEntryIndex in
  let nametableEntry := JS.num (busRead nametableEntryAddress p) in
  let tileOffset := JS.shl nametableEntry 4 in
  let tileAddress := PATTERN_TABLE_0_START_ADDRESS + tileOffset in
  let palette := getPalette nametableY nametableX BACKGROUND_PALETTE_0_ADDRESS p in
  let tileY := Z.rem (visibleY p) Tile.TILE_HEIGHT in
  let tileX := Z.rem (visibleX p) Tile.TILE_WIDTH in
  let tileLo := JS.num (busRead (tileAddress + tileY) p) in
  let tileHi := JS.num (busRead (tileAddress + tileY + Tile.TILE_BIT_PLANE_BYTES) p) in
  let tilePixel :=
    JS.bor (JS.shl (Util.getBit tileHi (7 - tileX)) 1) (Util.getBit tileLo (7 - tileX)) in
  let color := Palette.getColor tilePixel palette in
  let imageDataRowOffset := JS.shl (visibleY p) 8 in
  let imageDataColumnOffset := visibleX p in
  let imageDataIndex := (imageDataRowOffset + imageDataColumnOffset) * 4 in
  let img := JS.ta_set_clamped (imageBytes p) imageDataIndex (Palette.r color) in
  let img := JS.ta_set_clamped img (imageDataIndex + 1) (Palette.g color) in
  let img := JS.ta_set_clamped img (imageDataIndex + 2) (Palette.b color) in
  set_imageBytes img p.

(** [ctx.putImageData(this.imageData, 0, 0)] *)
Definition flush : list Event := [EvFlush].

Definition reset (p : t) : t :=
  set_visible 0 0 (set_scanline 0 (set_cycle 0 p)).

Definition execute (p : t) : t * list Event :=
  let p :=
    if isVisible p then
      let p := set_visible (cycle p - NTSC_VISIBLE_START_CYCLE) (scanline p) p in
      if JS.truthy (ppumaskBackgroundEnable p) then drawBackground p else p
    else p in
  let p :=
    if (scanline p =? NTSC_PRE_RENDER_SCANLINE) && (cycle p =? 0)
    then set_ppustatusSpriteZeroHit false p else p in
  let p :=
    if (scanline p =? NTSC_VISIBLE_START_SCANLINE) && (cycle p =? NTSC_VISIBLE_START_CYCLE)
    then set_ppustatusSpriteZeroHit true p else p in
  let '(p, evs) :=
    if (scanline p =? NTSC_VBLANK_START_SCANLINE) && (cycle p =? NTSC_VBLANK_START_CYCLE)
    then
      let p := set_ppustatusVBlank true p in
      let evs := if JS.truthy (ppuctrlNMIEnable p) then generateNMI else [] in
      (p, evs ++ flush)
    else (p, []) in
  let p :=
    if (scanline p =? NTSC_VBLANK_END_SCANLINE) && (cycle p =? NTSC_VBLANK_END_CYCLE)
    then set_ppustatusVBlank false p else p in
  (p, evs).

Definition tick (p : t) : t * list Event :=
  let '(p, evs) := execute p in
  let p := set_lastCycle (isVBlank p) (isVisible p) p in
  let p := set_cycle (cycle p + 1) p in
  let p :=
    if NTSC_CYCLES_PER_SCANLINE <=? cycle p then
      let p := set_cycle 0 p in
      let p := set_scanline (scanline p + 1) p in
      if NTSC_SCANLINES <=? scanline p then set_scanline 0 p else p
    else p in
  (p, evs).

(** [n] ticks in a row, with the events they emit. *)
Fixpoint ticks (n : nat) (p : t) : t * list Event :=
  match n with
  | O => (p, [])
  | S n' =>
      let '(p1, evs1) := tick p in
      let '(p2, evs2) := ticks n' p1 in
      (p2, evs1 ++ evs2)
  end.

End PPU.

(** ** cartridge.ts *)

Module Cartridge.

Inductive INESHeaderMirroring : Type := vertical | horizontal | four.
Inductive INESHeaderTVSystem : Type := ntsc | pal | dual.

Record INESHeader : Type := mkHeader {
  prgSize : option Z;
  chrSize : option Z;
  battery : bool;
  trainer : bool;
  vsUnisystem : bool;
  pc10 : bool;
  ines2 : bool;
  prgRamSize : Z;
  prgRam : bool;
  busConflicts : bool;
  mapper : Z;
  mirror : INESHeaderMirroring;
  tvSystem : INESHeaderTVSystem
}.

Definition PRG_START_ADDRESS : Z := 0x8000.
Definition PRG_END_ADDRESS : Z := 0xffff.

(** [stringToBytes('NES\u001a')]: the UTF-8 encoding of four ASCII
    characters. *)
Definition HEADER_INES_DECLARATION : list Z := [0x4e; 0x45; 0x53; 0x1a].

Definition HEADER_PRG_ROM_UNITS : Z := 16 * 1024.
Definition HEADER_CHR_ROM_UNITS : Z := 8 * 1024.

Definition HEADER_FLAGS_6_MASK_MIRROR_VERTICAL : Z := 0x01.
Definition HEADER_FLAGS_6_MASK_BATTERY : Z := 0x02.
Definition HEADER_FLAGS_6_MASK_TRAINER : Z := 0x04.
Definition HEADER_FLAGS_6_MASK_MIRROR_FOUR_SCREEN : Z := 0x08.
Definition HEADER_FLAGS_6_MASK_MAPPER_LO : Z := 0xf0.

Definition HEADER_FLAGS_7_MASK_VS_UNISYSTEM : Z := 0x01.
Definition HEADER_FLAGS_7_MASK_PC_10 : Z := 0x02.
Definition HEADER_FLAGS_7_MASK_INES2 : Z := 0x0c.
Definition HEADER_FLAGS_7_MASK_MAPPER_HI : Z := 0xf0.

Definition HEADER_FLAGS_8_MASK_PRG_RAM_SIZE : Z := 0xff.

Definition HEADER_FLAGS_9_MASK_TV_SYSTEM_PAL : Z := 0x01.

Definition HEADER_FLAGS_10_MASK_TV_SYSTEM_PAL : Z := 0x02.
Definition HEADER_FLAGS_10_MASK_TV_SYSTEM_DUAL : Z := 0x01.
Definition HEADER_FLAGS_10_MASK_PRG_RAM : Z := 0x10.
Definition HEADER_FLAGS_10_MASK_BUS_CONFLICTS : Z := 0x20.

(** [bytes[i] & mask]: a byte missing from a short buffer is
    [undefined] and masks to 0. *)
Definition masked (bytes : list Z) (i : nat) (mask : Z) : Z :=
  JS.band (JS.num (bytes !! i)) mask.

(** [bytes[i] * units]: [NaN] when the byte is missing. *)
Definition scaled (bytes : list Z) (i : nat) (units : Z) : option Z :=
  match bytes !! i with
  | Some b => Some (b * units)
  | None => None
  end.

Definition parseHeader (buffer : list Z) : Result INESHeader :=
  let bytes := buffer in
  if negb (Util.compareBytes (take 4 bytes) HEADER_INES_DECLARATION) then
    Throw "Invalid iNES header"%string
  else
    let prgSize := scaled bytes 4 HEADER_PRG_ROM_UNITS in
    let chrSize := scaled bytes 5 HEADER_CHR_ROM_UNITS in
    let mirrorVertical := JS.truthy (masked bytes 6 HEADER_FLAGS_6_MASK_MIRROR_VERTICAL) in
    let battery := JS.truthy (masked bytes 6 HEADER_FLAGS_6_MASK_BATTERY) in
    let trainer := JS.truthy (masked bytes 6 HEADER_FLAGS_6_MASK_TRAINER) in
    let mirrorFourScreen := JS.truthy (masked bytes 6 HEADER_FLAGS_6_MASK_MIRROR_FOUR_SCREEN) in
    let mapperLo := JS.shl (masked bytes 6 HEADER_FLAGS_6_MASK_MAPPER_LO) 0 in
    let vsUnisystem := JS.truthy (masked bytes 7 HEADER_FLAGS_7_MASK_VS_UNISYSTEM) in
    let pc10 := JS.truthy (masked bytes 7 HEADER_FLAGS_7_MASK_PC_10) in
    let ines2 := JS.truthy (masked bytes 7 HEADER_FLAGS_7_MASK_INES2) in
    let mapperHi := JS.shl (masked bytes 7 HEADER_FLAGS_7_MASK_MAPPER_HI) 4 in
    let prgRamSize := JS.shl (masked bytes 8 HEADER_FLAGS_8_MASK_PRG_RAM_SIZE) 0 in
    let tvSystemPal := JS.truthy (masked bytes 9 HEADER_FLAGS_9_MASK_TV_SYSTEM_PAL) in
    let tvSystemDual := JS.truthy (masked bytes 10 HEADER_FLAGS_10_MASK_TV_SYSTEM_DUAL) in
    let prgRam := JS.truthy (masked bytes 10 HEADER_FLAGS_10_MASK_PRG_RAM) in
    let busConflicts := JS.truthy (masked bytes 10 HEADER_FLAGS_10_MASK_BUS_CONFLICTS) in
    let mapper := JS.bor mapperLo mapperHi in
    let mirror := if mirrorFourScreen then four
                  else if mirrorVertical then vertical else horizontal in
    let tvSystem := if tvSystemDual then dual
                    else if tvSystemPal then pal else ntsc in
    Ok (mkHeader prgSize chrSize battery trainer vsUnisystem pc10 ines2
                 prgRamSize prgRam busConflicts mapper mirror tvSystem).

(** [buffer.slice(start, end)] for byte offsets that are not negative;
    an offset that is [NaN] counts as 0 and both are cut to the length
    of the buffer. *)
Definition slice (buffer : list Z) (first last : option Z) : list Z :=
  let n := Z.of_nat (length buffer) in
  let first' := Z.min (Z.max 0 (JS.num first)) n in
  let last' := Z.min (Z.max 0 (JS.num last)) n in
  take (Z.to_nat (last' - first')) (drop (Z.to_nat first') buffer).

Definition add_nan (a b : option Z) : option Z :=
  match a, b with
  | Some x, Some y => Some (x + y)
  | _, _ => None
  end.

(** The body of the [fetch] continuation of [load], from the file
    contents to the two ROM regions. The two buses are re-sorted
    afterwards; the start addresses do not change, so the order does
    not either. *)
Definition load (buffer : list Z) (chr prg : ROM.t)
  : Result (INESHeader * ROM.t * ROM.t) :=
  match parseHeader (take 16 buffer) with
  | Throw m => Throw m
  | Ok header =>
      let prgStartByte := Some (16 + (if trainer header then 512 else 0)) in
      let prgEndByte := add_nan prgStartByte (prgSize header) in
      let prgBytes := slice buffer prgStartByte prgEndByte in
      let chrStartByte := prgEndByte in
      let chrEndByte := add_nan prgEndByte (chrSize header) in
      let chrBytes := slice buffer chrStartByte chrEndByte in
      let prg' := ROM.load PRG_START_ADDRESS prgBytes prg in
      let chr' := ROM.load PPU.CHR_START_ADDRESS chrBytes chr in
      Ok (header, chr', prg')
  end.

End Cartridge.

(** ** controller.ts *)

Module Controller.

Record t : Type := mk {
  hdr : Addressable.t;
  currentIndex : Z;
  statusRight : bool;
  statusLeft : bool;
  statusDown : bool;
  statusUp : bool;
  statusStart : bool;
  statusSelect : bool;
  statusB : bool;
  statusA : bool
}.

Definition new (startAddress endAddress : Z) : t :=
  mk (Addressable.new startAddress endAddress None) 0
     false false false false false false false false.

Definition read (address : Z) (c : t) : Z * t :=
  let result := 0x00 in
  let bit (status : bool) := JS.bor result (if status then 0x01 else 0x00) in
  let result :=
    if currentIndex c =? 7 then bit (statusRight c)
    else if currentIndex c =? 6 then bit (statusLeft c)
    else if currentIndex c =? 5 then bit (statusDown c)
    else if currentIndex c =? 4 then bit (statusUp c)
    else if currentIndex c =? 3 then bit (statusStart c)
    else if currentIndex c =? 2 then bit (statusSelect c)
    else if currentIndex c =? 1 then bit (statusB c)
    else if currentIndex c =? 0 then bit (statusA c)
    else result in
  (result,
   mk (hdr c) (Z.rem (currentIndex c + 1) 8)
      (statusRight c) (statusLeft c) (statusDown c) (statusUp c)
      (statusStart c) (statusSelect c) (statusB c) (statusA c)).

End Controller.

(** The devices of the CPU bus. *)
Inductive CpuDevice : Type :=
  | CMem (m : MemDevice)
  | CPPU (p : PPU.t)
  | CController (c : Controller.t).

#[export] Instance CpuDevice_Device : Device CpuDevice := {
  base d :=
    match d with
    | CMem m => base m
    | CPPU p => PPU.hdr p
    | CController c => Controller.hdr c
    end;
  dev_read address d :=
    match d with
    | CMem m => let '(v, m') := dev_read address m in (v, CMem m')
    | CPPU p => let '(v, p') := PPU.read address p in (v, CPPU p')
    | CController c => let '(v, c') := Controller.read address c in (v, CController c')
    end;
  dev_write address byte d :=
    match d with
    | CMem m => let '(m', evs) := dev_write address byte m in (CMem m', evs)
    | CPPU p => let '(p', evs) := PPU.write address byte p in (CPPU p', evs)
    | CController c => (CController c, [])
    end
}.

(** ** cpu.ts *)

Module CPU.

Definition NMI_VECTOR : Z := 0xfffa.
Definition RESET_VECTOR : Z := 0xfffc.
Definition IRQ_VECTOR : Z := 0xfffe.

Definition STACK_PAGE : Z := 0x01.

Definition STATUS_FLAG_BIT_NEGATIVE : Z := 7.
Definition STATUS_FLAG_BIT_OVERFLOW : Z := 6.
Definition STATUS_FLAG_BIT_UNUSED : Z := 5.
Definition STATUS_FLAG_BIT_BREAK : Z := 4.
Definition STATUS_FLAG_BIT_DECIMAL : Z := 3.
Definition STATUS_FLAG_BIT_INTERRUPT_DISABLE : Z := 2.
Definition STATUS_FLAG_BIT_ZERO : Z := 1.
Definition STATUS_FLAG_BIT_CARRY : Z := 0.

(** The registers and counters of the CPU together with the bus it
    drives. The counters of [opcodeCounts] belong to the debug log and
    are left out. *)
Record t : Type := mk {
  cpuBus : list CpuDevice;
  cyclesRemaining : Z;
  additionalCycles : Z;
  pendingIRQ : bool;
  pendingNMI : bool;
  a : Z;
  x : Z;
  y : Z;
  p : Z;
  sp : Z;
  pc : Z
}.

Definition set_cpuBus (v : list CpuDevice) (c : t) : t :=
  mk v (cyclesRemaining c) (additionalCycles c) (pendingIRQ c) (pendingNMI c)
     (a c) (x c) (y c) (p c) (sp c) (pc c).
Definition set_cyclesRemaining (v : Z) (c : t) : t :=
  mk (cpuBus c) v (additionalCycles c) (pendingIRQ c) (pendingNMI c)
     (a c) (x c) (y c) (p c) (sp c) (pc c).
Definition set_pendingNMI (v : bool) (c : t) : t :=
  mk (cpuBus c) (cyclesRemaining c) (additionalCycles c) (pendingIRQ c) v
     (a c) (x c) (y c) (p c) (sp c) (pc c).
Definition set_pendingIRQ (v : bool) (c : t) : t :=
  mk (cpuBus c) (cyclesRemaining c) (additionalCycles c) v (pendingNMI c)
     (a c) (x c) (y c) (p c) (sp c) (pc c).
Definition set_a (v : Z) (c : t) : t :=
  mk (cpuBus c) (cyclesRemaining c) (additionalCycles c) (pendingIRQ c) (pendingNMI c)
     v (x c) (y c) (p c) (sp c) (pc c).
Definition set_x (v : Z) (c : t) : t :=
  mk (cpuBus c) (cyclesRemaining c) (additionalCycles c) (pendingIRQ c) (pendingNMI c)
     (a c) v (y c) (p c) (sp c) (pc c).
Definition set_y (v : Z) (c : t) : t :=
  mk (cpuBus c) (cyclesRemaining c) (additionalCycles c) (pendingIRQ c) (pendingNMI c)
     (a c) (x c) v (p c) (sp c) (pc c).
Definition set_p (v : Z) (c : t) : t :=
  mk (cpuBus c) (cyclesRemaining c) (additionalCycles c) (pendingIRQ c) (pendingNMI c)
     (a c) (x c) (y c) v (sp c) (pc c).
Definition set_sp (v : Z) (c : t) : t :=
  mk (cpuBus c) (cyclesRemaining c) (additionalCycles c) (pendingIRQ c) (pendingNMI c)
     (a c) (x c) (y c) (p c) v (pc c).
Definition set__pc (v : Z) (c : t) : t :=
  mk (cpuBus c) (cyclesRemaining c) (additionalCycles c) (pendingIRQ c) (pendingNMI c)
     (a c) (x c) (y c) (p c) (sp c) v.

(** The state of a freshly built CPU on a given bus. *)
Definition new (cpuBus : list CpuDevice) : t :=
  mk cpuBus 0 0 false false 0x00 0x00 0x00 0x34 0xfd 0x00.

(** *** Methods as state transformers that may throw *)

Definition M (A : Type) : Type := t -> Result (A * t).

Definition ret {A : Type} (v : A) : M A := fun c => Ok (v, c).

Definition bind {A B : Type} (m : M A) (k : A -> M B) : M B :=
  fun c =>
    match m c with
    | Ok (v, c') => k v c'
    | Throw msg => Throw msg
    end.

Definition get {A : Type} (f : t -> A) : M A := fun c => Ok (f c, c).
Definition modify (f : t -> t) : M unit := fun c => Ok (tt, f c).
Definition lift {A : Type} (r : Result A) : M A :=
  fun c => match r with Ok v => Ok (v, c) | Throw msg => Throw msg end.

Declare Scope cpu_scope.
Delimit Scope cpu_scope with cpu.
Notation "'let*' v := m 'in' k" := (bind m (fun v => k))
  (at level 10, v name, m at level 100, k at level 200) : cpu_scope.
Notation "'run' m 'in' k" := (bind m (fun _ => k))
  (at level 10, m at level 100, k at level 200) : cpu_scope.
Local Open Scope cpu_scope.

Definition generateIRQ (c : t) : t := set_pendingIRQ true c.
Definition generateNMI (c : t) : t := set_pendingNMI true c.

Definition is_nmi (e : Event) : bool :=
  match e with EvNmi => true | EvFlush => false end.

(** [this.cpuBus.read(address)] *)
Definition busRead (address : Z) : M (option Z) :=
  fun c =>
    let '(v, bus) := Bus.read (cpuBus c) address in
    Ok (v, set_cpuBus bus c).

(** [this.cpuBus.write(address, byte)]. The constructor subscribes
    [generateNMI] to the ["nmi"] event of the PPU bus, and the listener
    runs inside the write that emits the event. *)
Definition busWrite (address byte : Z) : M unit :=
  fun c =>
    let '(bus, evs) := Bus.write (cpuBus c) address byte in
    let c := set_cpuBus bus c in
    Ok (tt, if existsb is_nmi evs then generateNMI c else c).

(** [debug]: three bus reads whose values are formatted for the log. *)
Definition debug : M unit :=
  let* pc0 := get pc in
  let* opcodeByte := busRead pc0 in
  run lift (Util.formatHex opcodeByte) in
  let* pc1 := get pc in
  let* operandLo := busRead (pc1 + 1) in
  run lift (Util.formatHex operandLo) in
  let* pc2 := get pc in
  let* operandHi := busRead (pc2 + 2) in
  lift (Util.formatHex operandHi).

(** The setter of [pc]: it reads the byte at the old program counter,
    logs the state and only then stores the new value. *)
Definition set_pc (value : Z) : M unit :=
  let* pc0 := get pc in
  let* pcValue := busRead pc0 in
  run debug in
  modify (set__pc value).

Definition getStatusFlag (index : Z) (c : t) : Z := Util.getBit (p c) index.
Definition setStatusFlag (index : Z) (bit : bool) (c : t) : t :=
  set_p (Util.setBit (p c) index bit) c.

Definition statusNegative (c : t) : Z := getStatusFlag STATUS_FLAG_BIT_NEGATIVE c.
Definition statusOverflow (c : t) : Z := getStatusFlag STATUS_FLAG_BIT_OVERFLOW c.
Definition statusBreak (c : t) : Z := getStatusFlag STATUS_FLAG_BIT_BREAK c.
Definition statusInterruptDisable (c : t) : Z :=
  getStatusFlag STATUS_FLAG_BIT_INTERRUPT_DISABLE c.
Definition statusZero (c : t) : Z := getStatusFlag STATUS_FLAG_BIT_ZERO c.
Definition statusCarry (c : t) : Z := getStatusFlag STATUS_FLAG_BIT_CARRY c.

Definition updateStatusNegative (value : Z) (c : t) : t :=
  setStatusFlag STATUS_FLAG_BIT_NEGATIVE (JS.truthy (JS.band value (JS.shl 1 7))) c.

Definition updateStatusZero (value : Z) (c : t) : t :=
  setStatusFlag STATUS_FLAG_BIT_ZERO (value =? 0x00) c.

Definition reset : M unit :=
  run modify (set_a 0x00) in
  run modify (set_x 0x00) in
  run modify (set_y 0x00) in
  run modify (set_p 0x34) in
  run modify (set_sp 0xfd) in
  let* addressLo := busRead RESET_VECTOR in
  let* addressHi' := busRead (RESET_VECTOR + 1) in
  let addressHi := JS.shl (JS.num addressHi') 8 in
  let address := JS.bor addressHi (JS.num addressLo) in
  set_pc address.

Definition pushStack (byte : Z) : M unit :=
  let* addressLo := get sp in
  let addressHi := JS.shl STACK_PAGE 8 in
  let address := JS.bor addressHi addressLo in
  run busWrite address byte in
  modify (fun c => set_sp (JS.band 0xff (sp c - 1)) c).

Definition pullStack : M (option Z) :=
  run modify (fun c => set_sp (JS.band 0xff (sp c + 1)) c) in
  let* addressLo := get sp in
  let addressHi := JS.shl STACK_PAGE 8 in
  let address := JS.bor addressHi addressLo in
  busRead address.

Definition getAddressImm (c : t) : Z := JS.band 0xffff (pc c + 1).

(** *** Internal instructions not mapped to opcodes *)

Definition interrupt (vector : Z) : M unit :=
  let* pc0 := get pc in
  let returnAddressHi := JS.shr (JS.band pc0 0xff00) 8 in
  let returnAddressLo := JS.band pc0 0x00ff in
  run pushStack returnAddressHi in
  run pushStack returnAddressLo in
  run modify (setStatusFlag STATUS_FLAG_BIT_INTERRUPT_DISABLE true) in
  let* p0 := get p in
  run pushStack p0 in
  let* addressLo := busRead vector in
  let* addressHi' := busRead (vector + 1) in
  let addressHi := JS.shl (JS.num addressHi') 8 in
  let address := JS.bor addressHi (JS.num addressLo) in
  run set_pc address in
  modify (set_cyclesRemaining 7).

Definition irq : M unit := interrupt IRQ_VECTOR.
Definition nmi : M unit := interrupt NMI_VECTOR.

(** *** Instructions mapped to opcodes *)

(** [oldA + memory + this.statusCarry]: [NaN] when the operand read was
    [undefined]. *)
Definition add3 (oldA : Z) (memory : option Z) (carry : Z) : option Z :=
  match memory with
  | Some m => Some (oldA + m + carry)
  | None => None
  end.

(** [intermediateA > 0xff]: false for [NaN]. *)
Definition gt_ff (v : option Z) : bool :=
  match v with
  | Some i => 0xff <? i
  | None => false
  end.

Definition adc_imm : M unit :=
  let* address := get getAddressImm in
  let* memory := busRead address in
  let* oldA := get a in
  let* carry := get statusCarry in
  let intermediateA := add3 oldA memory carry in
  let newA := JS.band 0xff (JS.num intermediateA) in
  run modify (set_a newA) in
  run modify (setStatusFlag STATUS_FLAG_BIT_CARRY (gt_ff intermediateA)) in
  run modify (setStatusFlag STATUS_FLAG_BIT_OVERFLOW
    (JS.truthy (JS.band (JS.band (JS.bnot (JS.bxor oldA (JS.num memory)))
                                 (JS.bxor oldA (JS.num intermediateA)))
                        (JS.shl 1 7)))) in
  run modify (updateStatusNegative newA) in
  run modify (updateStatusZero newA) in
  let* pc0 := get pc in
  run set_pc (JS.band 0xffff (pc0 + 2)) in
  modify (set_cyclesRemaining 2).

(** [this.p = newP] may store [undefined]; the flag update that follows
    reads [p] through a bit operator, for which [undefined] is 0. *)
Definition rti : M unit :=
  let* newP := pullStack in
  let* returnAddressLo := pullStack in
  let* returnAddressHi' := pullStack in
  let returnAddressHi := JS.shl (JS.num returnAddressHi') 8 in
  let returnAddress := JS.bor (JS.num returnAddressLo) returnAddressHi in
  run modify (set_p (JS.num newP)) in
  run modify (setStatusFlag STATUS_FLAG_BIT_INTERRUPT_DISABLE false) in
  run set_pc returnAddress in
  modify (set_cyclesRemaining 6).

(** *** Accesses at an address that may be [undefined] *)

Definition set_additionalCycles (v : Z) (c : t) : t :=
  mk (cpuBus c) (cyclesRemaining c) v (pendingIRQ c) (pendingNMI c)
     (a c) (x c) (y c) (p c) (sp c) (pc c).

Definition throw {A : Type} (message : string) : M A := fun _ => Throw message.

(** [value + n] where [value] may be [undefined]: the sum is then [NaN]. *)
Definition add_to (value : option Z) (n : Z) : option Z :=
  match value with
  | Some v => Some (v + n)
  | None => None
  end.

(** A read of a region at the address [undefined]. The index that a RAM
    or a ROM computes is [NaN], the element read is [undefined] and
    [0xff & undefined] is 0; the [switch] of the PPU matches no case; the
    base class returns 0; the controller does not look at the address. *)
Definition dev_read_undefined (d : CpuDevice) : Z * CpuDevice :=
  match d with
  | CMem _ => (0x00, d)
  | CPPU _ => (0x00, d)
  | CController c =>
      let '(v, c') := Controller.read 0 c in (v, CController c')
  end.

(** [this.cpuBus.read(address)] where the address comes from a read that
    may have found no region. The test [address < startAddress] of the
    bus is false for [undefined], so the first region of the list
    answers. *)
Definition busReadAt (address : option Z) : M (option Z) :=
  match address with
  | Some address => busRead address
  | None =>
      fun c =>
        match cpuBus c with
        | [] => Ok (None, c)
        | d :: rest =>
            let '(v, d') := dev_read_undefined d in
            Ok (Some v, set_cpuBus (d' :: rest) c)
        end
  end.

(** [this.cpuBus.write(address, byte)] likewise. The first region gets
    the write at [undefined]: a typed array ignores an assignment at the
    index [NaN], the [switch] of the PPU matches no case, and the other
    regions ignore every write. *)
Definition busWriteAt (address : option Z) (byte : Z) : M unit :=
  match address with
  | Some address => busWrite address byte
  | None => ret tt
  end.

(** *** Addressing modes *)

Definition getAddressAbs : M Z :=
  let* pc0 := get pc in
  let* addressLo := busRead (pc0 + 1) in
  let* pc1 := get pc in
  let* addressHi' := busRead (pc1 + 2) in
  let addressHi := JS.shl (JS.num addressHi') 8 in
  ret (JS.bor addressHi (JS.num addressLo)).

Definition getAddressAbsX : M Z :=
  let* pc0 := get pc in
  let* baseAddressLo := busRead (pc0 + 1) in
  let* pc1 := get pc in
  let* baseAddressHi' := busRead (pc1 + 2) in
  let baseAddressHi := JS.shl (JS.num baseAddressHi') 8 in
  let baseAddress := JS.bor baseAddressHi (JS.num baseAddressLo) in
  let* x0 := get x in
  let address := JS.band 0xffff (baseAddress + x0) in
  run (if negb (JS.band baseAddress 0xff =? JS.band address 0xff)
       then modify (set_additionalCycles 1) else ret tt) in
  ret address.

Definition getAddressAbsY : M Z :=
  let* pc0 := get pc in
  let* baseAddressLo := busRead (pc0 + 1) in
  let* pc1 := get pc in
  let* baseAddressHi' := busRead (pc1 + 2) in
  let baseAddressHi := JS.shl (JS.num baseAddressHi') 8 in
  let baseAddress := JS.bor baseAddressHi (JS.num baseAddressLo) in
  let* y0 := get y in
  let address := JS.band 0xffff (baseAddress + y0) in
  run (if negb (JS.band baseAddress 0xff =? JS.band address 0xff)
       then modify (set_additionalCycles 1) else ret tt) in
  ret address.

(** [absLo === 0xff] is false when the read found no region. *)
Definition getAddressInd : M Z :=
  let* pc0 := get pc in
  let* absLo := busRead (pc0 + 1) in
  let* pc1 := get pc in
  let* absHi' := busRead (pc1 + 2) in
  let absHi := JS.shl (JS.num absHi') 8 in
  let abs := JS.bor absHi (JS.num absLo) in
  if match absLo with Some lo => lo =? 0xff | None => false end then
    let* addressLo := busRead abs in
    let* addressHi' := busRead (JS.band abs 0xff00) in
    let addressHi := JS.shl (JS.num addressHi') 8 in
    ret (JS.bor addressHi (JS.num addressLo))
  else
    let* addressLo := busRead abs in
    let* addressHi' := busRead (abs + 1) in
    let addressHi := JS.shl (JS.num addressHi') 8 in
    ret (JS.bor addressHi (JS.num addressLo)).

(** The byte after the opcode as it is read, [undefined] included. *)
Definition getAddressZpg : M (option Z) :=
  let* pc0 := get pc in
  busRead (pc0 + 1).

Definition getAddressXInd : M Z :=
  let* indirectAddress := getAddressZpg in
  let* x0 := get x in
  let* addressLo := busRead (JS.band 0xff (JS.num (add_to indirectAddress x0))) in
  let* x1 := get x in
  let* addressHi' :=
    busRead (JS.band 0xff (JS.num (add_to (add_to indirectAddress x1) 1))) in
  let addressHi := JS.shl (JS.num addressHi') 8 in
  let address := JS.bor addressHi (JS.num addressLo) in
  ret address.

Definition getAddressIndY : M Z :=
  let* indirectAddress := getAddressZpg in
  let* baseAddressLo := busReadAt indirectAddress in
  let* baseAddressHi' :=
    busRead (JS.band (JS.num (add_to indirectAddress 1)) 0xff) in
  let baseAddressHi := JS.shl (JS.num baseAddressHi') 8 in
  let baseAddress := JS.bor baseAddressHi (JS.num baseAddressLo) in
  let* y0 := get y in
  let address := JS.band 0xffff (baseAddress + y0) in
  run (if negb (JS.band baseAddress 0xff =? JS.band address 0xff)
       then modify (set_additionalCycles 1) else ret tt) in
  ret address.

(** [unsignedByteToSignedByte(undefined)] is [undefined]: the comparison
    [byte > 127] is false and the byte is returned as it is. *)
Definition getAddressRel : M Z :=
  let* pc0 := get pc in
  let* offset := busRead (pc0 + 1) in
  let* pc1 := get pc in
  ret (JS.band 0xffff
         (JS.num (add_to (add_to (option_map Util.unsignedByteToSignedByte offset) pc1) 2))).

Definition getAddressZpgX : M Z :=
  let* address := getAddressZpg in
  let* x0 := get x in
  ret (JS.band 0xff (JS.num (add_to address x0))).

Definition getAddressZpgY : M Z :=
  let* address := getAddressZpg in
  let* y0 := get y in
  ret (JS.band 0xff (JS.num (add_to address y0))).

Definition invalidOpcode : M unit :=
  let* pc0 := get pc in
  let* opcodeByte := busRead pc0 in
  run lift (Util.formatHex opcodeByte) in
  let* pc1 := get pc in
  set_pc (JS.band 0xffff (pc1 + 1)).

(** *** The parts that the methods of one instruction share

    The methods of an instruction differ in the addressing mode, in the
    length of the instruction and in the number of cycles; everything
    else is the same text, written here once with those three as
    arguments. *)

(** An addressing mode that always gives a number. *)
Definition always (getAddress : M Z) : M (option Z) :=
  let* address := getAddress in ret (Some address).

Definition Imm : M (option Z) := always (get getAddressImm).
Definition Zpg : M (option Z) := getAddressZpg.
Definition ZpgX : M (option Z) := always getAddressZpgX.
Definition ZpgY : M (option Z) := always getAddressZpgY.
Definition Abs : M (option Z) := always getAddressAbs.
Definition AbsX : M (option Z) := always getAddressAbsX.
Definition AbsY : M (option Z) := always getAddressAbsY.
Definition XInd : M (option Z) := always getAddressXInd.
Definition IndY : M (option Z) := always getAddressIndY.

(** [this.cyclesRemaining = n] and [this.cyclesRemaining = n +
    this.additionalCycles]. *)
Definition fixed (n : Z) : t -> Z := fun _ => n.
Definition indexed (n : Z) : t -> Z := fun c => n + additionalCycles c.

(** The two statements that end most methods:
    [this.pc = 0xffff & (this.pc + length)] and the assignment of
    [cyclesRemaining]. *)
Definition finish (length : Z) (cycles : t -> Z) : M unit :=
  let* pc0 := get pc in
  run set_pc (JS.band 0xffff (pc0 + length)) in
  let* n := get cycles in
  modify (set_cyclesRemaining n).

(** [updateStatusZero(value)] for a value that may be [NaN]:
    [NaN === 0x00] is false. *)
Definition updateStatusZeroOf (value : option Z) (c : t) : t :=
  setStatusFlag STATUS_FLAG_BIT_ZERO
    (match value with Some v => v =? 0x00 | None => false end) c.

Definition adc_mode (getAddress : M (option Z)) (length : Z) (cycles : t -> Z)
  : M unit :=
  let* address := getAddress in
  let* memory := busReadAt address in
  let* oldA := get a in
  let* carry := get statusCarry in
  let intermediateA := add3 oldA memory carry in
  let newA := JS.band 0xff (JS.num intermediateA) in
  run modify (set_a newA) in
  run modify (setStatusFlag STATUS_FLAG_BIT_CARRY (gt_ff intermediateA)) in
  run modify (setStatusFlag STATUS_FLAG_BIT_OVERFLOW
    (JS.truthy (JS.band (JS.band (JS.bnot (JS.bxor oldA (JS.num memory)))
                                 (JS.bxor oldA (JS.num intermediateA)))
                        (JS.shl 1 7)))) in
  run modify (updateStatusNegative newA) in
  run modify (updateStatusZero newA) in
  finish length cycles.

Definition and_mode (getAddress : M (option Z)) (length : Z) (cycles : t -> Z)
  : M unit :=
  let* address := getAddress in
  let* memory := busReadAt address in
  let* a0 := get a in
  let newA := JS.band a0 (JS.num memory) in
  run modify (set_a newA) in
  run modify (updateStatusNegative newA) in
  run modify (updateStatusZero newA) in
  finish length cycles.

Definition asl_a : M unit :=
  let* oldA := get a in
  let intermediateA := JS.shl oldA 1 in
  let newA := JS.band 0xff intermediateA in
  run modify (set_a newA) in
  run modify (setStatusFlag STATUS_FLAG_BIT_CARRY
                (JS.truthy (JS.band oldA (JS.shl 1 7)))) in
  run modify (updateStatusNegative newA) in
  run modify (updateStatusZero newA) in
  finish 1 (fixed 2).

Definition asl_mode (getAddress : M (option Z)) (length : Z) (cycles : t -> Z)
  : M unit :=
  let* address := getAddress in
  let* oldMemory := busReadAt address in
  let intermediateMemory := JS.shl (JS.num oldMemory) 1 in
  let newMemory := JS.band 0xff intermediateMemory in
  run busWriteAt address newMemory in
  run modify (setStatusFlag STATUS_FLAG_BIT_CARRY
                (JS.truthy (JS.band (JS.num oldMemory) (JS.shl 1 7)))) in
  run modify (updateStatusNegative newMemory) in
  run modify (updateStatusZero newMemory) in
  finish length cycles.

(** The eight branches: [condition] is the test of the [if]. *)
Definition branch_if (condition : t -> bool) : M unit :=
  run modify (set_cyclesRemaining 2) in
  let* taken := get condition in
  if taken then
    let* address := getAddressRel in
    let* pc0 := get pc in
    run modify (fun c =>
          set_cyclesRemaining
            (cyclesRemaining c + (if Util.isSamePage pc0 address then 1 else 2)) c) in
    set_pc address
  else
    let* pc0 := get pc in
    set_pc (JS.band 0xffff (pc0 + 2)).

Definition bit_mode (getAddress : M (option Z)) (length : Z) (cycles : t -> Z)
  : M unit :=
  let* address := getAddress in
  let* memory := busReadAt address in
  run modify (setStatusFlag STATUS_FLAG_BIT_NEGATIVE
                (JS.truthy (JS.band (JS.num memory) (JS.shl 1 7)))) in
  run modify (setStatusFlag STATUS_FLAG_BIT_OVERFLOW
                (JS.truthy (JS.band (JS.num memory) (JS.shl 1 6)))) in
  let* a0 := get a in
  run modify (setStatusFlag STATUS_FLAG_BIT_ZERO
                (JS.band (JS.num memory) a0 =? 0)) in
  finish length cycles.

Definition brk : M unit :=
  let* pc0 := get pc in
  let returnAddressHi := JS.shr (JS.band (pc0 + 2) 0xff00) 8 in
  let* pc1 := get pc in
  let returnAddressLo := JS.band (pc1 + 2) 0x00ff in
  run pushStack returnAddressHi in
  run pushStack returnAddressLo in
  run modify (setStatusFlag STATUS_FLAG_BIT_INTERRUPT_DISABLE true) in
  run modify (setStatusFlag STATUS_FLAG_BIT_BREAK true) in
  let* p0 := get p in
  run pushStack p0 in
  run modify (setStatusFlag STATUS_FLAG_BIT_BREAK false) in
  let* pc2 := get pc in
  run lift (Util.formatHex (Some (pc2 + 3))) in
  run set_pc IRQ_VECTOR in
  modify (set_cyclesRemaining 7).

(** [clc], [sec] and the like: one flag, then the next instruction. *)
Definition set_flag (index : Z) (bit : bool) : M unit :=
  run modify (setStatusFlag index bit) in
  finish 1 (fixed 2).

(** [cmp], [cpx] and [cpy]: [register] is the register compared.
    [this.a - memory] is [NaN] and [memory <= this.a] is false when the
    read found no region. *)
Definition compare_mode (register : t -> Z) (getAddress : M (option Z)) (length : Z)
  (cycles : t -> Z) : M unit :=
  let* address := getAddress in
  let* memory := busReadAt address in
  let* r0 := get register in
  let result := option_map (fun m => r0 - m) memory in
  let* r1 := get register in
  run modify (setStatusFlag STATUS_FLAG_BIT_CARRY
                (match memory with Some m => m <=? r1 | None => false end)) in
  run modify (updateStatusNegative (JS.num result)) in
  run modify (updateStatusZeroOf result) in
  finish length cycles.

Definition dec_mode (getAddress : M (option Z)) (length : Z) (cycles : t -> Z)
  : M unit :=
  let* address := getAddress in
  let* oldMemory := busReadAt address in
  let newMemory := JS.band 0xff (JS.num (add_to oldMemory (- 1))) in
  run busWriteAt address newMemory in
  run modify (updateStatusNegative newMemory) in
  run modify (updateStatusZero newMemory) in
  finish length cycles.

(** [dex], [dey], [inx] and [iny]: the register and the step. *)
Definition step_register (register : t -> Z) (set_register : Z -> t -> t)
  (step : Z) : M unit :=
  let* r0 := get register in
  let newValue := JS.band 0xff (r0 + step) in
  run modify (set_register newValue) in
  run modify (updateStatusNegative newValue) in
  run modify (updateStatusZero newValue) in
  finish 1 (fixed 2).

Definition eor_mode (getAddress : M (option Z)) (length : Z) (cycles : t -> Z)
  : M unit :=
  let* address := getAddress in
  let* memory := busReadAt address in
  let* a0 := get a in
  let newA := JS.bxor a0 (JS.num memory) in
  run modify (set_a newA) in
  run modify (updateStatusNegative newA) in
  run modify (updateStatusZero newA) in
  finish length cycles.

Definition inc_mode (getAddress : M (option Z)) (length : Z) (cycles : t -> Z)
  : M unit :=
  let* address := getAddress in
  let* oldMemory := busReadAt address in
  let newMemory := JS.band 0xff (JS.num (add_to oldMemory 1)) in
  run busWriteAt address newMemory in
  run modify (updateStatusNegative newMemory) in
  run modify (updateStatusZero newMemory) in
  finish length cycles.

Definition jmp_mode (getAddress : M Z) (cycles : Z) : M unit :=
  let* address := getAddress in
  run set_pc address in
  modify (set_cyclesRemaining cycles).

Definition jsr : M unit :=
  let* pc0 := get pc in
  let returnAddress := pc0 + 2 in
  let returnAddressHi := JS.shr (JS.band returnAddress 0xff00) 8 in
  let returnAddressLo := JS.band returnAddress 0x00ff in
  run pushStack returnAddressHi in
  run pushStack returnAddressLo in
  let* address := getAddressAbs in
  run set_pc address in
  modify (set_cyclesRemaining 6).

(** [lda], [ldx] and [ldy]: [set_register] is the register loaded. The
    registers of the model are numbers. When the read finds no region
    the method stores [undefined] in the register, updates two flags and
    assigns [pc]; the setter of [pc] logs the registers, and
    [formatHex] of the [undefined] register throws a [TypeError] (if
    [formatHex] of the opcode or of an operand has not thrown one
    before). *)
Definition load_mode (set_register : Z -> t -> t) (getAddress : M (option Z))
  (length : Z) (cycles : t -> Z) : M unit :=
  let* address := getAddress in
  let* newValue := busReadAt address in
  match newValue with
  | Some value =>
      run modify (set_register value) in
      run modify (updateStatusNegative value) in
      run modify (updateStatusZero value) in
      finish length cycles
  | None => throw "TypeError"
  end.

Definition lsr_a : M unit :=
  let* oldA := get a in
  let newA := JS.band 0xff (JS.shr oldA 1) in
  run modify (set_a newA) in
  run modify (setStatusFlag STATUS_FLAG_BIT_CARRY
                (JS.truthy (JS.band oldA (JS.shl 1 0)))) in
  run modify (updateStatusNegative newA) in
  run modify (updateStatusZero newA) in
  finish 1 (fixed 2).

Definition lsr_mode (getAddress : M (option Z)) (length : Z) (cycles : t -> Z)
  : M unit :=
  let* address := getAddress in
  let* oldMemory := busReadAt address in
  let newMemory := JS.band 0xff (JS.shr (JS.num oldMemory) 1) in
  run busWriteAt address newMemory in
  run modify (setStatusFlag STATUS_FLAG_BIT_CARRY
                (JS.truthy (JS.band (JS.num oldMemory) (JS.shl 1 0)))) in
  run modify (updateStatusNegative newMemory) in
  run modify (updateStatusZero newMemory) in
  finish length cycles.

Definition nop : M unit := finish 1 (fixed 2).

Definition ora_mode (getAddress : M (option Z)) (length : Z) (cycles : t -> Z)
  : M unit :=
  let* address := getAddress in
  let* memory := busReadAt address in
  let* a0 := get a in
  let newA := JS.bor a0 (JS.num memory) in
  run modify (set_a newA) in
  run modify (updateStatusNegative newA) in
  run modify (updateStatusZero newA) in
  finish length cycles.

Definition pha : M unit :=
  let* a0 := get a in
  run pushStack a0 in
  finish 1 (fixed 3).

Definition php : M unit :=
  let* p0 := get p in
  run pushStack p0 in
  finish 1 (fixed 3).

(** As for the loads, an [undefined] pulled into [a] makes the log of the
    [pc] setter throw. *)
Definition pla : M unit :=
  let* newA := pullStack in
  match newA with
  | Some value =>
      run modify (set_a value) in
      run modify (updateStatusNegative value) in
      run modify (updateStatusZero value) in
      finish 1 (fixed 4)
  | None => throw "TypeError"
  end.

(** Likewise for [p]: the log formats it with [formatBinary]. *)
Definition plp : M unit :=
  let* newP := pullStack in
  match newP with
  | Some value =>
      run modify (set_p value) in
      finish 1 (fixed 4)
  | None => throw "TypeError"
  end.

Definition rol_a : M unit :=
  let* oldA := get a in
  let* carry0 := get statusCarry in
  let carry := if JS.truthy carry0 then 0x01 else 0x00 in
  let newA := JS.band 0xff (JS.bor (JS.shl oldA 1) carry) in
  run modify (set_a newA) in
  run modify (setStatusFlag STATUS_FLAG_BIT_CARRY
                (JS.truthy (JS.band oldA (JS.shl 1 7)))) in
  run modify (updateStatusNegative newA) in
  run modify (updateStatusZero newA) in
  finish 1 (fixed 2).

Definition rol_mode (getAddress : M (option Z)) (length : Z) (cycles : t -> Z)
  : M unit :=
  let* address := getAddress in
  let* oldMemory := busReadAt address in
  let* carry0 := get statusCarry in
  let carry := if JS.truthy carry0 then 0x01 else 0x00 in
  let newMemory := JS.band 0xff (JS.bor (JS.shl (JS.num oldMemory) 1) carry) in
  run busWriteAt address newMemory in
  run modify (setStatusFlag STATUS_FLAG_BIT_CARRY
                (JS.truthy (JS.band (JS.num oldMemory) (JS.shl 1 7)))) in
  run modify (updateStatusNegative newMemory) in
  run modify (updateStatusZero newMemory) in
  finish length cycles.

Definition ror_a : M unit :=
  let* oldA := get a in
  let* carry0 := get statusCarry in
  let carry := if JS.truthy carry0 then 0x80 else 0x00 in
  let newA := JS.band 0xff (JS.bor (JS.shr oldA 1) carry) in
  run modify (set_a newA) in
  run modify (setStatusFlag STATUS_FLAG_BIT_CARRY
                (JS.truthy (JS.band oldA (JS.shl 1 0)))) in
  run modify (updateStatusNegative newA) in
  run modify (updateStatusZero newA) in
  finish 1 (fixed 2).

Definition ror_mode (getAddress : M (option Z)) (length : Z) (cycles : t -> Z)
  : M unit :=
  let* address := getAddress in
  let* oldMemory := busReadAt address in
  let* carry0 := get statusCarry in
  let carry := if JS.truthy carry0 then 0x80 else 0x00 in
  let newMemory := JS.band 0xff (JS.bor (JS.shr (JS.num oldMemory) 1) carry) in
  run busWriteAt address newMemory in
  run modify (setStatusFlag STATUS_FLAG_BIT_CARRY
                (JS.truthy (JS.band (JS.num oldMemory) (JS.shl 1 0)))) in
  run modify (updateStatusNegative newMemory) in
  run modify (updateStatusZero newMemory) in
  finish length cycles.

Definition rts : M unit :=
  let* returnAddressLo := pullStack in
  let* returnAddressHi' := pullStack in
  let returnAddressHi := JS.shl (JS.num returnAddressHi') 8 in
  let returnAddress := JS.bor (JS.num returnAddressLo) returnAddressHi in
  run set_pc (JS.band 0xffff (returnAddress + 1)) in
  modify (set_cyclesRemaining 6).

(** [memory ^ 0xff] is a number also when the read found no region. *)
Definition sbc_mode (getAddress : M (option Z)) (length : Z) (cycles : t -> Z)
  : M unit :=
  let* address := getAddress in
  let* memory := busReadAt address in
  let memoryComplement := JS.bxor (JS.num memory) 0xff in
  let* oldA := get a in
  let* carry := get statusCarry in
  let intermediateA := memoryComplement + oldA + carry in
  let newA := JS.band 0xff intermediateA in
  run modify (set_a newA) in
  run modify (setStatusFlag STATUS_FLAG_BIT_CARRY (0xff <? intermediateA)) in
  run modify (setStatusFlag STATUS_FLAG_BIT_OVERFLOW
    (JS.truthy (JS.band (JS.band (JS.bxor intermediateA oldA)
                                 (JS.bxor intermediateA memoryComplement))
                        (JS.shl 1 7)))) in
  run modify (updateStatusNegative newA) in
  run modify (updateStatusZero newA) in
  finish length cycles.

(** [sta], [stx] and [sty]: [register] is the register stored. *)
Definition store_mode (register : t -> Z) (getAddress : M (option Z))
  (length : Z) (cycles : t -> Z) : M unit :=
  let* address := getAddress in
  let* value := get register in
  run busWriteAt address value in
  finish length cycles.

(** [tax], [tay], [tsx], [txa] and [tya]. *)
Definition transfer (from : t -> Z) (set_register : Z -> t -> t) : M unit :=
  let* newValue := get from in
  run modify (set_register newValue) in
  run modify (updateStatusNegative newValue) in
  run modify (updateStatusZero newValue) in
  finish 1 (fixed 2).

Definition txs : M unit :=
  let* newSP := get x in
  run modify (set_sp newSP) in
  finish 1 (fixed 2).

(** *** The methods, one for each addressing mode, and the table of opcodes *)

Definition adc_zpg : M unit := adc_mode Zpg 2 (fixed 3).
Definition adc_zpg_x : M unit := adc_mode ZpgX 2 (fixed 4).
Definition adc_abs : M unit := adc_mode Abs 3 (fixed 4).
Definition adc_abs_x : M unit := adc_mode AbsX 3 (indexed 4).
Definition adc_abs_y : M unit := adc_mode AbsY 3 (indexed 4).
Definition adc_x_ind : M unit := adc_mode XInd 2 (fixed 6).
Definition adc_ind_y : M unit := adc_mode IndY 2 (indexed 5).
Definition and_imm : M unit := and_mode Imm 2 (fixed 2).
Definition and_zpg : M unit := and_mode Zpg 2 (fixed 3).
Definition and_zpg_x : M unit := and_mode ZpgX 2 (fixed 4).
Definition and_abs : M unit := and_mode Abs 3 (fixed 4).
Definition and_abs_x : M unit := and_mode AbsX 3 (indexed 4).
Definition and_abs_y : M unit := and_mode AbsY 3 (indexed 4).
Definition and_x_ind : M unit := and_mode XInd 2 (fixed 6).
Definition and_ind_y : M unit := and_mode IndY 2 (indexed 5).
Definition asl_zpg : M unit := asl_mode Zpg 2 (fixed 5).
Definition asl_zpg_x : M unit := asl_mode ZpgX 2 (fixed 6).
Definition asl_abs : M unit := asl_mode Abs 3 (fixed 6).
Definition asl_abs_x : M unit := asl_mode AbsX 3 (fixed 7).
Definition bcc : M unit := branch_if (fun c => negb (JS.truthy (statusCarry c))).
Definition bcs : M unit := branch_if (fun c => JS.truthy (statusCarry c)).
Definition beq : M unit := branch_if (fun c => JS.truthy (statusZero c)).
Definition bit_zpg : M unit := bit_mode Zpg 2 (fixed 3).
Definition bit_abs : M unit := bit_mode Abs 3 (fixed 4).
Definition bmi : M unit := branch_if (fun c => JS.truthy (statusNegative c)).
Definition bne : M unit := branch_if (fun c => negb (JS.truthy (statusZero c))).
Definition bpl : M unit := branch_if (fun c => negb (JS.truthy (statusNegative c))).
Definition bvc : M unit := branch_if (fun c => negb (JS.truthy (statusOverflow c))).
Definition bvs : M unit := branch_if (fun c => JS.truthy (statusOverflow c)).
Definition clc : M unit := set_flag STATUS_FLAG_BIT_CARRY false.
Definition cld : M unit := set_flag STATUS_FLAG_BIT_DECIMAL false.
Definition cli : M unit := set_flag STATUS_FLAG_BIT_INTERRUPT_DISABLE false.
Definition clv : M unit := set_flag STATUS_FLAG_BIT_OVERFLOW false.
Definition cmp_imm : M unit := compare_mode a Imm 2 (fixed 2).
Definition cmp_zpg : M unit := compare_mode a Zpg 2 (fixed 3).
Definition cmp_zpg_x : M unit := compare_mode a ZpgX 2 (fixed 4).
Definition cmp_abs : M unit := compare_mode a Abs 3 (fixed 4).
Definition cmp_abs_x : M unit := compare_mode a AbsX 3 (indexed 4).
Definition cmp_abs_y : M unit := compare_mode a AbsY 3 (indexed 4).
Definition cmp_x_ind : M unit := compare_mode a XInd 2 (fixed 6).
Definition cmp_ind_y : M unit := compare_mode a IndY 2 (indexed 5).
Definition cpx_imm : M unit := compare_mode x Imm 2 (fixed 2).
Definition cpx_zpg : M unit := compare_mode x Zpg 2 (fixed 3).
Definition cpx_abs : M unit := compare_mode x Abs 3 (fixed 4).
Definition cpy_imm : M unit := compare_mode y Imm 2 (fixed 2).
Definition cpy_zpg : M unit := compare_mode y Zpg 2 (fixed 3).
Definition cpy_abs : M unit := compare_mode y Abs 3 (fixed 4).
Definition dec_zpg : M unit := dec_mode Zpg 2 (fixed 5).
Definition dec_zpg_x : M unit := dec_mode ZpgX 2 (fixed 6).
Definition dec_abs : M unit := dec_mode Abs 3 (fixed 3).
Definition dec_abs_x : M unit := dec_mode AbsX 3 (fixed 7).
Definition dex : M unit := step_register x set_x (- 1).
Definition dey : M unit := step_register y set_y (- 1).
Definition eor_imm : M unit := eor_mode Imm 2 (fixed 2).
Definition eor_zpg : M unit := eor_mode Zpg 2 (fixed 3).
Definition eor_zpg_x : M unit := eor_mode ZpgX 2 (fixed 4).
Definition eor_abs : M unit := eor_mode Abs 3 (fixed 4).
Definition eor_abs_x : M unit := eor_mode AbsX 3 (indexed 4).
Definition eor_abs_y : M unit := eor_mode AbsY 3 (indexed 4).
Definition eor_x_ind : M unit := eor_mode XInd 2 (fixed 6).
Definition eor_ind_y : M unit := eor_mode IndY 2 (indexed 5).
Definition inc_zpg : M unit := inc_mode Zpg 2 (fixed 5).
Definition inc_zpg_x : M unit := inc_mode ZpgX 2 (fixed 6).
Definition inc_abs : M unit := inc_mode Abs 3 (fixed 6).
Definition inc_abs_x : M unit := inc_mode AbsX 3 (fixed 7).
Definition inx : M unit := step_register x set_x 1.
Definition iny : M unit := step_register y set_y 1.
Definition jmp_abs : M unit := jmp_mode getAddressAbs 3.
Definition jmp_ind : M unit := jmp_mode getAddressInd 5.
Definition lda_imm : M unit := load_mode set_a Imm 2 (fixed 2).
Definition lda_zpg : M unit := load_mode set_a Zpg 2 (fixed 3).
Definition lda_zpg_x : M unit := load_mode set_a ZpgX 2 (fixed 4).
Definition lda_abs : M unit := load_mode set_a Abs 3 (fixed 4).
Definition lda_abs_x : M unit := load_mode set_a AbsX 3 (indexed 4).
Definition lda_abs_y : M unit := load_mode set_a AbsY 3 (indexed 4).
Definition lda_x_ind : M unit := load_mode set_a XInd 2 (fixed 6).
Definition lda_ind_y : M unit := load_mode set_a IndY 2 (indexed 5).
Definition ldx_imm : M unit := load_mode set_x Imm 2 (fixed 2).
Definition ldx_zpg : M unit := load_mode set_x Zpg 2 (fixed 3).
Definition ldx_zpg_y : M unit := load_mode set_x ZpgY 2 (fixed 4).
Definition ldx_abs : M unit := load_mode set_x Abs 3 (fixed 4).
Definition ldx_abs_y : M unit := load_mode set_x AbsY 3 (indexed 4).
Definition ldy_imm : M unit := load_mode set_y Imm 2 (fixed 2).
Definition ldy_zpg : M unit := load_mode set_y Zpg 2 (fixed 3).
Definition ldy_zpg_x : M unit := load_mode set_y ZpgX 2 (fixed 4).
Definition ldy_abs : M unit := load_mode set_y Abs 3 (fixed 4).
Definition ldy_abs_x : M unit := load_mode set_y AbsX 3 (indexed 4).
Definition lsr_zpg : M unit := lsr_mode Zpg 2 (fixed 5).
Definition lsr_zpg_x : M unit := lsr_mode ZpgX 2 (fixed 6).
Definition lsr_abs : M unit := lsr_mode Abs 3 (fixed 6).
Definition lsr_abs_x : M unit := lsr_mode AbsX 3 (indexed 7).
Definition ora_imm : M unit := ora_mode Imm 2 (fixed 2).
Definition ora_zpg : M unit := ora_mode Zpg 2 (fixed 3).
Definition ora_zpg_x : M unit := ora_mode ZpgX 2 (fixed 4).
Definition ora_abs : M unit := ora_mode Abs 3 (fixed 4).
Definition ora_abs_x : M unit := ora_mode AbsX 3 (indexed 4).
Definition ora_abs_y : M unit := ora_mode AbsY 3 (indexed 4).
Definition ora_x_ind : M unit := ora_mode XInd 2 (fixed 6).
Definition ora_ind_y : M unit := ora_mode IndY 2 (indexed 5).
Definition rol_zpg : M unit := rol_mode Zpg 2 (fixed 5).
Definition rol_zpg_x : M unit := rol_mode ZpgX 2 (fixed 6).
Definition rol_abs : M unit := rol_mode Abs 3 (fixed 6).
Definition rol_abs_x : M unit := rol_mode AbsX 3 (fixed 7).
Definition ror_zpg : M unit := ror_mode Zpg 2 (fixed 5).
Definition ror_zpg_x : M unit := ror_mode ZpgX 2 (fixed 6).
Definition ror_abs : M unit := ror_mode Abs 3 (fixed 6).
Definition ror_abs_x : M unit := ror_mode AbsX 3 (fixed 7).
Definition sbc_imm : M unit := sbc_mode Imm 2 (fixed 2).
Definition sbc_zpg : M unit := sbc_mode Zpg 2 (fixed 3).
Definition sbc_zpg_x : M unit := sbc_mode ZpgX 2 (fixed 4).
Definition sbc_abs : M unit := sbc_mode Abs 3 (fixed 4).
Definition sbc_abs_x : M unit := sbc_mode AbsX 3 (indexed 4).
Definition sbc_abs_y : M unit := sbc_mode AbsY 3 (indexed 4).
Definition sbc_x_ind : M unit := sbc_mode XInd 2 (fixed 6).
Definition sbc_ind_y : M unit := sbc_mode IndY 2 (indexed 5).
Definition sec : M unit := set_flag STATUS_FLAG_BIT_CARRY true.
Definition sed : M unit := set_flag STATUS_FLAG_BIT_DECIMAL true.
Definition sei : M unit := set_flag STATUS_FLAG_BIT_INTERRUPT_DISABLE true.
Definition sta_zpg : M unit := store_mode a Zpg 2 (fixed 3).
Definition sta_zpg_x : M unit := store_mode a ZpgX 2 (fixed 4).
Definition sta_abs : M unit := store_mode a Abs 3 (fixed 4).
Definition sta_abs_x : M unit := store_mode a AbsX 3 (fixed 5).
Definition sta_abs_y : M unit := store_mode a AbsY 3 (fixed 5).
Definition sta_x_ind : M unit := store_mode a XInd 2 (fixed 6).
Definition sta_ind_y : M unit := store_mode a IndY 2 (fixed 6).
Definition stx_zpg : M unit := store_mode x Zpg 2 (fixed 3).
Definition stx_zpg_y : M unit := store_mode x ZpgY 2 (fixed 4).
Definition stx_abs : M unit := store_mode x Abs 3 (fixed 4).
Definition sty_zpg : M unit := store_mode y Zpg 2 (fixed 3).
Definition sty_zpg_x : M unit := store_mode y ZpgX 2 (fixed 4).
Definition sty_abs : M unit := store_mode y Abs 3 (fixed 4).
Definition tax : M unit := transfer a set_x.
Definition tay : M unit := transfer a set_y.
Definition tsx : M unit := transfer sp set_x.
Definition txa : M unit := transfer x set_a.
Definition tya : M unit := transfer y set_a.

Definition opcodes : list (Z * M unit) :=
  [ (0x00, brk); (0x01, ora_x_ind); (0x05, ora_zpg); (0x06, asl_zpg);
    (0x08, php); (0x09, ora_imm); (0x0a, asl_a); (0x0d, ora_abs);
    (0x0e, asl_abs); (0x10, bpl); (0x11, ora_ind_y); (0x15, ora_zpg_x);
    (0x16, asl_zpg_x); (0x18, clc); (0x19, ora_abs_y); (0x1d, ora_abs_x);
    (0x1e, asl_abs_x); (0x20, jsr); (0x21, and_x_ind); (0x24, bit_zpg);
    (0x25, and_zpg); (0x26, rol_zpg); (0x28, plp); (0x29, and_imm);
    (0x2a, rol_a); (0x2c, bit_abs); (0x2d, and_abs); (0x2e, rol_abs);
    (0x30, bmi); (0x31, and_ind_y); (0x35, and_zpg_x); (0x36, rol_zpg_x);
    (0x38, sec); (0x39, and_abs_y); (0x3d, and_abs_x); (0x3e, rol_abs_x);
    (0x40, rti); (0x41, eor_x_ind); (0x45, eor_zpg); (0x46, lsr_zpg);
    (0x48, pha); (0x49, eor_imm); (0x4a, lsr_a); (0x4c, jmp_abs);
    (0x4d, eor_abs); (0x4e, lsr_abs); (0x50, bvc); (0x51, eor_ind_y);
    (0x55, eor_zpg_x); (0x56, lsr_zpg_x); (0x58, cli); (0x59, eor_abs_y);
    (0x5d, eor_abs_x); (0x5e, lsr_abs_x); (0x60, rts); (0x61, adc_x_ind);
    (0x65, adc_zpg); (0x66, ror_zpg); (0x68, pla); (0x69, adc_imm);
    (0x6a, ror_a); (0x6c, jmp_ind); (0x6d, adc_abs); (0x6e, ror_abs);
    (0x70, bvs); (0x71, adc_ind_y); (0x75, adc_zpg_x); (0x76, ror_zpg_x);
    (0x78, sei); (0x79, adc_abs_y); (0x7d, adc_abs_x); (0x7e, ror_abs_x);
    (0x81, sta_x_ind); (0x84, sty_zpg); (0x85, sta_zpg); (0x86, stx_zpg);
    (0x88, dey); (0x8a, txa); (0x8c, sty_abs); (0x8d, sta_abs);
    (0x8e, stx_abs); (0x90, bcc); (0x91, sta_ind_y); (0x94, sty_zpg_x);
    (0x95, sta_zpg_x); (0x96, stx_zpg_y); (0x98, tya); (0x99, sta_abs_y);
    (0x9a, txs); (0x9d, sta_abs_x); (0xa0, ldy_imm); (0xa1, lda_x_ind);
    (0xa2, ldx_imm); (0xa4, ldy_zpg); (0xa5, lda_zpg); (0xa6, ldx_zpg);
    (0xa8, tay); (0xa9, lda_imm); (0xaa, tax); (0xac, ldy_abs);
    (0xad, lda_abs); (0xae, ldx_abs); (0xb0, bcs); (0xb1, lda_ind_y);
    (0xb4, ldy_zpg_x); (0xb5, lda_zpg_x); (0xb6, ldx_zpg_y); (0xb8, clv);
    (0xb9, lda_abs_y); (0xba, tsx); (0xbc, ldy_abs_x); (0xbd, lda_abs_x);
    (0xbe, ldx_abs_y); (0xc0, cpy_imm); (0xc1, cmp_x_ind); (0xc4, cpy_zpg);
    (0xc5, cmp_zpg); (0xc6, dec_zpg); (0xc8, iny); (0xc9, cmp_imm);
    (0xca, dex); (0xcc, cpy_abs); (0xcd, cmp_abs); (0xce, dec_abs);
    (0xd0, bne); (0xd1, cmp_ind_y); (0xd5, cmp_zpg_x); (0xd6, dec_zpg_x);
    (0xd8, cld); (0xd9, cmp_abs_y); (0xdd, cmp_abs_x); (0xde, dec_abs_x);
    (0xe0, cpx_imm); (0xe1, sbc_x_ind); (0xe4, cpx_zpg); (0xe5, sbc_zpg);
    (0xe6, inc_zpg); (0xe8, inx); (0xe9, sbc_imm); (0xea, nop);
    (0xec, cpx_abs); (0xed, sbc_abs); (0xee, inc_abs); (0xf0, beq);
    (0xf1, sbc_ind_y); (0xf5, sbc_zpg_x); (0xf6, inc_zpg_x); (0xf8, sed);
    (0xf9, sbc_abs_y); (0xfd, sbc_abs_x); (0xfe, inc_abs_x) ].

(** [this.opcodes[pcValue] || this.invalidOpcode]: a byte that is no key
    of the table, and [undefined], give [invalidOpcode]. *)
Definition opcodeFn (pcValue : option Z) : M unit :=
  match pcValue with
  | Some byte =>
      match List.find (fun entry => fst entry =? byte) opcodes with
      | Some entry => snd entry
      | None => invalidOpcode
      end
  | None => invalidOpcode
  end.

Definition execute : M unit :=
  let* pendingIRQ0 := get pendingIRQ in
  let* interruptDisable := get statusInterruptDisable in
  if pendingIRQ0 && negb (JS.truthy interruptDisable) then
    run modify (set_pendingIRQ false) in
    irq
  else
    let* pendingNMI0 := get pendingNMI in
    if pendingNMI0 then
      run modify (set_pendingNMI false) in
      nmi
    else
      let* pc0 := get pc in
      let* pcValue := busRead pc0 in
      run opcodeFn pcValue in
      modify (set_additionalCycles 0).

Definition tick : M unit :=
  let* cycles := get cyclesRemaining in
  run (if cycles <=? 0 then execute else ret tt) in
  modify (fun c => set_cyclesRemaining (cyclesRemaining c - 1) c).

End CPU.

(** ** nes.ts: the wiring of the machine *)

Module NES.

Inductive Component : Type := CpuTick | PpuTick.

Definition ram : RAM.t := RAM.new 0x0000 0x07ff (Some 0x1fff).
Definition prg : ROM.t := ROM.new 0x4020 0xffff None.
Definition controller1 : Controller.t := Controller.new 0x4016 0x4016.
Definition controller2 : Controller.t := Controller.new 0x4017 0x4017.
Definition disabledIO : Addressable.t := Addressable.new 0x4018 0x401f None.
Definition apu : Addressable.t := Addressable.new 0x4000 0x4015 None.

Definition chr : ROM.t := ROM.new PPU.CHR_START_ADDRESS PPU.CHR_END_ADDRESS None.
Definition vram : RAM.t :=
  RAM.new PPU.NAMETABLE_0_START_ADDRESS PPU.NAMETABLE_3_END_ADDRESS
          (Some PPU.NAMETABLE_MIRROR_END_ADDRESS).
Definition paletteRAM : RAM.t :=
  RAM.new PPU.PALETTE_START_ADDRESS PPU.PALETTE_END_ADDRESS
          (Some PPU.PALETTE_MIRROR_END_ADDRESS).

Definition ppuBus : list MemDevice :=
  Bus.new [MROM chr; MRAM vram; MRAM paletteRAM].

Definition ppu : PPU.t := PPU.new ppuBus.

Definition cpuBus : list CpuDevice :=
  Bus.new [CMem (MRAM ram); CPPU ppu; CMem (MBase apu);
           CController controller1; CController controller2;
           CMem (MBase disabledIO); CMem (MROM prg)].

Definition cpu : CPU.t := CPU.new cpuBus.

(** The clock: the CPU is registered first and runs every third step,
    the PPU second and runs every step. *)
Definition clock : Clock.t Component :=
  Clock.addTickCallback PpuTick 1 PPU.CLOCK_OFFSET
    (Clock.addTickCallback CpuTick 3 0
      (Clock.new 200000 0)).

End NES.

(** ** Formulas of the specification

    The definitions of this module follow the words of the specification,
    not the code; each one is compared with the code below. *)

Module Spec.

(** "mapper number (split low nibble byte 6[7:4], high nibble byte
    7[7:4])", that is [(byte6 >> 4) | (byte7 & 0xF0)]. *)
Definition mapper (byte6 byte7 : Z) : Z :=
  Z.lor (Z.shiftr byte6 4) (Z.land byte7 0xF0).

End Spec.

(** ** Auxiliary definitions for the statements *)

(** The 256 byte values, for checks by enumeration. *)
Definition all_bytes : list Z := map Z.of_nat (seq 0 256).

(** The order [Bus.reset] establishes: high start addresses first. *)
Definition desc {D : Type} `{Device D} (d1 d2 : D) : Prop :=
  Bus.start d2 <= Bus.start d1.

(** The index [ROM.setByte] and [ROM.read] compute for an address at or above
    the start of the region. *)
Definition rom_index (r : ROM.t) (address : Z) : Z :=
  (address - Addressable.startAddress (ROM.hdr r)) mod Addressable.actualSize (ROM.hdr r).

(** The clock of the machine with the countdown of the CPU at [r]; the
    countdown of the PPU is always 0. *)
Definition nes_clock_at (r : Z) : Clock.t NES.Component :=
  Clock.mk false 200000 0
    [Clock.mkTick NES.CpuTick 3 (Some r); Clock.mkTick NES.PpuTick 1 (Some 0)].

Definition is_cpu (c : NES.Component) : bool :=
  match c with NES.CpuTick => true | NES.PpuTick => false end.

Definition is_ppu (c : NES.Component) : bool :=
  match c with NES.CpuTick => false | NES.PpuTick => true end.

(** How many times the callbacks selected by [f] ran in a trace of
    steps. *)
Definition runs (f : NES.Component -> bool) (trace : list (list NES.Component)) : Z :=
  Z.of_nat (length (List.filter f (concat trace))).

(** A PPU as the constructor builds it: the register window of eight
    bytes at 0x2000 with its eight-byte register file. No method changes
    either. *)
Definition ppu_wf (p : PPU.t) : Prop :=
  PPU.hdr p = Addressable.new PPU.REGISTER_START_ADDRESS PPU.REGISTER_END_ADDRESS
                              (Some PPU.REGISTER_MIRROR_END_ADDRESS) /\
  length (PPU.bytes p) = 8%nat.

(** A sequence of register writes by the CPU, as [(address, byte)]
    pairs, applied to a PPU. *)
Definition ppu_writes (ws : list (Z * Z)) (p : PPU.t) : PPU.t :=
  fold_left (fun q w => fst (PPU.write (fst w) (snd w) q)) ws p.

(** The PPU of the machine after a program has stored 0x22 in the first
    palette entry (PPUADDR 3F 00, PPUDATA 22), stored 0x11 in the first
    name-table entry (PPUADDR 20 00, PPUDATA 11) and pointed the VRAM
    address at the palette again (PPUADDR 3F 00). *)
Definition palette_probe : PPU.t :=
  ppu_writes
    [ (0x2006, 0x3F); (0x2006, 0x00); (0x2007, 0x22);
      (0x2006, 0x20); (0x2006, 0x00); (0x2007, 0x11);
      (0x2006, 0x3F); (0x2006, 0x00) ]
    NES.ppu.

(** The PPU of the machine with the VBlank flag raised, as [execute]
    raises it. *)
Definition ppu_in_vblank : PPU.t := PPU.set_ppustatusVBlank true NES.ppu.

(** The five statements of [PPU.execute], one by one. *)
Definition exec_visible (p : PPU.t) : PPU.t :=
  if PPU.isVisible p then
    let p := PPU.set_visible (PPU.cycle p - PPU.NTSC_VISIBLE_START_CYCLE) (PPU.scanline p) p in
    if JS.truthy (PPU.ppumaskBackgroundEnable p) then PPU.drawBackground p else p
  else p.

Definition exec_sprite_clear (p : PPU.t) : PPU.t :=
  if (PPU.scanline p =? PPU.NTSC_PRE_RENDER_SCANLINE) && (PPU.cycle p =? 0)
  then PPU.set_ppustatusSpriteZeroHit false p else p.

Definition exec_sprite_set (p : PPU.t) : PPU.t :=
  if (PPU.scanline p =? PPU.NTSC_VISIBLE_START_SCANLINE)
     && (PPU.cycle p =? PPU.NTSC_VISIBLE_START_CYCLE)
  then PPU.set_ppustatusSpriteZeroHit true p else p.

Definition exec_vblank_start (p : PPU.t) : PPU.t * list Event :=
  if (PPU.scanline p =? PPU.NTSC_VBLANK_START_SCANLINE)
     && (PPU.cycle p =? PPU.NTSC_VBLANK_START_CYCLE)
  then
    let p := PPU.set_ppustatusVBlank true p in
    let evs := if JS.truthy (PPU.ppuctrlNMIEnable p) then PPU.generateNMI else [] in
    (p, evs ++ PPU.flush)
  else (p, []).

Definition exec_vblank_end (p : PPU.t) : PPU.t :=
  if (PPU.scanline p =? PPU.NTSC_VBLANK_END_SCANLINE)
     && (PPU.cycle p =? PPU.NTSC_VBLANK_END_CYCLE)
  then PPU.set_ppustatusVBlank false p else p.

(** The advance of the beam at the end of [PPU.tick]. *)
Definition advance (p : PPU.t) : PPU.t :=
  let p := PPU.set_cycle (PPU.cycle p + 1) p in
  if PPU.NTSC_CYCLES_PER_SCANLINE <=? PPU.cycle p then
    let p := PPU.set_cycle 0 p in
    let p := PPU.set_scanline (PPU.scanline p + 1) p in
    if PPU.NTSC_SCANLINES <=? PPU.scanline p then PPU.set_scanline 0 p else p
  else p.

(** [q] has the beam position and the register file of [p]. *)
Definition same_beam (p q : PPU.t) : Prop :=
  PPU.cycle q = PPU.cycle p /\ PPU.scanline q = PPU.scanline p.

Definition same_registers (p q : PPU.t) : Prop :=
  PPU.hdr q = PPU.hdr p /\ PPU.bytes q = PPU.bytes p.

(** The beam is at the dot where vertical blank starts. *)
Definition at_vblank_start (p : PPU.t) : bool :=
  (PPU.scanline p =? PPU.NTSC_VBLANK_START_SCANLINE)
  && (PPU.cycle p =? PPU.NTSC_VBLANK_START_CYCLE).

(** The events of the dot where vertical blank starts. *)
Definition vblank_start_events (p : PPU.t) : list Event :=
  (if JS.truthy (PPU.ppuctrlNMIEnable p) then [EvNmi] else []) ++ [EvFlush].

(** Some region of the bus starts at address 0 or below: every address
    that is not negative is mapped. *)
Definition covers (bus : list CpuDevice) : Prop :=
  Exists (fun d => Bus.start d <= 0) bus.

(** A RAM region based at 0 that holds the zero page and the stack page
    without mirroring them. *)
Definition low_ram (r : RAM.t) : Prop :=
  Addressable.startAddress (RAM.hdr r) = 0 /\
  0x200 <= Addressable.actualSize (RAM.hdr r) /\
  Addressable.actualSize (RAM.hdr r) <= Z.of_nat (length (RAM.bytes r)).

(** The bus routes the addresses 0x0000..0x01FF to the RAM region [r]:
    the regions sorted before it start above 0x01FF. *)
Definition stack_bus (bus : list CpuDevice) (r : RAM.t) : Prop :=
  exists pre post,
    bus = pre ++ CMem (MRAM r) :: post /\
    Forall (fun d => 0x1FF < Bus.start d) pre.

(** The three pushes of an interrupt entry, high byte of the program
    counter first, followed by [rti]. *)
Definition push3 (PCH PCL P : Z) : CPU.M unit :=
  CPU.bind (CPU.pushStack PCH) (fun _ =>
  CPU.bind (CPU.pushStack PCL) (fun _ =>
  CPU.pushStack P)).

Definition push3_rti (PCH PCL P : Z) : CPU.M unit :=
  CPU.bind (push3 PCH PCL P) (fun _ => CPU.rti).

(** The register updates of the ADC methods for the operand [memory],
    between the operand read and the move of the program counter. *)
Definition adc_registers (memory : option Z) (c : CPU.t) : CPU.t :=
  let oldA := CPU.a c in
  let carry := CPU.statusCarry c in
  let intermediateA := CPU.add3 oldA memory carry in
  let newA := JS.band 0xff (JS.num intermediateA) in
  CPU.updateStatusZero newA
    (CPU.updateStatusNegative newA
       (CPU.setStatusFlag CPU.STATUS_FLAG_BIT_OVERFLOW
          (JS.truthy
             (JS.band (JS.band (JS.bnot (JS.bxor oldA (JS.num memory)))
                               (JS.bxor oldA (JS.num intermediateA)))
                      (JS.shl 1 7)))
          (CPU.setStatusFlag CPU.STATUS_FLAG_BIT_CARRY (CPU.gt_ff intermediateA)
             (CPU.set_a newA c)))).

(** The CPU bus of the machine around a given RAM. *)
Definition machine_bus (ram : RAM.t) : list CpuDevice :=
  Bus.new [CMem (MRAM ram); CPPU NES.ppu; CMem (MBase NES.apu);
           CController NES.controller1; CController NES.controller2;
           CMem (MBase NES.disabledIO); CMem (MROM NES.prg)].

(** The opcodes of ADC, each with the method that the table of opcodes
    holds for it and the addressing mode that the method uses. *)
Definition adc_methods : list (Z * CPU.M unit * CPU.M (option Z)) :=
  [ (0x69, CPU.adc_imm, CPU.Imm);
    (0x65, CPU.adc_zpg, CPU.Zpg);
    (0x75, CPU.adc_zpg_x, CPU.ZpgX);
    (0x6d, CPU.adc_abs, CPU.Abs);
    (0x7d, CPU.adc_abs_x, CPU.AbsX);
    (0x79, CPU.adc_abs_y, CPU.AbsY);
    (0x61, CPU.adc_x_ind, CPU.XInd);
    (0x71, CPU.adc_ind_y, CPU.IndY) ].

(** The operand of an instruction: what the bus returns at the address
    that the addressing mode computes. *)
Definition operand (getAddress : CPU.M (option Z)) (c : CPU.t) : option Z :=
  match CPU.bind getAddress CPU.busReadAt c with
  | Ok (memory, _) => memory
  | Throw _ => None
  end.

(** The method [m] returns on every CPU and touches neither the
    accumulator, the status register nor the program counter; a bus that
    covers the address space still does afterwards. *)
Definition reads_only {A : Type} (m : CPU.M A) : Prop :=
  forall c, exists v c',
    m c = Ok (v, c') /\
    CPU.a c' = CPU.a c /\ CPU.p c' = CPU.p c /\ CPU.pc c' = CPU.pc c /\
    (covers (CPU.cpuBus c) -> covers (CPU.cpuBus c')).

(** A CPU on the bus of the machine about to add in the zero-page,X
    mode: accumulator 0x7F, carry clear, X = 4, program counter 0, the
    zero-page base 0x10 at address 1 and the operand 0x01 at address
    0x14. *)
Definition adc_probe_zpg_x : CPU.t :=
  CPU.set_x 4
    (CPU.set_a 0x7F
       (CPU.new (machine_bus (RAM.write 0x14 0x01 (RAM.write 1 0x10 NES.ram))))).

(** The header of an NROM-128 cartridge image: one PRG bank of 16 KiB,
    one CHR bank of 8 KiB, mapper 0, no trainer. *)
Definition nrom128_header : list Z :=
  [0x4e; 0x45; 0x53; 0x1a; 1; 1; 0; 0; 0; 0; 0; 0; 0; 0; 0; 0].

(** ** Auxiliary definitions for the properties of the other code *)

(** What [EventEmitter.off] leaves of an array: an element that is
    removed takes the element after it out of the reach of the loop. *)
Fixpoint off_result {L : Type} `{EqDecision L} (listener : option L)
  (listeners : list L) : list L :=
  match listeners with
  | [] => []
  | x :: rest =>
      if EventEmitter.off_matches listener x then
        match rest with
        | [] => []
        | y :: rest' => y :: off_result listener rest'
        end
      else x :: off_result listener rest
  end.

(** The elements at the odd positions 1, 3, 5, ... of a list. *)
Fixpoint odd_positions {A : Type} (l : list A) : list A :=
  match l with
  | _ :: y :: l' => y :: odd_positions l'
  | _ => []
  end.

(** No two neighbours of the list are both [x]. *)
Fixpoint no_neighbours {A : Type} (x : A) (l : list A) : Prop :=
  match l with
  | y :: ((z :: _) as l') => ~ (y = x /\ z = x) /\ no_neighbours x l'
  | _ => True
  end.

(** A RAM as the constructor builds it and as [write] keeps it: the
    buffer has [actualSize] bytes, and there is at least one. *)
Definition ram_wf (r : RAM.t) : Prop :=
  0 < Addressable.actualSize (RAM.hdr r) /\
  Z.of_nat (length (RAM.bytes r)) = Addressable.actualSize (RAM.hdr r).

(** The index of the byte of a RAM that an address at or above the start
    of the region stands for. *)
Definition ram_index (r : RAM.t) (address : Z) : Z :=
  (address - Addressable.startAddress (RAM.hdr r)) mod Addressable.actualSize (RAM.hdr r).

(** A callback whose countdown is a number below its divider, as
    [Clock.addTickCallback] registers it and as [Clock.step] keeps it. *)
Definition tick_wf {C : Type} (tc : Clock.TickCallback C) : Prop :=
  exists r, Clock.cyclesRemaining tc = Some r /\ 0 <= r < Clock.divider tc.

(** The callback is due at the step number [k], counted from 0 and from
    the state in which its countdown is read. *)
Definition due {C : Type} (k : Z) (tc : Clock.TickCallback C) : bool :=
  match Clock.cyclesRemaining tc with
  | Some r => (r - k) mod Clock.divider tc =? 0
  | None => false
  end.

(** The status field that [Controller.read] reports at an index:
    0 is A, 1 is B, 2 is Select, 3 is Start, 4 is Up, 5 is Down, 6 is
    Left and 7 is Right. *)
Definition controller_button (c : Controller.t) (index : Z) : bool :=
  if index =? 0 then Controller.statusA c
  else if index =? 1 then Controller.statusB c
  else if index =? 2 then Controller.statusSelect c
  else if index =? 3 then Controller.statusStart c
  else if index =? 4 then Controller.statusUp c
  else if index =? 5 then Controller.statusDown c
  else if index =? 6 then Controller.statusLeft c
  else Controller.statusRight c.

(** [n] reads of a controller in a row, with the values they return. *)
Fixpoint controller_reads (address : Z) (n : nat) (c : Controller.t)
  : list Z * Controller.t :=
  match n with
  | O => ([], c)
  | S n' =>
      let '(v, c1) := Controller.read address c in
      let '(vs, c2) := controller_reads address n' c1 in
      (v :: vs, c2)
  end.

(** The status fields of two controllers are the same. *)
Definition same_buttons (c c' : Controller.t) : Prop :=
  forall index, controller_button c' index = controller_button c index.

(** A cartridge image with [banks] PRG banks of 16 KiB and one CHR bank
    of 8 KiB: the header with the flag byte [flags6], the trainer if
    there is one, the program, the patterns, and whatever follows. *)
Definition ines_image (banks flags6 : Z) (tail trainer prgBytes chrBytes rest : list Z)
  : list Z :=
  ([0x4e; 0x45; 0x53; 0x1a; banks; 1; flags6] ++ tail)
  ++ trainer ++ prgBytes ++ chrBytes ++ rest.

(** The PPU bus of the machine around given memories. *)
Definition video_bus (chr : ROM.t) (vram pal : RAM.t) : list MemDevice :=
  Bus.new [MROM chr; MRAM vram; MRAM pal].

(** Memories placed where the machine places them: the pattern ROM at
    0x0000, the name-table RAM of 4 KiB at 0x2000 and the palette RAM of
    32 bytes at 0x3F00. *)
Definition video_memory (chr : ROM.t) (vram pal : RAM.t) : Prop :=
  Addressable.startAddress (ROM.hdr chr) = 0 /\
  RAM.hdr vram = RAM.hdr NES.vram /\ RAM.hdr pal = RAM.hdr NES.paletteRAM /\
  ram_wf vram /\ ram_wf pal.

(** The cell of video RAM that an address from 0x2000 upwards stands
    for: the name tables repeat every 0x1000 up to 0x3EFF and the palette
    every 0x20 from 0x3F00 on. *)
Definition video_cell (address : Z) : Z :=
  if address <? 0x3F00 then 0x2000 + (address - 0x2000) mod 0x1000
  else 0x3F00 + (address - 0x3F00) mod 0x20.

(** What a tick of the PPU leaves alone, between a state [p] and a later
    state [q]: the VRAM address and a pending first PPUADDR write, the
    memories on the PPU bus, the seven registers other than PPUSTATUS,
    the size of the frame buffer and the fourth byte (alpha) of each of
    its pixels. *)
Definition tick_frame (p q : PPU.t) : Prop :=
  PPU.vramAddress q = PPU.vramAddress p /\
  PPU.vramAddressLatch q = PPU.vramAddressLatch p /\
  PPU.ppuBus q = PPU.ppuBus p /\
  (forall k, 0 <= k < 8 -> k <> 2 ->
     PPU.getRegister (PPU.REGISTER_START_ADDRESS + k) q
     = PPU.getRegister (PPU.REGISTER_START_ADDRESS + k) p) /\
  length (PPU.imageBytes q) = length (PPU.imageBytes p) /\
  (forall i : nat, Z.of_nat i mod 4 = 3 ->
     PPU.imageBytes q !! i = PPU.imageBytes p !! i).

(** The registers hold what the registers of a 6502 can hold: a byte
    each, and an address of 16 bits in the program counter. *)
Definition registers_ok (c : CPU.t) : Prop :=
  0 <= CPU.a c < 256 /\ 0 <= CPU.x c < 256 /\ 0 <= CPU.y c < 256 /\
  0 <= CPU.p c < 256 /\ 0 <= CPU.sp c < 256 /\ 0 <= CPU.pc c < 65536.

(** A CPU on a bus that maps every address, with its registers in
    range. *)
Definition cpu_ok (c : CPU.t) : Prop :=
  covers (CPU.cpuBus c) /\ registers_ok c.

(** [n] calls of [CPU.tick], as the clock makes them. *)
Fixpoint cpu_ticks (n : nat) : CPU.M unit :=
  match n with
  | O => CPU.ret tt
  | S n' => CPU.bind CPU.tick (fun _ => cpu_ticks n')
  end.

(** The method [m] returns on every CPU that is [cpu_ok], leaves it
    [cpu_ok], and its result satisfies [Q]. *)
Definition safe {A : Type} (m : CPU.M A) (Q : A -> Prop) : Prop :=
  forall c, cpu_ok c -> exists v c', m c = Ok (v, c') /\ cpu_ok c' /\ Q v.

(** A byte that a read found. *)
Definition is_byte (v : option Z) : Prop :=
  exists b, v = Some b /\ 0 <= b < 256.

(** An address that an addressing mode computed. *)
Definition is_address (v : option Z) : Prop :=
  exists address, v = Some address /\ 0 <= address.

(** An address of 16 bits. *)
Definition word (v : Z) : Prop := 0 <= v < 65536.

(** The byte that the bus returns at [address] if the region that
    answers there is a ROM. No access to the bus changes it: a read
    changes no ROM and [ROM.write] only logs. *)
Fixpoint rom_read (bus : list CpuDevice) (address : Z) : option Z :=
  match bus with
  | [] => None
  | d :: rest =>
      if address <? Bus.start d then rom_read rest address
      else
        match d with
        | CMem (MROM r) => Some (ROM.read address r)
        | _ => None
        end
  end.

(** The bytes [bytes] lie in ROM from [address] on. *)
Fixpoint code_at (bus : list CpuDevice) (address : Z) (bytes : list Z) : bool :=
  match bytes with
  | [] => true
  | b :: rest =>
      match rom_read bus address with
      | Some v => (v =? b) && code_at bus (address + 1) rest
      | None => false
      end
  end.

(** The CPU bus of the machine around a given program ROM, and a CPU on
    it: the program is loaded at 0x8000 as [Cartridge.load] does, and the
    program counter is at [pc]. *)
Definition rom_bus (prg : ROM.t) : list CpuDevice :=
  Bus.new [CMem (MRAM NES.ram); CPPU NES.ppu; CMem (MBase NES.apu);
           CController NES.controller1; CController NES.controller2;
           CMem (MBase NES.disabledIO); CMem (MROM prg)].

Definition cartridge_cpu (program : list Z) (pc : Z) : CPU.t :=
  CPU.set__pc pc (CPU.new (rom_bus (ROM.load 0x8000 program NES.prg))).

(** No interrupt is pending. *)
Definition no_interrupt (c : CPU.t) : Prop :=
  CPU.pendingIRQ c = false /\ CPU.pendingNMI c = false.

(** The conditional branches: the opcode, the bit of [p] that it tests
    and the value of the bit for which it branches (BCC, BCS, BEQ, BMI,
    BNE, BPL, BVC, BVS). *)
Definition branches : list (Z * Z * bool) :=
  [ (0x90, CPU.STATUS_FLAG_BIT_CARRY, false);
    (0xb0, CPU.STATUS_FLAG_BIT_CARRY, true);
    (0xf0, CPU.STATUS_FLAG_BIT_ZERO, true);
    (0x30, CPU.STATUS_FLAG_BIT_NEGATIVE, true);
    (0xd0, CPU.STATUS_FLAG_BIT_ZERO, false);
    (0x10, CPU.STATUS_FLAG_BIT_NEGATIVE, false);
    (0x50, CPU.STATUS_FLAG_BIT_OVERFLOW, false);
    (0x70, CPU.STATUS_FLAG_BIT_OVERFLOW, true) ].

(** The state that [execute] leaves, for a state on which it returns. *)
Definition after_execute (c : CPU.t) : CPU.t :=
  match CPU.execute c with
  | Ok (_, c') => c'
  | Throw _ => c
  end.

(** * Properties *)

(** ** Facts about the JavaScript operators *)

Section JSFacts.

Lemma to_int32_id (z : Z) : - 2 ^ 31 <= z < 2 ^ 31 -> JS.to_int32 z = z.
Proof.
  intros Hz. unfold JS.to_int32.
  rewrite Z.mod_small by lia. lia.
Qed.

(** The wrap keeps the low 32 bits. *)
Lemma to_int32_testbit (z i : Z) :
  0 <= i < 32 -> Z.testbit (JS.to_int32 z) i = Z.testbit z i.
Proof.
  intros Hi. unfold JS.to_int32.
  replace ((z + 2 ^ 31) mod 2 ^ 32 - 2 ^ 31)
    with (z + 2 ^ 32 * (- ((z + 2 ^ 31) / 2 ^ 32))).
  2:{ pose proof (Z.div_mod (z + 2 ^ 31) (2 ^ 32) ltac:(lia)). lia. }
  set (k := - ((z + 2 ^ 31) / 2 ^ 32)).
  rewrite <- (Z.mod_pow2_bits_low (z + 2 ^ 32 * k) 32 i) by lia.
  rewrite <- (Z.mod_pow2_bits_low z 32 i) by lia.
  f_equal. rewrite (Z.mul_comm (2 ^ 32) k). apply Z_mod_plus_full.
Qed.

Lemma to_int32_mod (z k : Z) :
  0 <= k <= 32 -> JS.to_int32 z mod 2 ^ k = z mod 2 ^ k.
Proof.
  intros Hk. apply Z.bits_inj'. intros i Hi.
  rewrite !Z.testbit_mod_pow2 by lia.
  destruct (Z.ltb_spec i k); simpl; [|reflexivity].
  apply to_int32_testbit. lia.
Qed.

(** Masking with [0xff] or [0xffff] is the remainder modulo 256 or
    65536, whatever the operand. *)
Lemma band_ff_l (z : Z) : JS.band 0xff z = z mod 256.
Proof.
  unfold JS.band. rewrite (to_int32_id 0xff) by lia.
  rewrite Z.land_comm. change 0xff with (Z.ones 8).
  rewrite Z.land_ones by lia. apply (to_int32_mod z 8). lia.
Qed.

Lemma band_ffff_l (z : Z) : JS.band 0xffff z = z mod 65536.
Proof.
  unfold JS.band. rewrite (to_int32_id 0xffff) by lia.
  rewrite Z.land_comm. change 0xffff with (Z.ones 16).
  rewrite Z.land_ones by lia. apply (to_int32_mod z 16). lia.
Qed.

Lemma shl_1 (i : Z) : 0 <= i <= 30 -> JS.shl 1 i = 2 ^ i.
Proof.
  intros Hi. unfold JS.shl.
  rewrite (to_int32_id 1) by lia.
  assert (Z.land i 31 = i) as ->.
  { change 31 with (Z.ones 5). rewrite Z.land_ones by lia.
    apply Z.mod_small. lia. }
  rewrite Z.shiftl_1_l. apply to_int32_id.
  pose proof (Z.pow_le_mono_r 2 i 30 ltac:(lia) ltac:(lia)).
  pose proof (Z.pow_pos_nonneg 2 i ltac:(lia) ltac:(lia)). lia.
Qed.

Lemma land_pow2 (z i : Z) :
  0 <= i -> Z.land z (2 ^ i) = if Z.testbit z i then 2 ^ i else 0.
Proof.
  intros Hi. apply Z.bits_inj'. intros j Hj.
  rewrite Z.land_spec, Z.pow2_bits_eqb by lia.
  destruct (Z.eqb_spec i j) as [->|Hne].
  - destruct (Z.testbit z j); simpl.
    + symmetry. apply Z.pow2_bits_true. lia.
    + symmetry. apply Z.bits_0.
  - rewrite andb_false_r. destruct (Z.testbit z i).
    + symmetry. apply Z.pow2_bits_false. lia.
    + symmetry. apply Z.bits_0.
Qed.

(** [getBit] reads one bit of its operand. *)
Lemma getBit_testbit (byte i : Z) :
  0 <= i <= 30 -> Util.getBit byte i = Z.b2z (Z.testbit byte i).
Proof.
  intros Hi. unfold Util.getBit, JS.truthy, JS.band.
  rewrite shl_1 by lia.
  assert (- 2 ^ 31 <= 2 ^ i < 2 ^ 31) as Hr.
  { pose proof (Z.pow_le_mono_r 2 i 30 ltac:(lia) ltac:(lia)).
    pose proof (Z.pow_pos_nonneg 2 i ltac:(lia) ltac:(lia)). lia. }
  rewrite (to_int32_id (2 ^ i)) by exact Hr.
  rewrite land_pow2 by lia.
  rewrite to_int32_testbit by lia.
  destruct (Z.testbit byte i); simpl.
  - destruct (Z.eqb_spec (2 ^ i) 0); [lia | reflexivity].
  - reflexivity.
Qed.

Lemma setBit_testbit (byte i j : Z) (bit : bool) :
  0 <= i <= 30 -> 0 <= j < 32 ->
  Z.testbit (Util.setBit byte i bit) j =
  if i =? j then bit else Z.testbit byte j.
Proof.
  intros Hi Hj. unfold Util.setBit, JS.bor, JS.band, JS.bnot.
  rewrite shl_1 by lia.
  assert (- 2 ^ 31 <= 2 ^ i < 2 ^ 31) as Hr.
  { pose proof (Z.pow_le_mono_r 2 i 30 ltac:(lia) ltac:(lia)).
    pose proof (Z.pow_pos_nonneg 2 i ltac:(lia) ltac:(lia)). lia. }
  rewrite (to_int32_id (2 ^ i)) by exact Hr.
  destruct bit.
  - rewrite Z.lor_spec, to_int32_testbit, Z.pow2_bits_eqb by lia.
    destruct (i =? j); [apply orb_true_r | apply orb_false_r].
  - rewrite (to_int32_id (Z.lnot (2 ^ i))).
    2:{ unfold Z.lnot. lia. }
    rewrite Z.land_spec, to_int32_testbit, Z.lnot_spec, Z.pow2_bits_eqb by lia.
    destruct (i =? j); [apply andb_false_r | apply andb_true_r].
Qed.

Lemma getBit_setBit (byte i j : Z) (bit : bool) :
  0 <= i <= 30 -> 0 <= j <= 30 ->
  Util.getBit (Util.setBit byte i bit) j =
  if i =? j then Z.b2z bit else Util.getBit byte j.
Proof.
  intros Hi Hj. rewrite !getBit_testbit, setBit_testbit by lia.
  destruct (i =? j); reflexivity.
Qed.

End JSFacts.

(** ** Exhaustive checks over bytes *)

Section Bytes.

Lemma all_bytes_complete (b : Z) : 0 <= b < 256 -> In b all_bytes.
Proof.
  intros Hb. unfold all_bytes.
  replace b with (Z.of_nat (Z.to_nat b)) by lia.
  apply in_map, in_seq. lia.
Qed.

Lemma forall_bytes (P : Z -> bool) :
  forallb P all_bytes = true -> forall b, 0 <= b < 256 -> P b = true.
Proof.
  intros HP b Hb. rewrite forallb_forall in HP.
  apply HP, all_bytes_complete, Hb.
Qed.

End Bytes.

(** ** The iNES header ([Cartridge.parseHeader]) *)

Section CartridgeFacts.

(** The expression the code evaluates for the mapper number. *)
Lemma mapper_lo_expression (b6 : Z) :
  0 <= b6 < 256 ->
  JS.to_int32 (JS.shl (JS.band b6 Cartridge.HEADER_FLAGS_6_MASK_MAPPER_LO) 0)
  = Z.shiftl (Z.shiftr b6 4) 4.
Proof.
  intros H6. apply Z.eqb_eq.
  apply (forall_bytes
           (fun b6 =>
              JS.to_int32 (JS.shl (JS.band b6 Cartridge.HEADER_FLAGS_6_MASK_MAPPER_LO) 0)
              =? Z.shiftl (Z.shiftr b6 4) 4)); [|assumption].
  vm_compute. reflexivity.
Qed.

Lemma mapper_hi_expression (b7 : Z) :
  0 <= b7 < 256 ->
  JS.to_int32 (JS.shl (JS.band b7 Cartridge.HEADER_FLAGS_7_MASK_MAPPER_HI) 4)
  = Z.shiftl (Z.land b7 0xF0) 4.
Proof.
  intros H7. apply Z.eqb_eq.
  apply (forall_bytes
           (fun b7 =>
              JS.to_int32 (JS.shl (JS.band b7 Cartridge.HEADER_FLAGS_7_MASK_MAPPER_HI) 4)
              =? Z.shiftl (Z.land b7 0xF0) 4)); [|assumption].
  vm_compute. reflexivity.
Qed.

Lemma mapper_expression (b6 b7 : Z) :
  0 <= b6 < 256 -> 0 <= b7 < 256 ->
  JS.bor (JS.shl (JS.band b6 Cartridge.HEADER_FLAGS_6_MASK_MAPPER_LO) 0)
         (JS.shl (JS.band b7 Cartridge.HEADER_FLAGS_7_MASK_MAPPER_HI) 4)
  = 16 * Spec.mapper b6 b7.
Proof.
  intros H6 H7. unfold JS.bor, Spec.mapper.
  rewrite mapper_lo_expression, mapper_hi_expression by assumption.
  rewrite <- Z.shiftl_lor, Z.shiftl_mul_pow2 by lia. lia.
Qed.

(** On every header that carries the magic bytes the parser succeeds and
    the mapper field is sixteen times the number the iNES layout
    defines: the low nibble is left in bits 7:4 and the high nibble is
    moved to bits 11:8. *)
Lemma parseHeader_mapper (buffer : list Z) (b6 b7 : Z) :
  take 4 buffer = Cartridge.HEADER_INES_DECLARATION ->
  buffer !! 6%nat = Some b6 ->
  buffer !! 7%nat = Some b7 ->
  0 <= b6 < 256 -> 0 <= b7 < 256 ->
  exists h, Cartridge.parseHeader buffer = Ok h /\
            Cartridge.mapper h = 16 * Spec.mapper b6 b7.
Proof.
  intros Hmagic H6 H7 Hb6 Hb7.
  unfold Cartridge.parseHeader. rewrite Hmagic.
  change (negb (Util.compareBytes Cartridge.HEADER_INES_DECLARATION
                                  Cartridge.HEADER_INES_DECLARATION)) with false.
  cbv iota. eexists. split; [reflexivity|].
  cbn [Cartridge.mapper]. unfold Cartridge.masked.
  rewrite H6, H7. cbn [JS.num default].
  apply mapper_expression; assumption.
Qed.

Lemma parseHeader_mapper_witness :
  exists h, Cartridge.parseHeader
              [0x4e; 0x45; 0x53; 0x1a; 2; 1; 0x41; 0x00; 0; 0; 0; 0; 0; 0; 0; 0] = Ok h /\
            Cartridge.mapper h = 16 * Spec.mapper 0x41 0x00.
Proof.
  apply (parseHeader_mapper _ 0x41 0x00); [reflexivity | reflexivity | reflexivity | lia | lia].
Defined.

(** C8 (the code contradicts the claim). The header [NES\x1A], two PRG
    banks, one CHR bank, byte 6 = 0x10, byte 7 = 0x00 declares mapper 1:
    [(byte6 >> 4) | (byte7 & 0xF0) = 1]. [parseHeader] accepts the
    header and stores 16 in the mapper field, because it shifts the
    masked byte 6 by 0 instead of right by 4 and the masked byte 7 left
    by 4 instead of by 0. *)
Theorem parseHeader_mapper_not_ines :
  let buffer := [0x4e; 0x45; 0x53; 0x1a; 2; 1; 0x10; 0x00; 0; 0; 0; 0; 0; 0; 0; 0] in
  take 4 buffer = Cartridge.HEADER_INES_DECLARATION /\
  Spec.mapper 0x10 0x00 = 1 /\
  exists h, Cartridge.parseHeader buffer = Ok h /\ Cartridge.mapper h = 16.
Proof.
  cbv zeta. split; [reflexivity|]. split; [reflexivity|].
  eexists. split; [vm_compute; reflexivity | reflexivity].
Qed.

End CartridgeFacts.

(** ** The bus ([Bus.reset], [Bus.read], [Bus.write]) *)

Section BusFacts.
Context {D : Type} `{Device D}.

Lemma insert_desc_perm (x : D) (l : list D) :
  Permutation (Bus.insert_desc x l) (x :: l).
Proof.
  induction l as [|y l IH]; simpl.
  - reflexivity.
  - destruct (Bus.start y <=? Bus.start x).
    + reflexivity.
    + rewrite IH. apply perm_swap.
Qed.

Lemma reset_perm (l : list D) : Permutation (Bus.reset l) l.
Proof.
  induction l as [|x l IH]; simpl.
  - reflexivity.
  - rewrite insert_desc_perm. constructor. exact IH.
Qed.

Lemma insert_desc_sorted (x : D) (l : list D) :
  StronglySorted desc l -> StronglySorted desc (Bus.insert_desc x l).
Proof.
  induction 1 as [|y l Hs IH Hy]; simpl.
  - constructor; constructor.
  - destruct (Z.leb_spec (Bus.start y) (Bus.start x)) as [Hle|Hgt].
    + constructor; [constructor; assumption|].
      constructor; [exact Hle|].
      rewrite List.Forall_forall in Hy |- *. intros z Hz.
      specialize (Hy z Hz). unfold desc in *. lia.
    + constructor; [exact IH|].
      rewrite List.Forall_forall in Hy |- *. intros z Hz.
      apply (Permutation_in _ (insert_desc_perm x l)) in Hz.
      destruct Hz as [<-|Hz]; [unfold desc; lia | auto].
Qed.

(** After the constructor, or after [reset], the list is sorted. *)
Lemma reset_sorted (l : list D) : StronglySorted desc (Bus.reset l).
Proof.
  induction l as [|x l IH]; simpl.
  - constructor.
  - apply insert_desc_sorted, IH.
Qed.

(** No region starts at or below the address: the loops run to the end
    of the list. *)
Lemma read_unmapped (bus : list D) (address : Z) :
  Forall (fun d => address < Bus.start d) bus ->
  Bus.read bus address = (None, bus).
Proof.
  induction 1 as [|d bus Hd _ IH]; simpl.
  - reflexivity.
  - destruct (Z.ltb_spec address (Bus.start d)); [|lia].
    rewrite IH. reflexivity.
Qed.

Lemma write_unmapped (bus : list D) (address byte : Z) :
  Forall (fun d => address < Bus.start d) bus ->
  Bus.write bus address byte = (bus, []).
Proof.
  induction 1 as [|d bus Hd _ IH]; simpl.
  - reflexivity.
  - destruct (Z.ltb_spec address (Bus.start d)); [|lia].
    rewrite IH. reflexivity.
Qed.

(** The loops stop at the first region that starts at or below the
    address. *)
Lemma read_first (pre post : list D) (d : D) (address : Z) :
  Forall (fun x => address < Bus.start x) pre ->
  Bus.start d <= address ->
  Bus.read (pre ++ d :: post) address =
  (Some (fst (dev_read address d)), pre ++ snd (dev_read address d) :: post).
Proof.
  intros Hpre Hd. induction Hpre as [|x pre Hx _ IH]; simpl.
  - destruct (Z.ltb_spec address (Bus.start d)); [lia|].
    destruct (dev_read address d). reflexivity.
  - destruct (Z.ltb_spec address (Bus.start x)); [|lia].
    rewrite IH. reflexivity.
Qed.

Lemma write_first (pre post : list D) (d : D) (address byte : Z) :
  Forall (fun x => address < Bus.start x) pre ->
  Bus.start d <= address ->
  Bus.write (pre ++ d :: post) address byte =
  (pre ++ fst (dev_write address byte d) :: post, snd (dev_write address byte d)).
Proof.
  intros Hpre Hd. induction Hpre as [|x pre Hx _ IH]; simpl.
  - destruct (Z.ltb_spec address (Bus.start d)); [lia|].
    destruct (dev_write address byte d). reflexivity.
  - destruct (Z.ltb_spec address (Bus.start x)); [|lia].
    rewrite IH. reflexivity.
Qed.

End BusFacts.

(** On a bus of memories a read changes nothing and a write emits
    nothing. *)
Lemma mem_bus_read_pure (bus : list MemDevice) (address : Z) :
  snd (Bus.read bus address) = bus.
Proof.
  induction bus as [|d bus IH]; cbn [Bus.read]; [reflexivity|].
  destruct (address <? Bus.start d).
  - destruct (Bus.read bus address) as [v rest]. cbn [snd] in *. rewrite IH. reflexivity.
  - destruct d; reflexivity.
Qed.

Lemma mem_bus_write_silent (bus : list MemDevice) (address byte : Z) :
  snd (Bus.write bus address byte) = [].
Proof.
  induction bus as [|d bus IH]; cbn [Bus.write]; [reflexivity|].
  destruct (address <? Bus.start d).
  - destruct (Bus.write bus address byte) as [rest evs]. exact IH.
  - destruct d; reflexivity.
Qed.

Section BusOrder.
Context {D : Type} `{Device D}.

(** A list with a region at or below the address splits at the first
    such region. *)
Lemma first_mapped (bus : list D) (address : Z) :
  Exists (fun d => Bus.start d <= address) bus ->
  exists pre d post,
    bus = pre ++ d :: post /\
    Forall (fun x => address < Bus.start x) pre /\
    Bus.start d <= address.
Proof.
  induction bus as [|x bus IH]; intros Hex.
  - inversion Hex.
  - destruct (Z.le_gt_cases (Bus.start x) address) as [Hle|Hgt].
    + exists [], x, bus. split; [reflexivity|]. split; [constructor | exact Hle].
    + inversion Hex as [? ? Hx|? ? Hrest]; subst; [lia|].
      destruct (IH Hrest) as (pre & d & post & -> & Hpre & Hd).
      exists (x :: pre), d, post. split; [reflexivity|].
      split; [constructor; [lia | exact Hpre] | exact Hd].
Qed.

(** In a sorted list the first region at or below the address is the
    one with the greatest start address among them. *)
Lemma first_mapped_greatest (pre post : list D) (d : D) (address : Z) :
  StronglySorted desc (pre ++ d :: post) ->
  Forall (fun x => address < Bus.start x) pre ->
  forall x, In x (pre ++ d :: post) ->
            Bus.start x <= address -> Bus.start x <= Bus.start d.
Proof.
  intros Hs Hpre x Hx Hle.
  apply in_app_or in Hx. destruct Hx as [Hx|[<-|Hx]].
  - rewrite List.Forall_forall in Hpre. specialize (Hpre x Hx). lia.
  - lia.
  - induction pre as [|y pre IH]; simpl in Hs.
    + apply StronglySorted_inv in Hs. destruct Hs as [_ Hall].
      rewrite List.Forall_forall in Hall. apply (Hall x Hx).
    + apply StronglySorted_inv in Hs. destruct Hs as [Hs _].
      inversion Hpre; subst. auto.
Qed.

End BusOrder.

Section BusRouting.
Context {D : Type} `{Device D}.

(** The routing of both accesses. On a bus built by the constructor (or
    re-sorted by [reset]) from the regions [l]: when no region starts at
    or below the address, [read] returns [undefined] (not a byte) and
    changes nothing, and [write] changes nothing and emits nothing; otherwise
    both are served by one region [d] of [l], the first of the sorted
    list that starts at or below the address, which has the greatest
    start address among the regions that do, and no other region
    changes. *)
Theorem bus_access_routing (l : list D) (address byte : Z) :
  let bus := Bus.new l in
  (Forall (fun d => address < Bus.start d) l ->
     Bus.read bus address = (None, bus) /\
     Bus.write bus address byte = (bus, []))
  /\
  (Exists (fun d => Bus.start d <= address) l ->
     exists pre d post,
       bus = pre ++ d :: post /\
       In d l /\
       Bus.start d <= address /\
       (forall x, In x l -> Bus.start x <= address -> Bus.start x <= Bus.start d) /\
       Bus.read bus address =
         (Some (fst (dev_read address d)), pre ++ snd (dev_read address d) :: post) /\
       Bus.write bus address byte =
         (pre ++ fst (dev_write address byte d) :: post,
          snd (dev_write address byte d))).
Proof.
  cbv zeta. unfold Bus.new. split.
  - intros Hall.
    assert (Forall (fun d => address < Bus.start d) (Bus.reset l)) as Hall'.
    { apply (Permutation_Forall (Permutation_sym (reset_perm l))), Hall. }
    split; [apply read_unmapped | apply write_unmapped]; exact Hall'.
  - intros Hex.
    assert (Exists (fun d => Bus.start d <= address) (Bus.reset l)) as Hex'.
    { apply (Permutation_Exists (Permutation_sym (reset_perm l))), Hex. }
    destruct (first_mapped _ _ Hex') as (pre & d & post & Heq & Hpre & Hd).
    exists pre, d, post. rewrite Heq.
    split; [reflexivity|].
    split.
    { apply (Permutation_in _ (reset_perm l)). rewrite Heq.
      apply in_or_app. right. left. reflexivity. }
    split; [exact Hd|].
    split.
    { intros x Hx Hle.
      apply (first_mapped_greatest pre post d address); [| exact Hpre | | exact Hle].
      - rewrite <- Heq. apply reset_sorted.
      - rewrite <- Heq.
        apply (Permutation_in _ (Permutation_sym (reset_perm l))), Hx. }
    split; [apply read_first | apply write_first]; assumption.
Qed.

(** C9 (the code contradicts the claim for a read that no region
    answers). [Bus.read] has no [return] after its loop: on a bus built
    by the constructor from regions that all start above the address,
    the read returns [undefined], not the byte 0x00, and leaves the bus
    as it is. The write to such an address is dropped, and an address
    that some region answers is routed as the claim says
    ([bus_access_routing]). *)
Theorem bus_read_unmapped_is_undefined (l : list D) (address : Z) :
  Forall (fun d => address < Bus.start d) l ->
  let bus := Bus.new l in
  Bus.read bus address = (None, bus) /\
  fst (Bus.read bus address) <> Some 0x00.
Proof.
  intros Hall. cbv zeta. unfold Bus.new.
  assert (Forall (fun d => address < Bus.start d) (Bus.reset l)) as Hall'.
  { apply (Permutation_Forall (Permutation_sym (reset_perm l))), Hall. }
  rewrite (read_unmapped _ _ Hall'). split; [reflexivity | discriminate].
Qed.

End BusRouting.

Section BusExamples.

Let io_bus : list MemDevice := [MBase NES.apu; MBase NES.disabledIO].

Lemma bus_access_routing_witness :
  (Bus.read (Bus.new io_bus) 0x2000 = (None, Bus.new io_bus) /\
   Bus.write (Bus.new io_bus) 0x2000 0x55 = (Bus.new io_bus, []))
  /\
  (exists pre d post,
     Bus.new io_bus = pre ++ d :: post /\
     In d io_bus /\
     Bus.start d <= 0x4016 /\
     (forall x, In x io_bus -> Bus.start x <= 0x4016 -> Bus.start x <= Bus.start d) /\
     Bus.read (Bus.new io_bus) 0x4016 =
       (Some (fst (dev_read 0x4016 d)), pre ++ snd (dev_read 0x4016 d) :: post) /\
     Bus.write (Bus.new io_bus) 0x4016 0x55 =
       (pre ++ fst (dev_write 0x4016 0x55 d) :: post,
        snd (dev_write 0x4016 0x55 d))).
Proof.
  split.
  - apply (proj1 (bus_access_routing io_bus 0x2000 0x55)).
    repeat constructor.
  - apply (proj2 (bus_access_routing io_bus 0x4016 0x55)).
    apply Exists_cons_hd. vm_compute. discriminate.
Defined.

Lemma bus_read_unmapped_is_undefined_witness :
  Bus.read (Bus.new io_bus) 0x2000 = (None, Bus.new io_bus) /\
  fst (Bus.read (Bus.new io_bus) 0x2000) <> Some 0x00.
Proof.
  apply (bus_read_unmapped_is_undefined io_bus 0x2000).
  repeat constructor.
Defined.

End BusExamples.


(** ** Typed arrays *)

Section TypedArrayFacts.

Lemma rem_nonneg (a n : Z) :
  0 <= a -> 0 < n -> JS.rem a n = Some (a mod n).
Proof.
  intros Ha Hn. unfold JS.rem.
  destruct (Z.eqb_spec n 0); [lia|].
  rewrite Z.rem_mod_nonneg by lia. reflexivity.
Qed.

Lemma ta_set_length (l : list Z) (i v : option Z) :
  length (JS.ta_set l i v) = length l.
Proof.
  unfold JS.ta_set. destruct i as [z|]; [|reflexivity].
  destruct (0 <=? z); [apply length_insert | reflexivity].
Qed.

Lemma ta_get_set_eq (l : list Z) (z : Z) (v : option Z) :
  0 <= z < Z.of_nat (length l) ->
  JS.ta_get (JS.ta_set l (Some z) v) (Some z) = Some (JS.num v mod 256).
Proof.
  intros Hz. unfold JS.ta_get, JS.ta_set.
  destruct (Z.leb_spec 0 z); [|lia].
  apply list_lookup_insert_eq. lia.
Qed.

Lemma ta_get_set_ne (l : list Z) (z z' : Z) (v : option Z) :
  0 <= z -> 0 <= z' -> z <> z' ->
  JS.ta_get (JS.ta_set l (Some z) v) (Some z') = JS.ta_get l (Some z').
Proof.
  intros Hz Hz' Hne. unfold JS.ta_get, JS.ta_set.
  destruct (Z.leb_spec 0 z); [|lia].
  destruct (Z.leb_spec 0 z'); [|lia].
  apply list_lookup_insert_ne. lia.
Qed.

(** Two offsets below the period that land on the same index are the
    same offset. *)
Lemma mod_offset_inj (c n i j : Z) :
  0 <= i < n -> 0 <= j < n -> (c + i) mod n = (c + j) mod n -> i = j.
Proof.
  intros Hi Hj Heq.
  pose proof (Z.div_mod (c + i) n ltac:(lia)) as Di.
  pose proof (Z.div_mod (c + j) n ltac:(lia)) as Dj.
  rewrite Heq in Di.
  assert (i - j = n * ((c + i) / n - (c + j) / n)) as Hd by lia.
  assert ((c + i) / n - (c + j) / n = 0) by nia.
  lia.
Qed.

End TypedArrayFacts.

(** ** The ROM region ([ROM.load], [ROM.read]) *)

Section ROMFacts.

Lemma setByte_hdr (address : Z) (byte : option Z) (r : ROM.t) :
  ROM.hdr (ROM.setByte address byte r) = ROM.hdr r.
Proof. reflexivity. Qed.

Lemma setByte_bytes (address : Z) (byte : option Z) (r : ROM.t) :
  Addressable.startAddress (ROM.hdr r) <= address ->
  0 < Addressable.actualSize (ROM.hdr r) ->
  ROM.bytes (ROM.setByte address byte r) =
  JS.ta_set (ROM.bytes r) (Some (rom_index r address)) byte.
Proof.
  intros Ha Hn. unfold ROM.setByte. cbn [ROM.bytes].
  rewrite rem_nonneg by lia. reflexivity.
Qed.

(** The loop of [load], started at offset [i] with [rest] still to copy:
    it keeps the header, stores the bytes of [rest] at the indices of the
    addresses [s + i], [s + i + 1], ... and leaves every other index as it
    was. *)
Lemma load_loop_spec (s : Z) (rest : list Z) :
  forall (i : Z) (r : ROM.t),
    let n := Addressable.actualSize (ROM.hdr r) in
    Addressable.startAddress (ROM.hdr r) <= s ->
    0 <= i ->
    i + Z.of_nat (length rest) <= n ->
    n <= Z.of_nat (length (ROM.bytes r)) ->
    let r' := ROM.load_loop s i rest r in
    ROM.hdr r' = ROM.hdr r /\
    length (ROM.bytes r') = length (ROM.bytes r) /\
    (forall (k : nat) (b : Z),
        rest !! k = Some b ->
        JS.ta_get (ROM.bytes r') (Some (rom_index r (s + (i + Z.of_nat k)))) =
        Some (b mod 256)) /\
    (forall q : Z,
        0 <= q ->
        (forall k : nat, (k < length rest)%nat -> q <> rom_index r (s + (i + Z.of_nat k))) ->
        JS.ta_get (ROM.bytes r') (Some q) = JS.ta_get (ROM.bytes r) (Some q)).
Proof.
  induction rest as [|b rest IH]; intros i r n Hs Hi Hlen Hcap r'.
  - subst r'. cbn [ROM.load_loop].
    split; [reflexivity|]. split; [reflexivity|]. split.
    + intros k b' Hk. rewrite lookup_nil in Hk. discriminate.
    + reflexivity.
  - subst r'. cbn [ROM.load_loop]. cbn [length] in Hlen.
    set (r1 := ROM.setByte (s + i) (Some b) r).
    assert (0 < n) as Hn by lia.
    assert (ROM.hdr r1 = ROM.hdr r) as Hh1 by reflexivity.
    assert (ROM.bytes r1 = JS.ta_set (ROM.bytes r) (Some (rom_index r (s + i))) (Some b)) as Hb1.
    { apply setByte_bytes; [lia | exact Hn]. }
    assert (forall a, rom_index r1 a = rom_index r a) as Hidx.
    { intros a. unfold rom_index. rewrite Hh1. reflexivity. }
    assert (forall a, 0 <= rom_index r a < n) as Hrange.
    { intros a. unfold rom_index. apply Z.mod_pos_bound. exact Hn. }
    destruct (IH (i + 1) r1) as (IHh & IHl & IHget & IHframe).
    { rewrite Hh1. exact Hs. }
    { lia. }
    { rewrite Hh1. fold n. lia. }
    { rewrite Hh1, Hb1, ta_set_length. exact Hcap. }
    split; [rewrite IHh; exact Hh1|].
    split; [rewrite IHl, Hb1; apply ta_set_length|].
    split.
    + intros k b' Hk. destruct k as [|k].
      * injection Hk as ->.
        replace (i + Z.of_nat 0) with i by lia.
        rewrite IHframe.
        { rewrite Hb1. apply (ta_get_set_eq _ _ (Some b')).
          specialize (Hrange (s + i)). lia. }
        { specialize (Hrange (s + i)). lia. }
        intros k Hk' Heq. rewrite Hidx in Heq.
        unfold rom_index in Heq. fold n in Heq.
        replace (s + i - Addressable.startAddress (ROM.hdr r))
          with ((s - Addressable.startAddress (ROM.hdr r)) + i) in Heq by lia.
        replace (s + (i + 1 + Z.of_nat k) - Addressable.startAddress (ROM.hdr r))
          with ((s - Addressable.startAddress (ROM.hdr r)) + (i + 1 + Z.of_nat k)) in Heq by lia.
        apply mod_offset_inj in Heq; lia.
      * cbn [lookup] in Hk.
        specialize (IHget k b' Hk). rewrite Hidx in IHget.
        replace (i + Z.of_nat (S k)) with (i + 1 + Z.of_nat k) by lia.
        exact IHget.
    + intros q Hq Hne.
      rewrite IHframe; [| exact Hq |].
      * rewrite Hb1. apply ta_get_set_ne; [| exact Hq |].
        { specialize (Hrange (s + i)). lia. }
        specialize (Hne 0%nat ltac:(cbn [length]; lia)).
        replace (i + Z.of_nat 0) with i in Hne by lia. congruence.
      * intros k Hk. rewrite Hidx.
        specialize (Hne (S k) ltac:(cbn [length]; lia)).
        replace (i + Z.of_nat (S k)) with (i + 1 + Z.of_nat k) in Hne by lia.
        exact Hne.
Qed.

End ROMFacts.

Section ROMLoad.

Variables (r : ROM.t) (s : Z) (bs : list Z).
Hypothesis bs_nonempty : bs <> [].
Hypothesis bs_bytes : Forall (fun b => 0 <= b < 256) bs.
Hypothesis s_in_region : Addressable.startAddress (ROM.hdr r) <= s.
Hypothesis bs_fits : (length bs <= length (ROM.bytes r))%nat.

Local Abbreviation n := (Z.of_nat (length bs)).
Local Abbreviation r' := (ROM.load s bs r).

Lemma load_n_pos : 0 < n.
Proof.
  destruct bs; [contradiction | cbn [length]; lia].
Qed.

Lemma load_hdr :
  ROM.hdr r' = Addressable.set_actualSize n (ROM.hdr r).
Proof.
  unfold ROM.load.
  apply (load_loop_spec s bs 0
           (ROM.mk (Addressable.set_actualSize (Z.of_nat (length bs)) (ROM.hdr r))
                   (ROM.bytes r))); cbn; lia.
Qed.

Lemma load_read_at (i : nat) (b : Z) :
  bs !! i = Some b -> ROM.read (s + Z.of_nat i) r' = b.
Proof.
  intros Hi. pose proof load_n_pos as Hn.
  assert (0 <= b < 256) as Hb.
  { rewrite Forall_lookup in bs_bytes. apply (bs_bytes i b Hi). }
  unfold ROM.read. rewrite load_hdr.
  cbn [Addressable.set_actualSize Addressable.startAddress Addressable.actualSize].
  rewrite rem_nonneg by lia.
  set (r1 := ROM.mk (Addressable.set_actualSize n (ROM.hdr r)) (ROM.bytes r)).
  destruct (load_loop_spec s bs 0 r1) as (_ & _ & Hget & _); [cbn; lia ..|].
  specialize (Hget i b Hi). unfold rom_index, r1 in Hget.
  cbn [ROM.hdr Addressable.set_actualSize Addressable.startAddress
       Addressable.actualSize] in Hget.
  replace (s + Z.of_nat i - Addressable.startAddress (ROM.hdr r))
    with (s + (0 + Z.of_nat i) - Addressable.startAddress (ROM.hdr r)) by lia.
  unfold ROM.load. rewrite Hget.
  change (JS.num (Some (b mod 256))) with (b mod 256). rewrite band_ff_l.
  rewrite Z.mod_mod by lia. apply Z.mod_small, Hb.
Qed.

Lemma load_read_periodic (address : Z) :
  Addressable.startAddress (ROM.hdr r) <= address ->
  ROM.read (address + n) r' = ROM.read address r'.
Proof.
  intros Ha. pose proof load_n_pos as Hn.
  unfold ROM.read. rewrite load_hdr.
  cbn [Addressable.set_actualSize Addressable.startAddress Addressable.actualSize].
  rewrite !rem_nonneg by lia.
  replace (address + n - Addressable.startAddress (ROM.hdr r))
    with (address - Addressable.startAddress (ROM.hdr r) + 1 * n) by lia.
  rewrite Z_mod_plus_full. reflexivity.
Qed.

End ROMLoad.

(** C10, as amended: the array must fit the buffer the region allocated
    when it was built. For a non-empty array [bs] of bytes, no longer than
    that buffer, loaded at an address [s] at or above the start of the
    region: [actualSize] becomes the length of [bs]; [read (s + i)]
    returns [bs[i]] for every [i] below that length; reads repeat with
    that period from the start of the region upwards; and for the program
    ROM (start 0x4020) loaded at 0x8000 with 16 KiB, the read of the reset
    vector at 0xFFFC returns byte 0x3FFC of the array. *)
Theorem rom_load_then_read (r : ROM.t) (s : Z) (bs : list Z) :
  bs <> [] ->
  Forall (fun b => 0 <= b < 256) bs ->
  Addressable.startAddress (ROM.hdr r) <= s ->
  (length bs <= length (ROM.bytes r))%nat ->
  let n := Z.of_nat (length bs) in
  let r' := ROM.load s bs r in
  Addressable.actualSize (ROM.hdr r') = n /\
  (forall (i : nat) (b : Z), bs !! i = Some b -> ROM.read (s + Z.of_nat i) r' = b) /\
  (forall address : Z,
      Addressable.startAddress (ROM.hdr r) <= address ->
      ROM.read (address + n) r' = ROM.read address r') /\
  (Addressable.startAddress (ROM.hdr r) = 0x4020 -> s = 0x8000 -> n = 0x4000 ->
   forall b : Z, bs !! Z.to_nat 0x3FFC = Some b -> ROM.read 0xFFFC r' = b).
Proof.
  intros Hne Hbytes Hs Hfits n r'.
  split; [subst r' n; rewrite load_hdr by assumption; reflexivity|].
  split; [intros i b Hi; apply load_read_at; assumption|].
  split; [intros a Ha; apply load_read_periodic; assumption|].
  intros Hstart -> Hn b Hb.
  replace 0xFFFC with (0x8000 + Z.of_nat (Z.to_nat 0x3FFC) + n) by lia.
  subst r' n. rewrite load_read_periodic by (assumption || lia).
  apply load_read_at; assumption.
Qed.

Lemma rom_load_then_read_witness :
  let r := ROM.new 0x10 0x17 None in
  let bs := [0xA9; 0x42; 0xEA; 0x00] in
  let r' := ROM.load 0x12 bs r in
  Addressable.actualSize (ROM.hdr r') = 4 /\
  (forall (i : nat) (b : Z), bs !! i = Some b -> ROM.read (0x12 + Z.of_nat i) r' = b) /\
  (forall address : Z,
      Addressable.startAddress (ROM.hdr r) <= address ->
      ROM.read (address + 4) r' = ROM.read address r') /\
  (Addressable.startAddress (ROM.hdr r) = 0x4020 -> 0x12 = 0x8000 -> 4 = 0x4000 ->
   forall b : Z, bs !! Z.to_nat 0x3FFC = Some b -> ROM.read 0xFFFC r' = b).
Proof.
  apply (rom_load_then_read (ROM.new 0x10 0x17 None) 0x12 [0xA9; 0x42; 0xEA; 0x00]).
  - discriminate.
  - repeat constructor; lia.
  - vm_compute. discriminate.
  - vm_compute. lia.
Defined.

(** The program ROM of the machine, as [NES] builds it, holds a 16 KiB
    image: the image is read back at 0x8000 and again at 0xC000. *)
Lemma prg_capacity : Z.of_nat (length (ROM.bytes NES.prg)) = 0xBFE0.
Proof.
  unfold NES.prg, ROM.new, JS.ta_new. cbn [ROM.bytes].
  rewrite length_replicate.
  change (Addressable.actualSize (Addressable.new 0x4020 0xffff None)) with 0xBFE0.
  lia.
Qed.

Lemma prg_nrom128_mirror (bs : list Z) (i : nat) (b : Z) :
  Z.of_nat (length bs) = 0x4000 ->
  Forall (fun b => 0 <= b < 256) bs ->
  bs !! i = Some b ->
  let r' := ROM.load Cartridge.PRG_START_ADDRESS bs NES.prg in
  ROM.read (0x8000 + Z.of_nat i) r' = b /\ ROM.read (0xC000 + Z.of_nat i) r' = b.
Proof.
  intros Hlen Hbytes Hi r'.
  assert (bs <> []) as Hne by (intros ->; discriminate).
  assert (Addressable.startAddress (ROM.hdr NES.prg) <= Cartridge.PRG_START_ADDRESS) as Hs
      by (vm_compute; discriminate).
  assert (length bs <= length (ROM.bytes NES.prg))%nat as Hfits.
  { pose proof prg_capacity. lia. }
  split.
  - apply (load_read_at NES.prg Cartridge.PRG_START_ADDRESS bs); assumption.
  - replace (0xC000 + Z.of_nat i)
      with (0x8000 + Z.of_nat i + Z.of_nat (length bs)) by lia.
    subst r'. rewrite load_read_periodic; [| assumption.. |].
    + apply (load_read_at NES.prg Cartridge.PRG_START_ADDRESS bs); assumption.
    + change (Addressable.startAddress (ROM.hdr NES.prg)) with 0x4020. lia.
Qed.

(** The same through [Cartridge.load]: the loader cuts the PRG bank out
    of the image and loads it at 0x8000. *)
Lemma cartridge_nrom128_mirror (prgBytes chrBytes : list Z) (i : nat) (b : Z) :
  Z.of_nat (length prgBytes) = 0x4000 ->
  Forall (fun b => 0 <= b < 256) prgBytes ->
  prgBytes !! i = Some b ->
  exists h chr' prg',
    Cartridge.load (nrom128_header ++ prgBytes ++ chrBytes) NES.chr NES.prg
      = Ok (h, chr', prg') /\
    ROM.read (0x8000 + Z.of_nat i) prg' = b /\
    ROM.read (0xC000 + Z.of_nat i) prg' = b.
Proof.
  intros Hlen Hbytes Hi.
  set (buffer := nrom128_header ++ prgBytes ++ chrBytes).
  assert (Cartridge.parseHeader (take 16 buffer) =
          Cartridge.parseHeader nrom128_header) as Hhdr by reflexivity.
  assert (Z.of_nat (length buffer) = 16 + 0x4000 + Z.of_nat (length chrBytes)) as Hn.
  { subst buffer. rewrite !length_app, !Nat2Z.inj_add, Hlen.
    change (Z.of_nat (length nrom128_header)) with 16. lia. }
  assert (Cartridge.slice buffer (Some 16) (Some (16 + 16384)) = prgBytes) as Hslice.
  { unfold Cartridge.slice.
    change (JS.num (Some 16)) with 16.
    change (JS.num (Some (16 + 16384))) with (16 + 16384). rewrite Hn.
    replace (Z.min (Z.max 0 16) (16 + 0x4000 + Z.of_nat (length chrBytes))) with 16 by lia.
    replace (Z.min (Z.max 0 (16 + 16384)) (16 + 0x4000 + Z.of_nat (length chrBytes)))
      with (16 + 0x4000) by lia.
    replace (16 + 0x4000 - 16) with (Z.of_nat (length prgBytes)) by lia.
    rewrite Nat2Z.id. subst buffer.
    change (drop (Z.to_nat 16) (nrom128_header ++ prgBytes ++ chrBytes))
      with (prgBytes ++ chrBytes).
    apply take_app_length. }
  unfold Cartridge.load. rewrite Hhdr.
  change (Cartridge.parseHeader nrom128_header)
    with (Ok (Cartridge.mkHeader (Some 16384) (Some 8192) false false false false false
                                 0 false false 0 Cartridge.horizontal Cartridge.ntsc)).
  cbv iota beta. cbn [Cartridge.trainer Cartridge.prgSize Cartridge.chrSize Cartridge.add_nan].
  change (16 + 0) with 16. rewrite Hslice.
  eexists _, _, _. split; [reflexivity|].
  apply prg_nrom128_mirror; assumption.
Qed.

(** C10, the claim as stated fails when the array is longer than the
    buffer of the region: a region of four bytes at 0x0000 loaded with
    eight bytes keeps none of the last four, and [read (0 + 4)] returns 0,
    not [bs[4] = 5]. The same happens to the 8 KiB pattern ROM with a
    cartridge that carries two CHR banks. *)
Lemma rom_load_longer_than_buffer :
  let r := ROM.new 0x0000 0x0003 None in
  let bs := [1; 2; 3; 4; 5; 6; 7; 8] in
  bs <> [] /\
  Addressable.startAddress (ROM.hdr r) <= 0 /\
  bs !! 4%nat = Some 5 /\
  ROM.read (0 + 4) (ROM.load 0 bs r) <> 5.
Proof.
  cbv zeta. split; [discriminate|]. split; [vm_compute; discriminate|].
  split; [reflexivity|]. vm_compute. discriminate.
Qed.


(** ** The clock ([Clock.addTickCallback], [Clock.step]) *)

Section ClockFacts.

Lemma nes_clock_initial : NES.clock = nes_clock_at 0.
Proof. reflexivity. Qed.

(** One step: the CPU runs when its countdown is 0, and then before the
    PPU; the PPU runs in every step. *)
Lemma nes_clock_step (r : Z) :
  0 <= r <= 2 ->
  Clock.step (nes_clock_at r) =
  (nes_clock_at ((r + 2) mod 3),
   if r =? 0 then [NES.CpuTick; NES.PpuTick] else [NES.PpuTick]).
Proof.
  intros Hr.
  assert (r = 0 \/ r = 1 \/ r = 2) as [-> | [-> | ->]] by lia; reflexivity.
Qed.

Lemma runs_cons (f : NES.Component -> bool) (fired : list NES.Component)
      (trace : list (list NES.Component)) :
  runs f (fired :: trace) = Z.of_nat (length (List.filter f fired)) + runs f trace.
Proof.
  unfold runs. cbn [concat]. rewrite List.filter_app, length_app. lia.
Qed.

Lemma nes_clock_steps (N : nat) :
  forall r : Z,
    0 <= r <= 2 ->
    (exists r', 0 <= r' <= 2 /\ fst (Clock.steps N (nes_clock_at r)) = nes_clock_at r') /\
    length (snd (Clock.steps N (nes_clock_at r))) = N /\
    runs is_ppu (snd (Clock.steps N (nes_clock_at r))) = Z.of_nat N /\
    runs is_cpu (snd (Clock.steps N (nes_clock_at r))) = (Z.of_nat N + 2 - r) / 3 /\
    Forall (fun fired => fired = [NES.CpuTick; NES.PpuTick] \/ fired = [NES.PpuTick])
           (snd (Clock.steps N (nes_clock_at r))).
Proof.
  induction N as [|N IH]; intros r Hr.
  - cbn [Clock.steps fst snd]. split; [exists r; split; [exact Hr | reflexivity]|].
    split; [reflexivity|]. split; [reflexivity|].
    split; [|constructor].
    unfold runs. cbn. symmetry. apply Z.div_small. lia.
  - cbn [Clock.steps]. rewrite nes_clock_step by exact Hr.
    assert (0 <= (r + 2) mod 3 <= 2) as Hr'
        by (pose proof (Z.mod_pos_bound (r + 2) 3 ltac:(lia)); lia).
    destruct (IH ((r + 2) mod 3) Hr') as (Hreach & Hlen & Hppu & Hcpu & Hord).
    destruct (Clock.steps N (nes_clock_at ((r + 2) mod 3))) as [c2 trace].
    cbn [fst snd] in *.
    split; [exact Hreach|].
    split; [cbn [length]; rewrite Hlen; reflexivity|].
    rewrite !runs_cons, Hppu, Hcpu, Nat2Z.inj_succ.
    assert (r = 0 \/ r = 1 \/ r = 2) as [-> | [-> | ->]] by lia;
      cbn [Z.eqb List.filter is_cpu is_ppu length];
      change (Z.of_nat 0) with 0; change (Z.of_nat 1) with 1;
      change ((0 + 2) mod 3) with 2; change ((1 + 2) mod 3) with 0;
      change ((2 + 2) mod 3) with 1.
    + split; [lia|]. split; [Z.div_mod_to_equations; lia|].
      constructor; [left; reflexivity | exact Hord].
    + split; [lia|]. split; [Z.div_mod_to_equations; lia|].
      constructor; [right; reflexivity | exact Hord].
    + split; [lia|]. split; [Z.div_mod_to_equations; lia|].
      constructor; [right; reflexivity | exact Hord].
Qed.

Lemma steps_reach_phase (k : nat) :
  exists r, 0 <= r <= 2 /\ fst (Clock.steps k NES.clock) = nes_clock_at r.
Proof.
  rewrite nes_clock_initial.
  destruct (nes_clock_steps k 0 ltac:(lia)) as (Hreach & _). exact Hreach.
Qed.

(** C7. Take the clock of the machine after any number [k] of steps and
    run [N] more. In that window the PPU callback runs exactly [N] times;
    the CPU callback runs [N / 3] or [N / 3 + 1] times, so that three
    times the CPU count differs from the PPU count by at most 2; and
    every step runs either the CPU callback followed by the PPU callback,
    or the PPU callback alone. *)
Theorem clock_window_counts (k N : nat) :
  let window := snd (Clock.steps N (fst (Clock.steps k NES.clock))) in
  length window = N /\
  runs is_ppu window = Z.of_nat N /\
  Z.of_nat N / 3 <= runs is_cpu window <= Z.of_nat N / 3 + 1 /\
  - 2 <= 3 * runs is_cpu window - runs is_ppu window <= 2 /\
  Forall (fun fired => fired = [NES.CpuTick; NES.PpuTick] \/ fired = [NES.PpuTick])
         window.
Proof.
  cbv zeta.
  destruct (steps_reach_phase k) as (r & Hr & ->).
  destruct (nes_clock_steps N r Hr) as (_ & Hlen & Hppu & Hcpu & Hord).
  split; [exact Hlen|]. split; [exact Hppu|].
  rewrite Hcpu, Hppu.
  split; [Z.div_mod_to_equations; lia|].
  split; [Z.div_mod_to_equations; lia | exact Hord].
Qed.

End ClockFacts.


(** ** The PPU register file *)

Section PPURegisters.

Lemma getBit_mod256 (v i : Z) :
  0 <= i <= 7 -> Util.getBit (v mod 256) i = Util.getBit v i.
Proof.
  intros Hi. rewrite !getBit_testbit by lia.
  change 256 with (2 ^ 8). rewrite Z.testbit_mod_pow2 by lia.
  destruct (Z.ltb_spec i 8); [reflexivity | lia].
Qed.

Lemma register_index (p : PPU.t) (k : Z) :
  ppu_wf p -> 0 <= k < 8 ->
  JS.rem (PPU.REGISTER_START_ADDRESS + k - Addressable.startAddress (PPU.hdr p))
         (Addressable.actualSize (PPU.hdr p)) = Some k.
Proof.
  intros [Hh _] Hk. rewrite Hh.
  change (Addressable.startAddress _) with 0x2000.
  change (Addressable.actualSize _) with 8.
  change PPU.REGISTER_START_ADDRESS with 0x2000.
  rewrite rem_nonneg by lia. f_equal.
  replace (0x2000 + k - 0x2000) with k by lia. apply Z.mod_small. lia.
Qed.

Lemma setRegister_wf (address : Z) (v : option Z) (p : PPU.t) :
  ppu_wf p -> ppu_wf (PPU.setRegister address v p).
Proof.
  intros [Hh Hl]. split; [exact Hh|].
  unfold PPU.setRegister. cbn [PPU.bytes PPU.set_bytes].
  rewrite ta_set_length. exact Hl.
Qed.

Lemma getRegister_setRegister_eq (p : PPU.t) (k : Z) (v : option Z) :
  ppu_wf p -> 0 <= k < 8 ->
  PPU.getRegister (PPU.REGISTER_START_ADDRESS + k)
    (PPU.setRegister (PPU.REGISTER_START_ADDRESS + k) v p) = JS.num v mod 256.
Proof.
  intros Hwf Hk. unfold PPU.getRegister, PPU.setRegister.
  cbn [PPU.hdr PPU.bytes PPU.set_bytes].
  rewrite register_index by assumption.
  rewrite ta_get_set_eq by (destruct Hwf as [_ ->]; lia).
  change (JS.num (Some (JS.num v mod 256))) with (JS.num v mod 256).
  rewrite band_ff_l. apply Z.mod_mod. lia.
Qed.

Lemma getRegister_setRegister_ne (p : PPU.t) (k k' : Z) (v : option Z) :
  ppu_wf p -> 0 <= k < 8 -> 0 <= k' < 8 -> k <> k' ->
  PPU.getRegister (PPU.REGISTER_START_ADDRESS + k')
    (PPU.setRegister (PPU.REGISTER_START_ADDRESS + k) v p) =
  PPU.getRegister (PPU.REGISTER_START_ADDRESS + k') p.
Proof.
  intros Hwf Hk Hk' Hne. unfold PPU.getRegister, PPU.setRegister.
  cbn [PPU.hdr PPU.bytes PPU.set_bytes].
  rewrite !register_index by assumption.
  rewrite ta_get_set_ne by lia. reflexivity.
Qed.

(** The VBlank flag after its setter, and after the setter of the
    sprite-zero flag. *)
Lemma ppustatusVBlank_set (bit : bool) (p : PPU.t) :
  ppu_wf p -> PPU.ppustatusVBlank (PPU.set_ppustatusVBlank bit p) = Z.b2z bit.
Proof.
  intros Hwf. unfold PPU.ppustatusVBlank, PPU.set_ppustatusVBlank, PPU.registerPPUSTATUS.
  change PPU.REGISTER_PPUSTATUS with (PPU.REGISTER_START_ADDRESS + 2).
  rewrite getRegister_setRegister_eq by (assumption || lia).
  change (JS.num (Some ?v)) with v.
  rewrite getBit_mod256 by (unfold PPU.STATUS_FLAG_BIT_PPUSTATUS_VBLANK; lia).
  rewrite getBit_setBit by (unfold PPU.STATUS_FLAG_BIT_PPUSTATUS_VBLANK; lia).
  reflexivity.
Qed.

Lemma ppustatusVBlank_set_spriteZeroHit (bit : bool) (p : PPU.t) :
  ppu_wf p ->
  PPU.ppustatusVBlank (PPU.set_ppustatusSpriteZeroHit bit p) = PPU.ppustatusVBlank p.
Proof.
  intros Hwf.
  unfold PPU.ppustatusVBlank, PPU.set_ppustatusSpriteZeroHit, PPU.registerPPUSTATUS.
  change PPU.REGISTER_PPUSTATUS with (PPU.REGISTER_START_ADDRESS + 2).
  rewrite getRegister_setRegister_eq by (assumption || lia).
  change (JS.num (Some ?v)) with v.
  rewrite getBit_mod256 by (unfold PPU.STATUS_FLAG_BIT_PPUSTATUS_VBLANK; lia).
  rewrite getBit_setBit
    by (unfold PPU.STATUS_FLAG_BIT_PPUSTATUS_VBLANK,
               PPU.STATUS_FLAG_BIT_PPUSTATUS_SPRITE_ZERO_HIT; lia).
  reflexivity.
Qed.

(** Writing PPUSTATUS leaves PPUCTRL as it was. *)
Lemma registerPPUCTRL_set_status (v : option Z) (p : PPU.t) :
  ppu_wf p ->
  PPU.registerPPUCTRL (PPU.setRegister PPU.REGISTER_PPUSTATUS v p) = PPU.registerPPUCTRL p.
Proof.
  intros Hwf. unfold PPU.registerPPUCTRL.
  change PPU.REGISTER_PPUSTATUS with (PPU.REGISTER_START_ADDRESS + 2).
  change PPU.REGISTER_PPUCTRL with (PPU.REGISTER_START_ADDRESS + 0).
  apply getRegister_setRegister_ne; (assumption || lia).
Qed.

End PPURegisters.


(** ** The register window of the PPU ([PPU.read], [PPU.write]) *)

Section PPUWindow.

Lemma write_PPUADDR (byte : Z) (p : PPU.t) :
  PPU.write PPU.REGISTER_PPUADDR byte p =
  let p1 := PPU.setRegister PPU.REGISTER_PPUADDR (Some byte) p in
  if PPU.latchTruthy (PPU.vramAddressLatch p1) then
    (PPU.set_vramAddressLatch None
       (PPU.set_vramAddress (JS.shl (JS.num (PPU.vramAddressLatch p1)) 8 + byte) p1), [])
  else (PPU.set_vramAddressLatch (Some byte) p1, []).
Proof. reflexivity. Qed.

Lemma write_PPUDATA (byte : Z) (p : PPU.t) :
  PPU.write PPU.REGISTER_PPUDATA byte p =
  let p1 := PPU.setRegister PPU.REGISTER_PPUDATA (Some byte) p in
  let p2 := PPU.set_ppuBus (fst (Bus.write (PPU.ppuBus p1) (PPU.vramAddress p1) byte)) p1 in
  (PPU.set_vramAddress (PPU.vramAddress p2 + PPU.vramIncrement p2) p2, []).
Proof. reflexivity. Qed.

Lemma read_PPUDATA (p : PPU.t) :
  PPU.read PPU.REGISTER_PPUDATA p =
  let p1 := PPU.setRegister PPU.REGISTER_PPUDATA (PPU.busRead (PPU.vramAddress p) p) p in
  (PPU.registerPPUDATA p,
   PPU.set_vramAddress (PPU.vramAddress p1 + PPU.vramIncrement p1) p1).
Proof. reflexivity. Qed.

Lemma shl8_lor (hi lo : Z) :
  0 <= hi < 256 -> 0 <= lo < 256 ->
  JS.shl hi 8 + lo = Z.lor (Z.shiftl hi 8) lo.
Proof.
  intros Hhi Hlo.
  assert (JS.shl hi 8 = Z.shiftl hi 8) as ->.
  { unfold JS.shl. rewrite (to_int32_id hi) by lia.
    change (Z.land 8 31) with 8. apply to_int32_id.
    rewrite Z.shiftl_mul_pow2 by lia. lia. }
  assert (Z.land (Z.shiftl hi 8) lo = 0) as Hdisjoint.
  { apply Z.bits_inj'. intros i Hi.
    rewrite Z.land_spec, Z.bits_0.
    destruct (Z.ltb_spec i 8).
    - rewrite Z.shiftl_spec_low by lia. reflexivity.
    - replace lo with (lo mod 2 ^ 8) by (apply Z.mod_small; lia).
      rewrite Z.mod_pow2_bits_high by lia. apply andb_false_r. }
  rewrite Z.add_nocarry_lxor by exact Hdisjoint.
  apply Z.lxor_lor, Hdisjoint.
Qed.

(** With a high byte that is not zero the two writes to PPUADDR compose
    the address and clear the latch, and the PPUDATA access that follows
    goes to that address of the PPU bus. *)
Lemma ppuaddr_two_writes (p : PPU.t) (hi lo byte : Z) :
  1 <= hi < 256 -> 0 <= lo < 256 ->
  let p0 := PPU.set_vramAddressLatch None p in
  let p1 := fst (PPU.write PPU.REGISTER_PPUADDR hi p0) in
  let p2 := fst (PPU.write PPU.REGISTER_PPUADDR lo p1) in
  PPU.vramAddress p2 = Z.lor (Z.shiftl hi 8) lo /\
  PPU.vramAddressLatch p2 = None /\
  PPU.ppuBus (fst (PPU.write PPU.REGISTER_PPUDATA byte p2)) =
    fst (Bus.write (PPU.ppuBus p) (Z.lor (Z.shiftl hi 8) lo) byte) /\
  PPU.bytes (snd (PPU.read PPU.REGISTER_PPUDATA p2)) =
    PPU.bytes (PPU.setRegister PPU.REGISTER_PPUDATA
                 (PPU.busRead (Z.lor (Z.shiftl hi 8) lo) p2) p2).
Proof.
  intros Hhi Hlo p0 p1 p2.
  assert (PPU.vramAddressLatch p1 = Some hi) as Hl1 by reflexivity.
  assert (PPU.vramAddress p2 = JS.shl hi 8 + lo /\ PPU.vramAddressLatch p2 = None
          /\ PPU.ppuBus p2 = PPU.ppuBus p) as (Hv & Hl2 & Hbus).
  { subst p2. rewrite write_PPUADDR. cbv zeta.
    change (PPU.vramAddressLatch (PPU.setRegister PPU.REGISTER_PPUADDR (Some lo) p1))
      with (PPU.vramAddressLatch p1).
    rewrite Hl1. unfold PPU.latchTruthy, JS.truthy.
    destruct (Z.eqb_spec hi 0); [lia|]. cbn [negb fst].
    repeat split. }
  rewrite shl8_lor in Hv by lia.
  split; [exact Hv|]. split; [exact Hl2|]. split.
  - rewrite write_PPUDATA. cbv zeta. cbn [fst].
    change (PPU.ppuBus (PPU.set_vramAddress _ ?q)) with (PPU.ppuBus q).
    cbn [PPU.ppuBus PPU.set_ppuBus].
    change (PPU.ppuBus (PPU.setRegister PPU.REGISTER_PPUDATA (Some byte) p2))
      with (PPU.ppuBus p2).
    change (PPU.vramAddress (PPU.setRegister PPU.REGISTER_PPUDATA (Some byte) p2))
      with (PPU.vramAddress p2).
    rewrite Hv, Hbus. reflexivity.
  - rewrite read_PPUDATA. cbv zeta. cbn [snd]. rewrite Hv. reflexivity.
Qed.

(** C1 (the code contradicts the claim for [hi = 0x00]). From a cleared
    latch, the write of 0x00 to PPUADDR stores 0 in the latch; the test
    [if (this.vramAddressLatch)] of the second write takes 0 for "no first
    write", so the second byte becomes the latch, the latch is not
    cleared and [vramAddress] keeps its old value instead of becoming
    [lo]. *)
Theorem ppuaddr_zero_high_byte (p : PPU.t) (lo : Z) :
  let p0 := PPU.set_vramAddressLatch None p in
  let p1 := fst (PPU.write PPU.REGISTER_PPUADDR 0x00 p0) in
  let p2 := fst (PPU.write PPU.REGISTER_PPUADDR lo p1) in
  PPU.vramAddressLatch p1 = Some 0x00 /\
  PPU.vramAddressLatch p2 = Some lo /\
  PPU.vramAddress p2 = PPU.vramAddress p.
Proof.
  cbv zeta. rewrite !write_PPUADDR. cbv zeta.
  split; [reflexivity|]. split; reflexivity.
Qed.

(** C2 (the code contradicts the claim for palette addresses). A read of
    PPUDATA returns the buffered byte whatever [vramAddress] is: the test
    that should recognise the palette compares the CPU address 0x2007,
    not [vramAddress], with 0x3F00. On [palette_probe] the VRAM address
    is 0x3F00, the palette entry there is 0x22 and the buffer holds 0x11;
    the read returns 0x11. *)
Theorem ppudata_read_is_always_buffered :
  (forall p : PPU.t, fst (PPU.read PPU.REGISTER_PPUDATA p) = PPU.registerPPUDATA p) /\
  (ppu_wf palette_probe /\
   PPU.vramAddress palette_probe = 0x3F00 /\
   PPU.busRead (PPU.vramAddress palette_probe) palette_probe = Some 0x22 /\
   PPU.registerPPUDATA palette_probe = 0x11 /\
   fst (PPU.read PPU.REGISTER_PPUDATA palette_probe) = 0x11).
Proof.
  split; [intros p; rewrite read_PPUDATA; reflexivity|].
  split; [split; vm_compute; reflexivity|].
  repeat split; vm_compute; reflexivity.
Qed.

(** What does hold of PPUDATA: a read refills the buffer from the PPU bus
    at [vramAddress], a write stores the byte there, and both advance
    [vramAddress] by 32 when bit 2 of PPUCTRL is set and by 1
    otherwise. *)
Lemma ppudata_access (p : PPU.t) (byte : Z) :
  ppu_wf p ->
  let step := if Z.testbit (PPU.registerPPUCTRL p) 2 then 32 else 1 in
  let pr := snd (PPU.read PPU.REGISTER_PPUDATA p) in
  let pw := fst (PPU.write PPU.REGISTER_PPUDATA byte p) in
  PPU.registerPPUDATA pr = JS.num (PPU.busRead (PPU.vramAddress p) p) mod 256 /\
  PPU.vramAddress pr = PPU.vramAddress p + step /\
  PPU.ppuBus pw = fst (Bus.write (PPU.ppuBus p) (PPU.vramAddress p) byte) /\
  PPU.vramAddress pw = PPU.vramAddress p + step.
Proof.
  intros Hwf step pr pw.
  assert (forall v, PPU.vramIncrement (PPU.setRegister PPU.REGISTER_PPUDATA v p) = step) as Hinc.
  { intros v. unfold PPU.vramIncrement, PPU.ppuctrlIncrementMode, PPU.registerPPUCTRL.
    change PPU.REGISTER_PPUDATA with (PPU.REGISTER_START_ADDRESS + 7).
    change PPU.REGISTER_PPUCTRL with (PPU.REGISTER_START_ADDRESS + 0).
    rewrite getRegister_setRegister_ne by (assumption || lia).
    rewrite getBit_testbit by (unfold PPU.STATUS_FLAG_BIT_PPUCTRL_INCREMENT_MODE; lia).
    subst step. unfold PPU.registerPPUCTRL, PPU.STATUS_FLAG_BIT_PPUCTRL_INCREMENT_MODE.
    change PPU.REGISTER_PPUCTRL with (PPU.REGISTER_START_ADDRESS + 0).
    destruct (Z.testbit _ 2); reflexivity. }
  subst pr pw. rewrite read_PPUDATA, write_PPUDATA. cbv zeta. cbn [fst snd].
  split.
  { unfold PPU.registerPPUDATA.
    change (PPU.getRegister ?a (PPU.set_vramAddress ?v ?q)) with (PPU.getRegister a q).
    change PPU.REGISTER_PPUDATA with (PPU.REGISTER_START_ADDRESS + 7).
    apply getRegister_setRegister_eq; (assumption || lia). }
  split.
  { cbn [PPU.vramAddress PPU.set_vramAddress]. rewrite Hinc. reflexivity. }
  split; [reflexivity|].
  cbn [PPU.vramAddress PPU.set_vramAddress].
  change (PPU.vramIncrement (PPU.set_ppuBus ?b ?q)) with (PPU.vramIncrement q).
  rewrite Hinc. reflexivity.
Qed.

Lemma baseAddressOf_window (address : Z) :
  0x2000 <= address <= 0x3FFF -> PPU.baseAddressOf address = address.
Proof.
  intros Ha. unfold PPU.baseAddressOf, PPU.REGISTER_START_ADDRESS.
  rewrite Z.rem_mod_nonneg by lia.
  Z.div_mod_to_equations. lia.
Qed.

(** C4 (the code contradicts the claim). The address is reduced modulo
    0x2000, not modulo 8, before the register is selected, so above
    0x2007 no case of [read] or [write] matches: the read returns 0 and
    changes nothing, the write changes nothing. *)
Theorem ppu_window_not_mirrored (p : PPU.t) (address byte : Z) :
  0x2008 <= address <= 0x3FFF ->
  PPU.read address p = (0x00, p) /\ PPU.write address byte p = (p, []).
Proof.
  intros Ha. unfold PPU.read, PPU.write.
  rewrite baseAddressOf_window by lia.
  unfold PPU.REGISTER_PPUSTATUS, PPU.REGISTER_PPUDATA, PPU.REGISTER_PPUCTRL,
         PPU.REGISTER_PPUMASK, PPU.REGISTER_PPUADDR.
  repeat match goal with
         | |- context [?a =? ?b] => destruct (Z.eqb_spec a b); [lia|]
         end.
  split; reflexivity.
Qed.

(** At 0x200A, the mirror of PPUSTATUS, with the VBlank flag raised: the
    read returns 0 and the flag stays raised, while the read at 0x2002
    returns 0x80 and clears it. *)
Lemma ppu_window_not_mirrored_witness :
  (PPU.read 0x200A ppu_in_vblank = (0x00, ppu_in_vblank) /\
   PPU.write 0x200A 0x55 ppu_in_vblank = (ppu_in_vblank, [])) /\
  PPU.ppustatusVBlank ppu_in_vblank = 1 /\
  fst (PPU.read (0x2000 + 0x200A mod 8) ppu_in_vblank) = 0x80 /\
  PPU.ppustatusVBlank (snd (PPU.read (0x2000 + 0x200A mod 8) ppu_in_vblank)) = 0.
Proof.
  split; [apply (ppu_window_not_mirrored ppu_in_vblank 0x200A 0x55); lia|].
  repeat split; vm_compute; reflexivity.
Defined.

End PPUWindow.


(** ** The dot clock of the PPU ([PPU.tick], [PPU.execute]) *)

Section PPUTick.

Lemma execute_stages (p : PPU.t) :
  PPU.execute p =
  let '(q, evs) :=
    exec_vblank_start (exec_sprite_set (exec_sprite_clear (exec_visible p))) in
  (exec_vblank_end q, evs).
Proof. reflexivity. Qed.

Lemma tick_stages (p : PPU.t) :
  PPU.tick p =
  let '(q, evs) := PPU.execute p in
  (advance (PPU.set_lastCycle (PPU.isVBlank q) (PPU.isVisible q) q), evs).
Proof.
  unfold PPU.tick. destruct (PPU.execute p) as [q evs]. reflexivity.
Qed.

Lemma same_registers_getRegister (p q : PPU.t) (address : Z) :
  same_registers p q -> PPU.getRegister address q = PPU.getRegister address p.
Proof.
  intros [Hh Hb]. unfold PPU.getRegister. rewrite Hh, Hb. reflexivity.
Qed.

Lemma same_registers_wf (p q : PPU.t) :
  same_registers p q -> ppu_wf p -> ppu_wf q.
Proof.
  intros [Hh Hb] [Hwh Hwl]. split; [rewrite Hh; exact Hwh | rewrite Hb; exact Hwl].
Qed.

Lemma same_registers_VBlank (p q : PPU.t) :
  same_registers p q -> PPU.ppustatusVBlank q = PPU.ppustatusVBlank p.
Proof.
  intros H. unfold PPU.ppustatusVBlank, PPU.registerPPUSTATUS.
  rewrite (same_registers_getRegister p q) by exact H. reflexivity.
Qed.

Lemma same_registers_PPUCTRL (p q : PPU.t) :
  same_registers p q -> PPU.registerPPUCTRL q = PPU.registerPPUCTRL p.
Proof.
  intros H. unfold PPU.registerPPUCTRL. apply same_registers_getRegister, H.
Qed.

(** The first statement touches the pixel position and the frame buffer
    only. *)
Lemma exec_visible_same (p : PPU.t) :
  same_beam p (exec_visible p) /\ same_registers p (exec_visible p).
Proof.
  unfold exec_visible. destruct (PPU.isVisible p); [|repeat split].
  cbv zeta. destruct (JS.truthy _); repeat split.
Qed.

Lemma advance_same_registers (p : PPU.t) : same_registers p (advance p).
Proof.
  unfold advance. cbv zeta.
  destruct (_ <=? _); [|split; reflexivity].
  destruct (_ <=? _); split; reflexivity.
Qed.

(** The beam moves one dot to the right, to the start of the next line
    after dot 340, and to the top after line 261. *)
Lemma advance_beam (p : PPU.t) :
  0 <= PPU.cycle p <= 340 -> 0 <= PPU.scanline p <= 261 ->
  PPU.cycle (advance p) = (if PPU.cycle p =? 340 then 0 else PPU.cycle p + 1) /\
  PPU.scanline (advance p) =
    (if PPU.cycle p =? 340
     then (if PPU.scanline p =? 261 then 0 else PPU.scanline p + 1)
     else PPU.scanline p).
Proof.
  intros Hc Hs. unfold advance. cbv zeta.
  cbn [PPU.cycle PPU.scanline PPU.set_cycle PPU.set_scanline].
  unfold PPU.NTSC_CYCLES_PER_SCANLINE, PPU.NTSC_SCANLINES.
  destruct (Z.eqb_spec (PPU.cycle p) 340) as [Hc340|Hc340].
  - destruct (Z.leb_spec 341 (PPU.cycle p + 1)); [|lia].
    cbn [PPU.cycle PPU.scanline PPU.set_cycle PPU.set_scanline].
    destruct (Z.eqb_spec (PPU.scanline p) 261).
    + destruct (Z.leb_spec 262 (PPU.scanline p + 1)); [|lia]. split; reflexivity.
    + destruct (Z.leb_spec 262 (PPU.scanline p + 1)); [lia|]. split; reflexivity.
  - destruct (Z.leb_spec 341 (PPU.cycle p + 1)); [lia|]. split; reflexivity.
Qed.

(** What one call of [execute] does to the beam, to PPUCTRL and to the
    VBlank flag, when the scan line is not 262. *)
Lemma execute_spec (p : PPU.t) :
  ppu_wf p -> PPU.scanline p <> 262 ->
  let q := fst (PPU.execute p) in
  ppu_wf q /\ same_beam p q /\
  PPU.registerPPUCTRL q = PPU.registerPPUCTRL p /\
  PPU.ppustatusVBlank q = (if at_vblank_start p then 1 else PPU.ppustatusVBlank p) /\
  snd (PPU.execute p) = (if at_vblank_start p then vblank_start_events p else []).
Proof.
  intros Hwf Hs. rewrite execute_stages.
  destruct (exec_visible_same p) as ([Hc1 Hs1] & Hr1).
  set (p1 := exec_visible p) in *.
  assert (ppu_wf p1) as Hwf1 by exact (same_registers_wf p p1 Hr1 Hwf).
  assert (PPU.registerPPUCTRL p1 = PPU.registerPPUCTRL p) as Hctrl1
      by exact (same_registers_PPUCTRL p p1 Hr1).
  assert (PPU.ppustatusVBlank p1 = PPU.ppustatusVBlank p) as Hvb1
      by exact (same_registers_VBlank p p1 Hr1).
  clearbody p1.
  (* the two statements on the sprite-zero flag *)
  assert (forall q : PPU.t, forall b : bool,
             ppu_wf q /\ same_beam p q /\
             PPU.registerPPUCTRL q = PPU.registerPPUCTRL p /\
             PPU.ppustatusVBlank q = PPU.ppustatusVBlank p ->
             let q' := PPU.set_ppustatusSpriteZeroHit b q in
             ppu_wf q' /\ same_beam p q' /\
             PPU.registerPPUCTRL q' = PPU.registerPPUCTRL p /\
             PPU.ppustatusVBlank q' = PPU.ppustatusVBlank p) as Hsprite.
  { intros q b (Hq & Hbeam & Hctrl & Hvb) q'. subst q'.
    split; [apply setRegister_wf, Hq|].
    split; [exact Hbeam|].
    split.
    - unfold PPU.set_ppustatusSpriteZeroHit.
      rewrite registerPPUCTRL_set_status by exact Hq. exact Hctrl.
    - rewrite ppustatusVBlank_set_spriteZeroHit by exact Hq. exact Hvb. }
  assert (ppu_wf p1 /\ same_beam p p1 /\
          PPU.registerPPUCTRL p1 = PPU.registerPPUCTRL p /\
          PPU.ppustatusVBlank p1 = PPU.ppustatusVBlank p) as H1
      by (split; [exact Hwf1|]; split; [split; assumption|]; split; assumption).
  assert (let p2 := exec_sprite_clear p1 in
          ppu_wf p2 /\ same_beam p p2 /\
          PPU.registerPPUCTRL p2 = PPU.registerPPUCTRL p /\
          PPU.ppustatusVBlank p2 = PPU.ppustatusVBlank p) as H2.
  { unfold exec_sprite_clear. destruct (_ && _); [apply Hsprite, H1 | exact H1]. }
  set (p2 := exec_sprite_clear p1) in *. clearbody p2. cbv zeta in H2.
  assert (let p3 := exec_sprite_set p2 in
          ppu_wf p3 /\ same_beam p p3 /\
          PPU.registerPPUCTRL p3 = PPU.registerPPUCTRL p /\
          PPU.ppustatusVBlank p3 = PPU.ppustatusVBlank p) as H3.
  { unfold exec_sprite_set. destruct (_ && _); [apply Hsprite, H2 | exact H2]. }
  set (p3 := exec_sprite_set p2) in *. clearbody p3. cbv zeta in H3.
  destruct H3 as (Hwf3 & [Hc3 Hs3] & Hctrl3 & Hvb3).
  (* the start of vertical blank *)
  unfold exec_vblank_start, at_vblank_start. rewrite Hc3, Hs3.
  destruct ((PPU.scanline p =? PPU.NTSC_VBLANK_START_SCANLINE)
            && (PPU.cycle p =? PPU.NTSC_VBLANK_START_CYCLE)) eqn:Hat.
  - cbv zeta. cbn [fst snd].
    set (p4 := PPU.set_ppustatusVBlank true p3).
    assert (ppu_wf p4) as Hwf4 by (apply setRegister_wf, Hwf3).
    assert (PPU.registerPPUCTRL p4 = PPU.registerPPUCTRL p) as Hctrl4.
    { subst p4. unfold PPU.set_ppustatusVBlank.
      rewrite registerPPUCTRL_set_status by exact Hwf3. exact Hctrl3. }
    assert (PPU.scanline p4 = PPU.scanline p /\ PPU.cycle p4 = PPU.cycle p) as [Hs4 Hc4]
        by (split; [exact Hs3 | exact Hc3]).
    unfold exec_vblank_end. rewrite Hs4, Hc4.
    destruct (Z.eqb_spec (PPU.scanline p) PPU.NTSC_VBLANK_END_SCANLINE) as [He|_];
      [unfold PPU.NTSC_VBLANK_END_SCANLINE in He; lia|].
    cbn [andb].
    split; [exact Hwf4|]. split; [split; assumption|]. split; [exact Hctrl4|].
    split; [subst p4; apply (ppustatusVBlank_set true), Hwf3|].
    unfold vblank_start_events, PPU.generateNMI, PPU.flush, PPU.ppuctrlNMIEnable.
    rewrite Hctrl4. reflexivity.
  - cbn [fst snd]. unfold exec_vblank_end. rewrite Hs3.
    destruct (Z.eqb_spec (PPU.scanline p) PPU.NTSC_VBLANK_END_SCANLINE) as [He|_];
      [unfold PPU.NTSC_VBLANK_END_SCANLINE in He; lia|].
    cbn [andb].
    split; [exact Hwf3|]. split; [split; assumption|]. split; [exact Hctrl3|].
    split; [exact Hvb3 | reflexivity].
Qed.

(** One tick, from a beam position inside the frame. *)
Lemma tick_spec (p : PPU.t) :
  ppu_wf p -> 0 <= PPU.cycle p <= 340 -> 0 <= PPU.scanline p <= 261 ->
  let q := fst (PPU.tick p) in
  ppu_wf q /\
  PPU.cycle q = (if PPU.cycle p =? 340 then 0 else PPU.cycle p + 1) /\
  PPU.scanline q =
    (if PPU.cycle p =? 340
     then (if PPU.scanline p =? 261 then 0 else PPU.scanline p + 1)
     else PPU.scanline p) /\
  PPU.registerPPUCTRL q = PPU.registerPPUCTRL p /\
  PPU.ppustatusVBlank q = (if at_vblank_start p then 1 else PPU.ppustatusVBlank p) /\
  snd (PPU.tick p) = (if at_vblank_start p then vblank_start_events p else []).
Proof.
  intros Hwf Hc Hs.
  destruct (execute_spec p Hwf ltac:(lia)) as (Hwf1 & [Hc1 Hs1] & Hctrl1 & Hvb1 & Hev).
  rewrite tick_stages. destruct (PPU.execute p) as [q1 evs]. cbn [fst snd] in *.
  set (q2 := PPU.set_lastCycle (PPU.isVBlank q1) (PPU.isVisible q1) q1).
  assert (same_registers q1 q2) as Hr2 by (split; reflexivity).
  pose proof (advance_same_registers q2) as Hr3.
  destruct (advance_beam q2) as [Hc3 Hs3];
    [change (PPU.cycle q2) with (PPU.cycle q1); lia
    |change (PPU.scanline q2) with (PPU.scanline q1); lia|].
  change (PPU.cycle q2) with (PPU.cycle q1) in Hc3, Hs3.
  change (PPU.scanline q2) with (PPU.scanline q1) in Hs3.
  rewrite Hc1 in Hc3, Hs3. rewrite Hs1 in Hs3.
  split; [exact (same_registers_wf q2 _ Hr3 (same_registers_wf q1 q2 Hr2 Hwf1))|].
  split; [exact Hc3|]. split; [exact Hs3|].
  split.
  { rewrite (same_registers_PPUCTRL q2 _ Hr3), (same_registers_PPUCTRL q1 q2 Hr2).
    exact Hctrl1. }
  split; [|exact Hev].
  rewrite (same_registers_VBlank q2 _ Hr3), (same_registers_VBlank q1 q2 Hr2).
  exact Hvb1.
Qed.

Lemma ticks_S (n : nat) (p : PPU.t) :
  PPU.ticks (S n) p =
  (fst (PPU.ticks n (fst (PPU.tick p))),
   snd (PPU.tick p) ++ snd (PPU.ticks n (fst (PPU.tick p)))).
Proof.
  cbn [PPU.ticks]. destruct (PPU.tick p) as [p1 evs1]. cbn [fst snd].
  destruct (PPU.ticks n p1) as [p2 evs2]. reflexivity.
Qed.

(** [ticks], unfolded at the last tick. *)
Lemma ticks_last (n : nat) :
  forall p : PPU.t,
    fst (PPU.ticks (S n) p) = fst (PPU.tick (fst (PPU.ticks n p))) /\
    snd (PPU.ticks (S n) p) = snd (PPU.ticks n p) ++ snd (PPU.tick (fst (PPU.ticks n p))).
Proof.
  induction n as [|n IH]; intros p.
  - rewrite ticks_S. cbn [PPU.ticks fst snd].
    split; [reflexivity | apply app_nil_r].
  - rewrite (ticks_S (S n)). cbn [fst snd].
    destruct (IH (fst (PPU.tick p))) as [IHf IHs].
    rewrite IHf, IHs. rewrite (ticks_S n p). cbn [fst snd].
    split; [reflexivity | apply app_assoc].
Qed.

(** The dot where vertical blank starts is dot 82182 of a frame, counted
    from 0. *)
Lemma beam_at_vblank_start (n : Z) :
  0 <= n ->
  (((n / 341) mod 262 =? 241) && (n mod 341 =? 1) = true -> 82182 <= n) /\
  (n = 82182 -> ((n / 341) mod 262 =? 241) && (n mod 341 =? 1) = true).
Proof.
  intros Hn. split.
  - intros H. apply andb_true_iff in H. destruct H as [H1 H2].
    apply Z.eqb_eq in H1, H2. Z.div_mod_to_equations. lia.
  - intros ->. reflexivity.
Qed.

Lemma beam_next (n : Z) :
  0 <= n ->
  (n + 1) mod 341 = (if n mod 341 =? 340 then 0 else n mod 341 + 1) /\
  ((n + 1) / 341) mod 262 =
    (if n mod 341 =? 340
     then (if (n / 341) mod 262 =? 261 then 0 else (n / 341) mod 262 + 1)
     else (n / 341) mod 262).
Proof.
  intros Hn.
  destruct (Z.eqb_spec (n mod 341) 340) as [H340|H340].
  - assert ((n + 1) / 341 = n / 341 + 1) as Hq by (Z.div_mod_to_equations; lia).
    split; [Z.div_mod_to_equations; lia|]. rewrite Hq.
    destruct (Z.eqb_spec ((n / 341) mod 262) 261); Z.div_mod_to_equations; lia.
  - assert ((n + 1) / 341 = n / 341) as Hq by (Z.div_mod_to_equations; lia).
    split; [Z.div_mod_to_equations; lia|]. rewrite Hq. reflexivity.
Qed.

(** The state after [n] ticks from reset. *)
Lemma ticks_from_reset (p : PPU.t) (n : nat) :
  ppu_wf p ->
  let q := fst (PPU.ticks n (PPU.reset p)) in
  ppu_wf q /\
  PPU.cycle q = Z.of_nat n mod 341 /\
  PPU.scanline q = (Z.of_nat n / 341) mod 262 /\
  PPU.registerPPUCTRL q = PPU.registerPPUCTRL p /\
  PPU.ppustatusVBlank q = (if 82182 <? Z.of_nat n then 1 else PPU.ppustatusVBlank p).
Proof.
  intros Hwf. induction n as [|n IH].
  - cbn [PPU.ticks fst].
    assert (same_registers p (PPU.reset p)) as Hr by (split; reflexivity).
    split; [exact (same_registers_wf p _ Hr Hwf)|].
    split; [reflexivity|]. split; [reflexivity|].
    split; [exact (same_registers_PPUCTRL p _ Hr) | exact (same_registers_VBlank p _ Hr)].
  - cbv zeta in IH |- *. destruct IH as (Hwfq & Hc & Hs & Hctrl & Hvb).
    rewrite (proj1 (ticks_last n (PPU.reset p))).
    set (q := fst (PPU.ticks n (PPU.reset p))) in *.
    assert (0 <= PPU.cycle q <= 340) as Hcr
        by (rewrite Hc; pose proof (Z.mod_pos_bound (Z.of_nat n) 341 ltac:(lia)); lia).
    assert (0 <= PPU.scanline q <= 261) as Hsr
        by (rewrite Hs; pose proof (Z.mod_pos_bound (Z.of_nat n / 341) 262 ltac:(lia)); lia).
    destruct (tick_spec q Hwfq Hcr Hsr) as (Hwf' & Hc' & Hs' & Hctrl' & Hvb' & _).
    destruct (beam_next (Z.of_nat n) ltac:(lia)) as [Hbc Hbs].
    rewrite Nat2Z.inj_succ, <- Z.add_1_r.
    split; [exact Hwf'|].
    split; [rewrite Hc', Hc, Hbc; reflexivity|].
    split; [rewrite Hs', Hc, Hs, Hbs; reflexivity|].
    split; [rewrite Hctrl'; exact Hctrl|].
    rewrite Hvb', Hvb. unfold at_vblank_start.
    unfold PPU.NTSC_VBLANK_START_SCANLINE, PPU.NTSC_VBLANK_START_CYCLE.
    rewrite Hc, Hs.
    destruct (beam_at_vblank_start (Z.of_nat n) ltac:(lia)) as [Hfirst Hat].
    destruct (((Z.of_nat n / 341) mod 262 =? 241) && (Z.of_nat n mod 341 =? 1)) eqn:Hb.
    + specialize (Hfirst eq_refl).
      destruct (Z.ltb_spec 82182 (Z.of_nat n + 1)); [reflexivity | lia].
    + destruct (Z.ltb_spec 82182 (Z.of_nat n)), (Z.ltb_spec 82182 (Z.of_nat n + 1));
        try reflexivity; lia.
Qed.

End PPUTick.

(** C3 (the code contradicts the claim on the clearing of VBlank). After
    any number [n] of ticks from reset: the cycle counter is [n mod 341],
    in 0..340, and the scan line is [(n / 341) mod 262], in 0..261, so
    that the tick at (340, 261) wraps both to 0; the tick at scan line
    241, cycle 1 sets the VBlank flag, emits ["nmi"] when NMI-enable is
    set and presents the frame buffer. But the scan line is never 262,
    the test [scanline === 262 && cycle === 1] that would clear the flag
    never holds, and no tick clears the flag: it is set from tick 82183
    on, for ever. *)
Theorem ppu_vblank_never_cleared (p : PPU.t) (n : nat) :
  ppu_wf p ->
  let q := fst (PPU.ticks n (PPU.reset p)) in
  (0 <= PPU.cycle q <= 340 /\ 0 <= PPU.scanline q <= 261) /\
  (PPU.cycle q = Z.of_nat n mod 341 /\ PPU.scanline q = (Z.of_nat n / 341) mod 262) /\
  (PPU.cycle q = 340 -> PPU.scanline q = 261 ->
   PPU.cycle (fst (PPU.tick q)) = 0 /\ PPU.scanline (fst (PPU.tick q)) = 0) /\
  (PPU.scanline q = 241 -> PPU.cycle q = 1 ->
   PPU.ppustatusVBlank (fst (PPU.tick q)) = 1 /\
   snd (PPU.tick q) = vblank_start_events q) /\
  PPU.scanline q <> PPU.NTSC_VBLANK_END_SCANLINE /\
  (PPU.ppustatusVBlank q = 1 -> PPU.ppustatusVBlank (fst (PPU.tick q)) = 1) /\
  PPU.ppustatusVBlank q = (if 82182 <? Z.of_nat n then 1 else PPU.ppustatusVBlank p).
Proof.
  intros Hwf q.
  destruct (ticks_from_reset p n Hwf) as (Hwfq & Hc & Hs & _ & Hvb). fold q in Hwfq, Hc, Hs, Hvb.
  assert (0 <= PPU.cycle q <= 340) as Hcr
      by (rewrite Hc; pose proof (Z.mod_pos_bound (Z.of_nat n) 341 ltac:(lia)); lia).
  assert (0 <= PPU.scanline q <= 261) as Hsr
      by (rewrite Hs; pose proof (Z.mod_pos_bound (Z.of_nat n / 341) 262 ltac:(lia)); lia).
  destruct (tick_spec q Hwfq Hcr Hsr) as (_ & Hc' & Hs' & _ & Hvb' & Hev').
  split; [split; assumption|].
  split; [split; assumption|].
  split.
  { intros H340 H261. rewrite Hc', Hs', H340, H261. split; reflexivity. }
  split.
  { intros H241 H1. rewrite Hvb', Hev'. unfold at_vblank_start. rewrite H241, H1.
    split; reflexivity. }
  split; [unfold PPU.NTSC_VBLANK_END_SCANLINE; lia|].
  split; [|exact Hvb].
  intros Hset. rewrite Hvb', Hset. destruct (at_vblank_start q); reflexivity.
Qed.

Lemma ppu_wf_machine : ppu_wf NES.ppu.
Proof. split; reflexivity. Qed.

Lemma ppu_vblank_never_cleared_witness :
  let q := fst (PPU.ticks 3 (PPU.reset NES.ppu)) in
  (0 <= PPU.cycle q <= 340 /\ 0 <= PPU.scanline q <= 261) /\
  (PPU.cycle q = Z.of_nat 3 mod 341 /\ PPU.scanline q = (Z.of_nat 3 / 341) mod 262) /\
  (PPU.cycle q = 340 -> PPU.scanline q = 261 ->
   PPU.cycle (fst (PPU.tick q)) = 0 /\ PPU.scanline (fst (PPU.tick q)) = 0) /\
  (PPU.scanline q = 241 -> PPU.cycle q = 1 ->
   PPU.ppustatusVBlank (fst (PPU.tick q)) = 1 /\
   snd (PPU.tick q) = vblank_start_events q) /\
  PPU.scanline q <> PPU.NTSC_VBLANK_END_SCANLINE /\
  (PPU.ppustatusVBlank q = 1 -> PPU.ppustatusVBlank (fst (PPU.tick q)) = 1) /\
  PPU.ppustatusVBlank q = (if 82182 <? Z.of_nat 3 then 1 else PPU.ppustatusVBlank NES.ppu).
Proof.
  apply (ppu_vblank_never_cleared NES.ppu 3). split; reflexivity.
Defined.

(** On the PPU of the machine the flag is clear at reset and up to tick
    82182, set after tick 82183, and still set after 89343 ticks, where
    the claim places the dot that clears it, and a whole frame later. *)
Lemma vblank_flag_over_two_frames :
  let after (n : Z) := fst (PPU.ticks (Z.to_nat n) (PPU.reset NES.ppu)) in
  PPU.ppustatusVBlank (after 0) = 0 /\
  PPU.ppustatusVBlank (after 82182) = 0 /\
  PPU.ppustatusVBlank (after 82183) = 1 /\
  PPU.ppustatusVBlank (after 89343) = 1 /\
  PPU.ppustatusVBlank (after 178685) = 1.
Proof.
  cbv beta zeta.
  assert (forall n, 0 <= n ->
            PPU.ppustatusVBlank (fst (PPU.ticks (Z.to_nat n) (PPU.reset NES.ppu))) =
            if 82182 <? n then 1 else 0) as H.
  { intros n Hn.
    destruct (ticks_from_reset NES.ppu (Z.to_nat n) ppu_wf_machine) as (_ & _ & _ & _ & Hvb).
    rewrite Hvb, Z2Nat.id by exact Hn. reflexivity. }
  rewrite !H by lia. repeat split.
Qed.


(** ** The CPU bus *)

Section CpuBusFacts.

Lemma ppu_read_hdr (address : Z) (p : PPU.t) :
  PPU.hdr (snd (PPU.read address p)) = PPU.hdr p.
Proof.
  unfold PPU.read. cbv zeta.
  destruct (_ =? _); [reflexivity|]. destruct (_ =? _); reflexivity.
Qed.

Lemma ppu_write_hdr (address byte : Z) (p : PPU.t) :
  PPU.hdr (fst (PPU.write address byte p)) = PPU.hdr p.
Proof.
  unfold PPU.write. cbv zeta.
  destruct (_ =? _).
  { cbn [fst]. destruct (negb _); reflexivity. }
  destruct (_ =? _); [reflexivity|].
  destruct (_ =? _).
  { destruct (PPU.latchTruthy _); reflexivity. }
  destruct (_ =? _); reflexivity.
Qed.

(** No access moves a region. *)
Lemma dev_read_start (address : Z) (d : CpuDevice) :
  Bus.start (snd (dev_read address d)) = Bus.start d.
Proof.
  unfold Bus.start. destruct d as [m|p|k]; cbn [dev_read CpuDevice_Device].
  - destruct m; reflexivity.
  - pose proof (ppu_read_hdr address p) as H.
    destruct (PPU.read address p) as [v p']. cbn in *.
    rewrite H. reflexivity.
  - reflexivity.
Qed.

Lemma dev_write_start (address byte : Z) (d : CpuDevice) :
  Bus.start (fst (dev_write address byte d)) = Bus.start d.
Proof.
  unfold Bus.start. destruct d as [m|p|k]; cbn [dev_write CpuDevice_Device].
  - destruct m; reflexivity.
  - pose proof (ppu_write_hdr address byte p) as H.
    destruct (PPU.write address byte p) as [p' evs]. cbn in *.
    rewrite H. reflexivity.
  - reflexivity.
Qed.

(** On a bus that covers the address space a read of an address that is
    not negative returns a number, and the bus still covers the address
    space afterwards. *)
Lemma read_covered (bus : list CpuDevice) (address : Z) :
  covers bus -> 0 <= address ->
  exists v bus', Bus.read bus address = (Some v, bus') /\ covers bus'.
Proof.
  intros Hcov Ha. unfold covers in *.
  induction bus as [|d bus IH]; [inversion Hcov|].
  cbn [Bus.read].
  destruct (Z.ltb_spec address (Bus.start d)) as [Hlt|Hge].
  - inversion Hcov as [? ? Hd|? ? Hrest]; subst; [lia|].
    destruct (IH Hrest) as (v & bus' & Hread & Hcov').
    rewrite Hread. exists v, (d :: bus'). split; [reflexivity|].
    apply Exists_cons_tl, Hcov'.
  - pose proof (dev_read_start address d) as Hstart.
    destruct (dev_read address d) as [v d']. cbn [snd] in Hstart.
    exists v, (d' :: bus). split; [reflexivity|].
    inversion Hcov as [? ? Hd|? ? Hrest]; subst.
    + apply Exists_cons_hd. rewrite Hstart. exact Hd.
    + apply Exists_cons_tl, Hrest.
Qed.

Lemma stack_bus_covers (bus : list CpuDevice) (r : RAM.t) :
  stack_bus bus r -> low_ram r -> covers bus.
Proof.
  intros (pre & post & -> & _) (Hstart & _). unfold covers.
  apply Exists_app. right. apply Exists_cons_hd.
  unfold Bus.start. cbn. rewrite Hstart. lia.
Qed.

(** Reads and writes in the first two pages go to the low RAM. *)
Lemma read_stack_bus (bus : list CpuDevice) (r : RAM.t) (address : Z) :
  stack_bus bus r -> low_ram r -> 0 <= address <= 0x1FF ->
  Bus.read bus address = (Some (RAM.read address r), bus).
Proof.
  intros (pre & post & -> & Hpre) (Hstart & _) Ha.
  rewrite read_first.
  - reflexivity.
  - eapply Forall_impl; [exact Hpre|]. cbv beta. intros d Hd. lia.
  - unfold Bus.start. cbn. rewrite Hstart. lia.
Qed.

Lemma write_stack_bus (bus : list CpuDevice) (r : RAM.t) (address byte : Z) :
  stack_bus bus r -> low_ram r -> 0 <= address <= 0x1FF ->
  exists bus',
    Bus.write bus address byte = (bus', []) /\
    stack_bus bus' (RAM.write address byte r).
Proof.
  intros (pre & post & -> & Hpre) (Hstart & _) Ha.
  exists (pre ++ CMem (MRAM (RAM.write address byte r)) :: post). split.
  - rewrite write_first.
    + reflexivity.
    + eapply Forall_impl; [exact Hpre|]. cbv beta. intros d Hd. lia.
    + unfold Bus.start. cbn. rewrite Hstart. lia.
  - exists pre, post. split; [reflexivity | exact Hpre].
Qed.

Lemma ram_write_low (r : RAM.t) (address byte : Z) :
  low_ram r -> low_ram (RAM.write address byte r).
Proof.
  intros (Hstart & Hsize & Hcap). split; [exact Hstart|]. split; [exact Hsize|].
  unfold RAM.write. cbn [RAM.hdr RAM.bytes]. rewrite ta_set_length. exact Hcap.
Qed.

Lemma ram_read_write (r : RAM.t) (a a' byte : Z) :
  low_ram r -> 0 <= a <= 0x1FF -> 0 <= a' <= 0x1FF ->
  RAM.read a' (RAM.write a byte r) =
  if a =? a' then byte mod 256 else RAM.read a' r.
Proof.
  intros (Hstart & Hsize & Hcap) Ha Ha'.
  unfold RAM.read, RAM.write. cbn [RAM.hdr RAM.bytes]. rewrite Hstart.
  rewrite !rem_nonneg by lia.
  rewrite !Z.sub_0_r, !Z.mod_small by lia.
  destruct (Z.eqb_spec a a') as [->|Hne].
  - rewrite ta_get_set_eq by lia.
    change (JS.num (Some ?v)) with v. rewrite band_ff_l.
    apply Z.mod_mod. lia.
  - rewrite ta_get_set_ne by lia. reflexivity.
Qed.

End CpuBusFacts.


(** ** The CPU ([CPU.pushStack], [CPU.pullStack], [CPU.rti], the ADC methods) *)

Section CPUFacts.

Lemma bind_ok {A B : Type} (m : CPU.M A) (k : A -> CPU.M B) (c c' : CPU.t) (v : A) :
  m c = Ok (v, c') -> CPU.bind m k c = k v c'.
Proof. intros H. unfold CPU.bind. rewrite H. reflexivity. Qed.

Lemma busRead_covered (c : CPU.t) (address : Z) :
  covers (CPU.cpuBus c) -> 0 <= address ->
  exists v bus',
    CPU.busRead address c = Ok (Some v, CPU.set_cpuBus bus' c) /\ covers bus'.
Proof.
  intros Hcov Ha.
  destruct (read_covered _ _ Hcov Ha) as (v & bus' & Hread & Hcov').
  exists v, bus'. unfold CPU.busRead. rewrite Hread. split; [reflexivity | exact Hcov'].
Qed.

(** The log of [debug] does not throw on a bus that covers the address
    space, and touches nothing but the bus. *)
Lemma debug_ok (c : CPU.t) :
  covers (CPU.cpuBus c) -> 0 <= CPU.pc c ->
  exists bus', CPU.debug c = Ok (tt, CPU.set_cpuBus bus' c) /\ covers bus'.
Proof.
  intros Hcov Hpc. unfold CPU.debug.
  destruct (busRead_covered c (CPU.pc c) Hcov Hpc) as (v0 & bus0 & H0 & Hcov0).
  set (c0 := CPU.set_cpuBus bus0 c) in *.
  destruct (busRead_covered c0 (CPU.pc c + 1) Hcov0 ltac:(lia)) as (v1 & bus1 & H1 & Hcov1).
  set (c1 := CPU.set_cpuBus bus1 c0) in *.
  destruct (busRead_covered c1 (CPU.pc c + 2) Hcov1 ltac:(lia)) as (v2 & bus2 & H2 & Hcov2).
  exists bus2. split; [|exact Hcov2].
  unfold CPU.bind at 1. cbn [CPU.get].
  rewrite (bind_ok _ _ _ _ _ H0).
  unfold CPU.bind at 1. cbn [CPU.lift Util.formatHex].
  unfold CPU.bind at 1. cbn [CPU.get].
  change (CPU.pc c0) with (CPU.pc c).
  rewrite (bind_ok _ _ _ _ _ H1).
  unfold CPU.bind at 1. cbn [CPU.lift Util.formatHex].
  unfold CPU.bind at 1. cbn [CPU.get].
  change (CPU.pc c1) with (CPU.pc c).
  rewrite (bind_ok _ _ _ _ _ H2).
  reflexivity.
Qed.

(** The setter of [pc] stores the value and leaves the registers alone. *)
Lemma set_pc_ok (c : CPU.t) (value : Z) :
  covers (CPU.cpuBus c) -> 0 <= CPU.pc c ->
  exists bus',
    CPU.set_pc value c = Ok (tt, CPU.set__pc value (CPU.set_cpuBus bus' c)) /\
    covers bus'.
Proof.
  intros Hcov Hpc. unfold CPU.set_pc.
  destruct (busRead_covered c (CPU.pc c) Hcov Hpc) as (v0 & bus0 & H0 & Hcov0).
  set (c0 := CPU.set_cpuBus bus0 c) in *.
  destruct (debug_ok c0 Hcov0 Hpc) as (bus1 & H1 & Hcov1).
  exists bus1. split; [|exact Hcov1].
  unfold CPU.bind at 1. cbn [CPU.get].
  rewrite (bind_ok _ _ _ _ _ H0).
  rewrite (bind_ok _ _ _ _ _ H1).
  reflexivity.
Qed.

(** What the missing sentinel costs the CPU. When no region of its bus
    answers the program counter, the opcode that [execute] fetches is
    [undefined]; the table of opcodes has no entry for it, and
    [invalidOpcode] formats the byte for the console: [formatHex] throws
    a [TypeError] out of [tick]. *)
Lemma unmapped_fetch_throws (c : CPU.t) :
  CPU.cyclesRemaining c <= 0 ->
  CPU.pendingIRQ c = false -> CPU.pendingNMI c = false ->
  Forall (fun d => CPU.pc c < Bus.start d) (CPU.cpuBus c) ->
  CPU.tick c = Throw "TypeError"%string.
Proof.
  intros Hcycles Hirq Hnmi Hall.
  assert (CPU.busRead (CPU.pc c) c = Ok (None, c)) as Hread.
  { unfold CPU.busRead. rewrite (read_unmapped _ _ Hall).
    destruct c; reflexivity. }
  assert (CPU.execute c = Throw "TypeError"%string) as Hexec.
  { unfold CPU.execute.
    unfold CPU.bind at 1. cbn [CPU.get]. rewrite Hirq.
    unfold CPU.bind at 1. cbn [CPU.get]. cbn [andb].
    unfold CPU.bind at 1. cbn [CPU.get]. rewrite Hnmi.
    unfold CPU.bind at 1. cbn [CPU.get].
    rewrite (bind_ok _ _ _ _ _ Hread).
    cbn [CPU.opcodeFn]. unfold CPU.invalidOpcode.
    unfold CPU.bind at 1.
    unfold CPU.bind at 1. cbn [CPU.get].
    rewrite (bind_ok _ _ _ _ _ Hread).
    reflexivity. }
  unfold CPU.tick. unfold CPU.bind at 1. cbn [CPU.get].
  destruct (Z.leb_spec (CPU.cyclesRemaining c) 0); [|lia].
  unfold CPU.bind. rewrite Hexec. reflexivity.
Qed.

(** So it is on a CPU whose bus holds the two I/O stubs only: the
    first tick throws. *)
Lemma unmapped_fetch_throws_on_stubs :
  CPU.tick (CPU.new (Bus.new [CMem (MBase NES.apu); CMem (MBase NES.disabledIO)]))
  = Throw "TypeError"%string.
Proof.
  apply unmapped_fetch_throws.
  - cbn. lia.
  - reflexivity.
  - reflexivity.
  - repeat constructor.
Qed.

Lemma stack_address (sp : Z) :
  0 <= sp <= 255 -> JS.bor (JS.shl CPU.STACK_PAGE 8) sp = 0x100 + sp.
Proof.
  intros Hsp. pose proof (shl8_lor 1 sp ltac:(lia) ltac:(lia)) as H.
  unfold JS.bor. change (JS.to_int32 (JS.shl CPU.STACK_PAGE 8)) with (Z.shiftl 1 8).
  rewrite (to_int32_id sp) by lia. rewrite <- H. reflexivity.
Qed.

Lemma pushStack_ok (c : CPU.t) (r : RAM.t) (byte : Z) :
  stack_bus (CPU.cpuBus c) r -> low_ram r -> 0 <= CPU.sp c <= 255 ->
  exists c',
    CPU.pushStack byte c = Ok (tt, c') /\
    stack_bus (CPU.cpuBus c') (RAM.write (0x100 + CPU.sp c) byte r) /\
    CPU.sp c' = (CPU.sp c - 1) mod 256 /\
    CPU.pc c' = CPU.pc c.
Proof.
  intros Hbus Hram Hsp.
  destruct (write_stack_bus _ r (0x100 + CPU.sp c) byte Hbus Hram ltac:(lia))
    as (bus' & Hwrite & Hbus').
  exists (CPU.set_sp ((CPU.sp c - 1) mod 256) (CPU.set_cpuBus bus' c)).
  split; [|split; [exact Hbus' | split; reflexivity]].
  unfold CPU.pushStack. unfold CPU.bind at 1. cbn [CPU.get].
  rewrite stack_address by exact Hsp.
  unfold CPU.bind, CPU.busWrite, CPU.modify. rewrite Hwrite.
  cbn [existsb]. cbn [CPU.sp CPU.set_cpuBus]. rewrite band_ff_l. reflexivity.
Qed.

Lemma pullStack_ok (c : CPU.t) (r : RAM.t) :
  stack_bus (CPU.cpuBus c) r -> low_ram r -> 0 <= CPU.sp c <= 255 ->
  exists c',
    CPU.pullStack c = Ok (Some (RAM.read (0x100 + (CPU.sp c + 1) mod 256) r), c') /\
    CPU.cpuBus c' = CPU.cpuBus c /\
    CPU.sp c' = (CPU.sp c + 1) mod 256 /\
    CPU.pc c' = CPU.pc c.
Proof.
  intros Hbus Hram Hsp.
  pose proof (Z.mod_pos_bound (CPU.sp c + 1) 256 ltac:(lia)) as Hsp'.
  pose proof (read_stack_bus _ r (0x100 + (CPU.sp c + 1) mod 256) Hbus Hram ltac:(lia))
    as Hread.
  exists (CPU.set_cpuBus (CPU.cpuBus c)
            (CPU.set_sp ((CPU.sp c + 1) mod 256) c)).
  split; [|repeat split].
  unfold CPU.pullStack, CPU.bind, CPU.modify, CPU.get, CPU.busRead.
  cbn [CPU.sp CPU.set_sp CPU.cpuBus]. rewrite band_ff_l.
  rewrite stack_address by lia. rewrite Hread. reflexivity.
Qed.

Lemma shl_8 (hi : Z) : 0 <= hi < 256 -> JS.shl hi 8 = Z.shiftl hi 8.
Proof.
  intros Hhi. unfold JS.shl. rewrite (to_int32_id hi) by lia.
  change (Z.land 8 31) with 8. apply to_int32_id.
  rewrite Z.shiftl_mul_pow2 by lia. lia.
Qed.

Lemma word_of_bytes (hi lo : Z) :
  0 <= hi < 256 -> 0 <= lo < 256 ->
  JS.bor lo (JS.shl hi 8) = Z.lor (Z.shiftl hi 8) lo.
Proof.
  intros Hhi Hlo. rewrite shl_8 by exact Hhi. unfold JS.bor.
  rewrite (to_int32_id lo) by lia.
  rewrite to_int32_id by (rewrite Z.shiftl_mul_pow2 by lia; lia).
  apply Z.lor_comm.
Qed.

(** Clearing bit 2 of a byte. *)
Lemma clear_interrupt_disable (P : Z) :
  0 <= P < 256 ->
  Util.setBit P CPU.STATUS_FLAG_BIT_INTERRUPT_DISABLE false = Z.land P 0xFB.
Proof.
  intros HP. apply Z.eqb_eq.
  apply (forall_bytes
           (fun P => Util.setBit P CPU.STATUS_FLAG_BIT_INTERRUPT_DISABLE false
                     =? Z.land P 0xFB)); [|exact HP].
  vm_compute. reflexivity.
Qed.

Lemma sp_down_up (t : Z) :
  0 <= t <= 255 ->
  0 <= (t - 1) mod 256 <= 255 /\
  ((t - 1) mod 256 + 1) mod 256 = t /\
  (t - 1) mod 256 <> t /\
  ((t - 1) mod 256 - 1) mod 256 <> t.
Proof.
  intros Ht. repeat split; Z.div_mod_to_equations; lia.
Qed.

(** C5, as amended: RTI clears the interrupt-disable flag after it has
    restored the status register. On a bus whose first two pages are
    plain RAM, pushing PCH, PCL and P and then executing RTI succeeds
    and leaves: the status register equal to the pushed P with bit 2
    cleared (so equal to P exactly when bit 2 of P is clear), the program
    counter equal to [(PCH << 8) | PCL], and SP at its value before the
    pushes. *)
Theorem push_rti_restores (c : CPU.t) (r : RAM.t) (PCH PCL P : Z) :
  stack_bus (CPU.cpuBus c) r -> low_ram r ->
  0 <= CPU.sp c <= 255 -> 0 <= CPU.pc c ->
  0 <= PCH < 256 -> 0 <= PCL < 256 -> 0 <= P < 256 ->
  exists c1 c2,
    push3 PCH PCL P c = Ok (tt, c1) /\
    CPU.rti c1 = Ok (tt, c2) /\
    CPU.p c2 = Z.land P 0xFB /\
    (Z.testbit P 2 = false -> CPU.p c2 = P) /\
    CPU.pc c2 = Z.lor (Z.shiftl PCH 8) PCL /\
    CPU.sp c2 = CPU.sp c.
Proof.
  intros Hbus Hram Hsp Hpc HPCH HPCL HP.
  set (s := CPU.sp c) in *.
  destruct (sp_down_up s Hsp) as (Hs1 & Hup1 & Hne1 & Hne2).
  set (s1 := (s - 1) mod 256) in *.
  destruct (sp_down_up s1 Hs1) as (Hs2 & Hup2 & Hne3 & _).
  set (s2 := (s1 - 1) mod 256) in *.
  destruct (sp_down_up s2 Hs2) as (Hs3 & Hup3 & _ & _).
  (* the three pushes *)
  destruct (pushStack_ok c r PCH Hbus Hram Hsp) as (ca & Hpa & Hbusa & Hspa & Hpca).
  fold s in Hbusa, Hspa. fold s1 in Hspa.
  set (r1 := RAM.write (0x100 + s) PCH r) in *.
  assert (low_ram r1) as Hram1 by (apply ram_write_low, Hram).
  destruct (pushStack_ok ca r1 PCL Hbusa Hram1 ltac:(rewrite Hspa; exact Hs1))
    as (cb & Hpb & Hbusb & Hspb & Hpcb).
  rewrite Hspa in Hbusb, Hspb. fold s2 in Hspb.
  set (r2 := RAM.write (0x100 + s1) PCL r1) in *.
  assert (low_ram r2) as Hram2 by (apply ram_write_low, Hram1).
  destruct (pushStack_ok cb r2 P Hbusb Hram2 ltac:(rewrite Hspb; exact Hs2))
    as (cc & Hpc' & Hbusc & Hspc & Hpcc).
  rewrite Hspb in Hbusc, Hspc.
  set (r3 := RAM.write (0x100 + s2) P r2) in *.
  assert (low_ram r3) as Hram3 by (apply ram_write_low, Hram2).
  (* what the stack holds *)
  assert (RAM.read (0x100 + s2) r3 = P) as Hrd3.
  { subst r3. rewrite ram_read_write by (assumption || lia).
    rewrite Z.eqb_refl. apply Z.mod_small. lia. }
  assert (RAM.read (0x100 + s1) r3 = PCL) as Hrd2.
  { subst r3 r2. rewrite !ram_read_write by (assumption || lia).
    destruct (Z.eqb_spec (0x100 + s2) (0x100 + s1)); [lia|].
    rewrite Z.eqb_refl. apply Z.mod_small. lia. }
  assert (RAM.read (0x100 + s) r3 = PCH) as Hrd1.
  { subst r3 r2 r1. rewrite !ram_read_write by (assumption || lia).
    destruct (Z.eqb_spec (0x100 + s2) (0x100 + s)); [lia|].
    destruct (Z.eqb_spec (0x100 + s1) (0x100 + s)); [lia|].
    rewrite Z.eqb_refl. apply Z.mod_small. lia. }
  (* the three pulls *)
  destruct (pullStack_ok cc r3 Hbusc Hram3 ltac:(rewrite Hspc; lia))
    as (da & Hqa & Hbda & Hsda & Hpda).
  rewrite Hspc, Hup3 in Hqa, Hsda. rewrite Hrd3 in Hqa.
  destruct (pullStack_ok da r3 ltac:(rewrite Hbda; exact Hbusc) Hram3
                         ltac:(rewrite Hsda; exact Hs2))
    as (db & Hqb & Hbdb & Hsdb & Hpdb).
  rewrite Hsda, Hup2 in Hqb, Hsdb. rewrite Hrd2 in Hqb.
  destruct (pullStack_ok db r3 ltac:(rewrite Hbdb, Hbda; exact Hbusc) Hram3
                         ltac:(rewrite Hsdb; exact Hs1))
    as (dc & Hqc & Hbdc & Hsdc & Hpdc).
  rewrite Hsdb, Hup1 in Hqc, Hsdc. rewrite Hrd1 in Hqc.
  (* the end of [rti] *)
  set (dd := CPU.setStatusFlag CPU.STATUS_FLAG_BIT_INTERRUPT_DISABLE false
               (CPU.set_p P dc)).
  assert (covers (CPU.cpuBus dd)) as Hcov.
  { change (CPU.cpuBus dd) with (CPU.cpuBus dc).
    rewrite Hbdc, Hbdb, Hbda. exact (stack_bus_covers _ r3 Hbusc Hram3). }
  assert (0 <= CPU.pc dd) as Hpcd.
  { change (CPU.pc dd) with (CPU.pc dc).
    rewrite Hpdc, Hpdb, Hpda, Hpcc, Hpcb, Hpca. exact Hpc. }
  destruct (set_pc_ok dd (Z.lor (Z.shiftl PCH 8) PCL) Hcov Hpcd) as (bus' & Hset & _).
  exists cc, (CPU.set_cyclesRemaining 6
                (CPU.set__pc (Z.lor (Z.shiftl PCH 8) PCL) (CPU.set_cpuBus bus' dd))).
  split.
  { unfold push3.
    rewrite (bind_ok _ _ _ _ _ Hpa), (bind_ok _ _ _ _ _ Hpb). exact Hpc'. }
  split.
  { unfold CPU.rti.
    rewrite (bind_ok _ _ _ _ _ Hqa), (bind_ok _ _ _ _ _ Hqb), (bind_ok _ _ _ _ _ Hqc).
    change (JS.num (Some PCL)) with PCL. change (JS.num (Some PCH)) with PCH.
    change (JS.num (Some P)) with P.
    rewrite word_of_bytes by assumption.
    unfold CPU.bind at 1. cbn [CPU.modify].
    unfold CPU.bind at 1. cbn [CPU.modify]. fold dd.
    rewrite (bind_ok _ _ _ _ _ Hset). reflexivity. }
  assert (CPU.p dd = Z.land P 0xFB) as Hp.
  { subst dd. unfold CPU.setStatusFlag. cbn [CPU.p CPU.set_p].
    apply clear_interrupt_disable, HP. }
  split; [exact Hp|].
  split.
  { intros Hbit. change (CPU.p dd = P). rewrite Hp.
    apply Z.bits_inj'. intros i Hi. rewrite Z.land_spec.
    destruct (Z.eqb_spec i 2) as [->|Hne]; [rewrite Hbit; reflexivity|].
    assert (Z.testbit 0xFB i = true \/ Z.testbit P i = false) as [-> | ->].
    { destruct (Z.ltb_spec i 8).
      - left. assert (i = 0 \/ i = 1 \/ i = 3 \/ i = 4 \/ i = 5 \/ i = 6 \/ i = 7)
          as [->|[->|[->|[->|[->|[->| ->]]]]]] by lia; reflexivity.
      - right. replace P with (P mod 2 ^ 8) by (apply Z.mod_small; lia).
        apply Z.mod_pow2_bits_high. lia. }
    - apply andb_true_r.
    - reflexivity. }
  split; [reflexivity|].
  change (CPU.sp dc = s). exact Hsdc.
Qed.

Lemma truthy_bit7 (v : Z) : JS.truthy (JS.band v (JS.shl 1 7)) = Z.testbit v 7.
Proof.
  pose proof (getBit_testbit v 7 ltac:(lia)) as H. unfold Util.getBit in H.
  destruct (JS.truthy _), (Z.testbit v 7); cbn in H; congruence.
Qed.

(** The overflow expression of the code, on the sum before it is cut to
    a byte, and the expression of the specification, on the result: both
    are the same function of bit 7 of the three operands. *)
Lemma overflow_of_code (A M sum : Z) :
  JS.truthy (JS.band (JS.band (JS.bnot (JS.bxor A M)) (JS.bxor A sum)) (JS.shl 1 7))
  = negb (xorb (Z.testbit A 7) (Z.testbit M 7)) && xorb (Z.testbit A 7) (Z.testbit sum 7).
Proof.
  rewrite truthy_bit7. unfold JS.band, JS.bnot, JS.bxor.
  rewrite Z.land_spec, !to_int32_testbit by lia.
  rewrite Z.lnot_spec by lia.
  rewrite !to_int32_testbit, !Z.lxor_spec, !to_int32_testbit by lia.
  reflexivity.
Qed.

Lemma overflow_of_spec (A M result : Z) :
  negb (Z.land (Z.land (Z.lnot (Z.lxor A M)) (Z.lxor A result)) 0x80 =? 0)
  = negb (xorb (Z.testbit A 7) (Z.testbit M 7)) && xorb (Z.testbit A 7) (Z.testbit result 7).
Proof.
  change 0x80 with (2 ^ 7). rewrite land_pow2 by lia.
  rewrite Z.land_spec, Z.lnot_spec, !Z.lxor_spec by lia.
  destruct (negb (xorb (Z.testbit A 7) (Z.testbit M 7))
            && xorb (Z.testbit A 7) (Z.testbit result 7)); reflexivity.
Qed.

(** [adc_imm] is the operand read, the register updates and the move
    of the program counter. *)
Lemma adc_imm_stages (c : CPU.t) :
  CPU.adc_imm c =
  CPU.bind (CPU.busRead (CPU.getAddressImm c))
    (fun memory =>
       CPU.bind (CPU.modify (adc_registers memory))
         (fun _ =>
            CPU.bind (CPU.get CPU.pc)
              (fun pc0 =>
                 CPU.bind (CPU.set_pc (JS.band 0xffff (pc0 + 2)))
                   (fun _ => CPU.modify (CPU.set_cyclesRemaining 2))))) c.
Proof.
  unfold CPU.adc_imm, CPU.bind, CPU.get, CPU.modify.
  destruct (CPU.busRead (CPU.getAddressImm c) c) as [[memory c1]|msg]; reflexivity.
Qed.

Lemma adc_imm_run (c : CPU.t) (M : Z) :
  covers (CPU.cpuBus c) -> 0 <= CPU.pc c ->
  fst (Bus.read (CPU.cpuBus c) (CPU.getAddressImm c)) = Some M ->
  exists bus1 bus',
    CPU.adc_imm c =
    Ok (tt, CPU.set_cyclesRemaining 2
              (CPU.set__pc (JS.band 0xffff (CPU.pc c + 2))
                 (CPU.set_cpuBus bus'
                    (adc_registers (Some M) (CPU.set_cpuBus bus1 c))))).
Proof.
  intros Hcov Hpc Hread.
  assert (0 <= CPU.getAddressImm c) as Haddr.
  { unfold CPU.getAddressImm. rewrite band_ffff_l.
    apply Z.mod_pos_bound. lia. }
  destruct (busRead_covered c _ Hcov Haddr) as (v & bus1 & Hread1 & Hcov1).
  assert (v = M) as ->.
  { unfold CPU.busRead in Hread1.
    destruct (Bus.read (CPU.cpuBus c) (CPU.getAddressImm c)) as [v' bus1'].
    cbn [fst] in Hread. congruence. }
  pose (c5 := adc_registers (Some M) (CPU.set_cpuBus bus1 c)).
  assert (CPU.cpuBus c5 = bus1) as Hbus5 by reflexivity.
  assert (CPU.pc c5 = CPU.pc c) as Hpc5 by reflexivity.
  destruct (set_pc_ok c5 (JS.band 0xffff (CPU.pc c + 2))
              ltac:(rewrite Hbus5; exact Hcov1) ltac:(rewrite Hpc5; exact Hpc))
    as (bus' & Hset & _).
  exists bus1, bus'.
  rewrite adc_imm_stages.
  rewrite (bind_ok _ _ _ _ _ Hread1).
  unfold CPU.bind at 1. cbn [CPU.modify]. fold c5.
  unfold CPU.bind at 1. cbn [CPU.get]. rewrite Hpc5.
  rewrite (bind_ok _ _ _ _ _ Hset). reflexivity.
Qed.

(** The accumulator and the status register after the register
    updates. *)
Lemma adc_registers_spec (c : CPU.t) (M : Z) :
  let A := CPU.a c in
  let sum := A + M + CPU.statusCarry c in
  let result := sum mod 256 in
  CPU.a (adc_registers (Some M) c) = result /\
  CPU.p (adc_registers (Some M) c) =
    Util.setBit
      (Util.setBit
         (Util.setBit
            (Util.setBit (CPU.p c) CPU.STATUS_FLAG_BIT_CARRY (255 <? sum))
            CPU.STATUS_FLAG_BIT_OVERFLOW
            (negb (xorb (Z.testbit A 7) (Z.testbit M 7))
             && xorb (Z.testbit A 7) (Z.testbit result 7)))
         CPU.STATUS_FLAG_BIT_NEGATIVE (Z.testbit result 7))
      CPU.STATUS_FLAG_BIT_ZERO (result =? 0).
Proof.
  intros A sum result.
  unfold adc_registers, CPU.updateStatusZero, CPU.updateStatusNegative, CPU.setStatusFlag.
  cbv zeta. cbn [CPU.a CPU.p CPU.set_p CPU.set_a].
  change (JS.num (CPU.add3 (CPU.a c) (Some M) (CPU.statusCarry c))) with sum.
  change (JS.num (Some M)) with M.
  change (CPU.gt_ff (CPU.add3 (CPU.a c) (Some M) (CPU.statusCarry c))) with (255 <? sum).
  rewrite overflow_of_code, truthy_bit7, band_ff_l.
  fold A. fold result.
  assert (Z.testbit sum 7 = Z.testbit result 7) as ->.
  { subst result. change 256 with (2 ^ 8).
    rewrite Z.mod_pow2_bits_low by lia. reflexivity. }
  split; reflexivity.
Qed.

(** The four flags after the four updates of the status register. *)
Lemma flags_after_updates (p0 : Z) (C V N Zf : bool) :
  let p' :=
    Util.setBit
      (Util.setBit
         (Util.setBit (Util.setBit p0 CPU.STATUS_FLAG_BIT_CARRY C)
                      CPU.STATUS_FLAG_BIT_OVERFLOW V)
         CPU.STATUS_FLAG_BIT_NEGATIVE N)
      CPU.STATUS_FLAG_BIT_ZERO Zf in
  Util.getBit p' CPU.STATUS_FLAG_BIT_CARRY = Z.b2z C /\
  Util.getBit p' CPU.STATUS_FLAG_BIT_OVERFLOW = Z.b2z V /\
  Util.getBit p' CPU.STATUS_FLAG_BIT_NEGATIVE = Z.b2z N /\
  Util.getBit p' CPU.STATUS_FLAG_BIT_ZERO = Z.b2z Zf.
Proof.
  cbv zeta.
  unfold CPU.STATUS_FLAG_BIT_ZERO, CPU.STATUS_FLAG_BIT_NEGATIVE,
         CPU.STATUS_FLAG_BIT_OVERFLOW, CPU.STATUS_FLAG_BIT_CARRY.
  rewrite !getBit_setBit by lia. repeat split.
Qed.

(** The move of the program counter and the cycle count leave the
    accumulator and the status register alone. *)
Lemma registers_after_pc (n value : Z) (bus : list CpuDevice) (c : CPU.t) :
  CPU.a (CPU.set_cyclesRemaining n (CPU.set__pc value (CPU.set_cpuBus bus c))) = CPU.a c /\
  CPU.p (CPU.set_cyclesRemaining n (CPU.set__pc value (CPU.set_cpuBus bus c))) = CPU.p c.
Proof. split; reflexivity. Qed.

(** The registers after the whole instruction. *)
Lemma adc_imm_registers (c : CPU.t) (M : Z) :
  covers (CPU.cpuBus c) -> 0 <= CPU.pc c ->
  fst (Bus.read (CPU.cpuBus c) (CPU.getAddressImm c)) = Some M ->
  exists c',
    CPU.adc_imm c = Ok (tt, c') /\
    CPU.a c' = (CPU.a c + M + CPU.statusCarry c) mod 256 /\
    CPU.p c' =
      Util.setBit
        (Util.setBit
           (Util.setBit
              (Util.setBit (CPU.p c) CPU.STATUS_FLAG_BIT_CARRY
                 (255 <? CPU.a c + M + CPU.statusCarry c))
              CPU.STATUS_FLAG_BIT_OVERFLOW
              (negb (xorb (Z.testbit (CPU.a c) 7) (Z.testbit M 7))
               && xorb (Z.testbit (CPU.a c) 7)
                       (Z.testbit ((CPU.a c + M + CPU.statusCarry c) mod 256) 7)))
           CPU.STATUS_FLAG_BIT_NEGATIVE
           (Z.testbit ((CPU.a c + M + CPU.statusCarry c) mod 256) 7))
        CPU.STATUS_FLAG_BIT_ZERO ((CPU.a c + M + CPU.statusCarry c) mod 256 =? 0).
Proof.
  intros Hcov Hpc Hread.
  destruct (adc_imm_run c M Hcov Hpc Hread) as (bus1 & bus' & Hrun).
  destruct (adc_registers_spec (CPU.set_cpuBus bus1 c) M) as [Ha5 Hp5].
  eexists. split; [exact Hrun|].
  destruct (registers_after_pc 2 (JS.band 0xffff (CPU.pc c + 2)) bus'
              (adc_registers (Some M) (CPU.set_cpuBus bus1 c))) as [-> ->].
  split; [exact Ha5 | exact Hp5].
Qed.

(** The two boundary cases, as arithmetic. *)
Lemma adc_boundary_cases :
  ((0x7F + 0x01 + 0) mod 256 = 0x80 /\
   (255 <? 0x7F + 0x01 + 0) = false /\
   negb (Z.land (Z.land (Z.lnot (Z.lxor 0x7F 0x01)) (Z.lxor 0x7F 0x80)) 0x80 =? 0) = true /\
   Z.testbit 0x80 7 = true) /\
  ((0xFF + 0x01 + 0) mod 256 = 0x00 /\
   (255 <? 0xFF + 0x01 + 0) = true /\
   negb (Z.land (Z.land (Z.lnot (Z.lxor 0xFF 0x01)) (Z.lxor 0xFF 0x00)) 0x80 =? 0) = false /\
   Z.testbit 0x00 7 = false).
Proof. vm_compute. repeat split. Qed.

End CPUFacts.


(** ** ADC in its eight addressing modes *)

Section CPUAdd.

Lemma read_keeps_covers (bus : list CpuDevice) (address : Z) :
  covers bus -> covers (snd (Bus.read bus address)).
Proof.
  unfold covers. induction bus as [|d bus IH]; intros Hcov; [inversion Hcov|].
  cbn [Bus.read].
  destruct (address <? Bus.start d).
  - destruct (Bus.read bus address) as [v bus'] eqn:E. cbn [snd] in *.
    inversion Hcov as [? ? Hd|? ? Hrest]; subst.
    + apply Exists_cons_hd, Hd.
    + apply Exists_cons_tl, IH, Hrest.
  - pose proof (dev_read_start address d) as Hstart.
    destruct (dev_read address d) as [v d']. cbn [snd] in *.
    inversion Hcov as [? ? Hd|? ? Hrest]; subst.
    + apply Exists_cons_hd. rewrite Hstart. exact Hd.
    + apply Exists_cons_tl, Hrest.
Qed.

Lemma dev_read_undefined_start (d : CpuDevice) :
  Bus.start (snd (CPU.dev_read_undefined d)) = Bus.start d.
Proof. destruct d as [m|p|k]; reflexivity. Qed.

Lemma reads_only_ret {A : Type} (v : A) : reads_only (CPU.ret v).
Proof. intros c. exists v, c. repeat split; auto. Qed.

Lemma reads_only_get {A : Type} (f : CPU.t -> A) : reads_only (CPU.get f).
Proof. intros c. exists (f c), c. repeat split; auto. Qed.

Lemma reads_only_bind {A B : Type} (m : CPU.M A) (k : A -> CPU.M B) :
  reads_only m -> (forall v, reads_only (k v)) -> reads_only (CPU.bind m k).
Proof.
  intros Hm Hk c.
  destruct (Hm c) as (v & c1 & E1 & Ha1 & Hp1 & Hpc1 & Hcov1).
  destruct (Hk v c1) as (w & c2 & E2 & Ha2 & Hp2 & Hpc2 & Hcov2).
  exists w, c2. unfold CPU.bind. rewrite E1.
  split; [exact E2|]. repeat split; try congruence. auto.
Qed.

Lemma reads_only_busRead (address : Z) : reads_only (CPU.busRead address).
Proof.
  intros c. unfold CPU.busRead.
  pose proof (read_keeps_covers (CPU.cpuBus c) address) as Hcov.
  destruct (Bus.read (CPU.cpuBus c) address) as [v bus'].
  exists v, (CPU.set_cpuBus bus' c). repeat split. exact Hcov.
Qed.

Lemma reads_only_busReadAt (address : option Z) : reads_only (CPU.busReadAt address).
Proof.
  destruct address as [address|]; [apply reads_only_busRead|].
  intros c. unfold CPU.busReadAt.
  destruct (CPU.cpuBus c) as [|d rest] eqn:E.
  - exists None, c. repeat split. intros Hcov. inversion Hcov.
  - pose proof (dev_read_undefined_start d) as Hstart.
    destruct (CPU.dev_read_undefined d) as [v d']. cbn [snd] in Hstart.
    exists (Some v), (CPU.set_cpuBus (d' :: rest) c). repeat split.
    unfold covers. cbn [CPU.cpuBus CPU.set_cpuBus].
    intros Hcov. inversion Hcov as [? ? Hd|? ? Hrest]; subst.
    + apply Exists_cons_hd. rewrite Hstart. exact Hd.
    + apply Exists_cons_tl, Hrest.
Qed.

Lemma reads_only_page_cross (b : bool) :
  reads_only (if b then CPU.modify (CPU.set_additionalCycles 1) else CPU.ret tt).
Proof.
  destruct b; [|apply reads_only_ret].
  intros c. exists tt, (CPU.set_additionalCycles 1 c). repeat split; auto.
Qed.

Lemma reads_only_always (getAddress : CPU.M Z) :
  reads_only getAddress -> reads_only (CPU.always getAddress).
Proof.
  intros Hm. unfold CPU.always. apply reads_only_bind; [exact Hm|].
  intros v. apply reads_only_ret.
Qed.

End CPUAdd.

Ltac reads_only_step :=
  repeat first
    [ apply reads_only_ret
    | apply reads_only_get
    | apply reads_only_busRead
    | apply reads_only_busReadAt
    | apply reads_only_page_cross
    | apply reads_only_always
    | apply reads_only_bind; [|intros ?]
    | match goal with |- reads_only (if ?b then _ else _) => destruct b end ].

Section CPUAddModes.

Lemma reads_only_Imm : reads_only CPU.Imm.
Proof. unfold CPU.Imm. reads_only_step. Qed.

Lemma reads_only_Zpg : reads_only CPU.Zpg.
Proof. unfold CPU.Zpg, CPU.getAddressZpg. reads_only_step. Qed.

Lemma reads_only_ZpgX : reads_only CPU.ZpgX.
Proof. unfold CPU.ZpgX, CPU.getAddressZpgX, CPU.getAddressZpg. reads_only_step. Qed.

Lemma reads_only_Abs : reads_only CPU.Abs.
Proof. unfold CPU.Abs, CPU.getAddressAbs. reads_only_step. Qed.

Lemma reads_only_AbsX : reads_only CPU.AbsX.
Proof. unfold CPU.AbsX, CPU.getAddressAbsX. reads_only_step. Qed.

Lemma reads_only_AbsY : reads_only CPU.AbsY.
Proof. unfold CPU.AbsY, CPU.getAddressAbsY. reads_only_step. Qed.

Lemma reads_only_XInd : reads_only CPU.XInd.
Proof. unfold CPU.XInd, CPU.getAddressXInd, CPU.getAddressZpg. reads_only_step. Qed.

Lemma reads_only_IndY : reads_only CPU.IndY.
Proof. unfold CPU.IndY, CPU.getAddressIndY, CPU.getAddressZpg. reads_only_step. Qed.

End CPUAddModes.

Section CPUAddRun.

(** The two statements that end a method leave the accumulator and the
    status register alone. *)
Lemma finish_keeps (length : Z) (cycles : CPU.t -> Z) (c : CPU.t) :
  covers (CPU.cpuBus c) -> 0 <= CPU.pc c ->
  exists c',
    CPU.finish length cycles c = Ok (tt, c') /\
    CPU.a c' = CPU.a c /\ CPU.p c' = CPU.p c.
Proof.
  intros Hcov Hpc.
  destruct (set_pc_ok c (JS.band 0xffff (CPU.pc c + length)) Hcov Hpc)
    as (bus' & Hset & _).
  eexists. split.
  - unfold CPU.finish. unfold CPU.bind at 1. cbn [CPU.get].
    rewrite (bind_ok _ _ _ _ _ Hset). reflexivity.
  - split; reflexivity.
Qed.

(** The operand of the immediate mode is the byte after the opcode. *)
Lemma operand_Imm (c : CPU.t) :
  operand CPU.Imm c = fst (Bus.read (CPU.cpuBus c) (CPU.getAddressImm c)).
Proof.
  unfold operand, CPU.Imm, CPU.always, CPU.bind, CPU.get, CPU.ret.
  cbn [CPU.busReadAt]. unfold CPU.busRead.
  destruct (Bus.read (CPU.cpuBus c) (CPU.getAddressImm c)); reflexivity.
Qed.

(** The registers after a method of the family, in any addressing
    mode. *)
Lemma adc_mode_registers (getAddress : CPU.M (option Z)) (length : Z)
    (cycles : CPU.t -> Z) (c : CPU.t) (M : Z) :
  reads_only getAddress ->
  covers (CPU.cpuBus c) -> 0 <= CPU.pc c ->
  operand getAddress c = Some M ->
  exists c',
    CPU.adc_mode getAddress length cycles c = Ok (tt, c') /\
    CPU.a c' = (CPU.a c + M + CPU.statusCarry c) mod 256 /\
    CPU.p c' =
      Util.setBit
        (Util.setBit
           (Util.setBit
              (Util.setBit (CPU.p c) CPU.STATUS_FLAG_BIT_CARRY
                 (255 <? CPU.a c + M + CPU.statusCarry c))
              CPU.STATUS_FLAG_BIT_OVERFLOW
              (negb (xorb (Z.testbit (CPU.a c) 7) (Z.testbit M 7))
               && xorb (Z.testbit (CPU.a c) 7)
                       (Z.testbit ((CPU.a c + M + CPU.statusCarry c) mod 256) 7)))
           CPU.STATUS_FLAG_BIT_NEGATIVE
           (Z.testbit ((CPU.a c + M + CPU.statusCarry c) mod 256) 7))
        CPU.STATUS_FLAG_BIT_ZERO ((CPU.a c + M + CPU.statusCarry c) mod 256 =? 0).
Proof.
  intros Hmode Hcov Hpc Hop.
  destruct (reads_only_bind getAddress CPU.busReadAt Hmode reads_only_busReadAt c)
    as (v & c2 & E & Ha & Hp & Hpc2 & Hcov2).
  unfold operand in Hop. rewrite E in Hop. subst v.
  unfold CPU.bind in E.
  destruct (getAddress c) as [[address c1]|msg] eqn:E1; [|discriminate].
  pose (c5 := adc_registers (Some M) c2).
  assert (CPU.adc_mode getAddress length cycles c = CPU.finish length cycles c5) as Hrun.
  { unfold CPU.adc_mode.
    rewrite (bind_ok _ _ _ _ _ E1), (bind_ok _ _ _ _ _ E). reflexivity. }
  assert (CPU.cpuBus c5 = CPU.cpuBus c2) as Hbus5 by reflexivity.
  assert (CPU.pc c5 = CPU.pc c2) as Hpc5 by reflexivity.
  destruct (finish_keeps length cycles c5
              ltac:(rewrite Hbus5; exact (Hcov2 Hcov))
              ltac:(rewrite Hpc5, Hpc2; exact Hpc))
    as (c' & Hfin & Ha' & Hp').
  destruct (adc_registers_spec c2 M) as [Ha5 Hp5].
  fold c5 in Ha5, Hp5.
  unfold CPU.statusCarry, CPU.getStatusFlag in *.
  rewrite Ha, Hp in Ha5, Hp5.
  exists c'. rewrite Hrun. split; [exact Hfin|].
  rewrite Ha', Hp'. split; [exact Ha5 | exact Hp5].
Qed.

(** The accumulator and the flags, read off the registers that the
    method leaves. *)
Lemma adc_flags_of_registers (c c' : CPU.t) (M : Z) :
  let A := CPU.a c in
  let carry := CPU.statusCarry c in
  let sum := A + M + carry in
  let result := sum mod 256 in
  CPU.a c' = result ->
  CPU.p c' =
    Util.setBit
      (Util.setBit
         (Util.setBit
            (Util.setBit (CPU.p c) CPU.STATUS_FLAG_BIT_CARRY (255 <? sum))
            CPU.STATUS_FLAG_BIT_OVERFLOW
            (negb (xorb (Z.testbit A 7) (Z.testbit M 7))
             && xorb (Z.testbit A 7) (Z.testbit result 7)))
         CPU.STATUS_FLAG_BIT_NEGATIVE (Z.testbit result 7))
      CPU.STATUS_FLAG_BIT_ZERO (result =? 0) ->
  CPU.a c' = result /\
  CPU.statusCarry c' = Z.b2z (255 <? sum) /\
  CPU.statusOverflow c' =
    Z.b2z (negb (Z.land (Z.land (Z.lnot (Z.lxor A M)) (Z.lxor A result)) 0x80 =? 0)) /\
  CPU.statusNegative c' = Z.b2z (Z.testbit result 7) /\
  CPU.statusZero c' = Z.b2z (result =? 0) /\
  (A = 0x7F -> M = 0x01 -> carry = 0 ->
   CPU.a c' = 0x80 /\ CPU.statusOverflow c' = 1 /\ CPU.statusNegative c' = 1 /\
   CPU.statusCarry c' = 0) /\
  (A = 0xFF -> M = 0x01 -> carry = 0 ->
   CPU.a c' = 0x00 /\ CPU.statusCarry c' = 1 /\ CPU.statusZero c' = 1 /\
   CPU.statusOverflow c' = 0 /\ CPU.statusNegative c' = 0).
Proof.
  intros A carry sum result Ha Hp.
  destruct (flags_after_updates (CPU.p c) (255 <? sum)
              (negb (xorb (Z.testbit A 7) (Z.testbit M 7))
               && xorb (Z.testbit A 7) (Z.testbit result 7))
              (Z.testbit result 7) (result =? 0)) as (HC & HV & HN & HZ).
  cbv zeta in HC, HV, HN, HZ. rewrite <- Hp in HC, HV, HN, HZ.
  rewrite <- overflow_of_spec in HV.
  split; [exact Ha|]. split; [exact HC|]. split; [exact HV|].
  split; [exact HN|]. split; [exact HZ|].
  destruct adc_boundary_cases as [(B1 & B2 & B3 & B4) (B5 & B6 & B7 & B8)].
  split.
  - intros HA7 HM1 Hc0.
    assert (result = 0x80) as Hr by (unfold result, sum; rewrite HA7, HM1, Hc0; exact B1).
    split; [rewrite Ha; exact Hr|].
    split; [unfold CPU.statusOverflow, CPU.getStatusFlag; rewrite HV, Hr, HA7, HM1, B3;
            reflexivity|].
    split; [unfold CPU.statusNegative, CPU.getStatusFlag; rewrite HN, Hr, B4; reflexivity|].
    unfold CPU.statusCarry, CPU.getStatusFlag. rewrite HC. unfold sum.
    rewrite HA7, HM1, Hc0, B2. reflexivity.
  - intros HAF HM1 Hc0.
    assert (result = 0x00) as Hr by (unfold result, sum; rewrite HAF, HM1, Hc0; exact B5).
    split; [rewrite Ha; exact Hr|].
    split; [unfold CPU.statusCarry, CPU.getStatusFlag; rewrite HC; unfold sum;
            rewrite HAF, HM1, Hc0, B6; reflexivity|].
    split; [unfold CPU.statusZero, CPU.getStatusFlag; rewrite HZ, Hr; reflexivity|].
    split; [unfold CPU.statusOverflow, CPU.getStatusFlag; rewrite HV, Hr, HAF, HM1, B7;
            reflexivity|].
    unfold CPU.statusNegative, CPU.getStatusFlag. rewrite HN, Hr, B8. reflexivity.
Qed.

(** The registers after each of the eight methods. *)
Lemma adc_registers_after (c : CPU.t) (opcode : Z) (method : CPU.M unit)
    (getAddress : CPU.M (option Z)) (M : Z) :
  In (opcode, method, getAddress) adc_methods ->
  covers (CPU.cpuBus c) -> 0 <= CPU.pc c ->
  operand getAddress c = Some M ->
  CPU.opcodeFn (Some opcode) = method /\
  exists c',
    method c = Ok (tt, c') /\
    CPU.a c' = (CPU.a c + M + CPU.statusCarry c) mod 256 /\
    CPU.p c' =
      Util.setBit
        (Util.setBit
           (Util.setBit
              (Util.setBit (CPU.p c) CPU.STATUS_FLAG_BIT_CARRY
                 (255 <? CPU.a c + M + CPU.statusCarry c))
              CPU.STATUS_FLAG_BIT_OVERFLOW
              (negb (xorb (Z.testbit (CPU.a c) 7) (Z.testbit M 7))
               && xorb (Z.testbit (CPU.a c) 7)
                       (Z.testbit ((CPU.a c + M + CPU.statusCarry c) mod 256) 7)))
           CPU.STATUS_FLAG_BIT_NEGATIVE
           (Z.testbit ((CPU.a c + M + CPU.statusCarry c) mod 256) 7))
        CPU.STATUS_FLAG_BIT_ZERO ((CPU.a c + M + CPU.statusCarry c) mod 256 =? 0).
Proof.
  intros Hin Hcov Hpc Hop.
  unfold adc_methods in Hin. cbn [In] in Hin.
  destruct Hin as [E|[E|[E|[E|[E|[E|[E|[E|[]]]]]]]]];
    injection E as <- <- <-; (split; [reflexivity|]).
  - rewrite operand_Imm in Hop. apply adc_imm_registers; assumption.
  - apply adc_mode_registers; [apply reads_only_Zpg | assumption..].
  - apply adc_mode_registers; [apply reads_only_ZpgX | assumption..].
  - apply adc_mode_registers; [apply reads_only_Abs | assumption..].
  - apply adc_mode_registers; [apply reads_only_AbsX | assumption..].
  - apply adc_mode_registers; [apply reads_only_AbsY | assumption..].
  - apply adc_mode_registers; [apply reads_only_XInd | assumption..].
  - apply adc_mode_registers; [apply reads_only_IndY | assumption..].
Qed.

(** C6. ADC in each of its eight addressing modes (opcodes 0x69, 0x65,
    0x75, 0x6D, 0x7D, 0x79, 0x61 and 0x71), on a bus that covers the
    address space, where [M] is the operand that the addressing mode
    fetches: the method is the one that the table of opcodes holds for
    the opcode, and it returns; the accumulator becomes
    [(A + M + carry) mod 256]; C is set iff [A + M + carry > 255]; V is
    set iff [(~(A ^ M) & (A ^ result)) & 0x80] is not zero; N is bit 7
    of the result; Z is set iff the result is 0. In particular
    0x7F + 0x01 with carry clear gives 0x80 with V and N set and C
    clear, and 0xFF + 0x01 with carry clear gives 0x00 with C and Z set
    and V and N clear. *)
Theorem adc_flags (c : CPU.t) (opcode : Z) (method : CPU.M unit)
    (getAddress : CPU.M (option Z)) (M : Z) :
  In (opcode, method, getAddress) adc_methods ->
  covers (CPU.cpuBus c) -> 0 <= CPU.pc c ->
  operand getAddress c = Some M ->
  let A := CPU.a c in
  let carry := CPU.statusCarry c in
  let sum := A + M + carry in
  let result := sum mod 256 in
  CPU.opcodeFn (Some opcode) = method /\
  exists c',
    method c = Ok (tt, c') /\
    CPU.a c' = result /\
    CPU.statusCarry c' = Z.b2z (255 <? sum) /\
    CPU.statusOverflow c' =
      Z.b2z (negb (Z.land (Z.land (Z.lnot (Z.lxor A M)) (Z.lxor A result)) 0x80 =? 0)) /\
    CPU.statusNegative c' = Z.b2z (Z.testbit result 7) /\
    CPU.statusZero c' = Z.b2z (result =? 0) /\
    (A = 0x7F -> M = 0x01 -> carry = 0 ->
     CPU.a c' = 0x80 /\ CPU.statusOverflow c' = 1 /\ CPU.statusNegative c' = 1 /\
     CPU.statusCarry c' = 0) /\
    (A = 0xFF -> M = 0x01 -> carry = 0 ->
     CPU.a c' = 0x00 /\ CPU.statusCarry c' = 1 /\ CPU.statusZero c' = 1 /\
     CPU.statusOverflow c' = 0 /\ CPU.statusNegative c' = 0).
Proof.
  intros Hin Hcov Hpc Hop A carry sum result.
  destruct (adc_registers_after c opcode method getAddress M Hin Hcov Hpc Hop)
    as (Hfn & c' & Hrun & Ha & Hp).
  split; [exact Hfn|].
  exists c'. split; [exact Hrun|].
  exact (adc_flags_of_registers c c' M Ha Hp).
Qed.

End CPUAddRun.


(** ** The machine as [NES] wires it *)

Section Machine.

Lemma machine_low_ram : low_ram NES.ram.
Proof.
  split; [reflexivity|]. split; [vm_compute; discriminate|].
  vm_compute. discriminate.
Qed.

Lemma machine_bus_stack (ram : RAM.t) :
  RAM.hdr ram = RAM.hdr NES.ram -> stack_bus (machine_bus ram) ram.
Proof.
  intros Hh. destruct ram as [h bytes]. cbn [RAM.hdr] in Hh. subst h.
  exists [CMem (MROM NES.prg); CMem (MBase NES.disabledIO);
          CController NES.controller2; CController NES.controller1;
          CMem (MBase NES.apu); CPPU NES.ppu], [].
  split.
  - reflexivity.
  - repeat (constructor; [reflexivity|]). constructor.
Qed.

Lemma machine_stack_bus : stack_bus (CPU.cpuBus NES.cpu) NES.ram.
Proof. apply (machine_bus_stack NES.ram). reflexivity. Qed.

Lemma push_rti_restores_witness :
  exists c1 c2,
    push3 0x80 0x00 0x30 NES.cpu = Ok (tt, c1) /\
    CPU.rti c1 = Ok (tt, c2) /\
    CPU.p c2 = Z.land 0x30 0xFB /\
    (Z.testbit 0x30 2 = false -> CPU.p c2 = 0x30) /\
    CPU.pc c2 = Z.lor (Z.shiftl 0x80 8) 0x00 /\
    CPU.sp c2 = CPU.sp NES.cpu.
Proof.
  apply (push_rti_restores NES.cpu NES.ram 0x80 0x00 0x30).
  - exact machine_stack_bus.
  - exact machine_low_ram.
  - change (CPU.sp NES.cpu) with 0xfd. lia.
  - change (CPU.pc NES.cpu) with 0. lia.
  - lia.
  - lia.
  - lia.
Defined.

(** C5, the claim as stated fails when bit 2 of the pushed P is set: on
    the CPU of the machine, pushing 0x80, 0x00 and P = 0x34 (the reset
    value of the status register) and executing RTI leaves 0x30 in the
    status register. *)
Lemma rti_clears_interrupt_disable :
  match push3_rti 0x80 0x00 0x34 NES.cpu with
  | Ok (_, c2) => CPU.p c2 = 0x30 /\ CPU.p c2 <> 0x34
  | Throw _ => False
  end.
Proof. vm_compute. split; [reflexivity | discriminate]. Qed.

Lemma adc_flags_witness :
  CPU.opcodeFn (Some 0x75) = CPU.adc_zpg_x /\
  exists c',
    CPU.adc_zpg_x adc_probe_zpg_x = Ok (tt, c') /\
    CPU.a c' = (CPU.a adc_probe_zpg_x + 0x01 + CPU.statusCarry adc_probe_zpg_x) mod 256 /\
    CPU.statusCarry c' =
      Z.b2z (255 <? CPU.a adc_probe_zpg_x + 0x01 + CPU.statusCarry adc_probe_zpg_x) /\
    CPU.statusOverflow c' =
      Z.b2z (negb (Z.land
                     (Z.land (Z.lnot (Z.lxor (CPU.a adc_probe_zpg_x) 0x01))
                             (Z.lxor (CPU.a adc_probe_zpg_x)
                                     ((CPU.a adc_probe_zpg_x + 0x01
                                       + CPU.statusCarry adc_probe_zpg_x) mod 256)))
                     0x80 =? 0)) /\
    CPU.statusNegative c' =
      Z.b2z (Z.testbit ((CPU.a adc_probe_zpg_x + 0x01
                         + CPU.statusCarry adc_probe_zpg_x) mod 256) 7) /\
    CPU.statusZero c' =
      Z.b2z ((CPU.a adc_probe_zpg_x + 0x01 + CPU.statusCarry adc_probe_zpg_x) mod 256 =? 0) /\
    (CPU.a adc_probe_zpg_x = 0x7F -> 0x01 = 0x01 -> CPU.statusCarry adc_probe_zpg_x = 0 ->
     CPU.a c' = 0x80 /\ CPU.statusOverflow c' = 1 /\ CPU.statusNegative c' = 1 /\
     CPU.statusCarry c' = 0) /\
    (CPU.a adc_probe_zpg_x = 0xFF -> 0x01 = 0x01 -> CPU.statusCarry adc_probe_zpg_x = 0 ->
     CPU.a c' = 0x00 /\ CPU.statusCarry c' = 1 /\ CPU.statusZero c' = 1 /\
     CPU.statusOverflow c' = 0 /\ CPU.statusNegative c' = 0).
Proof.
  apply (adc_flags adc_probe_zpg_x 0x75 CPU.adc_zpg_x CPU.ZpgX 0x01).
  - right. right. left. reflexivity.
  - apply (stack_bus_covers _ (RAM.write 0x14 0x01 (RAM.write 1 0x10 NES.ram))).
    + apply (machine_bus_stack (RAM.write 0x14 0x01 (RAM.write 1 0x10 NES.ram))).
      reflexivity.
    + apply ram_write_low, ram_write_low, machine_low_ram.
  - change (CPU.pc adc_probe_zpg_x) with 0. lia.
  - vm_compute. reflexivity.
Defined.

End Machine.


(** * Properties of the other code of the emulator *)

(** ** [util.ts] *)

Section UtilFacts.

Lemma compareBytes_loop_eq (a b : list Z) :
  length a = length b -> (Util.compareBytes_loop a b = true <-> a = b).
Proof.
  revert b. induction a as [|x a IH]; intros [|y b] Hlen; cbn in Hlen; try lia.
  - cbn. tauto.
  - cbn [Util.compareBytes_loop].
    destruct (Z.eqb_spec x y) as [->|Hne].
    + rewrite IH by lia. split; [intros ->; reflexivity | intros [= ->]; reflexivity].
    + split; [discriminate | intros [= ? ?]; contradiction].
Qed.

(** X4: [compareBytes] decides the equality of two byte arrays: it
    answers [true] exactly when they have the same length and the same
    bytes. *)
Theorem compareBytes_decides_equality (a b : list Z) :
  Util.compareBytes a b = true <-> a = b.
Proof.
  unfold Util.compareBytes.
  destruct (Nat.eqb_spec (length a) (length b)) as [Hlen|Hlen]; cbn [negb].
  - apply compareBytes_loop_eq, Hlen.
  - split; [discriminate | intros ->; contradiction].
Qed.

(** Setting or clearing one of the bits 0..7 of a byte gives a byte. *)
Lemma setBit_byte (byte i : Z) (bit : bool) :
  0 <= byte < 256 -> 0 <= i < 8 -> 0 <= Util.setBit byte i bit < 256.
Proof.
  intros Hb Hi.
  assert (forallb (fun i => forallb (fun bit =>
            (0 <=? Util.setBit byte i bit) && (Util.setBit byte i bit <? 256))
            [true; false]) [0; 1; 2; 3; 4; 5; 6; 7] = true) as Hall.
  { apply (forall_bytes (fun byte => forallb (fun i => forallb (fun bit =>
            (0 <=? Util.setBit byte i bit) && (Util.setBit byte i bit <? 256))
            [true; false]) [0; 1; 2; 3; 4; 5; 6; 7])); [|exact Hb].
    vm_compute. reflexivity. }
  rewrite forallb_forall in Hall.
  assert (In i [0; 1; 2; 3; 4; 5; 6; 7]) as Hin by (cbn; lia).
  specialize (Hall i Hin). rewrite forallb_forall in Hall.
  assert (In bit [true; false]) as Hbit by (destruct bit; cbn; tauto).
  specialize (Hall bit Hbit). lia.
Qed.

Lemma byte_ext (x y : Z) :
  0 <= x < 256 -> 0 <= y < 256 ->
  (forall j, 0 <= j < 8 -> Z.testbit x j = Z.testbit y j) -> x = y.
Proof.
  intros Hx Hy Hbits.
  rewrite <- (Z.mod_small x (2 ^ 8)), <- (Z.mod_small y (2 ^ 8)) by lia.
  apply Z.bits_inj'. intros j Hj.
  rewrite !Z.testbit_mod_pow2 by lia.
  destruct (Z.ltb_spec j 8); cbn; [apply Hbits; lia | reflexivity].
Qed.

(** X5: on bytes, [setBit] and [getBit] work as a field of one bit:
    setting one of the bits 0..7 gives a byte again, [getBit] then reads
    the new value at that position and the old values at the others, and
    writing back the value a bit already has changes nothing. *)
Theorem setBit_getBit_byte (byte i j : Z) (bit : bool) :
  0 <= byte < 256 -> 0 <= i < 8 -> 0 <= j < 8 ->
  0 <= Util.setBit byte i bit < 256 /\
  Util.getBit (Util.setBit byte i bit) j
  = (if i =? j then Z.b2z bit else Util.getBit byte j) /\
  Util.setBit byte i (JS.truthy (Util.getBit byte i)) = byte.
Proof.
  intros Hb Hi Hj.
  split; [apply setBit_byte; assumption|].
  split; [apply getBit_setBit; lia|].
  apply byte_ext; [apply setBit_byte; assumption | exact Hb |].
  intros k Hk. rewrite setBit_testbit by lia.
  destruct (Z.eqb_spec i k) as [->|Hne]; [|reflexivity].
  rewrite getBit_testbit by lia.
  destruct (Z.testbit byte k); reflexivity.
Qed.

Lemma setBit_getBit_byte_witness :
  0 <= Util.setBit 0x34 2 false < 256 /\
  Util.getBit (Util.setBit 0x34 2 false) 5
  = (if 2 =? 5 then Z.b2z false else Util.getBit 0x34 5) /\
  Util.setBit 0x34 2 (JS.truthy (Util.getBit 0x34 2)) = 0x34.
Proof. apply (setBit_getBit_byte 0x34 2 5 false); lia. Defined.

End UtilFacts.

(** ** [events.ts] *)

Section EventFacts.
Context {L : Type} `{EqDecision L}.

Lemma off_loop_beyond (n i : nat) (listener : option L) (l : list L) :
  (length l <= i)%nat -> EventEmitter.off_loop n i listener l = l.
Proof.
  revert i. induction n as [|n IH]; intros i Hi; [reflexivity|].
  cbn [EventEmitter.off_loop].
  rewrite (lookup_ge_None_2 l i) by lia. apply IH. lia.
Qed.

Lemma off_loop_spec (n : nat) (listener : option L) (kept rest : list L) :
  (length rest <= n)%nat ->
  EventEmitter.off_loop n (length kept) listener (kept ++ rest)
  = kept ++ off_result listener rest.
Proof.
  revert kept rest. induction n as [|n IH]; intros kept rest Hn.
  { destruct rest; [reflexivity | cbn in Hn; lia]. }
  destruct rest as [|x rest].
  { rewrite off_loop_beyond by (rewrite length_app; cbn; lia). reflexivity. }
  cbn [EventEmitter.off_loop off_result].
  rewrite list_lookup_middle by reflexivity.
  cbn in Hn.
  destruct (EventEmitter.off_matches listener x).
  - rewrite delete_middle.
    destruct rest as [|y rest].
    + rewrite off_loop_beyond by (rewrite length_app; cbn; lia). reflexivity.
    + replace (kept ++ y :: rest) with ((kept ++ [y]) ++ rest)
        by (rewrite <- app_assoc; reflexivity).
      replace (S (length kept)) with (length (kept ++ [y]))
        by (rewrite length_app; cbn; lia).
      rewrite IH by (cbn in Hn; lia).
      rewrite <- app_assoc. reflexivity.
  - replace (kept ++ x :: rest) with ((kept ++ [x]) ++ rest)
      by (rewrite <- app_assoc; reflexivity).
    replace (S (length kept)) with (length (kept ++ [x]))
      by (rewrite length_app; cbn; lia).
    rewrite IH by lia.
    rewrite <- app_assoc. reflexivity.
Qed.

Lemma off_loop_result (listener : option L) (l : list L) :
  EventEmitter.off_loop (length l) 0 listener l = off_result listener l.
Proof. exact (off_loop_spec (length l) listener [] l (le_n _)). Qed.

Lemma off_result_all (l : list L) : off_result None l = odd_positions l.
Proof.
  enough (off_result None l = odd_positions l /\
          forall x, off_result None (x :: l) = odd_positions (x :: l)) as [Hl _]
    by exact Hl.
  induction l as [|y l [IH1 IH2]]; [split; reflexivity|].
  split; [apply IH2|]. intros x.
  cbn [off_result odd_positions EventEmitter.off_matches].
  rewrite IH1. reflexivity.
Qed.

Lemma own_store_eq (event : string) (ls : list L) (e : EventEmitter.t L) :
  EventEmitter.own event (EventEmitter.store event ls e) = Some ls.
Proof.
  induction e as [|[name old] e IH]; cbn [EventEmitter.store EventEmitter.own].
  - rewrite String.eqb_refl. reflexivity.
  - destruct (String.eqb name event) eqn:E; cbn [EventEmitter.own]; rewrite E;
      [reflexivity | exact IH].
Qed.

Lemma own_store_ne (event other : string) (ls : list L) (e : EventEmitter.t L) :
  other <> event ->
  EventEmitter.own other (EventEmitter.store event ls e) = EventEmitter.own other e.
Proof.
  intros Hne.
  induction e as [|[name old] e IH]; cbn [EventEmitter.store EventEmitter.own].
  - destruct (String.eqb_spec event other); [congruence | reflexivity].
  - destruct (String.eqb_spec name event) as [->|Hn]; cbn [EventEmitter.own].
    + destruct (String.eqb_spec event other); [congruence | reflexivity].
    + rewrite IH. reflexivity.
Qed.

Lemma off_result_one (l : L) (ls : list L) :
  no_neighbours l ls ->
  off_result (Some l) ls = List.filter (fun x => negb (bool_decide (l = x))) ls.
Proof.
  enough (forall ls, no_neighbours l ls ->
          off_result (Some l) ls = List.filter (fun x => negb (bool_decide (l = x))) ls /\
          forall x, no_neighbours l (x :: ls) ->
            off_result (Some l) (x :: ls)
            = List.filter (fun x => negb (bool_decide (l = x))) (x :: ls)) as Hall
    by (intros Hn; exact (proj1 (Hall ls Hn))).
  clear ls. induction ls as [|y ls IH]; intros Hn.
  { split; [reflexivity|]. intros x _. cbn.
    destruct (bool_decide (l = x)); reflexivity. }
  assert (no_neighbours l ls) as Hls.
  { destruct ls as [|z ls]; [exact I | exact (proj2 Hn)]. }
  destruct (IH Hls) as [IH1 IH2].
  split; [apply IH2, Hn|].
  intros x Hx. cbn [off_result EventEmitter.off_matches List.filter].
  destruct (bool_decide_reflect (l = x)) as [->|Hlx]; cbn [negb].
  - destruct Hx as [Hx _].
    destruct (bool_decide_reflect (x = y)) as [->|Hxy]; [tauto|].
    cbn [negb]. rewrite IH1. reflexivity.
  - f_equal. exact (IH2 y Hn).
Qed.

End EventFacts.

Section EventTheorems.
Context {L : Type} `{EqDecision L}.

Lemma lookup_store_eq (event : string) (ls : list L) (e : EventEmitter.t L) :
  EventEmitter.lookup event (EventEmitter.store event ls e) = Ok ls.
Proof. unfold EventEmitter.lookup. rewrite own_store_eq. reflexivity. Qed.

Lemma lookup_plain (event : string) (e : EventEmitter.t L) :
  EventEmitter.inherited event = false ->
  exists ls, EventEmitter.lookup event e = Ok ls.
Proof.
  intros Hev. unfold EventEmitter.lookup. rewrite Hev.
  destruct (EventEmitter.own event e) as [ls|]; eauto.
Qed.

(** X1: for an event name that is no property of [Object.prototype],
    [on] does not throw and appends the listener: [emit] then calls the
    listeners that were registered before, in their order, and the new
    one last. The listeners of every other event are untouched. *)
Theorem on_then_emit (event other : string) (listener : L)
  (e : EventEmitter.t L) :
  EventEmitter.inherited event = false ->
  exists calls e',
    EventEmitter.emit event e = Ok calls /\
    EventEmitter.on event listener e = Ok e' /\
    EventEmitter.emit event e' = Ok (calls ++ [listener]) /\
    (other <> event -> EventEmitter.emit other e' = EventEmitter.emit other e).
Proof.
  intros Hev. destruct (lookup_plain event e Hev) as [calls Hcalls].
  exists calls, (EventEmitter.store event (calls ++ [listener]) e).
  unfold EventEmitter.emit, EventEmitter.on. rewrite Hcalls.
  split; [reflexivity|]. split; [reflexivity|].
  split; [apply lookup_store_eq|].
  intros Hne. unfold EventEmitter.lookup. rewrite own_store_ne by exact Hne.
  reflexivity.
Qed.

(** X2: [off(event)] without a listener does not empty the array: the
    [splice] inside [forEach] makes the loop skip the element after each
    one it removes, so the listeners at the positions 1, 3, 5, ... stay
    registered, and [emit] still calls them. The event ends up without
    listeners only if it had at most one. *)
Theorem off_all_keeps_every_second (event : string) (e : EventEmitter.t L) :
  EventEmitter.inherited event = false ->
  exists calls e',
    EventEmitter.emit event e = Ok calls /\
    EventEmitter.off event None e = Ok e' /\
    EventEmitter.emit event e' = Ok (odd_positions calls) /\
    (odd_positions calls = [] <-> (length calls <= 1)%nat).
Proof.
  intros Hev. destruct (lookup_plain event e Hev) as [calls Hcalls].
  exists calls, (EventEmitter.store event (odd_positions calls) e).
  unfold EventEmitter.emit, EventEmitter.off. rewrite Hcalls.
  rewrite off_loop_result, off_result_all.
  split; [reflexivity|]. split; [reflexivity|].
  split; [apply lookup_store_eq|].
  destruct calls as [|x [|y calls]]; cbn; split; intros; (lia || congruence).
Qed.

(** X3: [off(event, listener)] removes every registration of the
    listener and keeps the other listeners in their order, provided the
    listener was never registered twice in a row (after a removal the
    loop does not look at the next element). *)
Theorem off_listener_removes_it (event : string) (listener : L)
  (e : EventEmitter.t L) (calls : list L) :
  EventEmitter.emit event e = Ok calls ->
  no_neighbours listener calls ->
  exists e',
    EventEmitter.off event (Some listener) e = Ok e' /\
    EventEmitter.emit event e'
    = Ok (List.filter (fun x => negb (bool_decide (listener = x))) calls) /\
    ~ In listener (List.filter (fun x => negb (bool_decide (listener = x))) calls).
Proof.
  intros Hcalls Hnn. unfold EventEmitter.emit in *.
  eexists. unfold EventEmitter.off. rewrite Hcalls.
  rewrite off_loop_result, off_result_one by exact Hnn.
  split; [reflexivity|]. split; [apply lookup_store_eq|].
  rewrite filter_In. intros [_ Hf].
  destruct (bool_decide_reflect (listener = listener)); [discriminate | congruence].
Qed.

(** Two registrations in a row lose only the first. *)
Lemma off_listener_twice_in_a_row (event : string) (listener : L)
  (e : EventEmitter.t L) :
  EventEmitter.emit event e = Ok [listener; listener] ->
  exists e',
    EventEmitter.off event (Some listener) e = Ok e' /\
    EventEmitter.emit event e' = Ok [listener].
Proof.
  intros Hcalls. unfold EventEmitter.emit in *.
  eexists. unfold EventEmitter.off. rewrite Hcalls.
  split; [reflexivity|]. rewrite lookup_store_eq.
  cbn. rewrite bool_decide_eq_true_2 by reflexivity. reflexivity.
Qed.

End EventTheorems.

Lemma on_then_emit_witness :
  EventEmitter.inherited "nmi" = false /\
  exists calls e',
    EventEmitter.emit "nmi" [("nmi"%string, [1%nat])] = Ok calls /\
    EventEmitter.on "nmi" 2%nat [("nmi"%string, [1%nat])] = Ok e' /\
    EventEmitter.emit "nmi" e' = Ok (calls ++ [2%nat]) /\
    ("debug"%string <> "nmi"%string ->
     EventEmitter.emit "debug" e' = EventEmitter.emit "debug" [("nmi"%string, [1%nat])]).
Proof.
  split; [reflexivity|].
  apply (on_then_emit "nmi" "debug" 2%nat [("nmi"%string, [1%nat])]). reflexivity.
Defined.

Lemma off_all_keeps_every_second_witness :
  EventEmitter.inherited "nmi" = false /\
  exists calls e',
    EventEmitter.emit "nmi" [("nmi"%string, [1%nat; 2%nat; 3%nat])] = Ok calls /\
    EventEmitter.off "nmi" None [("nmi"%string, [1%nat; 2%nat; 3%nat])] = Ok e' /\
    EventEmitter.emit "nmi" e' = Ok (odd_positions calls) /\
    (odd_positions calls = [] <-> (length calls <= 1)%nat).
Proof.
  split; [reflexivity|].
  apply (off_all_keeps_every_second "nmi" [("nmi"%string, [1%nat; 2%nat; 3%nat])]).
  reflexivity.
Defined.

Lemma off_listener_removes_it_witness :
  exists e',
    EventEmitter.off "nmi" (Some 2%nat) [("nmi"%string, [1%nat; 2%nat; 3%nat; 2%nat])]
    = Ok e' /\
    EventEmitter.emit "nmi" e'
    = Ok (List.filter (fun x => negb (bool_decide (2%nat = x))) [1%nat; 2%nat; 3%nat; 2%nat]) /\
    ~ In 2%nat (List.filter (fun x => negb (bool_decide (2%nat = x))) [1%nat; 2%nat; 3%nat; 2%nat]).
Proof.
  apply (off_listener_removes_it "nmi" 2%nat
           [("nmi"%string, [1%nat; 2%nat; 3%nat; 2%nat])] [1%nat; 2%nat; 3%nat; 2%nat]).
  - reflexivity.
  - cbn. repeat split; intros [? ?]; lia.
Defined.

(** ** [ram.ts] *)

Section RAMFacts.

Lemma ram_write_wf (r : RAM.t) (address byte : Z) :
  ram_wf r -> ram_wf (RAM.write address byte r).
Proof.
  intros [Hsize Hlen]. split; [exact Hsize|].
  unfold RAM.write. cbn [RAM.hdr RAM.bytes]. rewrite ta_set_length. exact Hlen.
Qed.

Lemma ram_new_wf (s e : Z) (m : option Z) : s <= e -> ram_wf (RAM.new s e m).
Proof.
  intros Hse. unfold ram_wf, RAM.new, Addressable.new, JS.ta_new.
  cbn [RAM.hdr RAM.bytes Addressable.actualSize].
  rewrite length_replicate. lia.
Qed.

Lemma ram_read_byte (r : RAM.t) (address : Z) : 0 <= RAM.read address r < 256.
Proof.
  unfold RAM.read. rewrite band_ff_l. apply Z.mod_pos_bound. lia.
Qed.

Lemma ram_read_after_write (r : RAM.t) (a a' byte : Z) :
  ram_wf r ->
  Addressable.startAddress (RAM.hdr r) <= a ->
  Addressable.startAddress (RAM.hdr r) <= a' ->
  RAM.read a' (RAM.write a byte r)
  = (if ram_index r a =? ram_index r a' then byte mod 256 else RAM.read a' r).
Proof.
  intros [Hsize Hlen] Ha Ha'.
  unfold RAM.read, RAM.write, ram_index. cbn [RAM.hdr RAM.bytes].
  set (s := Addressable.startAddress (RAM.hdr r)) in *.
  set (n := Addressable.actualSize (RAM.hdr r)) in *.
  rewrite !rem_nonneg by lia.
  pose proof (Z.mod_pos_bound (a - s) n Hsize) as Hi.
  pose proof (Z.mod_pos_bound (a' - s) n Hsize) as Hi'.
  destruct (Z.eqb_spec ((a - s) mod n) ((a' - s) mod n)) as [Heq|Hne].
  - rewrite <- Heq. rewrite ta_get_set_eq by lia.
    change (JS.num (Some ?v)) with v. rewrite band_ff_l.
    apply Z.mod_mod. lia.
  - rewrite ta_get_set_ne by lia. reflexivity.
Qed.

(** X6: a RAM region stores bytes under the index [(address - start) mod
    size], so every address at or above its start that has the same
    index is a mirror of the same cell: after [write], a [read] at any
    mirror of the written address returns the byte, reduced modulo 256,
    and a [read] at an address of another cell returns what it returned
    before. Every [read] returns a value from 0 to 255. *)
Theorem ram_write_then_read (r : RAM.t) (a a' byte : Z) :
  ram_wf r ->
  Addressable.startAddress (RAM.hdr r) <= a ->
  Addressable.startAddress (RAM.hdr r) <= a' ->
  ram_wf (RAM.write a byte r) /\
  RAM.read a' (RAM.write a byte r)
  = (if ram_index r a =? ram_index r a' then byte mod 256 else RAM.read a' r) /\
  0 <= RAM.read a' (RAM.write a byte r) < 256.
Proof.
  intros Hwf Ha Ha'.
  split; [apply ram_write_wf, Hwf|].
  split; [apply ram_read_after_write; assumption | apply ram_read_byte].
Qed.

Lemma ram_write_then_read_witness :
  ram_wf (RAM.write 0x0042 0x1ff NES.ram) /\
  RAM.read 0x1842 (RAM.write 0x0042 0x1ff NES.ram)
  = (if ram_index NES.ram 0x0042 =? ram_index NES.ram 0x1842
     then 0x1ff mod 256 else RAM.read 0x1842 NES.ram) /\
  0 <= RAM.read 0x1842 (RAM.write 0x0042 0x1ff NES.ram) < 256.
Proof.
  apply (ram_write_then_read NES.ram 0x0042 0x1842 0x1ff).
  - apply ram_new_wf. lia.
  - cbn. lia.
  - cbn. lia.
Defined.

End RAMFacts.

(** ** [bus.ts]: the order of the regions *)

Section BusSort.
Context {D : Type} `{Device D}.

Lemma insert_desc_head (x : D) (l : list D) :
  Forall (fun y => Bus.start y <= Bus.start x) l -> Bus.insert_desc x l = x :: l.
Proof.
  intros Hall. destruct l as [|y l]; [reflexivity|].
  cbn [Bus.insert_desc]. inversion Hall; subst.
  destruct (Z.leb_spec (Bus.start y) (Bus.start x)); [reflexivity | lia].
Qed.

Lemma reset_of_sorted (l : list D) :
  StronglySorted desc l -> Bus.reset l = l.
Proof.
  induction 1 as [|x l Hsorted IH Hall]; [reflexivity|].
  unfold Bus.reset in *. cbn [foldr]. rewrite IH.
  apply insert_desc_head. exact Hall.
Qed.

Lemma insert_desc_filter (s : Z) (x : D) (l : list D) :
  List.filter (fun d => Bus.start d =? s) (Bus.insert_desc x l)
  = List.filter (fun d => Bus.start d =? s) (x :: l).
Proof.
  induction l as [|y l IH]; [reflexivity|].
  cbn [Bus.insert_desc].
  destruct (Z.leb_spec (Bus.start y) (Bus.start x)) as [Hle|Hgt]; [reflexivity|].
  cbn [List.filter] in *.
  destruct (Z.eqb_spec (Bus.start y) s) as [Hy|Hy];
    destruct (Z.eqb_spec (Bus.start x) s) as [Hx|Hx];
    try lia; rewrite IH; reflexivity.
Qed.

(** X7: the sort of [Bus.reset] (and of the constructor, which calls it)
    orders the regions by start address, highest first, drops and adds
    none, and is stable: the regions that share a start address keep the
    order they were given in. Sorting again changes nothing, so the
    [reset] that [Cartridge.load] runs on a bus leaves it as the
    constructor built it. *)
Theorem reset_is_stable_sort (l : list D) (s : Z) :
  StronglySorted desc (Bus.reset l) /\
  Permutation (Bus.reset l) l /\
  List.filter (fun d => Bus.start d =? s) (Bus.reset l)
  = List.filter (fun d => Bus.start d =? s) l /\
  Bus.reset (Bus.new l) = Bus.new l.
Proof.
  split; [apply reset_sorted|]. split; [apply reset_perm|]. split.
  - induction l as [|x l IH]; [reflexivity|].
    unfold Bus.reset in *. cbn [foldr]. rewrite insert_desc_filter.
    cbn [List.filter]. rewrite IH. reflexivity.
  - unfold Bus.new. apply reset_of_sorted, reset_sorted.
Qed.

End BusSort.

(** ** [clock.ts]: any dividers and offsets *)

Section ClockPeriod.
Context {C : Type}.

Lemma step_callback_wf (tc : Clock.TickCallback C) (r : Z) :
  Clock.cyclesRemaining tc = Some r -> 0 <= r < Clock.divider tc ->
  Clock.step_callback tc
  = (Clock.mkTick (Clock.callback tc) (Clock.divider tc)
       (Some ((r - 1) mod Clock.divider tc)),
     if due 0 tc then [Clock.callback tc] else []).
Proof.
  intros Hr Hrange. unfold Clock.step_callback, due. rewrite Hr.
  f_equal.
  - f_equal. unfold JS.rem.
    destruct (Z.eqb_spec (Clock.divider tc) 0); [lia|].
    f_equal. rewrite Z.rem_mod_nonneg by lia.
    replace (Clock.divider tc + r - 1) with (r - 1 + 1 * Clock.divider tc) by lia.
    apply Z_mod_plus_full.
  - rewrite Z.sub_0_r, Z.mod_small by lia.
    destruct (Z.leb_spec r 0), (Z.eqb_spec r 0); try lia; reflexivity.
Qed.

Lemma step_loop_wf (tcs : list (Clock.TickCallback C)) :
  Forall tick_wf tcs ->
  Forall tick_wf (fst (Clock.step_loop tcs)) /\
  snd (Clock.step_loop tcs) = map Clock.callback (List.filter (due 0) tcs) /\
  forall k, 0 <= k ->
    map Clock.callback (List.filter (due k) (fst (Clock.step_loop tcs)))
    = map Clock.callback (List.filter (due (k + 1)) tcs).
Proof.
  induction 1 as [|tc tcs (r & Hr & Hrange) Hall (IH1 & IH2 & IH3)].
  { repeat split; constructor. }
  cbn [Clock.step_loop].
  rewrite (step_callback_wf tc r Hr Hrange).
  destruct (Clock.step_loop tcs) as [tcs' fired'] eqn:E. cbn [fst snd] in *.
  pose proof (Z.mod_pos_bound (r - 1) (Clock.divider tc) ltac:(lia)) as Hr'.
  split; [|split].
  - constructor; [|exact IH1]. exists ((r - 1) mod Clock.divider tc).
    split; [reflexivity | exact Hr'].
  - cbn [List.filter]. destruct (due 0 tc); cbn [map app]; rewrite IH2; reflexivity.
  - intros k Hk. cbn [List.filter].
    assert (due k (Clock.mkTick (Clock.callback tc) (Clock.divider tc)
                     (Some ((r - 1) mod Clock.divider tc)))
            = due (k + 1) tc) as ->.
    { unfold due. cbn [Clock.cyclesRemaining Clock.divider]. rewrite Hr.
      rewrite Zminus_mod_idemp_l. f_equal. f_equal. lia. }
    destruct (due (k + 1) tc); cbn [map]; rewrite IH3 by exact Hk; reflexivity.
Qed.

Lemma steps_run_due (c : Clock.t C) (n k : nat) (fired : list C) :
  Forall tick_wf (Clock.tickCallbacks c) ->
  snd (Clock.steps n c) !! k = Some fired ->
  fired = map Clock.callback
            (List.filter (due (Z.of_nat k)) (Clock.tickCallbacks c)).
Proof.
  revert c k. induction n as [|n IH]; intros c k Hwf Hk.
  { cbn in Hk. discriminate. }
  cbn [Clock.steps] in Hk. unfold Clock.step in Hk.
  destruct (step_loop_wf _ Hwf) as (Hwf' & Hfired & Hshift).
  destruct (Clock.step_loop (Clock.tickCallbacks c)) as [tcs' fired0] eqn:E.
  cbn [fst snd] in *.
  destruct (Clock.steps n _) as [c2 trace] eqn:E2. cbn [snd] in Hk.
  destruct k as [|k].
  - cbn in Hk. injection Hk as <-. exact Hfired.
  - cbn in Hk.
    specialize (IH (Clock.mk (Clock.isRunning c) (Clock.yieldInterval c)
                      (Clock.yieldDelay c) tcs') k).
    rewrite E2 in IH. cbn [snd Clock.tickCallbacks] in IH.
    rewrite (IH Hwf' Hk), Hshift by lia.
    do 3 f_equal. lia.
Qed.

Lemma addTickCallback_wf (cb : C) (d o : Z) (c : Clock.t C) :
  0 < d -> 0 <= o ->
  Clock.tickCallbacks (Clock.addTickCallback cb d o c)
  = Clock.tickCallbacks c ++ [Clock.mkTick cb d (Some (o mod d))] /\
  tick_wf (Clock.mkTick cb d (Some (o mod d))).
Proof.
  intros Hd Ho. split.
  - unfold Clock.addTickCallback. cbn [Clock.tickCallbacks]. do 3 f_equal.
    unfold JS.rem, JS.truthy. destruct (Z.eqb_spec d 0); [lia|]. f_equal.
    assert ((if negb (o =? 0) then o else 0) = o) as ->
      by (destruct (Z.eqb_spec o 0); cbn; lia).
    rewrite Z.rem_mod_nonneg by lia.
    replace (d + o) with (o + 1 * d) by lia. apply Z_mod_plus_full.
  - exists (o mod d). split; [reflexivity|]. apply Z.mod_pos_bound. exact Hd.
Qed.

(** X8: a callback registered with a divider [d > 0] and an offset
    [o >= 0] runs at the steps [k] (counted from 0, from the
    registration) with [(o - k) mod d = 0], and at no other: once every
    [d] steps, first at step [o mod d]. Within a step it runs after the
    callbacks that were registered before it, which run when their own
    countdown [r] satisfies [(r - k) mod divider = 0]. *)
Theorem clock_callback_period (c : Clock.t C) (cb : C) (d o : Z) (n k : nat)
  (fired : list C) :
  Forall tick_wf (Clock.tickCallbacks c) -> 0 < d -> 0 <= o ->
  snd (Clock.steps n (Clock.addTickCallback cb d o c)) !! k = Some fired ->
  fired = map Clock.callback
            (List.filter (due (Z.of_nat k)) (Clock.tickCallbacks c))
          ++ (if (o - Z.of_nat k) mod d =? 0 then [cb] else []).
Proof.
  intros Hwf Hd Ho Hk.
  destruct (addTickCallback_wf cb d o c Hd Ho) as [Htcs Hnew].
  apply steps_run_due in Hk.
  2:{ rewrite Htcs. apply Forall_app. split; [exact Hwf|]. constructor; [exact Hnew|constructor]. }
  rewrite Hk, Htcs, List.filter_app, map_app. f_equal.
  cbn [List.filter]. unfold due at 1. cbn [Clock.cyclesRemaining Clock.divider].
  rewrite Zminus_mod_idemp_l.
  destruct (_ =? 0); reflexivity.
Qed.

Lemma step_loop_app (tcs tcs2 : list (Clock.TickCallback C)) :
  Clock.step_loop (tcs ++ tcs2)
  = (fst (Clock.step_loop tcs) ++ fst (Clock.step_loop tcs2),
     snd (Clock.step_loop tcs) ++ snd (Clock.step_loop tcs2)).
Proof.
  induction tcs as [|tc tcs IH]; cbn [app Clock.step_loop].
  - destruct (Clock.step_loop tcs2); reflexivity.
  - destruct (Clock.step_callback tc) as [tc' fired]. rewrite IH.
    destruct (Clock.step_loop tcs) as [a b], (Clock.step_loop tcs2) as [a2 b2].
    cbn [fst snd app]. rewrite app_assoc. reflexivity.
Qed.

(** X9: a callback registered with the divider 0 never runs: its
    countdown is [NaN] from the start, the test [cyclesRemaining <= 0] is
    false for it and every step leaves it [NaN]. The steps of the clock
    run the same callbacks as without the registration. *)
Theorem clock_divider_zero_never_runs (cb : C) (o : Z) (c : Clock.t C) (n : nat) :
  snd (Clock.steps n (Clock.addTickCallback cb 0 o c)) = snd (Clock.steps n c).
Proof.
  unfold Clock.addTickCallback.
  change (JS.rem (0 + (if JS.truthy o then o else 0)) 0) with (@None Z).
  generalize (Clock.isRunning c) (Clock.yieldInterval c) (Clock.yieldDelay c).
  intros b yi yd.
  replace c with (Clock.mk (Clock.isRunning c) (Clock.yieldInterval c)
                    (Clock.yieldDelay c) (Clock.tickCallbacks c))
    by (destruct c; reflexivity).
  generalize (Clock.isRunning c) (Clock.yieldInterval c) (Clock.yieldDelay c)
             (Clock.tickCallbacks c).
  clear c. intros b' yi' yd' tcs. cbn [Clock.tickCallbacks].
  revert tcs. induction n as [|n IH]; intros tcs; [reflexivity|].
  cbn [Clock.steps]. unfold Clock.step. cbn [Clock.tickCallbacks Clock.isRunning
    Clock.yieldInterval Clock.yieldDelay].
  rewrite step_loop_app.
  destruct (Clock.step_loop tcs) as [tcs' fired]. cbn [fst snd Clock.step_loop
    Clock.step_callback Clock.cyclesRemaining Clock.callback Clock.divider app].
  rewrite app_nil_r. specialize (IH tcs').
  destruct (Clock.steps n (Clock.mk b yi yd (tcs' ++ _))) as [c2 trace] eqn:E2.
  destruct (Clock.steps n (Clock.mk b' yi' yd' tcs')) as [c3 trace'] eqn:E3.
  cbn [snd] in *. rewrite IH. reflexivity.
Qed.

End ClockPeriod.

Lemma clock_callback_period_witness :
  [NES.CpuTick; NES.PpuTick]
  = map Clock.callback
      (List.filter (due (Z.of_nat 3))
         (Clock.tickCallbacks (Clock.addTickCallback NES.CpuTick 3 0 (Clock.new 200000 0))))
    ++ (if (0 - Z.of_nat 3) mod 1 =? 0 then [NES.PpuTick] else []).
Proof.
  apply (clock_callback_period
           (Clock.addTickCallback NES.CpuTick 3 0 (Clock.new 200000 0))
           NES.PpuTick 1 0 4 3 [NES.CpuTick; NES.PpuTick]).
  - constructor; [|constructor]. exists 0. split; [reflexivity | cbn; lia].
  - lia.
  - lia.
  - reflexivity.
Defined.

(** ** [palette.ts] and [controller.ts] *)

Section PaletteFacts.

Lemma land_bound (a b n : Z) :
  0 <= n -> 0 <= a < 2 ^ n -> 0 <= Z.land a b < 2 ^ n.
Proof.
  intros Hn Ha.
  assert (Z.land a b = Z.land a b mod 2 ^ n) as ->.
  { apply Z.bits_inj'. intros j Hj.
    rewrite Z.testbit_mod_pow2, Z.land_spec by lia.
    destruct (Z.ltb_spec j n); cbn; [reflexivity|].
    rewrite <- (Z.mod_small a (2 ^ n)) by lia.
    rewrite Z.mod_pow2_bits_high by lia. reflexivity. }
  apply Z.mod_pos_bound. lia.
Qed.

(** X10: [new Color(rgb)] splits a 24-bit colour into its three bytes:
    for [0 <= rgb < 2^24] the fields are [rgb / 65536], [(rgb / 256) mod
    256] and [rgb mod 256], each from 0 to 255, and they put the colour
    together again. *)
Theorem color_splits_rgb (rgb : Z) :
  0 <= rgb < 2 ^ 24 ->
  let c := Palette.Color_new (Some rgb) in
  Palette.r c = rgb / 65536 /\
  Palette.g c = (rgb / 256) mod 256 /\
  Palette.b c = rgb mod 256 /\
  0 <= Palette.r c < 256 /\ 0 <= Palette.g c < 256 /\ 0 <= Palette.b c < 256 /\
  Palette.r c * 65536 + Palette.g c * 256 + Palette.b c = rgb.
Proof.
  intros Hrgb c. subst c. unfold Palette.Color_new.
  cbn [Palette.r Palette.g Palette.b]. change (JS.num (Some rgb)) with rgb.
  assert (JS.shr (JS.band rgb 0xff0000) 16 = rgb / 65536) as Hr.
  { unfold JS.shr, JS.band. rewrite (to_int32_id rgb), (to_int32_id 0xff0000) by lia.
    change (Z.land 16 31) with 16.
    rewrite to_int32_id.
    2:{ pose proof (land_bound rgb 0xff0000 24 ltac:(lia) Hrgb). lia. }
    rewrite Z.shiftr_land. change (Z.shiftr 0xff0000 16) with (Z.ones 8).
    rewrite Z.land_ones, Z.shiftr_div_pow2 by lia.
    change (2 ^ 16) with 65536. apply Z.mod_small.
    Z.div_mod_to_equations; lia. }
  assert (JS.shr (JS.band rgb 0x00ff00) 8 = (rgb / 256) mod 256) as Hg.
  { unfold JS.shr, JS.band. rewrite (to_int32_id rgb), (to_int32_id 0x00ff00) by lia.
    change (Z.land 8 31) with 8.
    rewrite to_int32_id.
    2:{ pose proof (land_bound rgb 0x00ff00 24 ltac:(lia) Hrgb). lia. }
    rewrite Z.shiftr_land. change (Z.shiftr 0x00ff00 8) with (Z.ones 8).
    rewrite Z.land_ones, Z.shiftr_div_pow2 by lia. reflexivity. }
  assert (JS.band rgb 0x0000ff = rgb mod 256) as Hb.
  { unfold JS.band. rewrite (to_int32_id rgb), (to_int32_id 0x0000ff) by lia.
    change 0x0000ff with (Z.ones 8). rewrite Z.land_ones by lia. reflexivity. }
  rewrite Hr, Hg, Hb.
  repeat split; try reflexivity; Z.div_mod_to_equations; lia.
Qed.

Lemma color_splits_rgb_witness :
  let c := Palette.Color_new (Some 0x0761f5) in
  Palette.r c = 0x0761f5 / 65536 /\
  Palette.g c = (0x0761f5 / 256) mod 256 /\
  Palette.b c = 0x0761f5 mod 256 /\
  0 <= Palette.r c < 256 /\ 0 <= Palette.g c < 256 /\ 0 <= Palette.b c < 256 /\
  Palette.r c * 65536 + Palette.g c * 256 + Palette.b c = 0x0761f5.
Proof. apply (color_splits_rgb 0x0761f5). lia. Defined.

End PaletteFacts.

Section ControllerFacts.

Lemma controller_read_spec (address : Z) (c : Controller.t) :
  0 <= Controller.currentIndex c < 8 ->
  fst (Controller.read address c)
  = Z.b2z (controller_button c (Controller.currentIndex c)) /\
  Controller.currentIndex (snd (Controller.read address c))
  = (Controller.currentIndex c + 1) mod 8 /\
  same_buttons c (snd (Controller.read address c)).
Proof.
  intros Hi. destruct c as [h i r l d u st se b a]. cbn in Hi.
  unfold Controller.read, controller_button, same_buttons.
  cbn [Controller.currentIndex Controller.statusRight Controller.statusLeft
       Controller.statusDown Controller.statusUp Controller.statusStart
       Controller.statusSelect Controller.statusB Controller.statusA fst snd].
  split; [|split; [|reflexivity]].
  - assert (i = 0 \/ i = 1 \/ i = 2 \/ i = 3 \/ i = 4 \/ i = 5 \/ i = 6 \/ i = 7)
      as [->|[->|[->|[->|[->|[->|[->| ->]]]]]]] by lia; cbn [Z.eqb Pos.eqb];
      match goal with |- context [if ?s then 1 else 0] => destruct s end; reflexivity.
  - rewrite Z.rem_mod_nonneg by lia. reflexivity.
Qed.

(** X11: the controller is a ring of eight positions. Starting with
    [currentIndex] in 0..7, the read number [k] (counted from 0) returns
    1 if the button of the position [(currentIndex + k) mod 8] is held
    and 0 if not, in the order A, B, Select, Start, Up, Down, Left,
    Right; [n] reads leave the position at [(currentIndex + n) mod 8] and
    the buttons as they were, so eight reads bring the controller back to
    where it was. The address of the read plays no part. *)
Theorem controller_reads_cycle (address : Z) (n : nat) (c : Controller.t) :
  0 <= Controller.currentIndex c < 8 ->
  let '(vs, c') := controller_reads address n c in
  length vs = n /\
  (forall (k : nat) (v : Z), vs !! k = Some v ->
     v = Z.b2z (controller_button c ((Controller.currentIndex c + Z.of_nat k) mod 8))) /\
  Controller.currentIndex c' = (Controller.currentIndex c + Z.of_nat n) mod 8 /\
  same_buttons c c'.
Proof.
  revert c. induction n as [|n IH]; intros c Hi.
  { cbn [controller_reads]. split; [reflexivity|]. split; [intros k v Hk; discriminate|].
    split; [|intros i; reflexivity].
    rewrite Z.add_0_r, Z.mod_small by lia. reflexivity. }
  cbn [controller_reads].
  destruct (controller_read_spec address c Hi) as (Hv & Hidx & Hsame).
  destruct (Controller.read address c) as [v c1]. cbn [fst snd] in *.
  assert (0 <= Controller.currentIndex c1 < 8) as Hi1
    by (rewrite Hidx; apply Z.mod_pos_bound; lia).
  specialize (IH c1 Hi1).
  destruct (controller_reads address n c1) as [vs c2].
  destruct IH as (Hlen & Hvs & Hidx2 & Hsame2).
  split; [cbn; lia|]. split; [|split].
  - intros [|k] w Hk; cbn in Hk.
    + injection Hk as <-. rewrite Z.add_0_r, Z.mod_small by lia. exact Hv.
    + rewrite (Hvs k w Hk), Hsame, Hidx. f_equal. f_equal.
      rewrite Zplus_mod_idemp_l. f_equal. lia.
  - rewrite Hidx2, Hidx, Zplus_mod_idemp_l. f_equal. lia.
  - intros i. rewrite Hsame2. apply Hsame.
Qed.

Lemma controller_reads_cycle_witness :
  let '(vs, c') := controller_reads 0x4016 8 NES.controller1 in
  length vs = 8%nat /\
  (forall (k : nat) (v : Z), vs !! k = Some v ->
     v = Z.b2z (controller_button NES.controller1
                  ((Controller.currentIndex NES.controller1 + Z.of_nat k) mod 8))) /\
  Controller.currentIndex c'
  = (Controller.currentIndex NES.controller1 + Z.of_nat 8) mod 8 /\
  same_buttons NES.controller1 c'.
Proof.
  apply (controller_reads_cycle 0x4016 8 NES.controller1). cbn. lia.
Defined.

End ControllerFacts.

(** ** [cartridge.ts] *)

Section CartridgeLoad.

Lemma compareBytes_spec (a b : list Z) :
  Util.compareBytes a b = true <-> a = b.
Proof.
  unfold Util.compareBytes.
  destruct (Nat.eqb_spec (length a) (length b)) as [Hlen|Hlen]; cbn [negb].
  - apply compareBytes_loop_eq, Hlen.
  - split; [discriminate | intros ->; contradiction].
Qed.

Lemma flags6_bits (b6 : Z) :
  0 <= b6 < 256 ->
  JS.truthy (JS.band b6 Cartridge.HEADER_FLAGS_6_MASK_TRAINER) = Z.testbit b6 2 /\
  JS.truthy (JS.band b6 Cartridge.HEADER_FLAGS_6_MASK_MIRROR_FOUR_SCREEN) = Z.testbit b6 3 /\
  JS.truthy (JS.band b6 Cartridge.HEADER_FLAGS_6_MASK_MIRROR_VERTICAL) = Z.testbit b6 0.
Proof.
  intros Hrange.
  apply (forall_bytes (fun b6 =>
    (Bool.eqb (JS.truthy (JS.band b6 Cartridge.HEADER_FLAGS_6_MASK_TRAINER))
              (Z.testbit b6 2))
    && (Bool.eqb (JS.truthy (JS.band b6 Cartridge.HEADER_FLAGS_6_MASK_MIRROR_FOUR_SCREEN))
                 (Z.testbit b6 3))
    && (Bool.eqb (JS.truthy (JS.band b6 Cartridge.HEADER_FLAGS_6_MASK_MIRROR_VERTICAL))
                 (Z.testbit b6 0)))) in Hrange; [|vm_compute; reflexivity].
  apply andb_prop in Hrange as [Hrange H0]. apply andb_prop in Hrange as [H2 H3].
  apply eqb_prop in H0, H2, H3. auto.
Qed.

Lemma parseHeader_ok (buffer : list Z) :
  take 4 buffer = Cartridge.HEADER_INES_DECLARATION ->
  exists h,
    Cartridge.parseHeader buffer = Ok h /\
    Cartridge.prgSize h = option_map (fun b => b * 16384) (buffer !! 4%nat) /\
    Cartridge.chrSize h = option_map (fun b => b * 8192) (buffer !! 5%nat) /\
    forall b6, buffer !! 6%nat = Some b6 -> 0 <= b6 < 256 ->
      Cartridge.trainer h = Z.testbit b6 2 /\
      Cartridge.mirror h
      = (if Z.testbit b6 3 then Cartridge.four
         else if Z.testbit b6 0 then Cartridge.vertical
         else Cartridge.horizontal).
Proof.
  unfold Cartridge.parseHeader.
  intros Heq. apply compareBytes_spec in Heq. rewrite Heq. cbn [negb].
  eexists. split; [reflexivity|].
  cbn [Cartridge.prgSize Cartridge.chrSize Cartridge.trainer Cartridge.mirror].
  unfold Cartridge.scaled.
  split; [destruct (buffer !! 4%nat); reflexivity|].
  split; [destruct (buffer !! 5%nat); reflexivity|].
  intros b6 Hb6 Hrange. unfold Cartridge.masked. rewrite Hb6.
  change (JS.num (Some b6)) with b6.
  destruct (flags6_bits b6 Hrange) as (-> & -> & ->). split; reflexivity.
Qed.

(** X12: [parseHeader] accepts a buffer exactly when it starts with the
    four bytes 4E 45 53 1A; every other buffer, also one shorter than
    four bytes, gets the error [Invalid iNES header]. For an accepted
    header of bytes the sizes are byte 4 times 16 KiB and byte 5 times
    8 KiB, bit 2 of byte 6 tells whether a trainer follows, and the
    mirroring is [four] if bit 3 of byte 6 is set, else [vertical] if
    bit 0 is set, else [horizontal]. *)
Theorem parseHeader_accepts_magic (buffer : list Z) :
  (take 4 buffer <> Cartridge.HEADER_INES_DECLARATION ->
   Cartridge.parseHeader buffer = Throw "Invalid iNES header"%string) /\
  (take 4 buffer = Cartridge.HEADER_INES_DECLARATION ->
   exists h,
     Cartridge.parseHeader buffer = Ok h /\
     Cartridge.prgSize h = option_map (fun b => b * 16384) (buffer !! 4%nat) /\
     Cartridge.chrSize h = option_map (fun b => b * 8192) (buffer !! 5%nat) /\
     forall b6, buffer !! 6%nat = Some b6 -> 0 <= b6 < 256 ->
       Cartridge.trainer h = Z.testbit b6 2 /\
       Cartridge.mirror h
       = (if Z.testbit b6 3 then Cartridge.four
          else if Z.testbit b6 0 then Cartridge.vertical
          else Cartridge.horizontal)).
Proof.
  split; [|apply parseHeader_ok].
  intros Hne. unfold Cartridge.parseHeader.
  destruct (Util.compareBytes (take 4 buffer) Cartridge.HEADER_INES_DECLARATION) eqn:E;
    [|reflexivity].
  apply compareBytes_spec in E. contradiction.
Qed.

Lemma parseHeader_accepts_magic_witness :
  exists h,
    Cartridge.parseHeader nrom128_header = Ok h /\
    Cartridge.prgSize h = option_map (fun b => b * 16384) (nrom128_header !! 4%nat) /\
    Cartridge.chrSize h = option_map (fun b => b * 8192) (nrom128_header !! 5%nat) /\
    forall b6, nrom128_header !! 6%nat = Some b6 -> 0 <= b6 < 256 ->
      Cartridge.trainer h = Z.testbit b6 2 /\
      Cartridge.mirror h
      = (if Z.testbit b6 3 then Cartridge.four
         else if Z.testbit b6 0 then Cartridge.vertical
         else Cartridge.horizontal).
Proof.
  apply (proj2 (parseHeader_accepts_magic nrom128_header)). reflexivity.
Defined.

Lemma slice_middle (pre mid post : list Z) :
  Cartridge.slice (pre ++ mid ++ post)
    (Some (Z.of_nat (length pre)))
    (Some (Z.of_nat (length pre) + Z.of_nat (length mid)))
  = mid.
Proof.
  unfold Cartridge.slice. change (JS.num (Some ?v)) with v.
  rewrite !length_app, !Nat2Z.inj_add.
  rewrite !Z.max_r, !Z.min_l by lia.
  replace (Z.of_nat (length pre) + Z.of_nat (length mid) - Z.of_nat (length pre))
    with (Z.of_nat (length mid)) by lia.
  rewrite !Nat2Z.id. rewrite drop_app_length. apply take_app_length.
Qed.

Lemma chr_capacity : Z.of_nat (length (ROM.bytes NES.chr)) = 0x2000.
Proof.
  unfold NES.chr, ROM.new, JS.ta_new. cbn [ROM.bytes].
  rewrite length_replicate. reflexivity.
Qed.

(** X13: [Cartridge.load] puts the program and the patterns of an image
    where the machine reads them. For an image made of a 16-byte header
    that announces one or two PRG banks and one CHR bank, a trainer of
    512 bytes exactly if bit 2 of byte 6 is set, the PRG bytes and the CHR
    bytes, the loader does not throw; afterwards the program ROM of the
    machine returns PRG byte [i] at [0x8000 + i] and the pattern ROM
    returns CHR byte [j] at [j]. The trainer and whatever follows the CHR
    bytes are left out. *)
Theorem cartridge_load_layout (banks flags6 : Z)
  (tail trainer prgBytes chrBytes rest : list Z) :
  banks = 1 \/ banks = 2 -> 0 <= flags6 < 256 -> length tail = 9%nat ->
  Z.of_nat (length trainer) = (if Z.testbit flags6 2 then 512 else 0) ->
  Z.of_nat (length prgBytes) = banks * 16384 ->
  Z.of_nat (length chrBytes) = 8192 ->
  Forall (fun b => 0 <= b < 256) prgBytes ->
  Forall (fun b => 0 <= b < 256) chrBytes ->
  exists h chr' prg',
    Cartridge.load (ines_image banks flags6 tail trainer prgBytes chrBytes rest)
                   NES.chr NES.prg
    = Ok (h, chr', prg') /\
    (forall (i : nat) (b : Z), prgBytes !! i = Some b ->
       ROM.read (0x8000 + Z.of_nat i) prg' = b) /\
    (forall (j : nat) (b : Z), chrBytes !! j = Some b ->
       ROM.read (Z.of_nat j) chr' = b).
Proof.
  intros Hbanks Hflags Htail Htrainer Hprg Hchr Hprgb Hchrb.
  set (header := [0x4e; 0x45; 0x53; 0x1a; banks; 1; flags6] ++ tail).
  assert (length header = 16%nat) as Hheader
    by (subst header; rewrite length_app, Htail; reflexivity).
  destruct (parseHeader_ok header eq_refl) as (h & Hparse & HprgSize & HchrSize & Hbits).
  destruct (Hbits flags6 eq_refl Hflags) as [Htr _].
  cbn in HprgSize, HchrSize. change (1 * 8192) with 8192 in HchrSize.
  unfold Cartridge.load, ines_image. fold header.
  rewrite take_app_length' by (symmetry; exact Hheader). rewrite Hparse.
  cbv iota beta. rewrite HprgSize, HchrSize, Htr. cbn [Cartridge.add_nan].
  assert (16 + (if Z.testbit flags6 2 then 512 else 0)
          = Z.of_nat (length (header ++ trainer))) as Hstart
    by (rewrite length_app, Nat2Z.inj_add, Hheader, Htrainer; reflexivity).
  rewrite Hstart.
  assert (Cartridge.slice (header ++ trainer ++ prgBytes ++ chrBytes ++ rest)
            (Some (Z.of_nat (length (header ++ trainer))))
            (Some (Z.of_nat (length (header ++ trainer)) + banks * 16384))
          = prgBytes) as ->.
  { rewrite <- Hprg. rewrite (app_assoc header trainer). apply slice_middle. }
  assert (Cartridge.slice (header ++ trainer ++ prgBytes ++ chrBytes ++ rest)
            (Some (Z.of_nat (length (header ++ trainer)) + banks * 16384))
            (Some (Z.of_nat (length (header ++ trainer)) + banks * 16384 + 8192))
          = chrBytes) as ->.
  { rewrite <- Hprg, <- Hchr, <- Nat2Z.inj_add, <- length_app.
    rewrite (app_assoc header trainer), (app_assoc (header ++ trainer) prgBytes).
    apply slice_middle. }
  eexists _, _, _. split; [reflexivity|]. split.
  - intros i b Hi.
    apply (load_read_at NES.prg Cartridge.PRG_START_ADDRESS prgBytes); try assumption.
    + intros ->. cbn in Hprg. lia.
    + vm_compute. discriminate.
    + pose proof prg_capacity. lia.
  - intros j b Hj.
    apply (load_read_at NES.chr PPU.CHR_START_ADDRESS chrBytes); try assumption.
    + intros ->. cbn in Hchr. lia.
    + vm_compute. discriminate.
    + pose proof chr_capacity. lia.
Qed.

Lemma cartridge_load_layout_witness :
  exists h chr' prg',
    Cartridge.load
      (ines_image 1 4 (replicate 9 0) (replicate (Z.to_nat 512) 0)
         (replicate (Z.to_nat 16384) 0xEA) (replicate (Z.to_nat 8192) 0x11) [])
      NES.chr NES.prg
    = Ok (h, chr', prg') /\
    (forall (i : nat) (b : Z), replicate (Z.to_nat 16384) 0xEA !! i = Some b ->
       ROM.read (0x8000 + Z.of_nat i) prg' = b) /\
    (forall (j : nat) (b : Z), replicate (Z.to_nat 8192) 0x11 !! j = Some b ->
       ROM.read (Z.of_nat j) chr' = b).
Proof.
  apply (cartridge_load_layout 1 4 (replicate 9 0) (replicate (Z.to_nat 512) 0)
           (replicate (Z.to_nat 16384) 0xEA) (replicate (Z.to_nat 8192) 0x11) []).
  - left. reflexivity.
  - lia.
  - reflexivity.
  - rewrite length_replicate, Z2Nat.id by lia. reflexivity.
  - rewrite length_replicate, Z2Nat.id by lia. reflexivity.
  - rewrite length_replicate, Z2Nat.id by lia. reflexivity.
  - apply Forall_replicate. lia.
  - apply Forall_replicate. lia.
Defined.

End CartridgeLoad.

(** ** [ppu.ts]: PPUSTATUS and PPUCTRL *)

Section PPUStatusControl.

Lemma getRegister_byte (address : Z) (p : PPU.t) : 0 <= PPU.getRegister address p < 256.
Proof.
  unfold PPU.getRegister. rewrite band_ff_l. apply Z.mod_pos_bound. lia.
Qed.

Lemma status_byte_facts (s : Z) :
  0 <= s < 256 ->
  JS.band 0xe0 s = Z.land s 0xE0 /\
  Z.land s 0xE0 <= 0xE0 /\
  Util.setBit s 7 false = Z.land s 0x7F /\
  Z.land (Z.land s 0x7F) 0xE0 <= 0x60 /\
  0 <= Z.land s 0xE0 /\ 0 <= Z.land (Z.land s 0x7F) 0xE0 /\
  JS.band 0x1f s = Z.land s 0x1F /\ 0 <= Z.land s 0x1F <= 0x1F /\
  JS.truthy (Util.getBit s 7) = Z.testbit s 7 /\
  JS.band s 3 = s mod 4.
Proof.
  intros Hs.
  apply (forall_bytes (fun s =>
    (JS.band 0xe0 s =? Z.land s 0xE0) && (Z.land s 0xE0 <=? 0xE0)
    && (Util.setBit s 7 false =? Z.land s 0x7F)
    && (Z.land (Z.land s 0x7F) 0xE0 <=? 0x60)
    && (0 <=? Z.land s 0xE0) && (0 <=? Z.land (Z.land s 0x7F) 0xE0)
    && (JS.band 0x1f s =? Z.land s 0x1F) && (0 <=? Z.land s 0x1F)
    && (Z.land s 0x1F <=? 0x1F)
    && Bool.eqb (JS.truthy (Util.getBit s 7)) (Z.testbit s 7)
    && (JS.band s 3 =? s mod 4))) in Hs; [|vm_compute; reflexivity].
  repeat (apply andb_prop in Hs as [Hs ?]).
  repeat match goal with
         | H : Bool.eqb _ _ = true |- _ => apply eqb_prop in H
         end.
  repeat split; first [assumption | lia].
Qed.

(** X14: a read of PPUSTATUS returns the three top bits of the status
    register with the five low bits of the PPUDATA register under them,
    clears the VBlank flag (bit 7 of the status register, and no other
    bit), forgets a pending first PPUADDR write, and leaves the VRAM
    address and the other seven registers alone. A second read in a row
    therefore never shows VBlank. *)
Theorem ppustatus_read_clears_vblank (p : PPU.t) :
  ppu_wf p ->
  let byte := fst (PPU.read PPU.REGISTER_PPUSTATUS p) in
  let p' := snd (PPU.read PPU.REGISTER_PPUSTATUS p) in
  byte = Z.land (PPU.registerPPUSTATUS p) 0xE0 + Z.land (PPU.registerPPUDATA p) 0x1F /\
  PPU.registerPPUSTATUS p' = Z.land (PPU.registerPPUSTATUS p) 0x7F /\
  PPU.vramAddressLatch p' = None /\
  PPU.vramAddress p' = PPU.vramAddress p /\
  (forall k, 0 <= k < 8 -> k <> 2 ->
     PPU.getRegister (PPU.REGISTER_START_ADDRESS + k) p'
     = PPU.getRegister (PPU.REGISTER_START_ADDRESS + k) p) /\
  Z.testbit (fst (PPU.read PPU.REGISTER_PPUSTATUS p')) 7 = false.
Proof.
  intros Hwf byte p'.
  pose proof (getRegister_byte PPU.REGISTER_PPUSTATUS p) as Hs.
  pose proof (getRegister_byte PPU.REGISTER_PPUDATA p) as Hd.
  destruct (status_byte_facts _ Hs) as (Hs1 & Hs2 & Hs3 & Hs4 & Hs5 & Hs6 & _).
  destruct (status_byte_facts _ Hd) as (_ & _ & _ & _ & _ & _ & Hd1 & Hd2 & _).
  assert (PPU.read PPU.REGISTER_PPUSTATUS p
          = (JS.band 0xe0 (PPU.registerPPUSTATUS p) + JS.band 0x1f (PPU.registerPPUDATA p),
             PPU.set_vramAddressLatch None (PPU.set_ppustatusVBlank false p))) as Hread
    by reflexivity.
  assert (forall q, ppu_wf q ->
            PPU.registerPPUSTATUS (PPU.set_vramAddressLatch None (PPU.set_ppustatusVBlank false q))
            = Z.land (PPU.registerPPUSTATUS q) 0x7F) as Hstatus.
  { intros q Hq.
    change (PPU.registerPPUSTATUS (PPU.set_vramAddressLatch None ?x))
      with (PPU.registerPPUSTATUS x).
    unfold PPU.set_ppustatusVBlank, PPU.registerPPUSTATUS at 1.
    change PPU.REGISTER_PPUSTATUS with (PPU.REGISTER_START_ADDRESS + 2).
    rewrite getRegister_setRegister_eq by (assumption || lia).
    change (JS.num (Some ?v)) with v.
    change (PPU.REGISTER_START_ADDRESS + 2) with PPU.REGISTER_PPUSTATUS.
    fold (PPU.registerPPUSTATUS q).
    pose proof (getRegister_byte PPU.REGISTER_PPUSTATUS q) as Hq'.
    fold (PPU.registerPPUSTATUS q) in Hq'.
    change PPU.STATUS_FLAG_BIT_PPUSTATUS_VBLANK with 7.
    destruct (status_byte_facts _ Hq') as (_ & _ & -> & _ & _ & Hnn & _).
    apply Z.mod_small.
    pose proof (land_bound (PPU.registerPPUSTATUS q) 0x7F 8 ltac:(lia) Hq'). lia. }
  subst byte p'. rewrite Hread. cbn [fst snd].
  fold (PPU.registerPPUSTATUS p) in Hs, Hs1, Hs2, Hs3, Hs4, Hs5, Hs6.
  fold (PPU.registerPPUDATA p) in Hd, Hd1, Hd2.
  split; [rewrite Hs1, Hd1; reflexivity|].
  split; [apply Hstatus, Hwf|].
  split; [reflexivity|]. split; [reflexivity|].
  split.
  { intros k Hk Hne.
    change (PPU.getRegister ?a (PPU.set_vramAddressLatch None ?x))
      with (PPU.getRegister a x).
    unfold PPU.set_ppustatusVBlank.
    change PPU.REGISTER_PPUSTATUS with (PPU.REGISTER_START_ADDRESS + 2) at 1.
    apply getRegister_setRegister_ne; (assumption || lia). }
  set (q := PPU.set_vramAddressLatch None (PPU.set_ppustatusVBlank false p)).
  assert (ppu_wf q) as Hq by (apply setRegister_wf, Hwf).
  assert (PPU.read PPU.REGISTER_PPUSTATUS q
          = (JS.band 0xe0 (PPU.registerPPUSTATUS q) + JS.band 0x1f (PPU.registerPPUDATA q),
             PPU.set_vramAddressLatch None (PPU.set_ppustatusVBlank false q))) as ->
    by reflexivity.
  cbn [fst].
  pose proof (getRegister_byte PPU.REGISTER_PPUSTATUS q) as Hsq.
  pose proof (getRegister_byte PPU.REGISTER_PPUDATA q) as Hdq.
  fold (PPU.registerPPUSTATUS q) in Hsq. fold (PPU.registerPPUDATA q) in Hdq.
  destruct (status_byte_facts _ Hsq) as (-> & _).
  destruct (status_byte_facts _ Hdq) as (_ & _ & _ & _ & _ & _ & -> & Hdq2 & _).
  assert (PPU.registerPPUSTATUS q = Z.land (PPU.registerPPUSTATUS p) 0x7F) as ->
    by (apply Hstatus, Hwf).
  set (v := Z.land (Z.land (PPU.registerPPUSTATUS p) 127) 224 + Z.land (PPU.registerPPUDATA q) 31).
  assert (0 <= v < 2 ^ 7) as Hv by (subst v; lia).
  rewrite <- (Z.mod_small v (2 ^ 7)) by exact Hv.
  apply Z.mod_pow2_bits_high. lia.
Qed.

Lemma ppustatus_read_clears_vblank_witness :
  let byte := fst (PPU.read PPU.REGISTER_PPUSTATUS ppu_in_vblank) in
  let p' := snd (PPU.read PPU.REGISTER_PPUSTATUS ppu_in_vblank) in
  byte = Z.land (PPU.registerPPUSTATUS ppu_in_vblank) 0xE0
         + Z.land (PPU.registerPPUDATA ppu_in_vblank) 0x1F /\
  PPU.registerPPUSTATUS p' = Z.land (PPU.registerPPUSTATUS ppu_in_vblank) 0x7F /\
  PPU.vramAddressLatch p' = None /\
  PPU.vramAddress p' = PPU.vramAddress ppu_in_vblank /\
  (forall k, 0 <= k < 8 -> k <> 2 ->
     PPU.getRegister (PPU.REGISTER_START_ADDRESS + k) p'
     = PPU.getRegister (PPU.REGISTER_START_ADDRESS + k) ppu_in_vblank) /\
  Z.testbit (fst (PPU.read PPU.REGISTER_PPUSTATUS p')) 7 = false.
Proof.
  apply (ppustatus_read_clears_vblank ppu_in_vblank). split; reflexivity.
Defined.

End PPUStatusControl.

Section PPUControl.

Lemma nametable_base (sel : Z) :
  0 <= sel < 4 -> PPU.NAMETABLE_SELECT_TO_BASE_ADDRESS sel = 0x2000 + 0x400 * sel.
Proof.
  intros Hsel.
  assert (sel = 0 \/ sel = 1 \/ sel = 2 \/ sel = 3) as [->|[->|[->| ->]]] by lia;
    reflexivity.
Qed.

(** X15: a write to PPUCTRL stores the byte; it raises ["nmi"] on the
    spot exactly when the byte enables NMI (bit 7) while the VBlank flag
    of the status register is set; and when it changes the name-table
    selection (the two low bits) it moves the VRAM address to the start
    of the selected name table, [0x2000 + 0x400 * selection], while a
    write that keeps the selection keeps the address. The status
    register and a pending first PPUADDR write stay as they are. *)
Theorem ppuctrl_write_effects (p : PPU.t) (byte : Z) :
  ppu_wf p -> 0 <= byte < 256 ->
  let p' := fst (PPU.write PPU.REGISTER_PPUCTRL byte p) in
  PPU.registerPPUCTRL p' = byte /\
  snd (PPU.write PPU.REGISTER_PPUCTRL byte p)
  = (if Z.testbit byte 7 && Z.testbit (PPU.registerPPUSTATUS p) 7 then [EvNmi] else []) /\
  PPU.vramAddress p'
  = (if byte mod 4 =? PPU.registerPPUCTRL p mod 4 then PPU.vramAddress p
     else 0x2000 + 0x400 * (byte mod 4)) /\
  PPU.registerPPUSTATUS p' = PPU.registerPPUSTATUS p /\
  PPU.vramAddressLatch p' = PPU.vramAddressLatch p.
Proof.
  intros Hwf Hbyte p'.
  set (q := PPU.setRegister PPU.REGISTER_PPUCTRL (Some byte) p).
  assert (PPU.registerPPUCTRL q = byte) as Hctrl.
  { subst q. unfold PPU.registerPPUCTRL.
    change PPU.REGISTER_PPUCTRL with (PPU.REGISTER_START_ADDRESS + 0).
    rewrite getRegister_setRegister_eq by (assumption || lia).
    apply Z.mod_small. exact Hbyte. }
  assert (PPU.registerPPUSTATUS q = PPU.registerPPUSTATUS p) as Hstat.
  { subst q. unfold PPU.registerPPUSTATUS.
    change PPU.REGISTER_PPUCTRL with (PPU.REGISTER_START_ADDRESS + 0).
    change PPU.REGISTER_PPUSTATUS with (PPU.REGISTER_START_ADDRESS + 2).
    apply getRegister_setRegister_ne; (assumption || lia). }
  pose proof (getRegister_byte PPU.REGISTER_PPUCTRL p) as Hold.
  fold (PPU.registerPPUCTRL p) in Hold.
  pose proof (getRegister_byte PPU.REGISTER_PPUSTATUS p) as Hs.
  fold (PPU.registerPPUSTATUS p) in Hs.
  destruct (status_byte_facts _ Hbyte) as (_ & _ & _ & _ & _ & _ & _ & _ & Hb7 & Hb3).
  destruct (status_byte_facts _ Hold) as (_ & _ & _ & _ & _ & _ & _ & _ & _ & Ho3).
  destruct (status_byte_facts _ Hs) as (_ & _ & _ & _ & _ & _ & _ & _ & Hs7 & _).
  assert (PPU.write PPU.REGISTER_PPUCTRL byte p
          = (if negb (PPU.ppuctrlNametableSelect q =? PPU.ppuctrlNametableSelect p)
             then PPU.set_vramAddress
                    (PPU.NAMETABLE_SELECT_TO_BASE_ADDRESS (PPU.ppuctrlNametableSelect q)) q
             else q,
             if JS.truthy (PPU.ppuctrlNMIEnable q) && JS.truthy (PPU.ppustatusVBlank q)
             then PPU.generateNMI else [])) as Hwrite by reflexivity.
  assert (PPU.ppuctrlNametableSelect q = byte mod 4) as Hsel
    by (unfold PPU.ppuctrlNametableSelect; rewrite Hctrl; exact Hb3).
  assert (PPU.ppuctrlNametableSelect p = PPU.registerPPUCTRL p mod 4) as Hsel0
    by (unfold PPU.ppuctrlNametableSelect; exact Ho3).
  subst p'. rewrite Hwrite, Hsel, Hsel0. cbn [fst snd]. clear Hwrite.
  pose proof (Z.mod_pos_bound byte 4 ltac:(lia)) as Hm.
  assert ((if JS.truthy (PPU.ppuctrlNMIEnable q) && JS.truthy (PPU.ppustatusVBlank q)
           then PPU.generateNMI else [])
          = (if Z.testbit byte 7 && Z.testbit (PPU.registerPPUSTATUS p) 7
             then [EvNmi] else [])) as ->.
  { unfold PPU.ppuctrlNMIEnable, PPU.ppustatusVBlank.
    rewrite Hctrl, Hstat.
    change PPU.STATUS_FLAG_BIT_PPUCTRL_NMI_ENABLE with 7.
    change PPU.STATUS_FLAG_BIT_PPUSTATUS_VBLANK with 7.
    rewrite Hb7, Hs7. reflexivity. }
  destruct (byte mod 4 =? PPU.registerPPUCTRL p mod 4); cbn [negb].
  - repeat split; assumption || reflexivity.
  - split; [exact Hctrl|]. split; [reflexivity|].
    split; [apply nametable_base, Hm|]. split; [exact Hstat | reflexivity].
Qed.

Lemma ppuctrl_write_effects_witness :
  let p' := fst (PPU.write PPU.REGISTER_PPUCTRL 0x81 ppu_in_vblank) in
  PPU.registerPPUCTRL p' = 0x81 /\
  snd (PPU.write PPU.REGISTER_PPUCTRL 0x81 ppu_in_vblank)
  = (if Z.testbit 0x81 7 && Z.testbit (PPU.registerPPUSTATUS ppu_in_vblank) 7
     then [EvNmi] else []) /\
  PPU.vramAddress p'
  = (if 0x81 mod 4 =? PPU.registerPPUCTRL ppu_in_vblank mod 4
     then PPU.vramAddress ppu_in_vblank
     else 0x2000 + 0x400 * (0x81 mod 4)) /\
  PPU.registerPPUSTATUS p' = PPU.registerPPUSTATUS ppu_in_vblank /\
  PPU.vramAddressLatch p' = PPU.vramAddressLatch ppu_in_vblank.
Proof.
  apply (ppuctrl_write_effects ppu_in_vblank 0x81); [split; reflexivity | lia].
Defined.

End PPUControl.

(** ** The video memory of the machine *)

Section VideoBus.

Lemma video_bus_placed (chr : ROM.t) (vram pal : RAM.t) :
  video_memory chr vram pal ->
  video_bus chr vram pal = [MRAM pal; MRAM vram; MROM chr].
Proof.
  intros (Hc & Hv & Hp & _).
  destruct chr as [[sc ec mc ac msc] bc], vram as [hv bv], pal as [hp bp].
  cbn in Hc, Hv, Hp. subst sc hv hp. reflexivity.
Qed.


Lemma video_bus_read (chr : ROM.t) (vram pal : RAM.t) (a : Z) :
  video_memory chr vram pal -> 0x2000 <= a ->
  Bus.read (video_bus chr vram pal) a
  = (Some (if a <? 0x3F00 then RAM.read a vram else RAM.read a pal),
     video_bus chr vram pal).
Proof.
  intros placed Ha. pose proof placed as (Hc & Hv & Hp & _).
  rewrite video_bus_placed by exact placed. cbn [Bus.read].
  unfold Bus.start. cbn [base MemDevice_Device]. rewrite Hv, Hp.
  change (Addressable.startAddress (RAM.hdr NES.paletteRAM)) with 0x3F00.
  change (Addressable.startAddress (RAM.hdr NES.vram)) with 0x2000.
  destruct (Z.ltb_spec a 0x3F00).
  - destruct (Z.ltb_spec a 0x2000); [lia|]. reflexivity.
  - reflexivity.
Qed.

Lemma video_bus_read_low (chr : ROM.t) (vram pal : RAM.t) (a : Z) :
  video_memory chr vram pal -> 0 <= a < 0x2000 ->
  Bus.read (video_bus chr vram pal) a = (Some (ROM.read a chr), video_bus chr vram pal).
Proof.
  intros placed Ha. pose proof placed as (Hc & Hv & Hp & _).
  rewrite video_bus_placed by exact placed. cbn [Bus.read].
  unfold Bus.start. cbn [base MemDevice_Device]. rewrite Hc, Hv, Hp.
  change (Addressable.startAddress (RAM.hdr NES.paletteRAM)) with 0x3F00.
  change (Addressable.startAddress (RAM.hdr NES.vram)) with 0x2000.
  destruct (Z.ltb_spec a 0x3F00); [|lia].
  destruct (Z.ltb_spec a 0x2000); [|lia].
  destruct (Z.ltb_spec a 0); [lia|]. reflexivity.
Qed.

Lemma video_bus_write (chr : ROM.t) (vram pal : RAM.t) (a byte : Z) :
  video_memory chr vram pal -> 0x2000 <= a ->
  Bus.write (video_bus chr vram pal) a byte
  = (if a <? 0x3F00 then video_bus chr (RAM.write a byte vram) pal
     else video_bus chr vram (RAM.write a byte pal), []) /\
  (if a <? 0x3F00 then video_memory chr (RAM.write a byte vram) pal
   else video_memory chr vram (RAM.write a byte pal)).
Proof.
  intros placed Ha. pose proof placed as (Hc & Hv & Hp & Hwv & Hwp).
  rewrite video_bus_placed by exact placed. cbn [Bus.write].
  unfold Bus.start. cbn [base MemDevice_Device]. rewrite Hv, Hp.
  change (Addressable.startAddress (RAM.hdr NES.paletteRAM)) with 0x3F00.
  change (Addressable.startAddress (RAM.hdr NES.vram)) with 0x2000.
  destruct (Z.ltb_spec a 0x3F00).
  - destruct (Z.ltb_spec a 0x2000); [lia|].
    cbn [dev_write MemDevice_Device].
    assert (video_memory chr (RAM.write a byte vram) pal) as Hplaced'.
    { split; [exact Hc|]. split; [exact Hv|]. split; [exact Hp|].
      split; [apply ram_write_wf, Hwv | exact Hwp]. }
    split; [|exact Hplaced'].
    rewrite (video_bus_placed _ _ _ Hplaced'). reflexivity.
  - cbn [dev_write MemDevice_Device].
    assert (video_memory chr vram (RAM.write a byte pal)) as Hplaced'.
    { split; [exact Hc|]. split; [exact Hv|]. split; [exact Hp|].
      split; [exact Hwv | apply ram_write_wf, Hwp]. }
    split; [|exact Hplaced'].
    rewrite (video_bus_placed _ _ _ Hplaced'). reflexivity.
Qed.

Lemma video_cell_index (chr : ROM.t) (vram pal : RAM.t) (a : Z) :
  video_memory chr vram pal -> 0x2000 <= a ->
  video_cell a
  = (if a <? 0x3F00 then 0x2000 + ram_index vram a else 0x3F00 + ram_index pal a).
Proof.
  intros placed Ha. destruct placed as (_ & Hv & Hp & _).
  unfold video_cell, ram_index. rewrite Hv, Hp. reflexivity.
Qed.

(** X16: the video memory of the machine seen through the PPU bus. From
    0x2000 upwards every address stands for a cell of RAM: the 4 KiB of
    the name tables repeat up to 0x3EFF and the 32 bytes of the palette
    repeat from 0x3F00 on, also above 0x3FFF, because the bus never looks
    at the end of a region. A byte written at an address is read back,
    modulo 256, at every address of the same cell, and a read of another
    cell is not affected. A write below 0x2000 goes to the pattern ROM
    and changes nothing. *)
Theorem video_bus_mirrors (chr : ROM.t) (vram pal : RAM.t) (a a' low byte : Z) :
  video_memory chr vram pal ->
  0x2000 <= a -> 0x2000 <= a' -> 0 <= low < 0x2000 ->
  fst (Bus.read (fst (Bus.write (video_bus chr vram pal) a byte)) a')
  = (if video_cell a =? video_cell a' then Some (byte mod 256)
     else fst (Bus.read (video_bus chr vram pal) a')) /\
  Bus.write (video_bus chr vram pal) low byte = (video_bus chr vram pal, []).
Proof.
  intros placed Ha Ha' Hlow. pose proof placed as (Hc & Hv & Hp & Hwv & Hwp).
  split.
  - destruct (video_bus_write chr vram pal a byte placed Ha) as [-> Hplaced'].
    rewrite !(video_cell_index chr vram pal) by assumption. cbn [fst].
    rewrite (video_bus_read chr vram pal a' placed Ha').
    assert (Addressable.startAddress (RAM.hdr vram) = 0x2000) as Hsv by (rewrite Hv; reflexivity).
    assert (Addressable.startAddress (RAM.hdr pal) = 0x3F00) as Hsp by (rewrite Hp; reflexivity).
    assert (Addressable.actualSize (RAM.hdr vram) = 0x1000) as Hnv by (rewrite Hv; reflexivity).
    assert (Addressable.actualSize (RAM.hdr pal) = 0x20) as Hnp by (rewrite Hp; reflexivity).
    pose proof (Z.mod_pos_bound (a - 0x2000) 0x1000 ltac:(lia)) as B1.
    pose proof (Z.mod_pos_bound (a' - 0x2000) 0x1000 ltac:(lia)) as B2.
    pose proof (Z.mod_pos_bound (a - 0x3F00) 0x20 ltac:(lia)) as B3.
    pose proof (Z.mod_pos_bound (a' - 0x3F00) 0x20 ltac:(lia)) as B4.
    destruct (Z.ltb_spec a 0x3F00) as [Hlt|Hge].
    + rewrite (video_bus_read chr (RAM.write a byte vram) pal a' Hplaced' Ha'). cbn [fst].
      destruct (Z.ltb_spec a' 0x3F00) as [Hlt'|Hge'].
      * rewrite ram_read_after_write by (assumption || lia).
        destruct (Z.eqb_spec (ram_index vram a) (ram_index vram a')) as [Hi|Hi];
          destruct (Z.eqb_spec (0x2000 + ram_index vram a) (0x2000 + ram_index vram a'));
          try lia; reflexivity.
      * unfold ram_index. rewrite Hsv, Hsp, Hnv, Hnp.
        destruct (Z.eqb_spec (0x2000 + (a - 0x2000) mod 0x1000)
                             (0x3F00 + (a' - 0x3F00) mod 0x20)); [lia | reflexivity].
    + rewrite (video_bus_read chr vram (RAM.write a byte pal) a' Hplaced' Ha'). cbn [fst].
      destruct (Z.ltb_spec a' 0x3F00) as [Hlt'|Hge'].
      * unfold ram_index. rewrite Hsv, Hsp, Hnv, Hnp.
        destruct (Z.eqb_spec (0x3F00 + (a - 0x3F00) mod 0x20)
                             (0x2000 + (a' - 0x2000) mod 0x1000)); [lia | reflexivity].
      * rewrite ram_read_after_write by (assumption || lia).
        destruct (Z.eqb_spec (ram_index pal a) (ram_index pal a')) as [Hi|Hi];
          destruct (Z.eqb_spec (0x3F00 + ram_index pal a) (0x3F00 + ram_index pal a'));
          try lia; reflexivity.
  - rewrite video_bus_placed by exact placed. cbn [Bus.write].
    unfold Bus.start. cbn [base MemDevice_Device]. rewrite Hc, Hv, Hp.
    change (Addressable.startAddress (RAM.hdr NES.paletteRAM)) with 0x3F00.
    change (Addressable.startAddress (RAM.hdr NES.vram)) with 0x2000.
    destruct (Z.ltb_spec low 0x3F00); [|lia].
    destruct (Z.ltb_spec low 0x2000); [|lia].
    destruct (Z.ltb_spec low 0); [lia|]. reflexivity.
Qed.

End VideoBus.

Lemma video_memory_machine : video_memory NES.chr NES.vram NES.paletteRAM.
Proof.
  split; [reflexivity|]. split; [reflexivity|]. split; [reflexivity|].
  split; apply ram_new_wf; vm_compute; discriminate.
Qed.

Lemma video_bus_mirrors_witness :
  fst (Bus.read (fst (Bus.write (video_bus NES.chr NES.vram NES.paletteRAM) 0x2005 0x41))
         0x3005)
  = (if video_cell 0x2005 =? video_cell 0x3005 then Some (0x41 mod 256)
     else fst (Bus.read (video_bus NES.chr NES.vram NES.paletteRAM) 0x3005)) /\
  Bus.write (video_bus NES.chr NES.vram NES.paletteRAM) 0x0010 0x41
  = (video_bus NES.chr NES.vram NES.paletteRAM, []).
Proof.
  apply (video_bus_mirrors NES.chr NES.vram NES.paletteRAM 0x2005 0x3005 0x0010 0x41);
    [exact video_memory_machine | lia..].
Defined.

Section PPUDataRoundTrip.

(** Two writes to PPUADDR on a PPU without a pending first write, with a
    high byte that is not zero. *)
Lemma ppuaddr_pair (q : PPU.t) (hi lo : Z) :
  ppu_wf q -> PPU.vramAddressLatch q = None -> 1 <= hi < 256 -> 0 <= lo < 256 ->
  let q2 := fst (PPU.write PPU.REGISTER_PPUADDR lo
                   (fst (PPU.write PPU.REGISTER_PPUADDR hi q))) in
  ppu_wf q2 /\
  PPU.vramAddress q2 = Z.lor (Z.shiftl hi 8) lo /\
  PPU.vramAddressLatch q2 = None /\
  PPU.ppuBus q2 = PPU.ppuBus q /\
  PPU.registerPPUDATA q2 = PPU.registerPPUDATA q /\
  PPU.registerPPUCTRL q2 = PPU.registerPPUCTRL q.
Proof.
  intros Hwf Hlatch Hhi Hlo q2. subst q2.
  rewrite (write_PPUADDR hi q). cbv zeta.
  change (PPU.vramAddressLatch (PPU.setRegister PPU.REGISTER_PPUADDR (Some hi) q))
    with (PPU.vramAddressLatch q).
  rewrite Hlatch. cbn [PPU.latchTruthy fst].
  set (q1 := PPU.set_vramAddressLatch (Some hi)
               (PPU.setRegister PPU.REGISTER_PPUADDR (Some hi) q)).
  assert (ppu_wf q1) as Hwf1 by (apply setRegister_wf, Hwf).
  rewrite (write_PPUADDR lo q1). cbv zeta.
  change (PPU.vramAddressLatch (PPU.setRegister PPU.REGISTER_PPUADDR (Some lo) q1))
    with (Some hi).
  unfold PPU.latchTruthy, JS.truthy. destruct (Z.eqb_spec hi 0); [lia|].
  cbn [negb fst]. change (JS.num (Some hi)) with hi.
  set (q1' := PPU.setRegister PPU.REGISTER_PPUADDR (Some lo) q1).
  assert (ppu_wf q1') as Hwf1' by (apply setRegister_wf, Hwf1).
  split; [exact Hwf1'|].
  split; [cbn [PPU.vramAddress PPU.set_vramAddress PPU.set_vramAddressLatch];
          apply shl8_lor; lia|].
  split; [reflexivity|]. split; [reflexivity|].
  change PPU.REGISTER_PPUADDR with (PPU.REGISTER_START_ADDRESS + 6) in *.
  split.
  - unfold PPU.registerPPUDATA.
    change PPU.REGISTER_PPUDATA with (PPU.REGISTER_START_ADDRESS + 7).
    change (PPU.getRegister ?a (PPU.set_vramAddressLatch ?l (PPU.set_vramAddress ?v ?x)))
      with (PPU.getRegister a x).
    subst q1'. rewrite getRegister_setRegister_ne by (assumption || lia).
    subst q1.
    change (PPU.getRegister ?a (PPU.set_vramAddressLatch ?l ?x))
      with (PPU.getRegister a x).
    apply getRegister_setRegister_ne; (assumption || lia).
  - unfold PPU.registerPPUCTRL.
    change PPU.REGISTER_PPUCTRL with (PPU.REGISTER_START_ADDRESS + 0).
    change (PPU.getRegister ?a (PPU.set_vramAddressLatch ?l (PPU.set_vramAddress ?v ?x)))
      with (PPU.getRegister a x).
    subst q1'. rewrite getRegister_setRegister_ne by (assumption || lia).
    subst q1.
    change (PPU.getRegister ?a (PPU.set_vramAddressLatch ?l ?x))
      with (PPU.getRegister a x).
    apply getRegister_setRegister_ne; (assumption || lia).
Qed.

(** X17: a byte stored through the register window is found in video
    memory and comes back through the window. On the PPU bus of the
    machine, with no first PPUADDR write pending, the program writes the
    address [hi], [lo] to PPUADDR ([hi] from 0x20 up, so that it is not
    zero and not in the pattern ROM), the byte to PPUDATA, and the
    address again. Then the PPU bus holds the byte at [(hi << 8) | lo],
    and of the two reads of PPUDATA that follow the first returns the
    data register and the second the byte from video memory. *)
Theorem ppudata_write_then_read (p : PPU.t) (chr : ROM.t) (vram pal : RAM.t)
  (hi lo byte : Z) :
  ppu_wf p -> video_memory chr vram pal ->
  PPU.ppuBus p = video_bus chr vram pal ->
  PPU.vramAddressLatch p = None ->
  0x20 <= hi < 256 -> 0 <= lo < 256 -> 0 <= byte < 256 ->
  let address := Z.lor (Z.shiftl hi 8) lo in
  let p1 := ppu_writes [ (PPU.REGISTER_PPUADDR, hi); (PPU.REGISTER_PPUADDR, lo);
                         (PPU.REGISTER_PPUDATA, byte);
                         (PPU.REGISTER_PPUADDR, hi); (PPU.REGISTER_PPUADDR, lo) ] p in
  PPU.busRead address p1 = Some byte /\
  fst (PPU.read PPU.REGISTER_PPUDATA p1) = PPU.registerPPUDATA p1 /\
  fst (PPU.read PPU.REGISTER_PPUDATA (snd (PPU.read PPU.REGISTER_PPUDATA p1))) = byte.
Proof.
  intros Hwf Hplaced Hbus Hlatch Hhi Hlo Hbyte address p1.
  unfold ppu_writes in p1. cbn [fold_left fst snd] in p1.
  destruct (ppuaddr_pair p hi lo Hwf Hlatch ltac:(lia) Hlo)
    as (Hwf2 & Hv2 & Hl2 & Hb2 & _).
  set (p2 := fst (PPU.write PPU.REGISTER_PPUADDR lo
                    (fst (PPU.write PPU.REGISTER_PPUADDR hi p)))) in *.
  fold address in Hv2.
  assert (0x2000 <= address) as Haddr.
  { subst address. rewrite <- shl8_lor by lia. rewrite shl_8 by lia.
    rewrite Z.shiftl_mul_pow2 by lia. lia. }
  set (p3 := fst (PPU.write PPU.REGISTER_PPUDATA byte p2)) in *.
  assert (ppu_wf p3 /\ PPU.vramAddressLatch p3 = None /\
          PPU.ppuBus p3 = fst (Bus.write (video_bus chr vram pal) address byte))
    as (Hwf3 & Hl3 & Hb3).
  { subst p3. rewrite write_PPUDATA. cbv zeta. cbn [fst].
    split; [apply setRegister_wf, Hwf2|]. split; [exact Hl2|].
    cbn [PPU.ppuBus PPU.set_vramAddress PPU.set_ppuBus].
    change (PPU.ppuBus (PPU.setRegister PPU.REGISTER_PPUDATA (Some byte) p2))
      with (PPU.ppuBus p2).
    change (PPU.vramAddress (PPU.setRegister PPU.REGISTER_PPUDATA (Some byte) p2))
      with (PPU.vramAddress p2).
    rewrite Hb2, Hbus, Hv2. reflexivity. }
  destruct (ppuaddr_pair p3 hi lo Hwf3 Hl3 ltac:(lia) Hlo)
    as (Hwf5 & Hv5 & Hl5 & Hb5 & _).
  fold p1 in Hwf5, Hv5, Hl5, Hb5. fold address in Hv5.
  assert (PPU.busRead address p1 = Some byte) as Hmem.
  { unfold PPU.busRead. rewrite Hb5, Hb3.
    destruct (video_bus_write chr vram pal address byte Hplaced Haddr) as [-> Hplaced'].
    cbn [fst]. pose proof Hplaced as (_ & Hv & Hp & Hwv & Hwp).
    destruct (Z.ltb_spec address 0x3F00).
    - rewrite (video_bus_read _ _ _ address Hplaced' Haddr). cbn [fst].
      destruct (Z.ltb_spec address 0x3F00); [|lia].
      rewrite ram_read_after_write, Z.eqb_refl by (rewrite ?Hv; cbn; assumption || lia).
      f_equal. apply Z.mod_small, Hbyte.
    - rewrite (video_bus_read _ _ _ address Hplaced' Haddr). cbn [fst].
      destruct (Z.ltb_spec address 0x3F00); [lia|].
      rewrite ram_read_after_write, Z.eqb_refl by (rewrite ?Hp; cbn; assumption || lia).
      f_equal. apply Z.mod_small, Hbyte. }
  split; [exact Hmem|]. split; [rewrite read_PPUDATA; reflexivity|].
  destruct (ppudata_access p1 0 Hwf5) as (Hreg & _).
  rewrite (read_PPUDATA (snd (PPU.read PPU.REGISTER_PPUDATA p1))). cbv zeta. cbn [fst].
  rewrite Hreg, Hv5, Hmem. apply Z.mod_small, Hbyte.
Qed.

Lemma ppudata_write_then_read_witness :
  let address := Z.lor (Z.shiftl 0x23 8) 0xC0 in
  let p1 := ppu_writes [ (PPU.REGISTER_PPUADDR, 0x23); (PPU.REGISTER_PPUADDR, 0xC0);
                         (PPU.REGISTER_PPUDATA, 0x55);
                         (PPU.REGISTER_PPUADDR, 0x23); (PPU.REGISTER_PPUADDR, 0xC0) ]
              NES.ppu in
  PPU.busRead address p1 = Some 0x55 /\
  fst (PPU.read PPU.REGISTER_PPUDATA p1) = PPU.registerPPUDATA p1 /\
  fst (PPU.read PPU.REGISTER_PPUDATA (snd (PPU.read PPU.REGISTER_PPUDATA p1))) = 0x55.
Proof.
  apply (ppudata_write_then_read NES.ppu NES.chr NES.vram NES.paletteRAM 0x23 0xC0 0x55).
  - exact ppu_wf_machine.
  - exact video_memory_machine.
  - reflexivity.
  - reflexivity.
  - lia.
  - lia.
  - lia.
Defined.

End PPUDataRoundTrip.

(** ** [ppu.ts]: the frame *)

Section PPUFrame.

Lemma frame_arith (n : Z) :
  0 <= n ->
  (((n / 341) mod 262 =? 241) && (n mod 341 =? 1)) = (n mod 89342 =? 82182) /\
  (n + 1 + 7159) / 89342
  = (n + 7159) / 89342 + (if n mod 89342 =? 82182 then 1 else 0).
Proof.
  intros Hn. split.
  - destruct (Z.eqb_spec ((n / 341) mod 262) 241) as [H1|H1];
      destruct (Z.eqb_spec (n mod 341) 1) as [H2|H2];
      destruct (Z.eqb_spec (n mod 89342) 82182) as [H3|H3];
      cbn [andb]; try reflexivity; exfalso;
      Z.div_mod_to_equations; lia.
  - destruct (Z.eqb_spec (n mod 89342) 82182) as [H3|H3];
      Z.div_mod_to_equations; lia.
Qed.

Lemma concat_replicate_S {A : Type} (m : nat) (l : list A) :
  concat (replicate (S m) l) = concat (replicate m l) ++ l.
Proof.
  induction m as [|m IH]; [cbn; rewrite app_nil_r; reflexivity|].
  change (l ++ concat (replicate (S m) l) = (l ++ concat (replicate m l)) ++ l).
  rewrite IH. apply app_assoc.
Qed.

(** X18: the events of the PPU come once per frame of 341 * 262 = 89342
    ticks. Over the first [n] ticks after [reset], with no register
    access in between, the PPU presents the frame buffer once for every
    tick number 82182 + 89342 * j below [n] (the dot 1 of scan line 241),
    each time preceded by one ["nmi"] if bit 7 of PPUCTRL is set, and
    emits nothing at any other tick. *)
Theorem ppu_events_once_per_frame (p : PPU.t) (n : nat) :
  ppu_wf p ->
  snd (PPU.ticks n (PPU.reset p))
  = concat (replicate (Z.to_nat ((Z.of_nat n + 7159) / 89342))
                      (vblank_start_events p)).
Proof.
  intros Hwf. induction n as [|n IH]; [reflexivity|].
  destruct (ticks_last n (PPU.reset p)) as [_ ->]. rewrite IH.
  destruct (ticks_from_reset p n Hwf) as (Hwfq & Hc & Hs & Hctrl & _).
  set (q := fst (PPU.ticks n (PPU.reset p))) in *.
  pose proof (Z.mod_pos_bound (Z.of_nat n) 341 ltac:(lia)) as Bc.
  pose proof (Z.mod_pos_bound (Z.of_nat n / 341) 262 ltac:(lia)) as Bs.
  destruct (tick_spec q Hwfq ltac:(lia) ltac:(lia)) as (_ & _ & _ & _ & _ & ->).
  destruct (frame_arith (Z.of_nat n) ltac:(lia)) as [Hat Hcount].
  assert (at_vblank_start q = (Z.of_nat n mod 89342 =? 82182)) as ->.
  { unfold at_vblank_start. rewrite Hc, Hs. exact Hat. }
  assert (vblank_start_events q = vblank_start_events p) as ->.
  { unfold vblank_start_events, PPU.ppuctrlNMIEnable. rewrite Hctrl. reflexivity. }
  replace (Z.of_nat (S n)) with (Z.of_nat n + 1) by lia. rewrite Hcount.
  pose proof (Z.div_pos (Z.of_nat n + 7159) 89342 ltac:(lia) ltac:(lia)) as Hpos.
  destruct (Z.of_nat n mod 89342 =? 82182).
  - rewrite Z2Nat.inj_add by lia. change (Z.to_nat 1) with 1%nat.
    rewrite Nat.add_1_r. symmetry. apply concat_replicate_S.
  - rewrite Z.add_0_r, app_nil_r. reflexivity.
Qed.

Lemma ppu_events_once_per_frame_witness :
  snd (PPU.ticks 5 (PPU.reset NES.ppu))
  = concat (replicate (Z.to_nat ((Z.of_nat 5 + 7159) / 89342))
                      (vblank_start_events NES.ppu)).
Proof. apply (ppu_events_once_per_frame NES.ppu 5). exact ppu_wf_machine. Defined.

End PPUFrame.

Section PPUTickFrame.

Lemma tick_frame_refl (p : PPU.t) : tick_frame p p.
Proof. repeat split. Qed.

Lemma tick_frame_trans (p q r : PPU.t) :
  tick_frame p q -> tick_frame q r -> tick_frame p r.
Proof.
  intros (A1 & A2 & A3 & A4 & A5 & A6) (B1 & B2 & B3 & B4 & B5 & B6).
  split; [congruence|]. split; [congruence|]. split; [congruence|].
  split; [intros k Hk Hne; rewrite B4, A4 by assumption; reflexivity|].
  split; [congruence|].
  intros i Hi. rewrite B6, A6 by assumption. reflexivity.
Qed.

Lemma tick_frame_status (v : option Z) (p : PPU.t) :
  ppu_wf p -> tick_frame p (PPU.setRegister PPU.REGISTER_PPUSTATUS v p).
Proof.
  intros Hwf. split; [reflexivity|]. split; [reflexivity|]. split; [reflexivity|].
  split; [|split; [reflexivity | intros; reflexivity]].
  intros k Hk Hne.
  change PPU.REGISTER_PPUSTATUS with (PPU.REGISTER_START_ADDRESS + 2).
  apply getRegister_setRegister_ne; (assumption || lia).
Qed.

Lemma ta_set_clamped_other (l : list Z) (i v : Z) (j : nat) :
  i mod 4 <> 3 -> Z.of_nat j mod 4 = 3 ->
  length (JS.ta_set_clamped l i v) = length l /\
  JS.ta_set_clamped l i v !! j = l !! j.
Proof.
  intros Hi Hj. unfold JS.ta_set_clamped.
  destruct (Z.leb_spec 0 i); [|split; reflexivity].
  split; [apply length_insert|].
  apply list_lookup_insert_ne. intros <-. rewrite Z2Nat.id in Hj by lia. contradiction.
Qed.

Lemma ta_set_clamped_length (l : list Z) (i v : Z) :
  length (JS.ta_set_clamped l i v) = length l.
Proof.
  unfold JS.ta_set_clamped. destruct (0 <=? i); [apply length_insert | reflexivity].
Qed.

Lemma tick_frame_drawBackground (p : PPU.t) : tick_frame p (PPU.drawBackground p).
Proof.
  unfold PPU.drawBackground. cbv zeta.
  set (index := (JS.shl (PPU.visibleY p) 8 + PPU.visibleX p) * 4).
  set (color := Palette.getColor _ _).
  split; [reflexivity|]. split; [reflexivity|]. split; [reflexivity|].
  split; [intros; reflexivity|].
  cbn [PPU.imageBytes PPU.set_imageBytes].
  split; [rewrite !ta_set_clamped_length; reflexivity|].
  intros i Hi.
  assert (index mod 4 = 0) as H0 by (subst index; apply Z_mod_mult).
  rewrite (proj2 (ta_set_clamped_other _ (index + 2) _ i
                    ltac:(Z.div_mod_to_equations; lia) Hi)).
  rewrite (proj2 (ta_set_clamped_other _ (index + 1) _ i
                    ltac:(Z.div_mod_to_equations; lia) Hi)).
  apply (ta_set_clamped_other _ index _ i ltac:(Z.div_mod_to_equations; lia) Hi).
Qed.

Lemma ppu_wf_drawBackground (p : PPU.t) : ppu_wf p -> ppu_wf (PPU.drawBackground p).
Proof. intros Hwf. exact Hwf. Qed.

Lemma tick_frame_tick (p : PPU.t) :
  ppu_wf p -> ppu_wf (fst (PPU.tick p)) /\ tick_frame p (fst (PPU.tick p)).
Proof.
  intros Hwf. rewrite tick_stages, execute_stages.
  (* the visible dot *)
  assert (ppu_wf (exec_visible p) /\ tick_frame p (exec_visible p)) as [Hwf1 F1].
  { unfold exec_visible. destruct (PPU.isVisible p); [|split; [exact Hwf | apply tick_frame_refl]].
    cbv zeta. destruct (JS.truthy _).
    - split; [exact Hwf|].
      apply (tick_frame_trans _ (PPU.set_visible (PPU.cycle p - PPU.NTSC_VISIBLE_START_CYCLE)
                                   (PPU.scanline p) p));
        [repeat split | apply tick_frame_drawBackground].
    - split; [exact Hwf | repeat split]. }
  set (p1 := exec_visible p) in *. clearbody p1.
  assert (forall q, ppu_wf q -> tick_frame p q ->
            ppu_wf (exec_sprite_clear q) /\ tick_frame p (exec_sprite_clear q)) as S1.
  { intros q Hq Fq. unfold exec_sprite_clear. destruct (_ && _); [|split; assumption].
    split; [apply setRegister_wf, Hq|].
    apply (tick_frame_trans _ q); [exact Fq | apply tick_frame_status, Hq]. }
  assert (forall q, ppu_wf q -> tick_frame p q ->
            ppu_wf (exec_sprite_set q) /\ tick_frame p (exec_sprite_set q)) as S2.
  { intros q Hq Fq. unfold exec_sprite_set. destruct (_ && _); [|split; assumption].
    split; [apply setRegister_wf, Hq|].
    apply (tick_frame_trans _ q); [exact Fq | apply tick_frame_status, Hq]. }
  assert (forall q, ppu_wf q -> tick_frame p q ->
            ppu_wf (fst (exec_vblank_start q)) /\ tick_frame p (fst (exec_vblank_start q))) as S3.
  { intros q Hq Fq. unfold exec_vblank_start. destruct (_ && _); [|split; assumption].
    cbv zeta. cbn [fst]. split; [apply setRegister_wf, Hq|].
    apply (tick_frame_trans _ q); [exact Fq | apply tick_frame_status, Hq]. }
  assert (forall q, ppu_wf q -> tick_frame p q ->
            ppu_wf (exec_vblank_end q) /\ tick_frame p (exec_vblank_end q)) as S4.
  { intros q Hq Fq. unfold exec_vblank_end. destruct (_ && _); [|split; assumption].
    split; [apply setRegister_wf, Hq|].
    apply (tick_frame_trans _ q); [exact Fq | apply tick_frame_status, Hq]. }
  destruct (S1 p1 Hwf1 F1) as [Hwf2 F2].
  destruct (S2 _ Hwf2 F2) as [Hwf3 F3].
  destruct (S3 _ Hwf3 F3) as [Hwf4 F4].
  destruct (exec_vblank_start (exec_sprite_set (exec_sprite_clear p1))) as [p4 evs].
  cbn [fst] in *.
  destruct (S4 _ Hwf4 F4) as [Hwf5 F5].
  set (p5 := exec_vblank_end p4) in *. clearbody p5.
  set (p6 := PPU.set_lastCycle (PPU.isVBlank p5) (PPU.isVisible p5) p5).
  assert (ppu_wf (advance p6) /\ tick_frame p5 (advance p6)) as [Hwf7 F7].
  { unfold advance. cbv zeta. destruct (_ <=? _); [destruct (_ <=? _)|];
      (split; [exact Hwf5 | repeat split]). }
  split; [exact Hwf7 | exact (tick_frame_trans _ _ _ F5 F7)].
Qed.

(** X19: what the ticks of the PPU never touch. However many ticks run,
    and whatever the beam position and the state of rendering, they leave
    the VRAM address, a pending first PPUADDR write, the memories on the
    PPU bus and every register except PPUSTATUS as they were; the frame
    buffer keeps its size, and the fourth byte of every pixel, the alpha
    value that the constructor set, is never written. *)
Theorem ppu_ticks_frame (p : PPU.t) (n : nat) :
  ppu_wf p ->
  let q := fst (PPU.ticks n p) in
  PPU.vramAddress q = PPU.vramAddress p /\
  PPU.vramAddressLatch q = PPU.vramAddressLatch p /\
  PPU.ppuBus q = PPU.ppuBus p /\
  (forall k, 0 <= k < 8 -> k <> 2 ->
     PPU.getRegister (PPU.REGISTER_START_ADDRESS + k) q
     = PPU.getRegister (PPU.REGISTER_START_ADDRESS + k) p) /\
  length (PPU.imageBytes q) = length (PPU.imageBytes p) /\
  (forall i : nat, Z.of_nat i mod 4 = 3 ->
     PPU.imageBytes q !! i = PPU.imageBytes p !! i).
Proof.
  intros Hwf q. subst q. change (tick_frame p (fst (PPU.ticks n p))).
  revert p Hwf. induction n as [|n IH]; intros p Hwf; [apply tick_frame_refl|].
  rewrite ticks_S. cbn [fst].
  destruct (tick_frame_tick p Hwf) as [Hwf1 F1].
  exact (tick_frame_trans _ _ _ F1 (IH _ Hwf1)).
Qed.

Lemma ppu_ticks_frame_witness :
  let q := fst (PPU.ticks 3 NES.ppu) in
  PPU.vramAddress q = PPU.vramAddress NES.ppu /\
  PPU.vramAddressLatch q = PPU.vramAddressLatch NES.ppu /\
  PPU.ppuBus q = PPU.ppuBus NES.ppu /\
  (forall k, 0 <= k < 8 -> k <> 2 ->
     PPU.getRegister (PPU.REGISTER_START_ADDRESS + k) q
     = PPU.getRegister (PPU.REGISTER_START_ADDRESS + k) NES.ppu) /\
  length (PPU.imageBytes q) = length (PPU.imageBytes NES.ppu) /\
  (forall i : nat, Z.of_nat i mod 4 = 3 ->
     PPU.imageBytes q !! i = PPU.imageBytes NES.ppu !! i).
Proof. apply (ppu_ticks_frame NES.ppu 3). exact ppu_wf_machine. Defined.

End PPUTickFrame.

(** ** [cpu.ts]: no method throws on a bus that maps every address *)

Section CPUSafety.

Local Open Scope cpu_scope.

Lemma bits_bound (z n : Z) :
  0 <= n -> (forall i, n <= i -> Z.testbit z i = false) -> 0 <= z < 2 ^ n.
Proof.
  intros Hn Hbits.
  assert (z = z mod 2 ^ n) as ->.
  { apply Z.bits_inj'. intros j Hj.
    rewrite Z.testbit_mod_pow2 by lia.
    destruct (Z.ltb_spec j n) as [Hlt|Hge]; [reflexivity|].
    cbn [andb]. apply Hbits. lia. }
  apply Z.mod_pos_bound. lia.
Qed.

Lemma bits_of_bound (z n i : Z) :
  0 <= z < 2 ^ n -> n <= i -> Z.testbit z i = false.
Proof.
  intros Hz Hi.
  destruct (Z.eq_dec z 0) as [->|Hne]; [apply Z.bits_0|].
  apply Z.bits_above_log2; [lia|].
  assert (0 <= n) as Hn.
  { destruct (Z.le_gt_cases 0 n) as [H|H]; [exact H|].
    rewrite Z.pow_neg_r in Hz by lia. lia. }
  apply Z.lt_le_trans with n; [|exact Hi].
  apply Z.log2_lt_pow2; lia.
Qed.

Lemma lor_bound (a b n : Z) :
  0 <= n -> 0 <= a < 2 ^ n -> 0 <= b < 2 ^ n -> 0 <= Z.lor a b < 2 ^ n.
Proof.
  intros Hn Ha Hb. apply bits_bound; [exact Hn|]. intros i Hi.
  rewrite Z.lor_spec, (bits_of_bound a n), (bits_of_bound b n) by assumption.
  reflexivity.
Qed.

Lemma lxor_bound (a b n : Z) :
  0 <= n -> 0 <= a < 2 ^ n -> 0 <= b < 2 ^ n -> 0 <= Z.lxor a b < 2 ^ n.
Proof.
  intros Hn Ha Hb. apply bits_bound; [exact Hn|]. intros i Hi.
  rewrite Z.lxor_spec, (bits_of_bound a n), (bits_of_bound b n) by assumption.
  reflexivity.
Qed.

Lemma band_byte (a b : Z) : 0 <= a < 256 -> 0 <= JS.band a b < 256.
Proof.
  intros Ha. unfold JS.band. rewrite (to_int32_id a) by lia.
  apply (land_bound a _ 8); lia.
Qed.

Lemma bor_byte (a b : Z) :
  0 <= a < 256 -> 0 <= b < 256 -> 0 <= JS.bor a b < 256.
Proof.
  intros Ha Hb. unfold JS.bor. rewrite !to_int32_id by lia.
  apply (lor_bound a b 8); lia.
Qed.

Lemma bxor_byte (a b : Z) :
  0 <= a < 256 -> 0 <= b < 256 -> 0 <= JS.bxor a b < 256.
Proof.
  intros Ha Hb. unfold JS.bxor. rewrite !to_int32_id by lia.
  apply (lxor_bound a b 8); lia.
Qed.

Lemma band_ff_byte (z : Z) : 0 <= JS.band 0xff z < 256.
Proof. rewrite band_ff_l. apply Z.mod_pos_bound. lia. Qed.

Lemma band_ffff_word (z : Z) : 0 <= JS.band 0xffff z < 65536.
Proof. rewrite band_ffff_l. apply Z.mod_pos_bound. lia. Qed.

(** [hi << 8 | lo] for two bytes is an address of 16 bits. *)
Lemma word_bound (hi lo : Z) :
  0 <= hi < 256 -> 0 <= lo < 256 -> 0 <= JS.bor (JS.shl hi 8) lo < 65536.
Proof.
  intros Hhi Hlo. rewrite shl_8 by exact Hhi.
  assert (0 <= Z.shiftl hi 8 < 65536) as Hs
    by (rewrite Z.shiftl_mul_pow2 by lia; lia).
  unfold JS.bor. rewrite !to_int32_id by lia.
  apply (lor_bound _ _ 16); lia.
Qed.

(** *** Every region answers a read with a byte *)

Lemma controller_read_byte (address : Z) (k : Controller.t) :
  0 <= fst (Controller.read address k) < 256.
Proof.
  unfold Controller.read. cbv zeta. cbn [fst].
  repeat match goal with
         | |- context [if ?b then _ else _] => destruct b
         end; vm_compute; split; congruence.
Qed.

Lemma ppu_read_byte (address : Z) (p : PPU.t) :
  0 <= fst (PPU.read address p) < 256.
Proof.
  unfold PPU.read. cbv zeta.
  destruct (_ =? _).
  { cbn [fst].
    pose proof (band_byte 0xe0 (PPU.registerPPUSTATUS p) ltac:(lia)).
    assert (0 <= JS.band 0x1f (PPU.registerPPUDATA p) < 32).
    { unfold JS.band. rewrite (to_int32_id 0x1f) by lia.
      apply (land_bound 0x1f _ 5); lia. }
    assert (JS.band 0xe0 (PPU.registerPPUSTATUS p) <= 0xe0).
    { unfold JS.band. rewrite (to_int32_id 0xe0) by lia.
      pose proof (bits_bound (Z.land (Z.land 0xe0 (JS.to_int32 (PPU.registerPPUSTATUS p))) 0x1f) 0 ltac:(lia)) as Hz.
      assert (Z.land 0xe0 (JS.to_int32 (PPU.registerPPUSTATUS p)) =
              32 * Z.shiftr (Z.land 0xe0 (JS.to_int32 (PPU.registerPPUSTATUS p))) 5) as Hm.
      { set (v := JS.to_int32 _).
        rewrite Z.shiftr_div_pow2 by lia.
        assert (Z.land 0xe0 v mod 2 ^ 5 = 0) as Hmod.
        { apply Z.bits_inj'. intros j Hj.
          rewrite Z.testbit_mod_pow2, Z.land_spec, Z.bits_0 by lia.
          destruct (Z.ltb_spec j 5) as [Hlt|Hge]; [|reflexivity].
          assert (j = 0 \/ j = 1 \/ j = 2 \/ j = 3 \/ j = 4) as Hc by lia.
          destruct Hc as [->|[->|[->|[->| ->]]]]; reflexivity. }
        pose proof (Z.div_mod (Z.land 0xe0 v) (2 ^ 5) ltac:(lia)). lia. }
      pose proof (land_bound 0xe0 (JS.to_int32 (PPU.registerPPUSTATUS p)) 8 ltac:(lia) ltac:(lia)).
      lia. }
    lia. }
  destruct (_ =? _); cbn [fst]; [|lia].
  destruct (_ <=? _); apply band_ff_byte.
Qed.

Lemma dev_read_byte (address : Z) (d : CpuDevice) :
  0 <= fst (dev_read address d) < 256.
Proof.
  destruct d as [m|p|k]; cbn [dev_read CpuDevice_Device].
  - destruct m as [b|r|r]; cbn [dev_read MemDevice_Device fst].
    + unfold Addressable.read. lia.
    + apply band_ff_byte.
    + apply band_ff_byte.
  - pose proof (ppu_read_byte address p). destruct (PPU.read address p). exact H.
  - pose proof (controller_read_byte address k). destruct (Controller.read address k). exact H.
Qed.

Lemma bus_read_byte (bus : list CpuDevice) (address v : Z) (bus' : list CpuDevice) :
  Bus.read bus address = (Some v, bus') -> 0 <= v < 256.
Proof.
  revert bus'. induction bus as [|d bus IH]; intros bus' H; cbn [Bus.read] in H.
  - discriminate.
  - destruct (address <? Bus.start d).
    + destruct (Bus.read bus address) as [v' rest'] eqn:E.
      injection H as -> _. eapply IH. reflexivity.
    + pose proof (dev_read_byte address d) as Hb.
      destruct (dev_read address d) as [v' d']. injection H as <- _. exact Hb.
Qed.

Lemma write_covered (bus : list CpuDevice) (address byte : Z) :
  covers bus -> covers (fst (Bus.write bus address byte)).
Proof.
  unfold covers. induction bus as [|d bus IH]; intros Hcov; [inversion Hcov|].
  cbn [Bus.write]. destruct (address <? Bus.start d).
  - destruct (Bus.write bus address byte) as [rest' evs] eqn:E. cbn [fst] in *.
    inversion Hcov as [? ? Hd|? ? Hrest]; subst.
    + apply Exists_cons_hd, Hd.
    + apply Exists_cons_tl, IH, Hrest.
  - pose proof (dev_write_start address byte d) as Hstart.
    destruct (dev_write address byte d) as [d' evs]. cbn [fst] in *.
    inversion Hcov as [? ? Hd|? ? Hrest]; subst.
    + apply Exists_cons_hd. rewrite Hstart. exact Hd.
    + apply Exists_cons_tl, Hrest.
Qed.

(** *** The rules of [safe] *)

Lemma safe_ret {A : Type} (v : A) (Q : A -> Prop) : Q v -> safe (CPU.ret v) Q.
Proof. intros HQ c Hc. exists v, c. auto. Qed.

Lemma safe_bind {A B : Type} (m : CPU.M A) (k : A -> CPU.M B)
  (Q : A -> Prop) (R : B -> Prop) :
  safe m Q -> (forall v, Q v -> safe (k v) R) -> safe (CPU.bind m k) R.
Proof.
  intros Hm Hk c Hc. destruct (Hm c Hc) as (v & c1 & Hrun & Hc1 & HQ).
  destruct (Hk v HQ c1 Hc1) as (w & c2 & Hrun2 & Hc2 & HR).
  exists w, c2. unfold CPU.bind. rewrite Hrun. auto.
Qed.

Lemma safe_weaken {A : Type} (m : CPU.M A) (Q Q' : A -> Prop) :
  safe m Q -> (forall v, Q v -> Q' v) -> safe m Q'.
Proof.
  intros Hm HQ c Hc. destruct (Hm c Hc) as (v & c1 & Hrun & Hc1 & Hv).
  exists v, c1. auto.
Qed.

Lemma safe_get {A : Type} (f : CPU.t -> A) :
  safe (CPU.get f) (fun v => exists c, cpu_ok c /\ v = f c).
Proof. intros c Hc. exists (f c), c. eauto. Qed.

Lemma safe_modify (f : CPU.t -> CPU.t) :
  (forall c, cpu_ok c -> cpu_ok (f c)) -> safe (CPU.modify f) (fun _ => True).
Proof. intros Hf c Hc. exists tt, (f c). auto. Qed.

Lemma safe_if {A : Type} (b : bool) (m1 m2 : CPU.M A) (Q : A -> Prop) :
  safe m1 Q -> safe m2 Q -> safe (if b then m1 else m2) Q.
Proof. destruct b; auto. Qed.

(** *** What keeps a CPU [cpu_ok] *)

Lemma ok_set_cpuBus (bus : list CpuDevice) (c : CPU.t) :
  covers bus -> cpu_ok c -> cpu_ok (CPU.set_cpuBus bus c).
Proof. intros Hb [_ Hr]. split; assumption. Qed.

Lemma ok_set_cyclesRemaining (n : Z) (c : CPU.t) :
  cpu_ok c -> cpu_ok (CPU.set_cyclesRemaining n c).
Proof. intros H. exact H. Qed.

Lemma ok_set_additionalCycles (n : Z) (c : CPU.t) :
  cpu_ok c -> cpu_ok (CPU.set_additionalCycles n c).
Proof. intros H. exact H. Qed.

Lemma ok_set_pendingIRQ (b : bool) (c : CPU.t) :
  cpu_ok c -> cpu_ok (CPU.set_pendingIRQ b c).
Proof. intros H. exact H. Qed.

Lemma ok_set_pendingNMI (b : bool) (c : CPU.t) :
  cpu_ok c -> cpu_ok (CPU.set_pendingNMI b c).
Proof. intros H. exact H. Qed.

Lemma ok_set_a (v : Z) (c : CPU.t) :
  0 <= v < 256 -> cpu_ok c -> cpu_ok (CPU.set_a v c).
Proof. intros Hv (Hb & Ha & Hr). split; [exact Hb|]. split; [exact Hv | exact Hr]. Qed.

Lemma ok_set_x (v : Z) (c : CPU.t) :
  0 <= v < 256 -> cpu_ok c -> cpu_ok (CPU.set_x v c).
Proof.
  intros Hv (Hb & Ha & Hx & Hr). split; [exact Hb|].
  split; [exact Ha|]. split; [exact Hv | exact Hr].
Qed.

Lemma ok_set_y (v : Z) (c : CPU.t) :
  0 <= v < 256 -> cpu_ok c -> cpu_ok (CPU.set_y v c).
Proof.
  intros Hv (Hb & Ha & Hx & Hy & Hr). split; [exact Hb|].
  split; [exact Ha|]. split; [exact Hx|]. split; [exact Hv | exact Hr].
Qed.

Lemma ok_set_p (v : Z) (c : CPU.t) :
  0 <= v < 256 -> cpu_ok c -> cpu_ok (CPU.set_p v c).
Proof.
  intros Hv (Hb & Ha & Hx & Hy & Hp & Hr). split; [exact Hb|].
  split; [exact Ha|]. split; [exact Hx|]. split; [exact Hy|].
  split; [exact Hv | exact Hr].
Qed.

Lemma ok_set_sp (v : Z) (c : CPU.t) :
  0 <= v < 256 -> cpu_ok c -> cpu_ok (CPU.set_sp v c).
Proof.
  intros Hv (Hb & Ha & Hx & Hy & Hp & Hsp & Hpc). split; [exact Hb|].
  split; [exact Ha|]. split; [exact Hx|]. split; [exact Hy|].
  split; [exact Hp|]. split; [exact Hv | exact Hpc].
Qed.

Lemma ok_set__pc (v : Z) (c : CPU.t) :
  0 <= v < 65536 -> cpu_ok c -> cpu_ok (CPU.set__pc v c).
Proof.
  intros Hv (Hb & Ha & Hx & Hy & Hp & Hsp & Hpc). split; [exact Hb|].
  split; [exact Ha|]. split; [exact Hx|]. split; [exact Hy|].
  split; [exact Hp|]. split; [exact Hsp | exact Hv].
Qed.

Lemma ok_setStatusFlag (index : Z) (bit : bool) (c : CPU.t) :
  0 <= index < 8 -> cpu_ok c -> cpu_ok (CPU.setStatusFlag index bit c).
Proof.
  intros Hi Hc. unfold CPU.setStatusFlag. apply ok_set_p; [|exact Hc].
  apply setBit_byte; [|exact Hi]. apply Hc.
Qed.

Lemma ok_updateStatusNegative (v : Z) (c : CPU.t) :
  cpu_ok c -> cpu_ok (CPU.updateStatusNegative v c).
Proof. apply ok_setStatusFlag. unfold CPU.STATUS_FLAG_BIT_NEGATIVE. lia. Qed.

Lemma ok_updateStatusZero (v : Z) (c : CPU.t) :
  cpu_ok c -> cpu_ok (CPU.updateStatusZero v c).
Proof. apply ok_setStatusFlag. unfold CPU.STATUS_FLAG_BIT_ZERO. lia. Qed.

Lemma ok_updateStatusZeroOf (v : option Z) (c : CPU.t) :
  cpu_ok c -> cpu_ok (CPU.updateStatusZeroOf v c).
Proof. apply ok_setStatusFlag. unfold CPU.STATUS_FLAG_BIT_ZERO. lia. Qed.

(** *** The accesses to the bus *)

Lemma safe_busRead (address : Z) :
  0 <= address -> safe (CPU.busRead address) is_byte.
Proof.
  intros Ha c [Hcov Hr].
  destruct (busRead_covered c address Hcov Ha) as (v & bus' & Hread & Hcov').
  exists (Some v), (CPU.set_cpuBus bus' c). split; [exact Hread|].
  split; [split; assumption|].
  exists v. split; [reflexivity|].
  unfold CPU.busRead in Hread.
  destruct (Bus.read (CPU.cpuBus c) address) as [v' bus''] eqn:E.
  injection Hread as -> _. eapply bus_read_byte, E.
Qed.

Lemma safe_busReadAt (address : option Z) :
  is_address address -> safe (CPU.busReadAt address) is_byte.
Proof. intros (a & -> & Ha). apply safe_busRead, Ha. Qed.

Lemma safe_busWrite (address byte : Z) :
  safe (CPU.busWrite address byte) (fun _ => True).
Proof.
  intros c [Hcov Hr]. unfold CPU.busWrite.
  pose proof (write_covered _ address byte Hcov) as Hcov'.
  destruct (Bus.write (CPU.cpuBus c) address byte) as [bus' evs]. cbn [fst] in Hcov'.
  eexists tt, _. split; [reflexivity|]. split; [|exact I].
  destruct (existsb CPU.is_nmi evs); split; assumption.
Qed.

Lemma safe_busWriteAt (address : option Z) (byte : Z) :
  safe (CPU.busWriteAt address byte) (fun _ => True).
Proof.
  destruct address as [a|]; [apply safe_busWrite | apply safe_ret; exact I].
Qed.

Lemma safe_formatHex {A : Type} (v : Z) (k : CPU.M A) (Q : A -> Prop) :
  safe k Q -> safe (CPU.bind (CPU.lift (Util.formatHex (Some v))) (fun _ => k)) Q.
Proof.
  intros Hk c Hc. destruct (Hk c Hc) as (w & c' & Hrun & H).
  exists w, c'. split; [exact Hrun | exact H].
Qed.

Lemma ok_registers (c : CPU.t) : cpu_ok c -> registers_ok c.
Proof. intros [_ H]. exact H. Qed.

End CPUSafety.

(** One statement of a method: the rule of [safe] for it, and the names
    of what it binds. *)
Ltac safe_bounds :=
  repeat match goal with
         | H : is_byte ?v |- _ =>
             destruct H as (? & -> & ?); cbn [JS.num default CPU.add_to option_map]
         | H : is_address ?v |- _ =>
             destruct H as (? & -> & ?); cbn [JS.num default CPU.add_to option_map]
         end.

Ltac safe_step :=
  cbv zeta;
  lazymatch goal with
  | |- safe (CPU.bind (CPU.get _) _) _ =>
      eapply safe_bind;
      [apply safe_get
      |intros ? (? & (? & ? & ? & ? & ? & ?)%ok_registers & ->)]
  | |- safe (CPU.bind (CPU.modify _) _) _ =>
      eapply safe_bind; [apply safe_modify; intros ? ? | intros _ _]
  | |- safe (CPU.bind (CPU.busRead _) _) _ =>
      eapply safe_bind; [apply safe_busRead | intros ? ?]
  | |- safe (CPU.bind (CPU.busReadAt _) _) _ =>
      eapply safe_bind; [apply safe_busReadAt | intros ? ?]
  | |- safe (CPU.bind (CPU.busWrite _ _) _) _ =>
      eapply safe_bind; [apply safe_busWrite | intros _ _]
  | |- safe (CPU.bind (CPU.busWriteAt _ _) _) _ =>
      eapply safe_bind; [apply safe_busWriteAt | intros _ _]
  | |- safe (CPU.bind (CPU.lift (Util.formatHex (Some _))) _) _ =>
      apply safe_formatHex
  | |- safe (CPU.lift (Util.formatHex (Some _))) _ => apply safe_ret
  | |- safe (CPU.modify _) _ => apply safe_modify; intros ? ?
  | |- safe (CPU.ret _) _ => apply safe_ret
  | |- safe (if _ then _ else _) _ => apply safe_if
  end.

Ltac safe_flags :=
  repeat lazymatch goal with
         | H : cpu_ok ?c |- cpu_ok ?c => exact H
         | |- cpu_ok (CPU.updateStatusNegative _ _) => apply ok_updateStatusNegative
         | |- cpu_ok (CPU.updateStatusZero _ _) => apply ok_updateStatusZero
         | |- cpu_ok (CPU.updateStatusZeroOf _ _) => apply ok_updateStatusZeroOf
         | |- cpu_ok (CPU.setStatusFlag _ _ _) =>
             apply ok_setStatusFlag; [vm_compute; split; congruence|]
         | |- cpu_ok (CPU.set_cyclesRemaining _ _) => apply ok_set_cyclesRemaining
         end.

Section CPUSafetyMethods.

Local Open Scope cpu_scope.

Lemma safe_debug : safe CPU.debug (fun _ => True).
Proof.
  unfold CPU.debug.
  safe_step. safe_step; [lia|]. safe_bounds. safe_step.
  safe_step. safe_step; [lia|]. safe_bounds. safe_step.
  safe_step. safe_step; [lia|]. safe_bounds.
  apply safe_ret. exact I.
Qed.

Lemma safe_set_pc (value : Z) :
  0 <= value < 65536 -> safe (CPU.set_pc value) (fun _ => True).
Proof.
  intros Hv. unfold CPU.set_pc.
  safe_step. safe_bounds. safe_step; [lia|].
  eapply safe_bind; [apply safe_debug | intros _ _].
  safe_step. apply ok_set__pc; assumption.
Qed.

Lemma safe_pushStack (byte : Z) : safe (CPU.pushStack byte) (fun _ => True).
Proof.
  unfold CPU.pushStack.
  safe_step. safe_step. safe_step.
  apply ok_set_sp; [apply band_ff_byte | assumption].
Qed.

Lemma safe_pullStack : safe CPU.pullStack is_byte.
Proof.
  unfold CPU.pullStack.
  safe_step. { apply ok_set_sp; [apply band_ff_byte | assumption]. }
  safe_step. safe_bounds.
  apply safe_busRead. rewrite stack_address by lia. lia.
Qed.

(** *** The addressing modes *)

Lemma safe_getAddressAbs : safe CPU.getAddressAbs word.
Proof.
  unfold CPU.getAddressAbs.
  safe_step. safe_step; [lia|].
  safe_step. safe_step; [lia|].
  safe_bounds. safe_step. apply word_bound; assumption.
Qed.

Lemma safe_indexed (baseAddress index : Z) :
  safe (CPU.bind
          (if negb (JS.band baseAddress 0xff =? JS.band (JS.band 0xffff (baseAddress + index)) 0xff)
           then CPU.modify (CPU.set_additionalCycles 1) else CPU.ret tt)
          (fun _ => CPU.ret (JS.band 0xffff (baseAddress + index)))) word.
Proof.
  eapply safe_bind.
  - apply safe_if; [apply safe_modify; intros c Hc; exact Hc | apply safe_ret; exact I].
  - intros _ _. apply safe_ret, band_ffff_word.
Qed.

Lemma safe_getAddressAbsX : safe CPU.getAddressAbsX word.
Proof.
  unfold CPU.getAddressAbsX.
  safe_step. safe_step; [lia|].
  safe_step. safe_step; [lia|].
  safe_step. cbv zeta. apply safe_indexed.
Qed.

Lemma safe_getAddressAbsY : safe CPU.getAddressAbsY word.
Proof.
  unfold CPU.getAddressAbsY.
  safe_step. safe_step; [lia|].
  safe_step. safe_step; [lia|].
  safe_step. cbv zeta. apply safe_indexed.
Qed.

Lemma safe_getAddressInd : safe CPU.getAddressInd word.
Proof.
  unfold CPU.getAddressInd.
  safe_step. safe_step; [lia|].
  safe_step. safe_step; [lia|].
  safe_bounds.
  match goal with
  | |- context [JS.bor (JS.shl ?hi 8) ?lo] =>
      pose proof (word_bound hi lo ltac:(assumption) ltac:(assumption)) as Habs;
      set (abs := JS.bor (JS.shl hi 8) lo) in *
  end.
  assert (0 <= JS.band abs 0xff00).
  { unfold JS.band. rewrite !to_int32_id by lia. apply Z.land_nonneg. lia. }
  safe_step.
  - safe_step; [lia|]. safe_step; [assumption|].
    safe_bounds. safe_step. apply word_bound; assumption.
  - safe_step; [lia|]. safe_step; [lia|].
    safe_bounds. safe_step. apply word_bound; assumption.
Qed.

Lemma safe_getAddressZpg : safe CPU.getAddressZpg is_byte.
Proof.
  unfold CPU.getAddressZpg. safe_step. apply safe_busRead. lia.
Qed.

Lemma safe_getAddressZpgX : safe CPU.getAddressZpgX word.
Proof.
  unfold CPU.getAddressZpgX.
  eapply safe_bind; [apply safe_getAddressZpg | intros ? ?].
  safe_step. safe_step.
  pose proof (band_ff_byte (JS.num (CPU.add_to v (CPU.x x)))). unfold word. lia.
Qed.

Lemma safe_getAddressZpgY : safe CPU.getAddressZpgY word.
Proof.
  unfold CPU.getAddressZpgY.
  eapply safe_bind; [apply safe_getAddressZpg | intros ? ?].
  safe_step. safe_step.
  pose proof (band_ff_byte (JS.num (CPU.add_to v (CPU.y x)))). unfold word. lia.
Qed.

Lemma safe_getAddressXInd : safe CPU.getAddressXInd word.
Proof.
  unfold CPU.getAddressXInd.
  eapply safe_bind; [apply safe_getAddressZpg | intros ? ?].
  safe_step. safe_step; [apply band_ff_byte|].
  safe_step. safe_step; [apply band_ff_byte|].
  safe_bounds. safe_step. apply word_bound; assumption.
Qed.

Lemma safe_getAddressIndY : safe CPU.getAddressIndY word.
Proof.
  unfold CPU.getAddressIndY.
  eapply safe_bind; [apply safe_getAddressZpg | intros ? ?].
  safe_step. { destruct H as (b & -> & Hb). exists b. split; [reflexivity | lia]. }
  safe_step.
  { unfold JS.band. rewrite (to_int32_id 0xff) by lia.
    apply Z.land_nonneg. right. lia. }
  safe_step. cbv zeta. apply safe_indexed.
Qed.

Lemma safe_getAddressRel : safe CPU.getAddressRel word.
Proof.
  unfold CPU.getAddressRel.
  safe_step. safe_step; [lia|].
  safe_step. safe_step. apply band_ffff_word.
Qed.

Lemma safe_always (getAddress : CPU.M Z) :
  safe getAddress word -> safe (CPU.always getAddress) is_address.
Proof.
  intros H. unfold CPU.always.
  eapply safe_bind; [exact H | intros v Hv].
  apply safe_ret. exists v. unfold word in Hv. split; [reflexivity | lia].
Qed.

Lemma safe_Imm : safe CPU.Imm is_address.
Proof.
  apply safe_always. eapply safe_weaken; [apply safe_get|].
  intros v (c & _ & ->). apply band_ffff_word.
Qed.

Lemma safe_Zpg : safe CPU.Zpg is_address.
Proof.
  eapply safe_weaken; [apply safe_getAddressZpg|].
  intros v (b & -> & Hb). exists b. split; [reflexivity | lia].
Qed.

Lemma safe_ZpgX : safe CPU.ZpgX is_address.
Proof. apply safe_always, safe_getAddressZpgX. Qed.

Lemma safe_ZpgY : safe CPU.ZpgY is_address.
Proof. apply safe_always, safe_getAddressZpgY. Qed.

Lemma safe_Abs : safe CPU.Abs is_address.
Proof. apply safe_always, safe_getAddressAbs. Qed.

Lemma safe_AbsX : safe CPU.AbsX is_address.
Proof. apply safe_always, safe_getAddressAbsX. Qed.

Lemma safe_AbsY : safe CPU.AbsY is_address.
Proof. apply safe_always, safe_getAddressAbsY. Qed.

Lemma safe_XInd : safe CPU.XInd is_address.
Proof. apply safe_always, safe_getAddressXInd. Qed.

Lemma safe_IndY : safe CPU.IndY is_address.
Proof. apply safe_always, safe_getAddressIndY. Qed.

Lemma safe_finish (length : Z) (cycles : CPU.t -> Z) :
  safe (CPU.finish length cycles) (fun _ => True).
Proof.
  unfold CPU.finish. safe_step.
  eapply safe_bind; [apply safe_set_pc, band_ffff_word | intros _ _].
  safe_step. safe_step. assumption.
Qed.

Lemma safe_invalidOpcode : safe CPU.invalidOpcode (fun _ => True).
Proof.
  unfold CPU.invalidOpcode.
  safe_step. safe_step; [lia|]. safe_bounds. safe_step.
  safe_step. apply safe_set_pc, band_ffff_word.
Qed.

(** *** The instructions *)

Ltac safe_run :=
  repeat (safe_step; safe_bounds; try solve [safe_flags]);
  try apply safe_finish.

Section Modes.

Variable getAddress : CPU.M (option Z).
Variable length : Z.
Variable cycles : CPU.t -> Z.
Hypothesis Hmode : safe getAddress is_address.

Lemma safe_adc_mode : safe (CPU.adc_mode getAddress length cycles) (fun _ => True).
Proof.
  unfold CPU.adc_mode.
  eapply safe_bind; [exact Hmode | intros ? ?].
  safe_step; [assumption|]. safe_step. safe_step.
  safe_step. { apply ok_set_a; [apply band_ff_byte | assumption]. }
  safe_run.
Qed.

Lemma safe_and_mode : safe (CPU.and_mode getAddress length cycles) (fun _ => True).
Proof.
  unfold CPU.and_mode.
  eapply safe_bind; [exact Hmode | intros ? ?].
  safe_step; [assumption|]. safe_step.
  safe_step. { apply ok_set_a; [apply band_byte | ]; assumption. }
  safe_run.
Qed.

Lemma safe_asl_mode : safe (CPU.asl_mode getAddress length cycles) (fun _ => True).
Proof.
  unfold CPU.asl_mode.
  eapply safe_bind; [exact Hmode | intros ? ?].
  safe_step; [assumption|]. safe_run.
Qed.

Lemma safe_bit_mode : safe (CPU.bit_mode getAddress length cycles) (fun _ => True).
Proof.
  unfold CPU.bit_mode.
  eapply safe_bind; [exact Hmode | intros ? ?].
  safe_step; [assumption|]. safe_run.
Qed.

Lemma safe_compare_mode (register : CPU.t -> Z) :
  safe (CPU.compare_mode register getAddress length cycles) (fun _ => True).
Proof.
  unfold CPU.compare_mode.
  eapply safe_bind; [exact Hmode | intros ? ?].
  safe_step; [assumption|]. safe_run.
Qed.

Lemma safe_dec_mode : safe (CPU.dec_mode getAddress length cycles) (fun _ => True).
Proof.
  unfold CPU.dec_mode.
  eapply safe_bind; [exact Hmode | intros ? ?].
  safe_step; [assumption|]. safe_run.
Qed.

Lemma safe_eor_mode : safe (CPU.eor_mode getAddress length cycles) (fun _ => True).
Proof.
  unfold CPU.eor_mode.
  eapply safe_bind; [exact Hmode | intros ? ?].
  safe_step; [assumption|]. safe_step. safe_bounds.
  safe_step. { apply ok_set_a; [apply bxor_byte | ]; assumption. }
  safe_run.
Qed.

Lemma safe_inc_mode : safe (CPU.inc_mode getAddress length cycles) (fun _ => True).
Proof.
  unfold CPU.inc_mode.
  eapply safe_bind; [exact Hmode | intros ? ?].
  safe_step; [assumption|]. safe_run.
Qed.

Lemma safe_lsr_mode : safe (CPU.lsr_mode getAddress length cycles) (fun _ => True).
Proof.
  unfold CPU.lsr_mode.
  eapply safe_bind; [exact Hmode | intros ? ?].
  safe_step; [assumption|]. safe_run.
Qed.

Lemma safe_ora_mode : safe (CPU.ora_mode getAddress length cycles) (fun _ => True).
Proof.
  unfold CPU.ora_mode.
  eapply safe_bind; [exact Hmode | intros ? ?].
  safe_step; [assumption|]. safe_step. safe_bounds.
  safe_step. { apply ok_set_a; [apply bor_byte | ]; assumption. }
  safe_run.
Qed.

Lemma safe_rol_mode : safe (CPU.rol_mode getAddress length cycles) (fun _ => True).
Proof.
  unfold CPU.rol_mode.
  eapply safe_bind; [exact Hmode | intros ? ?].
  safe_step; [assumption|]. safe_run.
Qed.

Lemma safe_ror_mode : safe (CPU.ror_mode getAddress length cycles) (fun _ => True).
Proof.
  unfold CPU.ror_mode.
  eapply safe_bind; [exact Hmode | intros ? ?].
  safe_step; [assumption|]. safe_run.
Qed.

Lemma safe_sbc_mode : safe (CPU.sbc_mode getAddress length cycles) (fun _ => True).
Proof.
  unfold CPU.sbc_mode.
  eapply safe_bind; [exact Hmode | intros ? ?].
  safe_step; [assumption|]. safe_step. safe_step.
  safe_step. { apply ok_set_a; [apply band_ff_byte | assumption]. }
  safe_run.
Qed.

Lemma safe_store_mode (register : CPU.t -> Z) :
  safe (CPU.store_mode register getAddress length cycles) (fun _ => True).
Proof.
  unfold CPU.store_mode.
  eapply safe_bind; [exact Hmode | intros ? ?].
  safe_run.
Qed.

Lemma safe_load_a : safe (CPU.load_mode CPU.set_a getAddress length cycles) (fun _ => True).
Proof.
  unfold CPU.load_mode.
  eapply safe_bind; [exact Hmode | intros ? ?].
  safe_step; [assumption|]. safe_bounds.
  safe_step. { apply ok_set_a; assumption. }
  safe_run.
Qed.

Lemma safe_load_x : safe (CPU.load_mode CPU.set_x getAddress length cycles) (fun _ => True).
Proof.
  unfold CPU.load_mode.
  eapply safe_bind; [exact Hmode | intros ? ?].
  safe_step; [assumption|]. safe_bounds.
  safe_step. { apply ok_set_x; assumption. }
  safe_run.
Qed.

Lemma safe_load_y : safe (CPU.load_mode CPU.set_y getAddress length cycles) (fun _ => True).
Proof.
  unfold CPU.load_mode.
  eapply safe_bind; [exact Hmode | intros ? ?].
  safe_step; [assumption|]. safe_bounds.
  safe_step. { apply ok_set_y; assumption. }
  safe_run.
Qed.

End Modes.

Lemma safe_asl_a : safe CPU.asl_a (fun _ => True).
Proof.
  unfold CPU.asl_a. safe_step.
  safe_step. { apply ok_set_a; [apply band_ff_byte | assumption]. }
  safe_run.
Qed.

Lemma safe_lsr_a : safe CPU.lsr_a (fun _ => True).
Proof.
  unfold CPU.lsr_a. safe_step.
  safe_step. { apply ok_set_a; [apply band_ff_byte | assumption]. }
  safe_run.
Qed.

Lemma safe_rol_a : safe CPU.rol_a (fun _ => True).
Proof.
  unfold CPU.rol_a. safe_step. safe_step.
  safe_step. { apply ok_set_a; [apply band_ff_byte | assumption]. }
  safe_run.
Qed.

Lemma safe_ror_a : safe CPU.ror_a (fun _ => True).
Proof.
  unfold CPU.ror_a. safe_step. safe_step.
  safe_step. { apply ok_set_a; [apply band_ff_byte | assumption]. }
  safe_run.
Qed.

Lemma safe_branch_if (condition : CPU.t -> bool) :
  safe (CPU.branch_if condition) (fun _ => True).
Proof.
  unfold CPU.branch_if.
  safe_step; [assumption|]. safe_step. safe_step.
  - eapply safe_bind; [apply safe_getAddressRel | intros address Haddress].
    safe_step. safe_step; [assumption|].
    apply safe_set_pc, Haddress.
  - safe_step. apply safe_set_pc, band_ffff_word.
Qed.

Lemma safe_brk : safe CPU.brk (fun _ => True).
Proof.
  unfold CPU.brk. safe_step. safe_step.
  eapply safe_bind; [apply safe_pushStack | intros _ _].
  eapply safe_bind; [apply safe_pushStack | intros _ _].
  safe_step; [safe_flags|]. safe_step; [safe_flags|].
  safe_step.
  eapply safe_bind; [apply safe_pushStack | intros _ _].
  safe_step; [safe_flags|]. safe_step. safe_step.
  eapply safe_bind; [apply safe_set_pc; vm_compute; split; congruence | intros _ _].
  safe_step. assumption.
Qed.

Lemma word_bound_r (hi lo : Z) :
  0 <= hi < 256 -> 0 <= lo < 256 -> 0 <= JS.bor lo (JS.shl hi 8) < 65536.
Proof.
  intros Hhi Hlo. rewrite word_of_bytes by assumption.
  apply (lor_bound _ _ 16); [lia| |lia].
  rewrite Z.shiftl_mul_pow2 by lia. lia.
Qed.

Lemma safe_set_flag (index : Z) (bit : bool) :
  0 <= index < 8 -> safe (CPU.set_flag index bit) (fun _ => True).
Proof.
  intros Hi. unfold CPU.set_flag.
  safe_step; [apply ok_setStatusFlag; assumption|]. apply safe_finish.
Qed.

Lemma safe_step_x (step : Z) : safe (CPU.step_register CPU.x CPU.set_x step) (fun _ => True).
Proof.
  unfold CPU.step_register. safe_step.
  safe_step. { apply ok_set_x; [apply band_ff_byte | assumption]. }
  safe_run.
Qed.

Lemma safe_step_y (step : Z) : safe (CPU.step_register CPU.y CPU.set_y step) (fun _ => True).
Proof.
  unfold CPU.step_register. safe_step.
  safe_step. { apply ok_set_y; [apply band_ff_byte | assumption]. }
  safe_run.
Qed.

Lemma safe_jmp_mode (getAddress : CPU.M Z) (cycles : Z) :
  safe getAddress word -> safe (CPU.jmp_mode getAddress cycles) (fun _ => True).
Proof.
  intros Hmode. unfold CPU.jmp_mode.
  eapply safe_bind; [exact Hmode | intros address Haddress].
  eapply safe_bind; [apply safe_set_pc, Haddress | intros _ _].
  safe_step. assumption.
Qed.

Lemma safe_jsr : safe CPU.jsr (fun _ => True).
Proof.
  unfold CPU.jsr. safe_step.
  eapply safe_bind; [apply safe_pushStack | intros _ _].
  eapply safe_bind; [apply safe_pushStack | intros _ _].
  eapply safe_bind; [apply safe_getAddressAbs | intros address Haddress].
  eapply safe_bind; [apply safe_set_pc, Haddress | intros _ _].
  safe_step. assumption.
Qed.

Lemma safe_nop : safe CPU.nop (fun _ => True).
Proof. apply safe_finish. Qed.

Lemma safe_pha : safe CPU.pha (fun _ => True).
Proof.
  unfold CPU.pha. safe_step.
  eapply safe_bind; [apply safe_pushStack | intros _ _]. apply safe_finish.
Qed.

Lemma safe_php : safe CPU.php (fun _ => True).
Proof.
  unfold CPU.php. safe_step.
  eapply safe_bind; [apply safe_pushStack | intros _ _]. apply safe_finish.
Qed.

Lemma safe_pla : safe CPU.pla (fun _ => True).
Proof.
  unfold CPU.pla.
  eapply safe_bind; [apply safe_pullStack | intros ? ?]. safe_bounds.
  safe_step. { apply ok_set_a; assumption. }
  safe_run.
Qed.

Lemma safe_plp : safe CPU.plp (fun _ => True).
Proof.
  unfold CPU.plp.
  eapply safe_bind; [apply safe_pullStack | intros ? ?]. safe_bounds.
  safe_step. { apply ok_set_p; assumption. }
  apply safe_finish.
Qed.

Lemma safe_rti : safe CPU.rti (fun _ => True).
Proof.
  unfold CPU.rti.
  eapply safe_bind; [apply safe_pullStack | intros ? ?].
  eapply safe_bind; [apply safe_pullStack | intros ? ?].
  eapply safe_bind; [apply safe_pullStack | intros ? ?].
  safe_bounds.
  safe_step. { apply ok_set_p; assumption. }
  safe_step; [safe_flags|].
  eapply safe_bind; [apply safe_set_pc | intros _ _].
  { apply word_bound_r; assumption. }
  safe_step. assumption.
Qed.

Lemma safe_rts : safe CPU.rts (fun _ => True).
Proof.
  unfold CPU.rts.
  eapply safe_bind; [apply safe_pullStack | intros ? ?].
  eapply safe_bind; [apply safe_pullStack | intros ? ?].
  eapply safe_bind; [apply safe_set_pc, band_ffff_word | intros _ _].
  safe_step. assumption.
Qed.

Lemma safe_adc_imm : safe CPU.adc_imm (fun _ => True).
Proof.
  unfold CPU.adc_imm. safe_step.
  safe_step. { apply band_ffff_word. }
  safe_step. safe_step.
  safe_step. { apply ok_set_a; [apply band_ff_byte | assumption]. }
  safe_step; [safe_flags|]. safe_step; [safe_flags|].
  safe_step; [safe_flags|]. safe_step; [safe_flags|].
  safe_step.
  eapply safe_bind; [apply safe_set_pc, band_ffff_word | intros _ _].
  safe_step. assumption.
Qed.

Lemma safe_transfer_x (from : CPU.t -> Z) :
  (forall c, cpu_ok c -> 0 <= from c < 256) ->
  safe (CPU.transfer from CPU.set_x) (fun _ => True).
Proof.
  intros Hfrom. unfold CPU.transfer.
  eapply safe_bind; [apply safe_get | intros ? (c & Hc & ->)].
  safe_step. { apply ok_set_x; [apply Hfrom, Hc | assumption]. }
  safe_run.
Qed.

Lemma safe_transfer_y (from : CPU.t -> Z) :
  (forall c, cpu_ok c -> 0 <= from c < 256) ->
  safe (CPU.transfer from CPU.set_y) (fun _ => True).
Proof.
  intros Hfrom. unfold CPU.transfer.
  eapply safe_bind; [apply safe_get | intros ? (c & Hc & ->)].
  safe_step. { apply ok_set_y; [apply Hfrom, Hc | assumption]. }
  safe_run.
Qed.

Lemma safe_transfer_a (from : CPU.t -> Z) :
  (forall c, cpu_ok c -> 0 <= from c < 256) ->
  safe (CPU.transfer from CPU.set_a) (fun _ => True).
Proof.
  intros Hfrom. unfold CPU.transfer.
  eapply safe_bind; [apply safe_get | intros ? (c & Hc & ->)].
  safe_step. { apply ok_set_a; [apply Hfrom, Hc | assumption]. }
  safe_run.
Qed.

Lemma safe_txs : safe CPU.txs (fun _ => True).
Proof.
  unfold CPU.txs. safe_step.
  safe_step. { apply ok_set_sp; assumption. }
  apply safe_finish.
Qed.

Lemma ok_register_a (c : CPU.t) : cpu_ok c -> 0 <= CPU.a c < 256.
Proof. intros H. apply H. Qed.

Lemma ok_register_x (c : CPU.t) : cpu_ok c -> 0 <= CPU.x c < 256.
Proof. intros H. apply H. Qed.

Lemma ok_register_y (c : CPU.t) : cpu_ok c -> 0 <= CPU.y c < 256.
Proof. intros H. apply H. Qed.

Lemma ok_register_sp (c : CPU.t) : cpu_ok c -> 0 <= CPU.sp c < 256.
Proof. intros H. apply H. Qed.

End CPUSafetyMethods.

(** The rule for a method of the table, chosen by the shape of its
    definition. *)
Ltac safe_mode :=
  lazymatch goal with
  | |- safe CPU.Imm _ => apply safe_Imm
  | |- safe CPU.Zpg _ => apply safe_Zpg
  | |- safe CPU.ZpgX _ => apply safe_ZpgX
  | |- safe CPU.ZpgY _ => apply safe_ZpgY
  | |- safe CPU.Abs _ => apply safe_Abs
  | |- safe CPU.AbsX _ => apply safe_AbsX
  | |- safe CPU.AbsY _ => apply safe_AbsY
  | |- safe CPU.XInd _ => apply safe_XInd
  | |- safe CPU.IndY _ => apply safe_IndY
  | |- safe CPU.getAddressAbs _ => apply safe_getAddressAbs
  | |- safe CPU.getAddressInd _ => apply safe_getAddressInd
  end.

Ltac safe_method :=
  lazymatch goal with
  | |- safe (CPU.adc_mode _ _ _) _ => apply safe_adc_mode; safe_mode
  | |- safe (CPU.and_mode _ _ _) _ => apply safe_and_mode; safe_mode
  | |- safe (CPU.asl_mode _ _ _) _ => apply safe_asl_mode; safe_mode
  | |- safe (CPU.bit_mode _ _ _) _ => apply safe_bit_mode; safe_mode
  | |- safe (CPU.compare_mode _ _ _ _) _ => apply safe_compare_mode; safe_mode
  | |- safe (CPU.dec_mode _ _ _) _ => apply safe_dec_mode; safe_mode
  | |- safe (CPU.eor_mode _ _ _) _ => apply safe_eor_mode; safe_mode
  | |- safe (CPU.inc_mode _ _ _) _ => apply safe_inc_mode; safe_mode
  | |- safe (CPU.lsr_mode _ _ _) _ => apply safe_lsr_mode; safe_mode
  | |- safe (CPU.ora_mode _ _ _) _ => apply safe_ora_mode; safe_mode
  | |- safe (CPU.rol_mode _ _ _) _ => apply safe_rol_mode; safe_mode
  | |- safe (CPU.ror_mode _ _ _) _ => apply safe_ror_mode; safe_mode
  | |- safe (CPU.sbc_mode _ _ _) _ => apply safe_sbc_mode; safe_mode
  | |- safe (CPU.store_mode _ _ _ _) _ => apply safe_store_mode; safe_mode
  | |- safe (CPU.load_mode CPU.set_a _ _ _) _ => apply safe_load_a; safe_mode
  | |- safe (CPU.load_mode CPU.set_x _ _ _) _ => apply safe_load_x; safe_mode
  | |- safe (CPU.load_mode CPU.set_y _ _ _) _ => apply safe_load_y; safe_mode
  | |- safe (CPU.branch_if _) _ => apply safe_branch_if
  | |- safe (CPU.set_flag _ _) _ => apply safe_set_flag; vm_compute; split; congruence
  | |- safe (CPU.step_register CPU.x CPU.set_x _) _ => apply safe_step_x
  | |- safe (CPU.step_register CPU.y CPU.set_y _) _ => apply safe_step_y
  | |- safe (CPU.jmp_mode _ _) _ => apply safe_jmp_mode; safe_mode
  | |- safe (CPU.transfer CPU.a CPU.set_x) _ => apply safe_transfer_x, ok_register_a
  | |- safe (CPU.transfer CPU.a CPU.set_y) _ => apply safe_transfer_y, ok_register_a
  | |- safe (CPU.transfer CPU.sp CPU.set_x) _ => apply safe_transfer_x, ok_register_sp
  | |- safe (CPU.transfer CPU.x CPU.set_a) _ => apply safe_transfer_a, ok_register_x
  | |- safe (CPU.transfer CPU.y CPU.set_a) _ => apply safe_transfer_a, ok_register_y
  | |- safe CPU.adc_imm _ => apply safe_adc_imm
  | |- safe CPU.asl_a _ => apply safe_asl_a
  | |- safe CPU.lsr_a _ => apply safe_lsr_a
  | |- safe CPU.rol_a _ => apply safe_rol_a
  | |- safe CPU.ror_a _ => apply safe_ror_a
  | |- safe CPU.brk _ => apply safe_brk
  | |- safe CPU.jsr _ => apply safe_jsr
  | |- safe CPU.nop _ => apply safe_nop
  | |- safe CPU.pha _ => apply safe_pha
  | |- safe CPU.php _ => apply safe_php
  | |- safe CPU.pla _ => apply safe_pla
  | |- safe CPU.plp _ => apply safe_plp
  | |- safe CPU.rti _ => apply safe_rti
  | |- safe CPU.rts _ => apply safe_rts
  | |- safe CPU.txs _ => apply safe_txs
  end.

Section CPUSafetyTable.

Local Open Scope cpu_scope.

(** Every method of the table of opcodes is safe. *)
Lemma safe_opcodes :
  Forall (fun entry => safe (snd entry) (fun _ => True)) CPU.opcodes.
Proof.
  unfold CPU.opcodes.
  unfold CPU.adc_zpg, CPU.adc_zpg_x, CPU.adc_abs, CPU.adc_abs_x, CPU.adc_abs_y,
         CPU.adc_x_ind, CPU.adc_ind_y, CPU.and_imm, CPU.and_zpg, CPU.and_zpg_x,
         CPU.and_abs, CPU.and_abs_x, CPU.and_abs_y, CPU.and_x_ind, CPU.and_ind_y,
         CPU.asl_zpg, CPU.asl_zpg_x, CPU.asl_abs, CPU.asl_abs_x, CPU.bcc,
         CPU.bcs, CPU.beq, CPU.bit_zpg, CPU.bit_abs, CPU.bmi,
         CPU.bne, CPU.bpl, CPU.bvc, CPU.bvs, CPU.clc,
         CPU.cld, CPU.cli, CPU.clv, CPU.cmp_imm, CPU.cmp_zpg,
         CPU.cmp_zpg_x, CPU.cmp_abs, CPU.cmp_abs_x, CPU.cmp_abs_y, CPU.cmp_x_ind,
         CPU.cmp_ind_y, CPU.cpx_imm, CPU.cpx_zpg, CPU.cpx_abs, CPU.cpy_imm,
         CPU.cpy_zpg, CPU.cpy_abs, CPU.dec_zpg, CPU.dec_zpg_x, CPU.dec_abs,
         CPU.dec_abs_x, CPU.dex, CPU.dey, CPU.eor_imm, CPU.eor_zpg,
         CPU.eor_zpg_x, CPU.eor_abs, CPU.eor_abs_x, CPU.eor_abs_y, CPU.eor_x_ind,
         CPU.eor_ind_y, CPU.inc_zpg, CPU.inc_zpg_x, CPU.inc_abs, CPU.inc_abs_x,
         CPU.inx, CPU.iny, CPU.jmp_abs, CPU.jmp_ind, CPU.lda_imm,
         CPU.lda_zpg, CPU.lda_zpg_x, CPU.lda_abs, CPU.lda_abs_x, CPU.lda_abs_y,
         CPU.lda_x_ind, CPU.lda_ind_y, CPU.ldx_imm, CPU.ldx_zpg, CPU.ldx_zpg_y,
         CPU.ldx_abs, CPU.ldx_abs_y, CPU.ldy_imm, CPU.ldy_zpg, CPU.ldy_zpg_x,
         CPU.ldy_abs, CPU.ldy_abs_x, CPU.lsr_zpg, CPU.lsr_zpg_x, CPU.lsr_abs,
         CPU.lsr_abs_x, CPU.ora_imm, CPU.ora_zpg, CPU.ora_zpg_x, CPU.ora_abs,
         CPU.ora_abs_x, CPU.ora_abs_y, CPU.ora_x_ind, CPU.ora_ind_y, CPU.rol_zpg,
         CPU.rol_zpg_x, CPU.rol_abs, CPU.rol_abs_x, CPU.ror_zpg, CPU.ror_zpg_x,
         CPU.ror_abs, CPU.ror_abs_x, CPU.sbc_imm, CPU.sbc_zpg, CPU.sbc_zpg_x,
         CPU.sbc_abs, CPU.sbc_abs_x, CPU.sbc_abs_y, CPU.sbc_x_ind, CPU.sbc_ind_y,
         CPU.sec, CPU.sed, CPU.sei, CPU.sta_zpg, CPU.sta_zpg_x,
         CPU.sta_abs, CPU.sta_abs_x, CPU.sta_abs_y, CPU.sta_x_ind, CPU.sta_ind_y,
         CPU.stx_zpg, CPU.stx_zpg_y, CPU.stx_abs, CPU.sty_zpg, CPU.sty_zpg_x,
         CPU.sty_abs, CPU.tax, CPU.tay, CPU.tsx, CPU.txa,
         CPU.tya.
  repeat (apply List.Forall_cons; [cbn [snd]; safe_method|]).
  apply List.Forall_nil.
Qed.

Lemma safe_opcodeFn (pcValue : option Z) :
  safe (CPU.opcodeFn pcValue) (fun _ => True).
Proof.
  unfold CPU.opcodeFn. destruct pcValue as [byte|]; [|apply safe_invalidOpcode].
  destruct (find _ CPU.opcodes) as [entry|] eqn:Hfind; [|apply safe_invalidOpcode].
  apply find_some in Hfind. destruct Hfind as [Hin _].
  pose proof safe_opcodes as Hall. rewrite List.Forall_forall in Hall.
  apply Hall, Hin.
Qed.

Lemma safe_interrupt (vector : Z) :
  0 <= vector -> safe (CPU.interrupt vector) (fun _ => True).
Proof.
  intros Hv. unfold CPU.interrupt. safe_step.
  eapply safe_bind; [apply safe_pushStack | intros _ _].
  eapply safe_bind; [apply safe_pushStack | intros _ _].
  safe_step; [safe_flags|]. safe_step.
  eapply safe_bind; [apply safe_pushStack | intros _ _].
  safe_step; [lia|]. safe_step; [lia|]. safe_bounds.
  eapply safe_bind; [apply safe_set_pc, word_bound; assumption | intros _ _].
  safe_step. assumption.
Qed.

Lemma safe_execute : safe CPU.execute (fun _ => True).
Proof.
  unfold CPU.execute. safe_step. safe_step. safe_step.
  - safe_step; [assumption|]. apply safe_interrupt. vm_compute. congruence.
  - safe_step. safe_step.
    + safe_step; [assumption|]. apply safe_interrupt. vm_compute. congruence.
    + safe_step. safe_step; [lia|].
      eapply safe_bind; [apply safe_opcodeFn | intros _ _].
      safe_step. assumption.
Qed.

Lemma safe_tick : safe CPU.tick (fun _ => True).
Proof.
  unfold CPU.tick. safe_step.
  eapply safe_bind.
  - apply safe_if; [apply safe_execute | apply safe_ret; exact I].
  - intros _ _. safe_step. assumption.
Qed.

Lemma safe_reset : safe CPU.reset (fun _ => True).
Proof.
  unfold CPU.reset.
  safe_step. { apply ok_set_a; [lia | assumption]. }
  safe_step. { apply ok_set_x; [lia | assumption]. }
  safe_step. { apply ok_set_y; [lia | assumption]. }
  safe_step. { apply ok_set_p; [lia | assumption]. }
  safe_step. { apply ok_set_sp; [lia | assumption]. }
  safe_step; [vm_compute; congruence|]. safe_step; [vm_compute; congruence|].
  safe_bounds. apply safe_set_pc, word_bound; assumption.
Qed.

Lemma safe_cpu_ticks (n : nat) : safe (cpu_ticks n) (fun _ => True).
Proof.
  induction n as [|n IH]; cbn [cpu_ticks].
  - apply safe_ret. exact I.
  - eapply safe_bind; [apply safe_tick | intros _ _; exact IH].
Qed.

End CPUSafetyTable.

Section CPUNeverThrows.

(** X20: On a bus that maps every address (a region starts at address 0
    or below, as the RAM of the machine does) and with the registers in
    range, any number of calls of [CPU.tick] returns, and so does
    [CPU.reset] followed by any number of calls of [CPU.tick]: whatever
    bytes the bus holds as a program, no method of the CPU throws.
    Afterwards the bus still maps every address, [a], [x], [y], [p] and
    [sp] hold a byte, and [pc] holds an address of 16 bits. *)
Theorem cpu_ticks_never_throw (c : CPU.t) (n : nat) :
  covers (CPU.cpuBus c) -> registers_ok c ->
  (exists c',
     cpu_ticks n c = Ok (tt, c') /\
     covers (CPU.cpuBus c') /\ registers_ok c') /\
  (exists c',
     CPU.bind CPU.reset (fun _ => cpu_ticks n) c = Ok (tt, c') /\
     covers (CPU.cpuBus c') /\ registers_ok c').
Proof.
  intros Hcov Hregs. split.
  - destruct (safe_cpu_ticks n c (conj Hcov Hregs))
      as ([] & c' & Hrun & [Hcov' Hregs'] & _).
    exists c'. split; [exact Hrun|]. split; assumption.
  - assert (safe (CPU.bind CPU.reset (fun _ => cpu_ticks n)) (fun _ => True)) as Hsafe.
    { eapply safe_bind; [apply safe_reset | intros _ _; apply safe_cpu_ticks]. }
    destruct (Hsafe c (conj Hcov Hregs)) as ([] & c' & Hrun & [Hcov' Hregs'] & _).
    exists c'. split; [exact Hrun|]. split; assumption.
Qed.

Lemma cpu_ticks_never_throw_witness :
  (exists c',
     cpu_ticks 12 NES.cpu = Ok (tt, c') /\
     covers (CPU.cpuBus c') /\ registers_ok c') /\
  (exists c',
     CPU.bind CPU.reset (fun _ => cpu_ticks 12) NES.cpu = Ok (tt, c') /\
     covers (CPU.cpuBus c') /\ registers_ok c').
Proof.
  apply (cpu_ticks_never_throw NES.cpu 12).
  - apply (stack_bus_covers _ NES.ram); [exact machine_stack_bus | exact machine_low_ram].
  - vm_compute. repeat split; congruence.
Defined.

End CPUNeverThrows.

(** ** [cpu.ts]: the instructions of a program in ROM *)

Section CPURom.

Local Open Scope cpu_scope.

(** *** Reads of ROM *)

Lemma rom_read_fetch (bus : list CpuDevice) (address v : Z) :
  rom_read bus address = Some v -> Bus.read bus address = (Some v, bus).
Proof.
  induction bus as [|d bus IH]; cbn [rom_read Bus.read]; [discriminate|].
  destruct (address <? Bus.start d).
  - intros H. rewrite (IH H). reflexivity.
  - destruct d as [[b|r|r]|p|k]; try discriminate.
    intros [= <-]. reflexivity.
Qed.

Lemma rom_read_after_write (bus : list CpuDevice) (w byte address : Z) :
  rom_read (fst (Bus.write bus w byte)) address = rom_read bus address.
Proof.
  induction bus as [|d bus IH]; cbn [Bus.write]; [reflexivity|].
  destruct (w <? Bus.start d).
  - destruct (Bus.write bus w byte) as [rest' evs]. cbn [fst] in *.
    cbn [rom_read]. rewrite IH. reflexivity.
  - pose proof (dev_write_start w byte d) as Hstart.
    destruct (dev_write w byte d) as [d' evs] eqn:E. cbn [fst] in *.
    cbn [rom_read]. rewrite Hstart.
    destruct (address <? Bus.start d); [reflexivity|].
    destruct d as [[b|r|r]|p|k]; cbn in E.
    + injection E as <- _. reflexivity.
    + injection E as <- _. reflexivity.
    + injection E as <- _. reflexivity.
    + destruct (PPU.write w byte p). injection E as <- _. reflexivity.
    + injection E as <- _. reflexivity.
Qed.

Lemma code_at_after_write (bus : list CpuDevice) (w byte address : Z) (bytes : list Z) :
  code_at (fst (Bus.write bus w byte)) address bytes = code_at bus address bytes.
Proof.
  revert address. induction bytes as [|b bytes IH]; intros address; cbn [code_at].
  - reflexivity.
  - rewrite rom_read_after_write, IH. reflexivity.
Qed.

Lemma code_at_cons (bus : list CpuDevice) (address b : Z) (bytes : list Z) :
  code_at bus address (b :: bytes) = true ->
  rom_read bus address = Some b /\ code_at bus (address + 1) bytes = true.
Proof.
  cbn [code_at]. destruct (rom_read bus address) as [v|]; [|discriminate].
  intros H. apply andb_true_iff in H. destruct H as [Hv Hrest].
  apply Z.eqb_eq in Hv. subst v. auto.
Qed.

(** Three bytes in ROM. *)
Lemma code_at_3 (bus : list CpuDevice) (address b0 b1 b2 : Z) :
  code_at bus address [b0; b1; b2] = true ->
  rom_read bus address = Some b0 /\
  rom_read bus (address + 1) = Some b1 /\
  rom_read bus (address + 2) = Some b2.
Proof.
  intros H. apply code_at_cons in H. destruct H as [H0 H].
  apply code_at_cons in H. destruct H as [H1 H].
  apply code_at_cons in H. destruct H as [H2 _].
  replace (address + 1 + 1) with (address + 2) in H2 by lia. auto.
Qed.

Lemma rom_read_byte (bus : list CpuDevice) (address v : Z) :
  rom_read bus address = Some v -> 0 <= v < 256.
Proof.
  intros H. apply rom_read_fetch in H. eapply bus_read_byte, H.
Qed.

(** *** The monad *)

Lemma set_cpuBus_same (c : CPU.t) : CPU.set_cpuBus (CPU.cpuBus c) c = c.
Proof. destruct c. reflexivity. Qed.

Lemma bind_get {A B : Type} (f : CPU.t -> A) (k : A -> CPU.M B) (c : CPU.t) :
  CPU.bind (CPU.get f) k c = k (f c) c.
Proof. reflexivity. Qed.

Lemma bind_modify {B : Type} (f : CPU.t -> CPU.t) (k : unit -> CPU.M B) (c : CPU.t) :
  CPU.bind (CPU.modify f) k c = k tt (f c).
Proof. reflexivity. Qed.

Lemma bind_ret {A B : Type} (v : A) (k : A -> CPU.M B) (c : CPU.t) :
  CPU.bind (CPU.ret v) k c = k v c.
Proof. reflexivity. Qed.

Lemma bind_formatHex {B : Type} (v : Z) (k : unit -> CPU.M B) (c : CPU.t) :
  CPU.bind (CPU.lift (Util.formatHex (Some v))) k c = k tt c.
Proof. reflexivity. Qed.

Lemma bind_bind {A B C : Type} (m : CPU.M A) (k : A -> CPU.M B) (h : B -> CPU.M C)
  (c : CPU.t) :
  CPU.bind (CPU.bind m k) h c = CPU.bind m (fun v => CPU.bind (k v) h) c.
Proof. unfold CPU.bind. destruct (m c) as [[v c']|msg]; reflexivity. Qed.

Lemma busRead_rom (c : CPU.t) (address v : Z) :
  rom_read (CPU.cpuBus c) address = Some v ->
  CPU.busRead address c = Ok (Some v, c).
Proof.
  intros H. unfold CPU.busRead. rewrite (rom_read_fetch _ _ _ H).
  rewrite set_cpuBus_same. reflexivity.
Qed.

Lemma bind_busRead_rom {B : Type} (c : CPU.t) (address v : Z) (k : option Z -> CPU.M B) :
  rom_read (CPU.cpuBus c) address = Some v ->
  CPU.bind (CPU.busRead address) k c = k (Some v) c.
Proof. intros H. apply bind_ok, busRead_rom, H. Qed.

(** The log and the setter of [pc], for an instruction in ROM. *)
Lemma debug_rom (c : CPU.t) (b0 b1 b2 : Z) :
  code_at (CPU.cpuBus c) (CPU.pc c) [b0; b1; b2] = true ->
  CPU.debug c = Ok (tt, c).
Proof.
  intros H. apply code_at_3 in H. destruct H as (H0 & H1 & H2).
  unfold CPU.debug.
  rewrite bind_get, (bind_busRead_rom _ _ _ _ H0), bind_formatHex.
  rewrite bind_get, (bind_busRead_rom _ _ _ _ H1), bind_formatHex.
  rewrite bind_get, (bind_busRead_rom _ _ _ _ H2). reflexivity.
Qed.

Lemma set_pc_rom (c : CPU.t) (value b0 b1 b2 : Z) :
  code_at (CPU.cpuBus c) (CPU.pc c) [b0; b1; b2] = true ->
  CPU.set_pc value c = Ok (tt, CPU.set__pc value c).
Proof.
  intros H. unfold CPU.set_pc.
  pose proof (code_at_3 _ _ _ _ _ H) as (H0 & _).
  rewrite bind_get, (bind_busRead_rom _ _ _ _ H0).
  rewrite (bind_ok _ _ _ _ _ (debug_rom _ _ _ _ H)). reflexivity.
Qed.

Lemma bind_set_pc_rom {B : Type} (c : CPU.t) (value b0 b1 b2 : Z) (k : unit -> CPU.M B) :
  code_at (CPU.cpuBus c) (CPU.pc c) [b0; b1; b2] = true ->
  CPU.bind (CPU.set_pc value) k c = k tt (CPU.set__pc value c).
Proof. intros H. apply bind_ok. eapply set_pc_rom, H. Qed.

Lemma finish_rom (c : CPU.t) (length : Z) (cycles : CPU.t -> Z) (b0 b1 b2 : Z) :
  code_at (CPU.cpuBus c) (CPU.pc c) [b0; b1; b2] = true ->
  CPU.finish length cycles c =
  Ok (tt, CPU.set_cyclesRemaining
            (cycles (CPU.set__pc ((CPU.pc c + length) mod 65536) c))
            (CPU.set__pc ((CPU.pc c + length) mod 65536) c)).
Proof.
  intros H. unfold CPU.finish. rewrite bind_get.
  rewrite (bind_set_pc_rom _ _ _ _ _ _ H). rewrite band_ffff_l.
  rewrite bind_get. reflexivity.
Qed.

Lemma bind_finish_rom {B : Type} (c : CPU.t) (length : Z) (cycles : CPU.t -> Z)
  (b0 b1 b2 : Z) (k : unit -> CPU.M B) :
  code_at (CPU.cpuBus c) (CPU.pc c) [b0; b1; b2] = true ->
  CPU.bind (CPU.finish length cycles) k c =
  k tt (CPU.set_cyclesRemaining
          (cycles (CPU.set__pc ((CPU.pc c + length) mod 65536) c))
          (CPU.set__pc ((CPU.pc c + length) mod 65536) c)).
Proof. intros H. apply bind_ok. eapply finish_rom, H. Qed.

(** [execute] when no interrupt is pending: the method of the opcode,
    then the reset of [additionalCycles]. *)
Lemma execute_rom (c : CPU.t) (opcode : Z) :
  no_interrupt c ->
  rom_read (CPU.cpuBus c) (CPU.pc c) = Some opcode ->
  CPU.execute c =
  CPU.bind (CPU.opcodeFn (Some opcode))
    (fun _ => CPU.modify (CPU.set_additionalCycles 0)) c.
Proof.
  intros [Hirq Hnmi] Hop. unfold CPU.execute.
  rewrite bind_get, bind_get, Hirq. cbn [andb].
  rewrite bind_get, Hnmi.
  rewrite bind_get, (bind_busRead_rom _ _ _ _ Hop). reflexivity.
Qed.

(** The machine with a cartridge: the stack page is the RAM of the
    machine. *)
Lemma rom_bus_stack (prg : ROM.t) :
  Addressable.startAddress (ROM.hdr prg) = 0x4020 -> stack_bus (rom_bus prg) NES.ram.
Proof.
  intros Hstart. destruct prg as [[s e m a ms] bytes]. cbn in Hstart. subst s.
  exists [CMem (MROM (ROM.mk (Addressable.mk 0x4020 e m a ms) bytes));
          CMem (MBase NES.disabledIO);
          CController NES.controller2; CController NES.controller1;
          CMem (MBase NES.apu); CPPU NES.ppu], [].
  split.
  - reflexivity.
  - repeat (constructor; [reflexivity|]). constructor.
Qed.

Lemma cartridge_stack_bus (program : list Z) (pc : Z) :
  Addressable.startAddress (ROM.hdr (ROM.load 0x8000 program NES.prg)) = 0x4020 ->
  stack_bus (CPU.cpuBus (cartridge_cpu program pc)) NES.ram.
Proof. intros Hstart. apply (rom_bus_stack _ Hstart). Qed.

End CPURom.

(** The fields of a state written with the setters, for a state that
    starts from the constructor: the setters are evaluated from the
    inside. *)
Ltac cpu_fields :=
  unfold CPU.statusCarry, CPU.statusZero, CPU.statusNegative, CPU.statusOverflow,
         CPU.statusInterruptDisable, CPU.statusBreak,
         CPU.updateStatusZeroOf, CPU.updateStatusZero, CPU.updateStatusNegative in *;
  cbv beta iota delta
    [CPU.getStatusFlag CPU.setStatusFlag
     CPU.set_cpuBus CPU.set_cyclesRemaining CPU.set_additionalCycles
     CPU.set_pendingIRQ CPU.set_pendingNMI CPU.set_a CPU.set_x CPU.set_y
     CPU.set_p CPU.set_sp CPU.set__pc
     CPU.cpuBus CPU.cyclesRemaining CPU.additionalCycles CPU.pendingIRQ
     CPU.pendingNMI CPU.a CPU.x CPU.y CPU.p CPU.sp CPU.pc
     CPU.STATUS_FLAG_BIT_NEGATIVE CPU.STATUS_FLAG_BIT_OVERFLOW
     CPU.STATUS_FLAG_BIT_BREAK CPU.STATUS_FLAG_BIT_DECIMAL
     CPU.STATUS_FLAG_BIT_INTERRUPT_DISABLE CPU.STATUS_FLAG_BIT_ZERO
     CPU.STATUS_FLAG_BIT_CARRY] in *.

Section CPUCompare.

Local Open Scope cpu_scope.

Lemma bind_Imm {B : Type} (k : option Z -> CPU.M B) (c : CPU.t) :
  CPU.bind CPU.Imm k c = k (Some (CPU.getAddressImm c)) c.
Proof. reflexivity. Qed.

Lemma getAddressImm_next (c : CPU.t) :
  0 <= CPU.pc c < 0xffff -> CPU.getAddressImm c = CPU.pc c + 1.
Proof.
  intros Hpc. unfold CPU.getAddressImm. rewrite band_ffff_l.
  apply Z.mod_small. lia.
Qed.

(** Bit 7 of a difference, as [updateStatusNegative] reads it. *)
Lemma negative_of_difference (v : Z) :
  JS.truthy (JS.band v (JS.shl 1 7)) = (128 <=? v mod 256).
Proof.
  rewrite truthy_bit7.
  assert (Z.testbit v 7 = Z.testbit (v mod 256) 7) as ->.
  { change 256 with (2 ^ 8). rewrite Z.mod_pow2_bits_low by lia. reflexivity. }
  pose proof (Z.mod_pos_bound v 256 ltac:(lia)) as Hb.
  set (w := v mod 256) in *.
  rewrite (Z.testbit_eqb w 7) by lia.
  change (2 ^ 7) with 128.
  destruct (Z.leb_spec 128 w) as [Hge|Hlt].
  - assert (w / 128 = 1) as -> by (Z.div_mod_to_equations; lia). reflexivity.
  - assert (w / 128 = 0) as -> by (Z.div_mod_to_equations; lia). reflexivity.
Qed.

Lemma compare_imm_run (register : CPU.t -> Z) (c : CPU.t) (opcode m next : Z) :
  0 <= CPU.pc c < 0xffff ->
  code_at (CPU.cpuBus c) (CPU.pc c) [opcode; m; next] = true ->
  CPU.compare_mode register CPU.Imm 2 (CPU.fixed 2) c =
  Ok (tt, CPU.set_cyclesRemaining 2
            (CPU.set__pc ((CPU.pc c + 2) mod 65536)
               (CPU.updateStatusZeroOf (Some (register c - m))
                  (CPU.updateStatusNegative (register c - m)
                     (CPU.setStatusFlag CPU.STATUS_FLAG_BIT_CARRY (m <=? register c) c))))).
Proof.
  intros Hpc Hcode. pose proof (code_at_3 _ _ _ _ _ Hcode) as (_ & H1 & _).
  unfold CPU.compare_mode. rewrite bind_Imm, getAddressImm_next by exact Hpc.
  cbn [CPU.busReadAt]. rewrite (bind_busRead_rom _ _ _ _ H1).
  rewrite !bind_get. cbn [option_map JS.num default].
  rewrite !bind_modify.
  erewrite finish_rom by exact Hcode. reflexivity.
Qed.

(** X21: CMP, CPX and CPY with an immediate operand (opcodes 0xC9, 0xE0
    and 0xC0) compare the register with the byte [m] after the opcode:
    carry is set exactly if [m <= register], zero exactly if they are
    equal, negative is bit 7 of the difference modulo 256, and the other
    five bits of [p] stay. No register changes, the bus is left as it is,
    the program counter moves by 2 and the instruction takes 2 cycles. *)
Theorem compare_immediate (c : CPU.t) (register : CPU.t -> Z) (opcode m next : Z) :
  In (opcode, register) [(0xc9, CPU.a); (0xe0, CPU.x); (0xc0, CPU.y)] ->
  no_interrupt c -> 0 <= CPU.pc c <= 0xfffd ->
  code_at (CPU.cpuBus c) (CPU.pc c) [opcode; m; next] = true ->
  exists c',
    CPU.execute c = Ok (tt, c') /\
    CPU.statusCarry c' = Z.b2z (m <=? register c) /\
    CPU.statusZero c' = Z.b2z (register c =? m) /\
    CPU.statusNegative c' = Z.b2z (128 <=? (register c - m) mod 256) /\
    (forall i, 2 <= i <= 6 -> CPU.getStatusFlag i c' = CPU.getStatusFlag i c) /\
    CPU.a c' = CPU.a c /\ CPU.x c' = CPU.x c /\ CPU.y c' = CPU.y c /\
    CPU.sp c' = CPU.sp c /\ CPU.pc c' = CPU.pc c + 2 /\
    CPU.cyclesRemaining c' = 2 /\ CPU.cpuBus c' = CPU.cpuBus c.
Proof.
  intros Hin Hint Hpc Hcode.
  pose proof (code_at_3 _ _ _ _ _ Hcode) as (H0 & _ & _).
  assert (CPU.opcodeFn (Some opcode) = CPU.compare_mode register CPU.Imm 2 (CPU.fixed 2))
    as Hfn.
  { destruct Hin as [[= <- <-]|[[= <- <-]|[[= <- <-]|[]]]]; reflexivity. }
  eexists. split.
  { rewrite (execute_rom _ _ Hint H0), Hfn.
    rewrite (bind_ok _ _ _ _ _ (compare_imm_run register c opcode m next ltac:(lia) Hcode)).
    reflexivity. }
  set (r := register c) in *. clearbody r. clear Hin Hfn.
  unfold CPU.STATUS_FLAG_BIT_ZERO, CPU.STATUS_FLAG_BIT_NEGATIVE, CPU.STATUS_FLAG_BIT_CARRY.
  destruct c as [bus cycles0 extra irq nmi A X Y P SP PC]. cpu_fields.
  rewrite negative_of_difference.
  split; [rewrite !getBit_setBit by lia; reflexivity|].
  split.
  { rewrite !getBit_setBit by lia. cbn [Z.eqb Pos.eqb]. f_equal.
    destruct (Z.eqb_spec (r - m) 0), (Z.eqb_spec r m); lia || reflexivity. }
  split; [rewrite !getBit_setBit by lia; reflexivity|].
  split.
  { intros i Hi. rewrite !getBit_setBit by lia.
    destruct (Z.eqb_spec 1 i); [lia|]. destruct (Z.eqb_spec 7 i); [lia|].
    destruct (Z.eqb_spec 0 i); [lia|]. reflexivity. }
  repeat split. apply Z.mod_small. lia.
Qed.

Lemma compare_immediate_witness :
  exists c',
    CPU.execute (CPU.set_a 0x10 (cartridge_cpu [0xc9; 0x05; 0xea] 0x8000)) = Ok (tt, c') /\
    CPU.statusCarry c' = Z.b2z (0x05 <=? 0x10) /\
    CPU.statusZero c' = Z.b2z (0x10 =? 0x05) /\
    CPU.statusNegative c' = Z.b2z (128 <=? (0x10 - 0x05) mod 256) /\
    (forall i, 2 <= i <= 6 ->
       CPU.getStatusFlag i c'
       = CPU.getStatusFlag i (CPU.set_a 0x10 (cartridge_cpu [0xc9; 0x05; 0xea] 0x8000))) /\
    CPU.a c' = 0x10 /\ CPU.x c' = 0 /\ CPU.y c' = 0 /\
    CPU.sp c' = 0xfd /\ CPU.pc c' = 0x8000 + 2 /\
    CPU.cyclesRemaining c' = 2 /\
    CPU.cpuBus c' = CPU.cpuBus (CPU.set_a 0x10 (cartridge_cpu [0xc9; 0x05; 0xea] 0x8000)).
Proof.
  apply (compare_immediate (CPU.set_a 0x10 (cartridge_cpu [0xc9; 0x05; 0xea] 0x8000))
           CPU.a 0xc9 0x05 0xea).
  - left. reflexivity.
  - split; reflexivity.
  - vm_compute. split; discriminate.
  - vm_compute. reflexivity.
Defined.

End CPUCompare.

Section CPUSubtract.

Local Open Scope cpu_scope.

Lemma testbit7_mod (v : Z) : Z.testbit v 7 = (128 <=? v mod 256).
Proof. rewrite <- truthy_bit7. apply negative_of_difference. Qed.

Lemma bxor_ff (m : Z) : 0 <= m < 256 -> JS.bxor m 0xff = 255 - m.
Proof.
  intros Hm. apply Z.eqb_eq.
  apply (forall_bytes (fun m => JS.bxor m 0xff =? 255 - m)); [|exact Hm].
  vm_compute. reflexivity.
Qed.

Lemma overflow_of_sbc (A C sum : Z) :
  JS.truthy (JS.band (JS.band (JS.bxor sum A) (JS.bxor sum C)) (JS.shl 1 7))
  = xorb (Z.testbit sum 7) (Z.testbit A 7) && xorb (Z.testbit sum 7) (Z.testbit C 7).
Proof.
  rewrite truthy_bit7. unfold JS.band.
  rewrite Z.land_spec, !to_int32_testbit by lia.
  unfold JS.bxor. rewrite !Z.lxor_spec, !to_int32_testbit by lia.
  reflexivity.
Qed.

Lemma getBit_0_1 (byte i : Z) : 0 <= i <= 30 -> Util.getBit byte i = 0 \/ Util.getBit byte i = 1.
Proof.
  intros Hi. rewrite getBit_testbit by exact Hi.
  destruct (Z.testbit byte i); [right | left]; reflexivity.
Qed.

(** The flags of a subtraction, from the arithmetic of the code. *)
Lemma sbc_arithmetic (A m carry : Z) :
  0 <= A < 256 -> 0 <= m < 256 -> carry = 0 \/ carry = 1 ->
  let sum := 255 - m + A + carry in
  let diff := A - m - (1 - carry) in
  let signed :=
    Util.unsignedByteToSignedByte A - Util.unsignedByteToSignedByte m - (1 - carry) in
  sum mod 256 = diff mod 256 /\
  (0xff <? sum) = (0 <=? diff) /\
  xorb (Z.testbit sum 7) (Z.testbit A 7) && xorb (Z.testbit sum 7) (Z.testbit (255 - m) 7)
  = (signed <? -128) || (127 <? signed).
Proof.
  intros HA Hm Hc. cbv zeta.
  split.
  { replace (255 - m + A + carry) with (A - m - (1 - carry) + 1 * 256) by lia.
    apply Z.mod_add. lia. }
  split.
  { destruct (Z.ltb_spec 255 (255 - m + A + carry)),
             (Z.leb_spec 0 (A - m - (1 - carry))); lia || reflexivity. }
  rewrite !testbit7_mod.
  rewrite (Z.mod_small A 256), (Z.mod_small (255 - m) 256) by lia.
  unfold Util.unsignedByteToSignedByte.
  assert (0 <= 255 - m + A + carry < 512) as Hs by lia.
  set (sum := 255 - m + A + carry) in *.
  assert (sum mod 256 = if 256 <=? sum then sum - 256 else sum) as ->.
  { destruct (Z.leb_spec 256 sum); Z.div_mod_to_equations; lia. }
  destruct (Z.leb_spec 256 sum), (Z.leb_spec 128 A), (Z.leb_spec 128 (255 - m)),
           (Z.ltb_spec 127 A), (Z.ltb_spec 127 m);
    try lia;
    repeat match goal with
           | |- context [?a <=? ?b] => destruct (Z.leb_spec a b)
           | |- context [?a <? ?b] => destruct (Z.ltb_spec a b)
           end; subst sum; cbn; lia || reflexivity.
Qed.

Lemma sbc_imm_run (c : CPU.t) (opcode m next : Z) :
  0 <= CPU.pc c < 0xffff ->
  code_at (CPU.cpuBus c) (CPU.pc c) [opcode; m; next] = true ->
  let sum := JS.bxor m 0xff + CPU.a c + CPU.statusCarry c in
  CPU.sbc_imm c =
  Ok (tt, CPU.set_cyclesRemaining 2
            (CPU.set__pc ((CPU.pc c + 2) mod 65536)
               (CPU.updateStatusZero (JS.band 0xff sum)
                  (CPU.updateStatusNegative (JS.band 0xff sum)
                     (CPU.setStatusFlag CPU.STATUS_FLAG_BIT_OVERFLOW
                        (JS.truthy
                           (JS.band (JS.band (JS.bxor sum (CPU.a c))
                                             (JS.bxor sum (JS.bxor m 0xff)))
                                    (JS.shl 1 7)))
                        (CPU.setStatusFlag CPU.STATUS_FLAG_BIT_CARRY (0xff <? sum)
                           (CPU.set_a (JS.band 0xff sum) c))))))).
Proof.
  intros Hpc Hcode. pose proof (code_at_3 _ _ _ _ _ Hcode) as (_ & H1 & _).
  cbv zeta. unfold CPU.sbc_imm, CPU.sbc_mode.
  rewrite bind_Imm, getAddressImm_next by exact Hpc.
  cbn [CPU.busReadAt]. rewrite (bind_busRead_rom _ _ _ _ H1).
  rewrite !bind_get. cbn [JS.num default].
  rewrite !bind_modify.
  erewrite finish_rom by exact Hcode. reflexivity.
Qed.

(** X22: SBC with an immediate operand (opcode 0xE9) subtracts the byte
    [m] after the opcode and the borrow, which is the complement of the
    carry flag, from the accumulator: [a] becomes the difference modulo
    256; carry is set exactly if no borrow is needed (the difference is
    not negative); overflow is set exactly if the difference of the
    operands taken as signed bytes leaves the range -128..127; negative
    and zero describe the new [a]; the other flags, [x], [y] and [sp]
    stay, the program counter moves by 2 and the instruction takes 2
    cycles. *)
Theorem sbc_immediate (c : CPU.t) (m next : Z) :
  no_interrupt c -> 0 <= CPU.pc c <= 0xfffd -> 0 <= CPU.a c < 256 ->
  code_at (CPU.cpuBus c) (CPU.pc c) [0xe9; m; next] = true ->
  let borrow := 1 - CPU.statusCarry c in
  let diff := CPU.a c - m - borrow in
  let signed :=
    Util.unsignedByteToSignedByte (CPU.a c) - Util.unsignedByteToSignedByte m - borrow in
  exists c',
    CPU.execute c = Ok (tt, c') /\
    CPU.a c' = diff mod 256 /\
    CPU.statusCarry c' = Z.b2z (0 <=? diff) /\
    CPU.statusOverflow c' = Z.b2z ((signed <? -128) || (127 <? signed)) /\
    CPU.statusNegative c' = Z.b2z (128 <=? diff mod 256) /\
    CPU.statusZero c' = Z.b2z (diff mod 256 =? 0) /\
    (forall i, 2 <= i <= 5 -> CPU.getStatusFlag i c' = CPU.getStatusFlag i c) /\
    CPU.x c' = CPU.x c /\ CPU.y c' = CPU.y c /\ CPU.sp c' = CPU.sp c /\
    CPU.pc c' = CPU.pc c + 2 /\ CPU.cyclesRemaining c' = 2.
Proof.
  intros Hint Hpc Ha Hcode. cbv zeta.
  pose proof (code_at_3 _ _ _ _ _ Hcode) as (H0 & H1 & _).
  pose proof (rom_read_byte _ _ _ H1) as Hm.
  pose proof (getBit_0_1 (CPU.p c) 0 ltac:(lia)) as Hcarry.
  change (Util.getBit (CPU.p c) 0) with (CPU.statusCarry c) in Hcarry.
  destruct (sbc_arithmetic (CPU.a c) m (CPU.statusCarry c) Ha Hm Hcarry)
    as (Hmod & Hc & Hv).
  eexists. split.
  { rewrite (execute_rom _ _ Hint H0).
    change (CPU.opcodeFn (Some 0xe9)) with CPU.sbc_imm.
    rewrite (bind_ok _ _ _ _ _ (sbc_imm_run c 0xe9 m next ltac:(lia) Hcode)).
    reflexivity. }
  rewrite !bxor_ff by exact Hm. rewrite !band_ff_l, !overflow_of_sbc.
  set (sum := 255 - m + CPU.a c + CPU.statusCarry c) in *.
  set (diff := CPU.a c - m - (1 - CPU.statusCarry c)) in *.
  assert (Z.testbit sum 7 = Z.testbit (sum mod 256) 7) as Hbit.
  { change 256 with (2 ^ 8). rewrite Z.mod_pow2_bits_low by lia. reflexivity. }
  unfold CPU.STATUS_FLAG_BIT_ZERO, CPU.STATUS_FLAG_BIT_NEGATIVE,
         CPU.STATUS_FLAG_BIT_OVERFLOW, CPU.STATUS_FLAG_BIT_CARRY.
  destruct c as [bus cycles0 extra irq nmi A X Y P SP PC]. cpu_fields.
  repeat match goal with |- _ /\ _ => split end; try intros i Hi.
  - exact Hmod.
  - rewrite !getBit_setBit by lia. cbn [Z.eqb Pos.eqb]. rewrite Hc. reflexivity.
  - rewrite !getBit_setBit by lia. cbn [Z.eqb Pos.eqb]. rewrite Hv. reflexivity.
  - rewrite !getBit_setBit by lia. cbn [Z.eqb Pos.eqb].
    rewrite negative_of_difference, Z.mod_mod, Hmod by lia. reflexivity.
  - rewrite !getBit_setBit by lia. cbn [Z.eqb Pos.eqb]. rewrite Hmod. reflexivity.
  - rewrite !getBit_setBit by lia.
    destruct (Z.eqb_spec 1 i); [lia|]. destruct (Z.eqb_spec 7 i); [lia|].
    destruct (Z.eqb_spec 6 i); [lia|]. destruct (Z.eqb_spec 0 i); [lia|]. reflexivity.
  - reflexivity.
  - reflexivity.
  - reflexivity.
  - apply Z.mod_small. lia.
  - reflexivity.
Qed.

Lemma sbc_immediate_witness :
  exists c',
    CPU.execute (CPU.set_a 0x50 (cartridge_cpu [0xe9; 0xf0; 0xea] 0x8000)) = Ok (tt, c') /\
    CPU.a c' = (0x50 - 0xf0 - 1) mod 256 /\
    CPU.statusCarry c' = Z.b2z (0 <=? 0x50 - 0xf0 - 1) /\
    CPU.statusOverflow c' =
      Z.b2z ((Util.unsignedByteToSignedByte 0x50 - Util.unsignedByteToSignedByte 0xf0 - 1
              <? -128)
             || (127 <? Util.unsignedByteToSignedByte 0x50
                        - Util.unsignedByteToSignedByte 0xf0 - 1)) /\
    CPU.statusNegative c' = Z.b2z (128 <=? (0x50 - 0xf0 - 1) mod 256) /\
    CPU.statusZero c' = Z.b2z ((0x50 - 0xf0 - 1) mod 256 =? 0) /\
    (forall i, 2 <= i <= 5 ->
       CPU.getStatusFlag i c'
       = CPU.getStatusFlag i (CPU.set_a 0x50 (cartridge_cpu [0xe9; 0xf0; 0xea] 0x8000))) /\
    CPU.x c' = 0 /\ CPU.y c' = 0 /\ CPU.sp c' = 0xfd /\
    CPU.pc c' = 0x8000 + 2 /\ CPU.cyclesRemaining c' = 2.
Proof.
  apply (sbc_immediate (CPU.set_a 0x50 (cartridge_cpu [0xe9; 0xf0; 0xea] 0x8000)) 0xf0 0xea).
  - split; reflexivity.
  - vm_compute. split; discriminate.
  - vm_compute. split; [discriminate | reflexivity].
  - vm_compute. reflexivity.
Defined.

End CPUSubtract.

Section CPUBranch.

Local Open Scope cpu_scope.

Lemma land_ff00 (a : Z) : 0 <= a < 65536 -> Z.land a 0xff00 = 256 * (a / 256).
Proof.
  intros Ha. apply Z.bits_inj'. intros i Hi.
  rewrite Z.land_spec. change 0xff00 with (Z.shiftl (Z.ones 8) 8).
  rewrite Z.mul_comm. change 256 with (2 ^ 8).
  rewrite <- Z.shiftl_mul_pow2, <- Z.shiftr_div_pow2 by lia.
  rewrite !Z.shiftl_spec by lia.
  destruct (Z.ltb_spec i 8) as [Hlt|Hge].
  - rewrite !(Z.testbit_neg_r _ (i - 8)) by lia. apply andb_false_r.
  - rewrite Z.shiftr_spec by lia. replace (i - 8 + 8) with i by lia.
    destruct (Z.ltb_spec i 16) as [Hlt|Hge'].
    + rewrite Z.ones_spec_low by lia. apply andb_true_r.
    + rewrite (bits_of_bound a 16 i) by lia. reflexivity.
Qed.

Lemma isSamePage_pages (a b : Z) :
  0 <= a < 65536 -> 0 <= b < 65536 ->
  Util.isSamePage a b = (a / 256 =? b / 256).
Proof.
  intros Ha Hb. unfold Util.isSamePage, JS.band.
  rewrite !to_int32_id by lia. rewrite !land_ff00 by assumption.
  destruct (Z.eqb_spec (a / 256) (b / 256)) as [->|Hne].
  - apply Z.eqb_refl.
  - apply Z.eqb_neq. lia.
Qed.

Lemma getAddressRel_rom (c : CPU.t) (offset : Z) :
  rom_read (CPU.cpuBus c) (CPU.pc c + 1) = Some offset ->
  CPU.getAddressRel c =
  Ok ((CPU.pc c + 2 + Util.unsignedByteToSignedByte offset) mod 65536, c).
Proof.
  intros H. unfold CPU.getAddressRel.
  rewrite bind_get, (bind_busRead_rom _ _ _ _ H), bind_get.
  cbn [option_map CPU.add_to JS.num default]. unfold CPU.ret.
  rewrite band_ffff_l. unfold id. do 3 f_equal. lia.
Qed.

Lemma branch_if_run (condition : CPU.t -> bool) (c : CPU.t) (opcode offset next : Z) :
  code_at (CPU.cpuBus c) (CPU.pc c) [opcode; offset; next] = true ->
  let target := (CPU.pc c + 2 + Util.unsignedByteToSignedByte offset) mod 65536 in
  CPU.branch_if condition c =
  Ok (tt,
      if condition (CPU.set_cyclesRemaining 2 c) then
        CPU.set__pc target
          (CPU.set_cyclesRemaining
             (2 + (if Util.isSamePage (CPU.pc c) target then 1 else 2))
             (CPU.set_cyclesRemaining 2 c))
      else
        CPU.set__pc ((CPU.pc c + 2) mod 65536) (CPU.set_cyclesRemaining 2 c)).
Proof.
  intros Hcode target. pose proof (code_at_3 _ _ _ _ _ Hcode) as (_ & H1 & _).
  unfold CPU.branch_if. rewrite bind_modify, bind_get.
  destruct (condition (CPU.set_cyclesRemaining 2 c)).
  - rewrite (bind_ok _ _ _ _ _ (getAddressRel_rom (CPU.set_cyclesRemaining 2 c) offset H1)).
    rewrite bind_get, bind_modify.
    erewrite set_pc_rom by exact Hcode. reflexivity.
  - rewrite bind_get. erewrite set_pc_rom by exact Hcode.
    rewrite band_ffff_l. reflexivity.
Qed.

(** X23: The eight conditional branches (opcodes 0x90 BCC, 0xB0 BCS,
    0xF0 BEQ, 0x30 BMI, 0xD0 BNE, 0x10 BPL, 0x50 BVC, 0x70 BVS) test one
    bit of [p]. If the bit has the value the opcode asks for, the program
    counter becomes the address after the instruction plus the operand
    taken as a signed byte, modulo 65536, and the branch takes 3 cycles
    if that target lies in the page of the branch opcode itself, 4
    otherwise; if not, the program counter moves by 2 and the branch
    takes 2 cycles. The registers and the bus are left as they are. *)
Theorem branch_taken_or_not (c : CPU.t) (opcode flag : Z) (sense : bool) (offset next : Z) :
  In (opcode, flag, sense) branches ->
  no_interrupt c -> 0 <= CPU.pc c <= 0xfffd ->
  code_at (CPU.cpuBus c) (CPU.pc c) [opcode; offset; next] = true ->
  let taken := Bool.eqb (Z.testbit (CPU.p c) flag) sense in
  let target := (CPU.pc c + 2 + Util.unsignedByteToSignedByte offset) mod 65536 in
  exists c',
    CPU.execute c = Ok (tt, c') /\
    CPU.pc c' = (if taken then target else CPU.pc c + 2) /\
    CPU.cyclesRemaining c' =
      (if taken then (if CPU.pc c / 256 =? target / 256 then 3 else 4) else 2) /\
    CPU.a c' = CPU.a c /\ CPU.x c' = CPU.x c /\ CPU.y c' = CPU.y c /\
    CPU.p c' = CPU.p c /\ CPU.sp c' = CPU.sp c /\ CPU.cpuBus c' = CPU.cpuBus c.
Proof.
  intros Hin Hint Hpc Hcode taken target.
  pose proof (code_at_3 _ _ _ _ _ Hcode) as (H0 & _ & _).
  assert (0 <= target < 65536) as Htarget by (apply Z.mod_pos_bound; lia).
  assert (exists condition,
             CPU.opcodeFn (Some opcode) = CPU.branch_if condition /\
             condition (CPU.set_cyclesRemaining 2 c) = taken) as (condition & Hfn & Hcond).
  { subst taken. unfold branches in Hin.
    repeat (destruct Hin as [[= <- <- <-]|Hin];
            [eexists; split; [reflexivity|];
             cbv beta; unfold CPU.statusCarry, CPU.statusZero, CPU.statusNegative,
               CPU.statusOverflow, CPU.getStatusFlag;
             change (CPU.p (CPU.set_cyclesRemaining 2 c)) with (CPU.p c);
             rewrite getBit_testbit by (vm_compute; split; congruence);
             destruct (Z.testbit (CPU.p c) _); reflexivity|]).
    destruct Hin. }
  eexists. split.
  { rewrite (execute_rom _ _ Hint H0), Hfn.
    rewrite (bind_ok _ _ _ _ _ (branch_if_run condition c opcode offset next Hcode)).
    rewrite Hcond. reflexivity. }
  fold target. rewrite isSamePage_pages by lia.
  clear Hcond Hfn Hin. clearbody taken target.
  destruct c as [bus cycles0 extra irq nmi A X Y P SP PC]. cpu_fields.
  destruct taken; cpu_fields.
  - destruct (PC / 256 =? target / 256); repeat split.
  - repeat split. apply Z.mod_small. lia.
Qed.

Lemma branch_taken_or_not_witness :
  exists c',
    CPU.execute (cartridge_cpu [0xd0; 0xfe; 0xea] 0x8000) = Ok (tt, c') /\
    CPU.pc c' =
      (if Bool.eqb (Z.testbit 0x34 CPU.STATUS_FLAG_BIT_ZERO) false
       then (0x8000 + 2 + Util.unsignedByteToSignedByte 0xfe) mod 65536
       else 0x8000 + 2) /\
    CPU.cyclesRemaining c' =
      (if Bool.eqb (Z.testbit 0x34 CPU.STATUS_FLAG_BIT_ZERO) false
       then (if 0x8000 / 256
                =? (0x8000 + 2 + Util.unsignedByteToSignedByte 0xfe) mod 65536 / 256
             then 3 else 4)
       else 2) /\
    CPU.a c' = 0 /\ CPU.x c' = 0 /\ CPU.y c' = 0 /\
    CPU.p c' = 0x34 /\ CPU.sp c' = 0xfd /\
    CPU.cpuBus c' = CPU.cpuBus (cartridge_cpu [0xd0; 0xfe; 0xea] 0x8000).
Proof.
  apply (branch_taken_or_not (cartridge_cpu [0xd0; 0xfe; 0xea] 0x8000)
           0xd0 CPU.STATUS_FLAG_BIT_ZERO false 0xfe 0xea).
  - do 4 right. left. reflexivity.
  - split; reflexivity.
  - vm_compute. split; discriminate.
  - vm_compute. reflexivity.
Defined.

End CPUBranch.

Section CPUAddressing.

Local Open Scope cpu_scope.

(** [hi << 8 | lo] for two bytes. *)
Lemma word_value (hi lo : Z) :
  0 <= hi < 256 -> 0 <= lo < 256 -> JS.bor (JS.shl hi 8) lo = 256 * hi + lo.
Proof.
  intros Hhi Hlo. rewrite shl_8 by exact Hhi.
  assert (0 <= Z.shiftl hi 8 < 65536) as Hs
    by (rewrite Z.shiftl_mul_pow2 by lia; lia).
  unfold JS.bor. rewrite !to_int32_id by lia.
  rewrite <- shl8_lor, shl_8 by assumption.
  rewrite Z.shiftl_mul_pow2 by lia. lia.
Qed.

Lemma word_value_r (hi lo : Z) :
  0 <= hi < 256 -> 0 <= lo < 256 -> JS.bor lo (JS.shl hi 8) = 256 * hi + lo.
Proof.
  intros Hhi Hlo. rewrite word_of_bytes, <- shl8_lor, shl_8 by assumption.
  rewrite Z.shiftl_mul_pow2 by lia. lia.
Qed.

Lemma getAddressAbs_rom (c : CPU.t) (opcode lo hi : Z) :
  code_at (CPU.cpuBus c) (CPU.pc c) [opcode; lo; hi] = true ->
  CPU.getAddressAbs c = Ok (256 * hi + lo, c).
Proof.
  intros Hcode. pose proof (code_at_3 _ _ _ _ _ Hcode) as (_ & H1 & H2).
  unfold CPU.getAddressAbs.
  rewrite bind_get, (bind_busRead_rom _ _ _ _ H1).
  rewrite bind_get, (bind_busRead_rom _ _ _ _ H2).
  cbn [JS.num default]. unfold id, CPU.ret.
  rewrite word_value by (eapply rom_read_byte; eassumption). reflexivity.
Qed.

Lemma bind_getAddressAbs_rom {B : Type} (c : CPU.t) (opcode lo hi : Z)
  (k : Z -> CPU.M B) :
  code_at (CPU.cpuBus c) (CPU.pc c) [opcode; lo; hi] = true ->
  CPU.bind CPU.getAddressAbs k c = k (256 * hi + lo) c.
Proof. intros H. apply bind_ok. eapply getAddressAbs_rom, H. Qed.

Lemma band_ff00 (a : Z) : 0 <= a < 65536 -> JS.band a 0xff00 = 256 * (a / 256).
Proof.
  intros Ha. unfold JS.band. rewrite !to_int32_id by lia. apply land_ff00, Ha.
Qed.

Lemma band_ff_r (a : Z) : JS.band a 0xff = a mod 256.
Proof. unfold JS.band. rewrite Z.land_comm. apply band_ff_l. Qed.

Lemma getAddressInd_rom (c : CPU.t) (opcode lo hi tlo thi : Z) :
  code_at (CPU.cpuBus c) (CPU.pc c) [opcode; lo; hi] = true ->
  rom_read (CPU.cpuBus c) (256 * hi + lo) = Some tlo ->
  rom_read (CPU.cpuBus c) (if lo =? 0xff then 256 * hi else 256 * hi + lo + 1) = Some thi ->
  CPU.getAddressInd c = Ok (256 * thi + tlo, c).
Proof.
  intros Hcode Hlo Hhi. pose proof (code_at_3 _ _ _ _ _ Hcode) as (_ & H1 & H2).
  pose proof (rom_read_byte _ _ _ H1) as Hb1.
  pose proof (rom_read_byte _ _ _ H2) as Hb2.
  pose proof (rom_read_byte _ _ _ Hlo) as Hb3.
  pose proof (rom_read_byte _ _ _ Hhi) as Hb4.
  unfold CPU.getAddressInd.
  rewrite bind_get, (bind_busRead_rom _ _ _ _ H1).
  rewrite bind_get, (bind_busRead_rom _ _ _ _ H2).
  cbn [JS.num default]. unfold id. rewrite !word_value by assumption.
  destruct (lo =? 0xff) eqn:E.
  - apply Z.eqb_eq in E. subst lo.
    rewrite (bind_busRead_rom _ _ _ _ Hlo).
    rewrite band_ff00 by lia.
    replace (256 * ((256 * hi + 255) / 256)) with (256 * hi)
      by (Z.div_mod_to_equations; lia).
    rewrite (bind_busRead_rom _ _ _ _ Hhi).
    cbn [JS.num default]. unfold id, CPU.ret.
    rewrite word_value by assumption. reflexivity.
  - rewrite (bind_busRead_rom _ _ _ _ Hlo).
    rewrite (bind_busRead_rom _ _ _ _ Hhi).
    cbn [JS.num default]. unfold id, CPU.ret.
    rewrite word_value by assumption. reflexivity.
Qed.

(** X24: JMP indirect (opcode 0x6C) loads the program counter from the
    two bytes at the address that follows the opcode. The low byte of the
    target is read at that address and the high byte at the next one,
    except when the address is the last of a page: then the high byte is
    read at the first address of the same page. The jump takes 5 cycles
    and leaves the registers and the bus as they are. *)
Theorem jmp_indirect_page_wrap (c : CPU.t) (lo hi tlo thi : Z) :
  no_interrupt c ->
  code_at (CPU.cpuBus c) (CPU.pc c) [0x6c; lo; hi] = true ->
  rom_read (CPU.cpuBus c) (256 * hi + lo) = Some tlo ->
  rom_read (CPU.cpuBus c) (if lo =? 0xff then 256 * hi else 256 * hi + lo + 1) = Some thi ->
  exists c',
    CPU.execute c = Ok (tt, c') /\
    CPU.pc c' = 256 * thi + tlo /\ CPU.cyclesRemaining c' = 5 /\
    CPU.a c' = CPU.a c /\ CPU.x c' = CPU.x c /\ CPU.y c' = CPU.y c /\
    CPU.p c' = CPU.p c /\ CPU.sp c' = CPU.sp c /\ CPU.cpuBus c' = CPU.cpuBus c.
Proof.
  intros Hint Hcode Hlo Hhi.
  pose proof (code_at_3 _ _ _ _ _ Hcode) as (H0 & _ & _).
  eexists. split.
  { rewrite (execute_rom _ _ Hint H0).
    change (CPU.opcodeFn (Some 0x6c)) with (CPU.jmp_mode CPU.getAddressInd 5).
    unfold CPU.jmp_mode. rewrite bind_bind.
    rewrite (bind_ok _ _ _ _ _ (getAddressInd_rom c _ _ _ _ _ Hcode Hlo Hhi)).
    rewrite bind_bind. erewrite bind_set_pc_rom by exact Hcode.
    reflexivity. }
  destruct c as [bus cycles0 extra irq nmi A X Y P SP PC]. cpu_fields.
  repeat split.
Qed.

Lemma jmp_indirect_page_wrap_witness :
  exists c',
    CPU.execute
      (cartridge_cpu [0x6c; 0xff; 0x80; 0; 0; 0; 0; 0; 0; 0; 0; 0; 0; 0; 0; 0x34] 0x8000)
    = Ok (tt, c') /\
    CPU.pc c' = 256 * 0x6c + 0x34 /\ CPU.cyclesRemaining c' = 5 /\
    CPU.a c' = 0 /\ CPU.x c' = 0 /\ CPU.y c' = 0 /\
    CPU.p c' = 0x34 /\ CPU.sp c' = 0xfd /\
    CPU.cpuBus c'
    = CPU.cpuBus
        (cartridge_cpu [0x6c; 0xff; 0x80; 0; 0; 0; 0; 0; 0; 0; 0; 0; 0; 0; 0; 0x34] 0x8000).
Proof.
  apply (jmp_indirect_page_wrap
           (cartridge_cpu [0x6c; 0xff; 0x80; 0; 0; 0; 0; 0; 0; 0; 0; 0; 0; 0; 0; 0x34] 0x8000)
           0xff 0x80 0x34 0x6c).
  - split; reflexivity.
  - vm_compute. reflexivity.
  - vm_compute. reflexivity.
  - vm_compute. reflexivity.
Defined.

(** The extra cycle of an indexed address: the low bytes of the base
    and of the address differ exactly if the index is not zero. *)
Lemma low_bytes_differ (base index : Z) :
  0 <= base < 65536 -> 0 <= index < 256 ->
  negb (JS.band base 0xff =? JS.band (JS.band 0xffff (base + index)) 0xff)
  = negb (index =? 0).
Proof.
  intros Hb Hi. rewrite !band_ff_r, band_ffff_l. f_equal.
  destruct (Z.eqb_spec index 0) as [->|Hne].
  - rewrite Z.add_0_r, (Z.mod_small base 65536) by lia. apply Z.eqb_refl.
  - apply Z.eqb_neq. Z.div_mod_to_equations. lia.
Qed.

Lemma getAddressAbsX_rom (c : CPU.t) (opcode lo hi : Z) :
  0 <= CPU.x c < 256 ->
  code_at (CPU.cpuBus c) (CPU.pc c) [opcode; lo; hi] = true ->
  CPU.getAddressAbsX c =
  Ok ((256 * hi + lo + CPU.x c) mod 65536,
      if CPU.x c =? 0 then c else CPU.set_additionalCycles 1 c).
Proof.
  intros Hx Hcode. pose proof (code_at_3 _ _ _ _ _ Hcode) as (_ & H1 & H2).
  pose proof (rom_read_byte _ _ _ H1) as Hb1.
  pose proof (rom_read_byte _ _ _ H2) as Hb2.
  unfold CPU.getAddressAbsX.
  rewrite bind_get, (bind_busRead_rom _ _ _ _ H1).
  rewrite bind_get, (bind_busRead_rom _ _ _ _ H2).
  cbn [JS.num default]. unfold id. rewrite !word_value by assumption.
  rewrite bind_get. rewrite low_bytes_differ by lia.
  rewrite band_ffff_l.
  destruct (CPU.x c =? 0); reflexivity.
Qed.

(** X25: LDA absolute,X (opcode 0xBD), with the instruction and the
    byte to load both in ROM, loads [a] from the address
    formed by the two bytes after the opcode plus [x], modulo 65536, and
    sets the negative and zero flags from the byte. With
    [additionalCycles] at 0, as [execute] leaves it, the instruction
    takes 4 cycles if [x] is 0 and 5 cycles for every other [x]: the
    extra cycle is charged whenever the low byte of the address differs
    from the low byte of the base, whether or not a page is crossed. *)
Theorem lda_absolute_x_cycles (c : CPU.t) (lo hi v : Z) :
  no_interrupt c -> CPU.additionalCycles c = 0 ->
  0 <= CPU.pc c <= 0xfffc -> 0 <= CPU.x c < 256 ->
  code_at (CPU.cpuBus c) (CPU.pc c) [0xbd; lo; hi] = true ->
  rom_read (CPU.cpuBus c) ((256 * hi + lo + CPU.x c) mod 65536) = Some v ->
  exists c',
    CPU.execute c = Ok (tt, c') /\
    CPU.a c' = v /\
    CPU.statusNegative c' = Z.b2z (128 <=? v) /\
    CPU.statusZero c' = Z.b2z (v =? 0) /\
    CPU.cyclesRemaining c' = (if CPU.x c =? 0 then 4 else 5) /\
    CPU.additionalCycles c' = 0 /\
    CPU.pc c' = CPU.pc c + 3 /\
    CPU.x c' = CPU.x c /\ CPU.y c' = CPU.y c /\ CPU.sp c' = CPU.sp c /\
    CPU.cpuBus c' = CPU.cpuBus c.
Proof.
  intros Hint Hextra Hpc Hx Hcode Hv.
  pose proof (code_at_3 _ _ _ _ _ Hcode) as (H0 & _ & _).
  pose proof (rom_read_byte _ _ _ Hv) as Hbv.
  assert (exists c',
             CPU.execute c = Ok (tt, c') /\
             c' = CPU.set_additionalCycles 0
                    (CPU.set_cyclesRemaining (if CPU.x c =? 0 then 4 else 5)
                       (CPU.set__pc ((CPU.pc c + 3) mod 65536)
                          (CPU.updateStatusZero v
                             (CPU.updateStatusNegative v (CPU.set_a v c))))))
    as (c' & Hrun & ->).
  { eexists. split; [|reflexivity].
    rewrite (execute_rom _ _ Hint H0).
    change (CPU.opcodeFn (Some 0xbd)) with (CPU.load_mode CPU.set_a CPU.AbsX 3 (CPU.indexed 4)).
    unfold CPU.load_mode, CPU.AbsX, CPU.always. rewrite !bind_bind.
    rewrite (bind_ok _ _ _ _ _ (getAddressAbsX_rom c _ _ _ Hx Hcode)).
    rewrite bind_ret. cbn [CPU.busReadAt]. rewrite bind_bind.
    destruct (CPU.x c =? 0) eqn:E.
    - rewrite (bind_busRead_rom _ _ _ _ Hv).
      rewrite !bind_bind, !bind_modify, !bind_bind, !bind_modify.
      rewrite !bind_bind, !bind_modify.
      erewrite bind_finish_rom by exact Hcode.
      unfold CPU.indexed. cbn [CPU.modify].
      destruct c as [bus cycles0 extra irq nmi A X Y P SP PC]. cpu_fields.
      subst extra. reflexivity.
    - rewrite (bind_busRead_rom (CPU.set_additionalCycles 1 c) _ _ _ Hv).
      rewrite !bind_bind, !bind_modify, !bind_bind, !bind_modify.
      rewrite !bind_bind, !bind_modify.
      erewrite bind_finish_rom by exact Hcode.
      unfold CPU.indexed. cbn [CPU.modify].
      destruct c as [bus cycles0 extra irq nmi A X Y P SP PC]. cpu_fields.
      reflexivity. }
  exists (CPU.set_additionalCycles 0
            (CPU.set_cyclesRemaining (if CPU.x c =? 0 then 4 else 5)
               (CPU.set__pc ((CPU.pc c + 3) mod 65536)
                  (CPU.updateStatusZero v
                     (CPU.updateStatusNegative v (CPU.set_a v c)))))).
  split; [exact Hrun|]. clear Hrun.
  destruct c as [bus cycles0 extra irq nmi A X Y P SP PC]. cpu_fields.
  rewrite negative_of_difference, (Z.mod_small v 256) by lia.
  rewrite !getBit_setBit by lia. cbn [Z.eqb Pos.eqb].
  repeat split. apply Z.mod_small. lia.
Qed.

Lemma lda_absolute_x_cycles_witness :
  exists c',
    CPU.execute (CPU.set_x 0x01 (cartridge_cpu [0xbd; 0x00; 0x80] 0x8000)) = Ok (tt, c') /\
    CPU.a c' = 0x00 /\
    CPU.statusNegative c' = Z.b2z (128 <=? 0x00) /\
    CPU.statusZero c' = Z.b2z (0x00 =? 0) /\
    CPU.cyclesRemaining c' = (if 0x01 =? 0 then 4 else 5) /\
    CPU.additionalCycles c' = 0 /\
    CPU.pc c' = 0x8000 + 3 /\
    CPU.x c' = 0x01 /\ CPU.y c' = 0 /\ CPU.sp c' = 0xfd /\
    CPU.cpuBus c' = CPU.cpuBus (CPU.set_x 0x01 (cartridge_cpu [0xbd; 0x00; 0x80] 0x8000)).
Proof.
  apply (lda_absolute_x_cycles (CPU.set_x 0x01 (cartridge_cpu [0xbd; 0x00; 0x80] 0x8000))
           0x00 0x80 0x00).
  - split; reflexivity.
  - reflexivity.
  - vm_compute. split; discriminate.
  - vm_compute. split; [discriminate | reflexivity].
  - vm_compute. reflexivity.
  - vm_compute. reflexivity.
Defined.

End CPUAddressing.

(** ** [cpu.ts]: the stack and the interrupts *)

Section CPUStack.

Local Open Scope cpu_scope.

Lemma write_stack_bus_fst (bus : list CpuDevice) (r : RAM.t) (address byte : Z) :
  stack_bus bus r -> low_ram r -> 0 <= address <= 0x1FF ->
  Bus.write bus address byte = (fst (Bus.write bus address byte), []) /\
  stack_bus (fst (Bus.write bus address byte)) (RAM.write address byte r).
Proof.
  intros Hbus Hram Ha.
  destruct (write_stack_bus bus r address byte Hbus Hram Ha) as (bus' & Hw & Hbus').
  rewrite Hw. cbn [fst]. split; [reflexivity | exact Hbus'].
Qed.

Lemma pushStack_run (c : CPU.t) (r : RAM.t) (byte : Z) :
  stack_bus (CPU.cpuBus c) r -> low_ram r -> 0 <= CPU.sp c <= 255 ->
  CPU.pushStack byte c =
  Ok (tt, CPU.set_sp ((CPU.sp c - 1) mod 256)
            (CPU.set_cpuBus (fst (Bus.write (CPU.cpuBus c) (0x100 + CPU.sp c) byte)) c)).
Proof.
  intros Hbus Hram Hsp.
  destruct (write_stack_bus_fst _ r (0x100 + CPU.sp c) byte Hbus Hram ltac:(lia))
    as (Hw & _).
  unfold CPU.pushStack. rewrite bind_get.
  rewrite stack_address by exact Hsp.
  unfold CPU.bind, CPU.busWrite, CPU.modify. rewrite Hw.
  cbn [existsb]. cbn [CPU.sp CPU.set_cpuBus]. rewrite band_ff_l. reflexivity.
Qed.

Lemma bind_pushStack {B : Type} (c : CPU.t) (r : RAM.t) (byte : Z) (k : unit -> CPU.M B) :
  stack_bus (CPU.cpuBus c) r -> low_ram r -> 0 <= CPU.sp c <= 255 ->
  CPU.bind (CPU.pushStack byte) k c =
  k tt (CPU.set_sp ((CPU.sp c - 1) mod 256)
          (CPU.set_cpuBus (fst (Bus.write (CPU.cpuBus c) (0x100 + CPU.sp c) byte)) c)).
Proof. intros Hbus Hram Hsp. apply bind_ok. eapply pushStack_run; eassumption. Qed.

Lemma pullStack_run (c : CPU.t) (r : RAM.t) :
  stack_bus (CPU.cpuBus c) r -> low_ram r -> 0 <= CPU.sp c <= 255 ->
  CPU.pullStack c =
  Ok (Some (RAM.read (0x100 + (CPU.sp c + 1) mod 256) r),
      CPU.set_sp ((CPU.sp c + 1) mod 256) c).
Proof.
  intros Hbus Hram Hsp.
  pose proof (Z.mod_pos_bound (CPU.sp c + 1) 256 ltac:(lia)) as Hsp'.
  pose proof (read_stack_bus _ r (0x100 + (CPU.sp c + 1) mod 256) Hbus Hram ltac:(lia))
    as Hread.
  unfold CPU.pullStack, CPU.bind, CPU.modify, CPU.get, CPU.busRead.
  cbn [CPU.sp CPU.set_sp CPU.cpuBus]. rewrite band_ff_l.
  rewrite stack_address by lia. rewrite Hread. reflexivity.
Qed.

Lemma bind_pullStack {B : Type} (c : CPU.t) (r : RAM.t) (k : option Z -> CPU.M B) :
  stack_bus (CPU.cpuBus c) r -> low_ram r -> 0 <= CPU.sp c <= 255 ->
  CPU.bind CPU.pullStack k c =
  k (Some (RAM.read (0x100 + (CPU.sp c + 1) mod 256) r))
    (CPU.set_sp ((CPU.sp c + 1) mod 256) c).
Proof. intros Hbus Hram Hsp. apply bind_ok. eapply pullStack_run; eassumption. Qed.

(** The two bytes under the stack pointer after two pushes. *)
Lemma two_pushes (r : RAM.t) (s first second : Z) :
  low_ram r -> 0 <= s <= 255 ->
  let s1 := (s - 1) mod 256 in
  let s2 := (s1 - 1) mod 256 in
  let r2 := RAM.write (0x100 + s1) second (RAM.write (0x100 + s) first r) in
  low_ram r2 /\
  0 <= s1 <= 255 /\ 0 <= s2 <= 255 /\
  (s2 + 1) mod 256 = s1 /\ (s1 + 1) mod 256 = s /\
  RAM.read (0x100 + s1) r2 = second mod 256 /\
  RAM.read (0x100 + s) r2 = first mod 256.
Proof.
  intros Hram Hs. cbv zeta.
  destruct (sp_down_up s Hs) as (Hs1 & Hup1 & Hne1 & Hne2).
  destruct (sp_down_up _ Hs1) as (Hs2 & Hup2 & _ & _).
  assert (low_ram (RAM.write (0x100 + s) first r)) as Hram1 by (apply ram_write_low, Hram).
  split; [apply ram_write_low, Hram1|].
  split; [exact Hs1|]. split; [exact Hs2|]. split; [exact Hup2|]. split; [exact Hup1|].
  split.
  - rewrite ram_read_write by (assumption || lia). rewrite Z.eqb_refl. reflexivity.
  - rewrite !ram_read_write by (assumption || lia).
    destruct (Z.eqb_spec (0x100 + (s - 1) mod 256) (0x100 + s)); [lia|].
    rewrite Z.eqb_refl. reflexivity.
Qed.

Lemma return_address_bytes (v : Z) :
  0 <= v < 65536 ->
  JS.shr (JS.band v 0xff00) 8 = v / 256 /\ JS.band v 0x00ff = v mod 256.
Proof.
  intros Hv. split; [|apply band_ff_r].
  rewrite band_ff00 by exact Hv. unfold JS.shr.
  rewrite to_int32_id by (Z.div_mod_to_equations; lia).
  change (Z.land 8 31) with 8. rewrite Z.shiftr_div_pow2 by lia.
  change (2 ^ 8) with 256. Z.div_mod_to_equations. lia.
Qed.

(** X26: JSR (opcode 0x20) and RTS (opcode 0x60) are a round trip. With
    the stack page in RAM and the program in ROM, JSR pushes the address
    of its last byte, high byte first, and jumps to the address formed by
    its two operand bytes, in 6 cycles; an RTS executed there pulls the
    address back and continues at the instruction after the JSR, in 6
    cycles, with the stack pointer and the registers as they were before
    the JSR. *)
Theorem jsr_rts_round_trip (c : CPU.t) (r : RAM.t) (lo hi next1 next2 : Z) :
  stack_bus (CPU.cpuBus c) r -> low_ram r ->
  no_interrupt c -> 0 <= CPU.sp c <= 255 -> 0 <= CPU.pc c <= 0xfffc ->
  code_at (CPU.cpuBus c) (CPU.pc c) [0x20; lo; hi] = true ->
  code_at (CPU.cpuBus c) (256 * hi + lo) [0x60; next1; next2] = true ->
  exists c1 r1 c2,
    CPU.execute c = Ok (tt, c1) /\
    CPU.pc c1 = 256 * hi + lo /\ CPU.sp c1 = (CPU.sp c - 2) mod 256 /\
    CPU.cyclesRemaining c1 = 6 /\
    stack_bus (CPU.cpuBus c1) r1 /\
    RAM.read (0x100 + CPU.sp c) r1 = (CPU.pc c + 2) / 256 /\
    RAM.read (0x100 + (CPU.sp c - 1) mod 256) r1 = (CPU.pc c + 2) mod 256 /\
    CPU.execute c1 = Ok (tt, c2) /\
    CPU.pc c2 = CPU.pc c + 3 /\ CPU.sp c2 = CPU.sp c /\
    CPU.cyclesRemaining c2 = 6 /\
    CPU.a c2 = CPU.a c /\ CPU.x c2 = CPU.x c /\ CPU.y c2 = CPU.y c /\
    CPU.p c2 = CPU.p c.
Proof.
  intros Hbus Hram Hint Hsp Hpc Hjsr Hrts.
  pose proof (code_at_3 _ _ _ _ _ Hjsr) as (H0 & _ & _).
  pose proof (code_at_3 _ _ _ _ _ Hrts) as (Hr0 & _ & _).
  destruct (return_address_bytes (CPU.pc c + 2) ltac:(lia)) as (Hhi & Hlo).
  destruct c as [bus cycles0 extra irq nmi A X Y P SP PC].
  destruct Hint as [Hirq Hnmi]. cpu_fields. subst irq nmi.
  set (first := (PC + 2) / 256) in *.
  set (second := (PC + 2) mod 256) in *.
  destruct (two_pushes r SP first second Hram Hsp)
    as (Hram2 & Hs1 & Hs2 & Hup2 & Hup1 & Hread2 & Hread1).
  set (s1 := (SP - 1) mod 256) in *.
  set (s2 := (s1 - 1) mod 256) in *.
  set (bus1 := fst (Bus.write bus (0x100 + SP) first)).
  set (bus2 := fst (Bus.write bus1 (0x100 + s1) second)).
  destruct (write_stack_bus_fst bus r (0x100 + SP) first Hbus Hram ltac:(lia))
    as (_ & Hbus1). fold bus1 in Hbus1.
  assert (low_ram (RAM.write (0x100 + SP) first r)) as Hram1 by (apply ram_write_low, Hram).
  destruct (write_stack_bus_fst bus1 _ (0x100 + s1) second Hbus1 Hram1 ltac:(lia))
    as (_ & Hbus2). fold bus2 in Hbus2.
  assert (forall address bytes, code_at bus2 address bytes = code_at bus address bytes)
    as Hcode2.
  { intros address bytes. subst bus2 bus1. rewrite !code_at_after_write. reflexivity. }
  assert (0 <= first < 256) as Hfirst by (subst first; Z.div_mod_to_equations; lia).
  assert (0 <= second < 256) as Hsecond by (subst second; Z.div_mod_to_equations; lia).
  rewrite (Z.mod_small first) in Hread1 by lia.
  rewrite (Z.mod_small second) in Hread2 by lia.
  exists (CPU.mk bus2 6 0 false false A X Y P s2 (256 * hi + lo)).
  exists (RAM.write (0x100 + s1) second (RAM.write (0x100 + SP) first r)).
  exists (CPU.mk bus2 6 0 false false A X Y P SP (PC + 3)).
  split.
  { rewrite (execute_rom _ 0x20); [|split; reflexivity|exact H0].
    change (CPU.opcodeFn (Some 0x20)) with CPU.jsr. unfold CPU.jsr.
    rewrite bind_bind, bind_get. cpu_fields. rewrite Hhi, Hlo. fold first second.
    rewrite bind_bind.
    erewrite bind_pushStack; [|exact Hbus|exact Hram|exact Hsp]. cpu_fields. fold bus1 s1.
    rewrite bind_bind.
    erewrite bind_pushStack; [|exact Hbus1|exact Hram1|exact Hs1]. cpu_fields. fold bus2 s2.
    rewrite bind_bind.
    erewrite (bind_getAddressAbs_rom _ 0x20 lo hi).
    2: { cpu_fields. rewrite Hcode2. exact Hjsr. }
    rewrite bind_bind.
    erewrite bind_set_pc_rom.
    2: { cpu_fields. rewrite Hcode2. exact Hjsr. }
    cpu_fields. reflexivity. }
  cpu_fields.
  split; [reflexivity|].
  split. { subst s2 s1. Z.div_mod_to_equations. lia. }
  split; [reflexivity|].
  split; [exact Hbus2|]. split; [exact Hread1|]. split; [exact Hread2|].
  split.
  { rewrite (execute_rom _ 0x60); [|split; reflexivity|].
    2: { cpu_fields. apply (code_at_cons bus2 _ 0x60 [next1; next2]).
         rewrite Hcode2. exact Hrts. }
    change (CPU.opcodeFn (Some 0x60)) with CPU.rts. unfold CPU.rts.
    rewrite bind_bind.
    erewrite bind_pullStack; [|exact Hbus2|exact Hram2|exact Hs2]. cpu_fields.
    rewrite Hup2, Hread2. rewrite ?bind_bind.
    erewrite bind_pullStack; [|exact Hbus2|exact Hram2|exact Hs1]. cpu_fields.
    rewrite Hup1, Hread1.
    cbn [JS.num default]. unfold id.
    rewrite word_value_r by assumption.
    replace (256 * first + second) with (PC + 2)
      by (subst first second; Z.div_mod_to_equations; lia).
    rewrite bind_bind. erewrite bind_set_pc_rom.
    2: { cpu_fields. rewrite Hcode2. exact Hrts. }
    cpu_fields. rewrite band_ffff_l, Z.mod_small by lia.
    replace (PC + 2 + 1) with (PC + 3) by lia. reflexivity. }
  repeat split.
Qed.

Lemma jsr_rts_round_trip_witness :
  exists c1 r1 c2,
    CPU.execute (cartridge_cpu [0x20; 0x04; 0x80; 0xea; 0x60; 0xea; 0xea; 0xea] 0x8000)
    = Ok (tt, c1) /\
    CPU.pc c1 = 256 * 0x80 + 0x04 /\ CPU.sp c1 = (0xfd - 2) mod 256 /\
    CPU.cyclesRemaining c1 = 6 /\
    stack_bus (CPU.cpuBus c1) r1 /\
    RAM.read (0x100 + 0xfd) r1 = (0x8000 + 2) / 256 /\
    RAM.read (0x100 + (0xfd - 1) mod 256) r1 = (0x8000 + 2) mod 256 /\
    CPU.execute c1 = Ok (tt, c2) /\
    CPU.pc c2 = 0x8000 + 3 /\ CPU.sp c2 = 0xfd /\
    CPU.cyclesRemaining c2 = 6 /\
    CPU.a c2 = 0 /\ CPU.x c2 = 0 /\ CPU.y c2 = 0 /\ CPU.p c2 = 0x34.
Proof.
  apply (jsr_rts_round_trip
           (cartridge_cpu [0x20; 0x04; 0x80; 0xea; 0x60; 0xea; 0xea; 0xea] 0x8000)
           NES.ram 0x04 0x80 0xea 0xea).
  - apply cartridge_stack_bus. vm_compute. reflexivity.
  - exact machine_low_ram.
  - split; reflexivity.
  - vm_compute. split; discriminate.
  - vm_compute. split; discriminate.
  - vm_compute. reflexivity.
  - vm_compute. reflexivity.
Defined.

End CPUStack.

Section CPUPushPull.

Local Open Scope cpu_scope.

(** The byte under the stack pointer after one push. *)
Lemma one_push (r : RAM.t) (s byte : Z) :
  low_ram r -> 0 <= s <= 255 ->
  let s1 := (s - 1) mod 256 in
  let r1 := RAM.write (0x100 + s) byte r in
  low_ram r1 /\ 0 <= s1 <= 255 /\ (s1 + 1) mod 256 = s /\
  RAM.read (0x100 + s) r1 = byte mod 256.
Proof.
  intros Hram Hs. cbv zeta.
  destruct (sp_down_up s Hs) as (Hs1 & Hup1 & _ & _).
  split; [apply ram_write_low, Hram|].
  split; [exact Hs1|]. split; [exact Hup1|].
  rewrite ram_read_write by (assumption || lia). rewrite Z.eqb_refl. reflexivity.
Qed.

Lemma code_at_tail (bus : list CpuDevice) (address b : Z) (bytes : list Z) :
  code_at bus address (b :: bytes) = true -> code_at bus (address + 1) bytes = true.
Proof. intros H. apply code_at_cons in H. apply H. Qed.

Lemma code_at_take3 (bus : list CpuDevice) (address b0 b1 b2 : Z) (bytes : list Z) :
  code_at bus address (b0 :: b1 :: b2 :: bytes) = true ->
  code_at bus address [b0; b1; b2] = true.
Proof.
  intros H. apply code_at_cons in H. destruct H as [H0 H].
  apply code_at_cons in H. destruct H as [H1 H].
  apply code_at_cons in H. destruct H as [H2 _].
  cbn [code_at]. rewrite H0, H1, H2, !Z.eqb_refl. reflexivity.
Qed.

(** A push followed by the pull that matches it, for PHA and PLA. *)
Lemma pha_pla_run (c : CPU.t) (r : RAM.t) (next1 next2 : Z) :
  stack_bus (CPU.cpuBus c) r -> low_ram r -> no_interrupt c ->
  0 <= CPU.sp c <= 255 -> 0 <= CPU.pc c <= 0xfffd -> 0 <= CPU.a c < 256 ->
  code_at (CPU.cpuBus c) (CPU.pc c) [0x48; 0x68; next1; next2] = true ->
  exists c1 r1 c2,
    CPU.execute c = Ok (tt, c1) /\
    CPU.sp c1 = (CPU.sp c - 1) mod 256 /\ CPU.pc c1 = CPU.pc c + 1 /\
    CPU.cyclesRemaining c1 = 3 /\
    stack_bus (CPU.cpuBus c1) r1 /\ RAM.read (0x100 + CPU.sp c) r1 = CPU.a c /\
    CPU.execute c1 = Ok (tt, c2) /\
    CPU.a c2 = CPU.a c /\ CPU.sp c2 = CPU.sp c /\ CPU.pc c2 = CPU.pc c + 2 /\
    CPU.cyclesRemaining c2 = 4 /\
    CPU.p c2 =
      Util.setBit (Util.setBit (CPU.p c) 7 (128 <=? CPU.a c)) 1 (CPU.a c =? 0) /\
    CPU.x c2 = CPU.x c /\ CPU.y c2 = CPU.y c.
Proof.
  intros Hbus Hram Hint Hsp Hpc Ha Hcode.
  pose proof (code_at_take3 _ _ _ _ _ _ Hcode) as Hpha.
  pose proof (code_at_tail _ _ _ _ Hcode) as Hpla.
  pose proof (code_at_3 _ _ _ _ _ Hpha) as (H0 & _ & _).
  destruct c as [bus cycles0 extra irq nmi A X Y P SP PC].
  destruct Hint as [Hirq Hnmi]. cpu_fields. subst irq nmi.
  destruct (one_push r SP A Hram Hsp) as (Hram1 & Hs1 & Hup1 & Hread1).
  set (s1 := (SP - 1) mod 256) in *.
  set (bus1 := fst (Bus.write bus (0x100 + SP) A)).
  destruct (write_stack_bus_fst bus r (0x100 + SP) A Hbus Hram ltac:(lia))
    as (_ & Hbus1). fold bus1 in Hbus1.
  assert (forall address bytes, code_at bus1 address bytes = code_at bus address bytes)
    as Hcode1.
  { intros address bytes. subst bus1. apply code_at_after_write. }
  exists (CPU.mk bus1 3 0 false false A X Y P s1 (PC + 1)).
  exists (RAM.write (0x100 + SP) A r).
  exists (CPU.mk bus1 4 0 false false A X Y
            (Util.setBit (Util.setBit P 7 (128 <=? A)) 1 (A =? 0)) SP (PC + 2)).
  split.
  { rewrite (execute_rom _ 0x48); [|split; reflexivity|exact H0].
    change (CPU.opcodeFn (Some 0x48)) with CPU.pha. unfold CPU.pha.
    rewrite bind_bind, bind_get. cpu_fields. rewrite bind_bind.
    erewrite bind_pushStack; [|exact Hbus|exact Hram|exact Hsp]. cpu_fields. fold bus1 s1.
    erewrite bind_finish_rom.
    2: { cpu_fields. rewrite Hcode1. exact Hpha. }
    cpu_fields. rewrite Z.mod_small by lia. reflexivity. }
  cpu_fields.
  split; [reflexivity|]. split; [reflexivity|]. split; [reflexivity|].
  split; [exact Hbus1|].
  split; [rewrite Hread1; apply Z.mod_small; lia|].
  split.
  { rewrite (execute_rom _ 0x68); [|split; reflexivity|].
    2: { cpu_fields. apply (code_at_cons bus1 _ 0x68 [next1; next2]).
         rewrite Hcode1. exact Hpla. }
    change (CPU.opcodeFn (Some 0x68)) with CPU.pla. unfold CPU.pla.
    rewrite bind_bind.
    erewrite bind_pullStack; [|exact Hbus1|exact Hram1|exact Hs1]. cpu_fields.
    rewrite Hup1, Hread1, (Z.mod_small A 256) by lia.
    rewrite !bind_bind, !bind_modify, !bind_bind, !bind_modify, !bind_bind, !bind_modify.
    erewrite bind_finish_rom.
    2: { cpu_fields. rewrite Hcode1. exact Hpla. }
    cpu_fields. rewrite negative_of_difference, (Z.mod_small A 256) by lia.
    replace (PC + 1 + 1) with (PC + 2) by lia.
    rewrite Z.mod_small by lia. reflexivity. }
  repeat split.
Qed.

(** The same for PHP and PLP. *)
Lemma php_plp_run (c : CPU.t) (r : RAM.t) (next1 next2 : Z) :
  stack_bus (CPU.cpuBus c) r -> low_ram r -> no_interrupt c ->
  0 <= CPU.sp c <= 255 -> 0 <= CPU.pc c <= 0xfffd -> 0 <= CPU.p c < 256 ->
  code_at (CPU.cpuBus c) (CPU.pc c) [0x08; 0x28; next1; next2] = true ->
  exists c1 r1 c2,
    CPU.execute c = Ok (tt, c1) /\
    CPU.sp c1 = (CPU.sp c - 1) mod 256 /\ CPU.pc c1 = CPU.pc c + 1 /\
    CPU.cyclesRemaining c1 = 3 /\
    stack_bus (CPU.cpuBus c1) r1 /\ RAM.read (0x100 + CPU.sp c) r1 = CPU.p c /\
    CPU.execute c1 = Ok (tt, c2) /\
    CPU.p c2 = CPU.p c /\ CPU.sp c2 = CPU.sp c /\ CPU.pc c2 = CPU.pc c + 2 /\
    CPU.cyclesRemaining c2 = 4 /\
    CPU.a c2 = CPU.a c /\ CPU.x c2 = CPU.x c /\ CPU.y c2 = CPU.y c.
Proof.
  intros Hbus Hram Hint Hsp Hpc Hp Hcode.
  pose proof (code_at_take3 _ _ _ _ _ _ Hcode) as Hphp.
  pose proof (code_at_tail _ _ _ _ Hcode) as Hplp.
  pose proof (code_at_3 _ _ _ _ _ Hphp) as (H0 & _ & _).
  destruct c as [bus cycles0 extra irq nmi A X Y P SP PC].
  destruct Hint as [Hirq Hnmi]. cpu_fields. subst irq nmi.
  destruct (one_push r SP P Hram Hsp) as (Hram1 & Hs1 & Hup1 & Hread1).
  set (s1 := (SP - 1) mod 256) in *.
  set (bus1 := fst (Bus.write bus (0x100 + SP) P)).
  destruct (write_stack_bus_fst bus r (0x100 + SP) P Hbus Hram ltac:(lia))
    as (_ & Hbus1). fold bus1 in Hbus1.
  assert (forall address bytes, code_at bus1 address bytes = code_at bus address bytes)
    as Hcode1.
  { intros address bytes. subst bus1. apply code_at_after_write. }
  exists (CPU.mk bus1 3 0 false false A X Y P s1 (PC + 1)).
  exists (RAM.write (0x100 + SP) P r).
  exists (CPU.mk bus1 4 0 false false A X Y P SP (PC + 2)).
  split.
  { rewrite (execute_rom _ 0x08); [|split; reflexivity|exact H0].
    change (CPU.opcodeFn (Some 0x08)) with CPU.php. unfold CPU.php.
    rewrite bind_bind, bind_get. cpu_fields. rewrite bind_bind.
    erewrite bind_pushStack; [|exact Hbus|exact Hram|exact Hsp]. cpu_fields. fold bus1 s1.
    erewrite bind_finish_rom.
    2: { cpu_fields. rewrite Hcode1. exact Hphp. }
    cpu_fields. rewrite Z.mod_small by lia. reflexivity. }
  cpu_fields.
  split; [reflexivity|]. split; [reflexivity|]. split; [reflexivity|].
  split; [exact Hbus1|].
  split; [rewrite Hread1; apply Z.mod_small; lia|].
  split.
  { rewrite (execute_rom _ 0x28); [|split; reflexivity|].
    2: { cpu_fields. apply (code_at_cons bus1 _ 0x28 [next1; next2]).
         rewrite Hcode1. exact Hplp. }
    change (CPU.opcodeFn (Some 0x28)) with CPU.plp. unfold CPU.plp.
    rewrite bind_bind.
    erewrite bind_pullStack; [|exact Hbus1|exact Hram1|exact Hs1]. cpu_fields.
    rewrite Hup1, Hread1, (Z.mod_small P 256) by lia.
    rewrite !bind_bind, !bind_modify.
    erewrite bind_finish_rom.
    2: { cpu_fields. rewrite Hcode1. exact Hplp. }
    cpu_fields.
    replace (PC + 1 + 1) with (PC + 2) by lia.
    rewrite Z.mod_small by lia. reflexivity. }
  repeat split.
Qed.

(** X27: A push and the pull that follows it are a round trip. With
    the stack page in RAM and the program in ROM, PHA then PLA (opcodes
    0x48, 0x68) leave [a], [x], [y] and [sp] as they were and set the
    negative and zero flags from [a]; PHP then PLP (opcodes 0x08, 0x28)
    leave every register as it was, [p] included. The byte that the push
    stores at the stack pointer is the register itself: PHP sets no bit
    in the copy of [p] that it pushes. A push takes 3 cycles and a pull
    4; the program counter moves by 1 each time. *)
Theorem push_pull_round_trip (c : CPU.t) (r : RAM.t) (push pull next1 next2 : Z) :
  stack_bus (CPU.cpuBus c) r -> low_ram r -> no_interrupt c ->
  0 <= CPU.sp c <= 255 -> 0 <= CPU.pc c <= 0xfffd ->
  0 <= CPU.a c < 256 -> 0 <= CPU.p c < 256 ->
  (push = 0x48 /\ pull = 0x68) \/ (push = 0x08 /\ pull = 0x28) ->
  code_at (CPU.cpuBus c) (CPU.pc c) [push; pull; next1; next2] = true ->
  exists c1 r1 c2,
    CPU.execute c = Ok (tt, c1) /\
    CPU.sp c1 = (CPU.sp c - 1) mod 256 /\ CPU.pc c1 = CPU.pc c + 1 /\
    CPU.cyclesRemaining c1 = 3 /\
    stack_bus (CPU.cpuBus c1) r1 /\
    RAM.read (0x100 + CPU.sp c) r1 = (if push =? 0x48 then CPU.a c else CPU.p c) /\
    CPU.execute c1 = Ok (tt, c2) /\
    CPU.sp c2 = CPU.sp c /\ CPU.pc c2 = CPU.pc c + 2 /\
    CPU.cyclesRemaining c2 = 4 /\
    CPU.a c2 = CPU.a c /\ CPU.x c2 = CPU.x c /\ CPU.y c2 = CPU.y c /\
    CPU.p c2 =
      (if push =? 0x48
       then Util.setBit (Util.setBit (CPU.p c) 7 (128 <=? CPU.a c)) 1 (CPU.a c =? 0)
       else CPU.p c).
Proof.
  intros Hbus Hram Hint Hsp Hpc Ha Hp [[-> ->]|[-> ->]] Hcode.
  - destruct (pha_pla_run c r next1 next2 Hbus Hram Hint Hsp Hpc Ha Hcode)
      as (c1 & r1 & c2 & H1 & H2 & H3 & H4 & Hb & Hr & H5 & H6 & H7 & H8 & H9 & H10
          & H11 & H12).
    exists c1, r1, c2. cbn [Z.eqb Pos.eqb]. repeat split; assumption.
  - destruct (php_plp_run c r next1 next2 Hbus Hram Hint Hsp Hpc Hp Hcode)
      as (c1 & r1 & c2 & H1 & H2 & H3 & H4 & Hb & Hr & H5 & H6 & H7 & H8 & H9 & H10
          & H11 & H12).
    exists c1, r1, c2. cbn [Z.eqb Pos.eqb]. repeat split; assumption.
Qed.

Lemma push_pull_round_trip_witness :
  exists c1 r1 c2,
    CPU.execute (CPU.set_a 0x80 (cartridge_cpu [0x48; 0x68; 0xea; 0xea] 0x8000))
    = Ok (tt, c1) /\
    CPU.sp c1 = (0xfd - 1) mod 256 /\ CPU.pc c1 = 0x8000 + 1 /\
    CPU.cyclesRemaining c1 = 3 /\
    stack_bus (CPU.cpuBus c1) r1 /\
    RAM.read (0x100 + 0xfd) r1 = (if 0x48 =? 0x48 then 0x80 else 0x34) /\
    CPU.execute c1 = Ok (tt, c2) /\
    CPU.sp c2 = 0xfd /\ CPU.pc c2 = 0x8000 + 2 /\
    CPU.cyclesRemaining c2 = 4 /\
    CPU.a c2 = 0x80 /\ CPU.x c2 = 0 /\ CPU.y c2 = 0 /\
    CPU.p c2 =
      (if 0x48 =? 0x48
       then Util.setBit (Util.setBit 0x34 7 (128 <=? 0x80)) 1 (0x80 =? 0)
       else 0x34).
Proof.
  apply (push_pull_round_trip
           (CPU.set_a 0x80 (cartridge_cpu [0x48; 0x68; 0xea; 0xea] 0x8000))
           NES.ram 0x48 0x68 0xea 0xea).
  - apply (cartridge_stack_bus [0x48; 0x68; 0xea; 0xea] 0x8000). vm_compute. reflexivity.
  - exact machine_low_ram.
  - split; reflexivity.
  - vm_compute. split; discriminate.
  - vm_compute. split; discriminate.
  - vm_compute. split; [discriminate | reflexivity].
  - vm_compute. split; [discriminate | reflexivity].
  - left. split; reflexivity.
  - vm_compute. reflexivity.
Defined.

End CPUPushPull.

Section CPUInterrupts.

Local Open Scope cpu_scope.

(** The three bytes under the stack pointer after three pushes. *)
Lemma three_pushes (r : RAM.t) (s first second third : Z) :
  low_ram r -> 0 <= s <= 255 ->
  let s1 := (s - 1) mod 256 in
  let s2 := (s1 - 1) mod 256 in
  let s3 := (s2 - 1) mod 256 in
  let r1 := RAM.write (0x100 + s) first r in
  let r2 := RAM.write (0x100 + s1) second r1 in
  let r3 := RAM.write (0x100 + s2) third r2 in
  low_ram r1 /\ low_ram r2 /\ low_ram r3 /\
  0 <= s1 <= 255 /\ 0 <= s2 <= 255 /\ s3 = (s - 3) mod 256 /\
  RAM.read (0x100 + s) r3 = first mod 256 /\
  RAM.read (0x100 + s1) r3 = second mod 256 /\
  RAM.read (0x100 + s2) r3 = third mod 256.
Proof.
  intros Hram Hs. cbv zeta.
  destruct (sp_down_up s Hs) as (Hs1 & Hup1 & Hne1 & Hne2).
  destruct (sp_down_up _ Hs1) as (Hs2 & Hup2 & Hne3 & _).
  assert (low_ram (RAM.write (0x100 + s) first r)) as Hram1 by (apply ram_write_low, Hram).
  assert (low_ram (RAM.write (0x100 + (s - 1) mod 256) second
                     (RAM.write (0x100 + s) first r))) as Hram2
    by (apply ram_write_low, Hram1).
  split; [exact Hram1|]. split; [exact Hram2|].
  split; [apply ram_write_low, Hram2|].
  split; [exact Hs1|]. split; [exact Hs2|].
  split; [Z.div_mod_to_equations; lia|].
  split; [|split].
  - rewrite !ram_read_write by (assumption || lia).
    destruct (Z.eqb_spec (0x100 + ((s - 1) mod 256 - 1) mod 256) (0x100 + s)); [lia|].
    destruct (Z.eqb_spec (0x100 + (s - 1) mod 256) (0x100 + s)); [lia|].
    rewrite Z.eqb_refl. reflexivity.
  - rewrite !ram_read_write by (assumption || lia).
    destruct (Z.eqb_spec (0x100 + ((s - 1) mod 256 - 1) mod 256)
                         (0x100 + (s - 1) mod 256)); [lia|].
    rewrite Z.eqb_refl. reflexivity.
  - rewrite ram_read_write by (assumption || lia).
    rewrite Z.eqb_refl. reflexivity.
Qed.

Lemma status_bits (P : Z) :
  0 <= P < 256 ->
  Util.setBit P 2 true = Z.lor P 0x04 /\
  Util.setBit (Util.setBit P 2 true) 4 true = Z.lor P 0x14 /\
  Util.setBit (Util.setBit (Util.setBit P 2 true) 4 true) 4 false
  = Z.lor (Z.land P 0xEF) 0x04 /\
  0 <= Z.lor P 0x04 < 256 /\ 0 <= Z.lor P 0x14 < 256.
Proof.
  intros HP.
  pose proof (forall_bytes
    (fun P => (Util.setBit P 2 true =? Z.lor P 0x04)
              && (Util.setBit (Util.setBit P 2 true) 4 true =? Z.lor P 0x14)
              && (Util.setBit (Util.setBit (Util.setBit P 2 true) 4 true) 4 false
                  =? Z.lor (Z.land P 0xEF) 0x04)
              && (0 <=? Z.lor P 0x04) && (Z.lor P 0x04 <? 256)
              && (0 <=? Z.lor P 0x14) && (Z.lor P 0x14 <? 256))
    ltac:(vm_compute; reflexivity) P HP) as H.
  cbv beta in H. rewrite !andb_true_iff in H.
  destruct H as ((((((H1 & H2) & H3) & H4) & H5) & H6) & H7).
  apply Z.eqb_eq in H1, H2, H3. apply Z.leb_le in H4, H6. apply Z.ltb_lt in H5, H7.
  repeat split; assumption.
Qed.

(** X28: BRK (opcode 0x00), with the stack page in RAM and the program
    in ROM, pushes the address of the opcode plus 2, high byte first,
    and then [p] with the interrupt-disable and break bits set; it leaves
    interrupt-disable set and break clear in [p], takes 7 cycles, and
    sets the program counter to 0xFFFE, the address of the IRQ vector
    itself, whatever the two bytes of the vector are. *)
Theorem brk_pushes_and_jumps (c : CPU.t) (r : RAM.t) (next1 next2 : Z) :
  stack_bus (CPU.cpuBus c) r -> low_ram r -> no_interrupt c ->
  0 <= CPU.sp c <= 255 -> 0 <= CPU.pc c <= 0xfffd -> 0 <= CPU.p c < 256 ->
  code_at (CPU.cpuBus c) (CPU.pc c) [0x00; next1; next2] = true ->
  exists c1 r1,
    CPU.execute c = Ok (tt, c1) /\
    CPU.pc c1 = 0xfffe /\ CPU.sp c1 = (CPU.sp c - 3) mod 256 /\
    CPU.cyclesRemaining c1 = 7 /\
    CPU.p c1 = Z.lor (Z.land (CPU.p c) 0xEF) 0x04 /\
    stack_bus (CPU.cpuBus c1) r1 /\
    RAM.read (0x100 + CPU.sp c) r1 = (CPU.pc c + 2) / 256 /\
    RAM.read (0x100 + (CPU.sp c - 1) mod 256) r1 = (CPU.pc c + 2) mod 256 /\
    RAM.read (0x100 + (CPU.sp c - 2) mod 256) r1 = Z.lor (CPU.p c) 0x14 /\
    CPU.a c1 = CPU.a c /\ CPU.x c1 = CPU.x c /\ CPU.y c1 = CPU.y c.
Proof.
  intros Hbus Hram Hint Hsp Hpc Hp Hcode.
  pose proof (code_at_3 _ _ _ _ _ Hcode) as (H0 & _ & _).
  destruct (return_address_bytes (CPU.pc c + 2) ltac:(lia)) as (Hhi & Hlo).
  destruct c as [bus cycles0 extra irq nmi A X Y P SP PC].
  destruct Hint as [Hirq Hnmi]. cpu_fields. subst irq nmi.
  destruct (status_bits P Hp) as (HI & HIB & Hfinal & HIr & HIBr).
  set (first := (PC + 2) / 256) in *.
  set (second := (PC + 2) mod 256) in *.
  set (third := Z.lor P 0x14) in *.
  destruct (three_pushes r SP first second third Hram Hsp)
    as (Hram1 & Hram2 & Hram3 & Hs1 & Hs2 & Hs3 & Hread1 & Hread2 & Hread3).
  set (s1 := (SP - 1) mod 256) in *.
  set (s2 := (s1 - 1) mod 256) in *.
  set (r1 := RAM.write (0x100 + SP) first r) in *.
  set (r2 := RAM.write (0x100 + s1) second r1) in *.
  set (r3 := RAM.write (0x100 + s2) third r2) in *.
  set (bus1 := fst (Bus.write bus (0x100 + SP) first)).
  set (bus2 := fst (Bus.write bus1 (0x100 + s1) second)).
  set (bus3 := fst (Bus.write bus2 (0x100 + s2) third)).
  destruct (write_stack_bus_fst bus r (0x100 + SP) first Hbus Hram ltac:(lia))
    as (_ & Hbus1). fold bus1 r1 in Hbus1.
  destruct (write_stack_bus_fst bus1 _ (0x100 + s1) second Hbus1 Hram1 ltac:(lia))
    as (_ & Hbus2). fold bus2 r2 in Hbus2.
  destruct (write_stack_bus_fst bus2 _ (0x100 + s2) third Hbus2 Hram2 ltac:(lia))
    as (_ & Hbus3). fold bus3 r3 in Hbus3.
  assert (forall address bytes, code_at bus3 address bytes = code_at bus address bytes)
    as Hcode3.
  { intros address bytes. subst bus3 bus2 bus1. rewrite !code_at_after_write. reflexivity. }
  exists (CPU.mk bus3 7 0 false false A X Y (Z.lor (Z.land P 0xEF) 0x04)
                 ((s2 - 1) mod 256) 0xfffe), r3.
  split.
  { rewrite (execute_rom _ 0x00); [|split; reflexivity|exact H0].
    change (CPU.opcodeFn (Some 0x00)) with CPU.brk. unfold CPU.brk.
    rewrite bind_bind, bind_get, bind_bind, bind_get. cpu_fields.
    rewrite Hhi, Hlo. fold first second. rewrite bind_bind.
    erewrite bind_pushStack; [|exact Hbus|exact Hram|exact Hsp]. cpu_fields. fold bus1 s1.
    rewrite bind_bind.
    erewrite bind_pushStack; [|exact Hbus1|exact Hram1|exact Hs1]. cpu_fields. fold bus2 s2.
    rewrite !bind_bind, !bind_modify, !bind_bind, !bind_modify, !bind_bind, bind_get.
    cpu_fields. rewrite HIB. fold third. rewrite bind_bind.
    erewrite bind_pushStack; [|exact Hbus2|exact Hram2|exact Hs2]. cpu_fields. fold bus3.
    rewrite !bind_bind, !bind_modify, !bind_bind, bind_get, !bind_bind, bind_formatHex.
    rewrite bind_bind. erewrite bind_set_pc_rom.
    2: { cpu_fields. rewrite Hcode3. exact Hcode. }
    cpu_fields.
    replace (Util.setBit third 4 false) with (Z.lor (Z.land P 0xEF) 0x04)
      by (subst third; rewrite <- HIB; symmetry; exact Hfinal).
    reflexivity. }
  cpu_fields.
  assert (0 <= first < 256) as Hfirst by (subst first; Z.div_mod_to_equations; lia).
  assert (0 <= second < 256) as Hsecond by (subst second; Z.div_mod_to_equations; lia).
  rewrite (Z.mod_small first) in Hread1 by lia.
  rewrite (Z.mod_small second) in Hread2 by lia.
  rewrite (Z.mod_small third) in Hread3 by (subst third; lia).
  split; [reflexivity|]. split; [exact Hs3|]. split; [reflexivity|].
  split; [reflexivity|]. split; [exact Hbus3|].
  split; [exact Hread1|]. split; [exact Hread2|].
  split.
  { replace ((SP - 2) mod 256) with s2 by (subst s2 s1; Z.div_mod_to_equations; lia).
    exact Hread3. }
  repeat split.
Qed.

Lemma brk_pushes_and_jumps_witness :
  exists c1 r1,
    CPU.execute (cartridge_cpu [0x00; 0xea; 0xea; 0xea] 0x8000) = Ok (tt, c1) /\
    CPU.pc c1 = 0xfffe /\ CPU.sp c1 = (0xfd - 3) mod 256 /\
    CPU.cyclesRemaining c1 = 7 /\
    CPU.p c1 = Z.lor (Z.land 0x34 0xEF) 0x04 /\
    stack_bus (CPU.cpuBus c1) r1 /\
    RAM.read (0x100 + 0xfd) r1 = (0x8000 + 2) / 256 /\
    RAM.read (0x100 + (0xfd - 1) mod 256) r1 = (0x8000 + 2) mod 256 /\
    RAM.read (0x100 + (0xfd - 2) mod 256) r1 = Z.lor 0x34 0x14 /\
    CPU.a c1 = 0 /\ CPU.x c1 = 0 /\ CPU.y c1 = 0.
Proof.
  apply (brk_pushes_and_jumps (cartridge_cpu [0x00; 0xea; 0xea; 0xea] 0x8000)
           NES.ram 0xea 0xea).
  - apply cartridge_stack_bus. vm_compute. reflexivity.
  - exact machine_low_ram.
  - split; reflexivity.
  - vm_compute. split; discriminate.
  - vm_compute. split; discriminate.
  - vm_compute. split; [discriminate | reflexivity].
  - vm_compute. reflexivity.
Defined.

Lemma interrupt_run (c : CPU.t) (r : RAM.t) (vector lo hi b0 b1 b2 : Z) :
  stack_bus (CPU.cpuBus c) r -> low_ram r ->
  0 <= CPU.sp c <= 255 -> 0 <= CPU.pc c < 65536 -> 0 <= CPU.p c < 256 ->
  rom_read (CPU.cpuBus c) vector = Some lo ->
  rom_read (CPU.cpuBus c) (vector + 1) = Some hi ->
  code_at (CPU.cpuBus c) (CPU.pc c) [b0; b1; b2] = true ->
  exists bus3 r3,
    CPU.interrupt vector c =
    Ok (tt, CPU.mk bus3 7 (CPU.additionalCycles c) (CPU.pendingIRQ c) (CPU.pendingNMI c)
              (CPU.a c) (CPU.x c) (CPU.y c) (Z.lor (CPU.p c) 0x04)
              ((CPU.sp c - 3) mod 256) (256 * hi + lo)) /\
    stack_bus bus3 r3 /\
    RAM.read (0x100 + CPU.sp c) r3 = CPU.pc c / 256 /\
    RAM.read (0x100 + (CPU.sp c - 1) mod 256) r3 = CPU.pc c mod 256 /\
    RAM.read (0x100 + (CPU.sp c - 2) mod 256) r3 = Z.lor (CPU.p c) 0x04.
Proof.
  intros Hbus Hram Hsp Hpc Hp Hlo Hhi Hcode.
  destruct (return_address_bytes (CPU.pc c) Hpc) as (Hbhi & Hblo).
  destruct c as [bus cycles0 extra irq nmi A X Y P SP PC]. cpu_fields.
  destruct (status_bits P Hp) as (HI & _ & _ & HIr & _).
  set (first := PC / 256) in *.
  set (second := PC mod 256) in *.
  set (third := Z.lor P 0x04) in *.
  destruct (three_pushes r SP first second third Hram Hsp)
    as (Hram1 & Hram2 & Hram3 & Hs1 & Hs2 & Hs3 & Hread1 & Hread2 & Hread3).
  set (s1 := (SP - 1) mod 256) in *.
  set (s2 := (s1 - 1) mod 256) in *.
  set (r1 := RAM.write (0x100 + SP) first r) in *.
  set (r2 := RAM.write (0x100 + s1) second r1) in *.
  set (r3 := RAM.write (0x100 + s2) third r2) in *.
  set (bus1 := fst (Bus.write bus (0x100 + SP) first)).
  set (bus2 := fst (Bus.write bus1 (0x100 + s1) second)).
  set (bus3 := fst (Bus.write bus2 (0x100 + s2) third)).
  destruct (write_stack_bus_fst bus r (0x100 + SP) first Hbus Hram ltac:(lia))
    as (_ & Hbus1). fold bus1 r1 in Hbus1.
  destruct (write_stack_bus_fst bus1 _ (0x100 + s1) second Hbus1 Hram1 ltac:(lia))
    as (_ & Hbus2). fold bus2 r2 in Hbus2.
  destruct (write_stack_bus_fst bus2 _ (0x100 + s2) third Hbus2 Hram2 ltac:(lia))
    as (_ & Hbus3). fold bus3 r3 in Hbus3.
  assert (forall address, rom_read bus3 address = rom_read bus address) as Hrom3.
  { intros address. subst bus3 bus2 bus1. rewrite !rom_read_after_write. reflexivity. }
  assert (forall address bytes, code_at bus3 address bytes = code_at bus address bytes)
    as Hcode3.
  { intros address bytes. subst bus3 bus2 bus1. rewrite !code_at_after_write. reflexivity. }
  exists bus3, r3. split.
  { unfold CPU.interrupt. rewrite bind_get. cpu_fields.
    rewrite Hbhi, Hblo. fold first second.
    erewrite bind_pushStack; [|exact Hbus|exact Hram|exact Hsp]. cpu_fields. fold bus1 s1.
    erewrite bind_pushStack; [|exact Hbus1|exact Hram1|exact Hs1]. cpu_fields. fold bus2 s2.
    rewrite bind_modify, bind_get. cpu_fields. rewrite HI. fold third.
    erewrite bind_pushStack; [|exact Hbus2|exact Hram2|exact Hs2]. cpu_fields. fold bus3.
    erewrite (bind_busRead_rom _ vector lo).
    2: { cpu_fields. rewrite Hrom3. exact Hlo. }
    erewrite (bind_busRead_rom _ (vector + 1) hi).
    2: { cpu_fields. rewrite Hrom3. exact Hhi. }
    cbn [JS.num default]. unfold id.
    rewrite word_value by (eapply rom_read_byte; eassumption).
    erewrite bind_set_pc_rom.
    2: { cpu_fields. rewrite Hcode3. exact Hcode. }
    cpu_fields. rewrite <- Hs3. reflexivity. }
  assert (0 <= first < 256) as Hfirst by (subst first; Z.div_mod_to_equations; lia).
  assert (0 <= second < 256) as Hsecond by (subst second; Z.div_mod_to_equations; lia).
  rewrite (Z.mod_small first) in Hread1 by lia.
  rewrite (Z.mod_small second) in Hread2 by lia.
  rewrite (Z.mod_small third) in Hread3 by (subst third; lia).
  split; [exact Hbus3|]. split; [exact Hread1|]. split; [exact Hread2|].
  replace ((SP - 2) mod 256) with s2 by (subst s2 s1; Z.div_mod_to_equations; lia).
  exact Hread3.
Qed.

(** X29: The entry into an interrupt. When [execute] finds an IRQ
    pending with the interrupt-disable flag clear, it takes the IRQ,
    also if an NMI is pending too; otherwise, when it finds an NMI
    pending, it takes the NMI. With the stack page in RAM and the vectors
    and the interrupted program in ROM, it clears the pending flag of the
    interrupt it takes and leaves the other, pushes the program counter,
    high byte first, and then [p] with the interrupt-disable bit already
    set, sets that bit in [p], loads the program counter from the vector
    (0xFFFE for an IRQ, 0xFFFA for an NMI) and takes 7 cycles. *)
Theorem interrupt_entry (c : CPU.t) (r : RAM.t) (lo hi b0 b1 b2 : Z) :
  stack_bus (CPU.cpuBus c) r -> low_ram r ->
  0 <= CPU.sp c <= 255 -> 0 <= CPU.pc c < 65536 -> 0 <= CPU.p c < 256 ->
  let irq := CPU.pendingIRQ c && negb (Z.testbit (CPU.p c) 2) in
  let vector := if irq then 0xfffe else 0xfffa in
  irq = true \/ CPU.pendingNMI c = true ->
  rom_read (CPU.cpuBus c) vector = Some lo ->
  rom_read (CPU.cpuBus c) (vector + 1) = Some hi ->
  code_at (CPU.cpuBus c) (CPU.pc c) [b0; b1; b2] = true ->
  exists c1 r1,
    CPU.execute c = Ok (tt, c1) /\
    CPU.pc c1 = 256 * hi + lo /\ CPU.sp c1 = (CPU.sp c - 3) mod 256 /\
    CPU.cyclesRemaining c1 = 7 /\ CPU.p c1 = Z.lor (CPU.p c) 0x04 /\
    CPU.pendingIRQ c1 = (if irq then false else CPU.pendingIRQ c) /\
    CPU.pendingNMI c1 = (if irq then CPU.pendingNMI c else false) /\
    stack_bus (CPU.cpuBus c1) r1 /\
    RAM.read (0x100 + CPU.sp c) r1 = CPU.pc c / 256 /\
    RAM.read (0x100 + (CPU.sp c - 1) mod 256) r1 = CPU.pc c mod 256 /\
    RAM.read (0x100 + (CPU.sp c - 2) mod 256) r1 = Z.lor (CPU.p c) 0x04 /\
    CPU.a c1 = CPU.a c /\ CPU.x c1 = CPU.x c /\ CPU.y c1 = CPU.y c.
Proof.
  intros Hbus Hram Hsp Hpc Hp irq vector Htaken Hlo Hhi Hcode.
  assert (CPU.pendingIRQ c && negb (JS.truthy (CPU.statusInterruptDisable c)) = irq)
    as Hirq.
  { subst irq. unfold CPU.statusInterruptDisable, CPU.getStatusFlag.
    rewrite getBit_testbit by (vm_compute; split; congruence).
    change CPU.STATUS_FLAG_BIT_INTERRUPT_DISABLE with 2.
    destruct (Z.testbit (CPU.p c) 2); reflexivity. }
  unfold CPU.execute. rewrite bind_get, bind_get, Hirq.
  destruct irq eqn:Eirq.
  - rewrite bind_modify.
    destruct (interrupt_run (CPU.set_pendingIRQ false c) r 0xfffe lo hi b0 b1 b2
                Hbus Hram Hsp Hpc Hp Hlo Hhi Hcode)
      as (bus3 & r3 & Hrun & Hbus3 & H1 & H2 & H3).
    eexists _, r3. split; [exact Hrun|].
    destruct c as [bus cycles0 extra irq0 nmi A X Y P SP PC]. cpu_fields.
    repeat split; assumption.
  - destruct Htaken as [Hf|Hnmi]; [discriminate|].
    rewrite bind_get, Hnmi, bind_modify.
    destruct (interrupt_run (CPU.set_pendingNMI false c) r 0xfffa lo hi b0 b1 b2
                Hbus Hram Hsp Hpc Hp Hlo Hhi Hcode)
      as (bus3 & r3 & Hrun & Hbus3 & H1 & H2 & H3).
    eexists _, r3. split; [exact Hrun|].
    destruct c as [bus cycles0 extra irq0 nmi A X Y P SP PC]. cpu_fields.
    repeat split; assumption.
Qed.

Lemma interrupt_entry_witness :
  exists c1 r1,
    CPU.execute
      (CPU.generateNMI
         (cartridge_cpu [0xea; 0xea; 0xea; 0xea; 0xea; 0xea; 0xea; 0xea;
                         0x40; 0xea; 0x08; 0x80; 0xea; 0xea; 0xea; 0xea] 0x8000))
    = Ok (tt, c1) /\
    CPU.pc c1 = 256 * 0x80 + 0x08 /\ CPU.sp c1 = (0xfd - 3) mod 256 /\
    CPU.cyclesRemaining c1 = 7 /\ CPU.p c1 = Z.lor 0x34 0x04 /\
    CPU.pendingIRQ c1 = (if false && negb (Z.testbit 0x34 2) then false else false) /\
    CPU.pendingNMI c1 = (if false && negb (Z.testbit 0x34 2) then true else false) /\
    stack_bus (CPU.cpuBus c1) r1 /\
    RAM.read (0x100 + 0xfd) r1 = 0x8000 / 256 /\
    RAM.read (0x100 + (0xfd - 1) mod 256) r1 = 0x8000 mod 256 /\
    RAM.read (0x100 + (0xfd - 2) mod 256) r1 = Z.lor 0x34 0x04 /\
    CPU.a c1 = 0 /\ CPU.x c1 = 0 /\ CPU.y c1 = 0.
Proof.
  apply (interrupt_entry
           (CPU.generateNMI
              (cartridge_cpu [0xea; 0xea; 0xea; 0xea; 0xea; 0xea; 0xea; 0xea;
                              0x40; 0xea; 0x08; 0x80; 0xea; 0xea; 0xea; 0xea] 0x8000))
           NES.ram 0x08 0x80 0xea 0xea 0xea).
  - apply (cartridge_stack_bus
             [0xea; 0xea; 0xea; 0xea; 0xea; 0xea; 0xea; 0xea;
              0x40; 0xea; 0x08; 0x80; 0xea; 0xea; 0xea; 0xea] 0x8000).
    vm_compute. reflexivity.
  - exact machine_low_ram.
  - vm_compute. split; discriminate.
  - vm_compute. split; [discriminate | reflexivity].
  - vm_compute. split; [discriminate | reflexivity].
  - right. reflexivity.
  - vm_compute. reflexivity.
  - vm_compute. reflexivity.
  - vm_compute. reflexivity.
Defined.

End CPUInterrupts.

(** ** [cpu.ts]: ticks and cycles *)

Section CPUTicks.

Local Open Scope cpu_scope.

Lemma set_cyclesRemaining_twice (n m : Z) (c : CPU.t) :
  CPU.set_cyclesRemaining n (CPU.set_cyclesRemaining m c) = CPU.set_cyclesRemaining n c.
Proof. reflexivity. Qed.

Lemma set_cyclesRemaining_same (c : CPU.t) :
  CPU.set_cyclesRemaining (CPU.cyclesRemaining c) c = c.
Proof. destruct c. reflexivity. Qed.

(** A tick while an instruction is under way only counts down. *)
Lemma tick_wait (c : CPU.t) :
  0 < CPU.cyclesRemaining c ->
  CPU.tick c = Ok (tt, CPU.set_cyclesRemaining (CPU.cyclesRemaining c - 1) c).
Proof.
  intros Hn. unfold CPU.tick. rewrite bind_get.
  destruct (Z.leb_spec (CPU.cyclesRemaining c) 0); [lia|].
  rewrite bind_ret. reflexivity.
Qed.

Lemma tick_execute (c c1 : CPU.t) :
  CPU.cyclesRemaining c <= 0 -> CPU.execute c = Ok (tt, c1) ->
  CPU.tick c = Ok (tt, CPU.set_cyclesRemaining (CPU.cyclesRemaining c1 - 1) c1).
Proof.
  intros Hn Hrun. unfold CPU.tick. rewrite bind_get.
  destruct (Z.leb_spec (CPU.cyclesRemaining c) 0); [|lia].
  rewrite (bind_ok _ _ _ _ _ Hrun). reflexivity.
Qed.

Lemma ticks_wait (k : nat) (c : CPU.t) :
  Z.of_nat k <= CPU.cyclesRemaining c ->
  cpu_ticks k c = Ok (tt, CPU.set_cyclesRemaining (CPU.cyclesRemaining c - Z.of_nat k) c).
Proof.
  revert c. induction k as [|k IH]; intros c Hk; cbn [cpu_ticks].
  - unfold CPU.ret. rewrite Z.sub_0_r, set_cyclesRemaining_same. reflexivity.
  - rewrite (bind_ok _ _ _ _ _ (tick_wait c ltac:(lia))).
    rewrite IH by (cbn [CPU.cyclesRemaining CPU.set_cyclesRemaining]; lia).
    rewrite set_cyclesRemaining_twice.
    cbn [CPU.cyclesRemaining CPU.set_cyclesRemaining].
    do 3 f_equal. lia.
Qed.

(** X30: An instruction occupies as many ticks as the cycles it asks
    for. When [cyclesRemaining] is 0 or less, a tick calls [execute] and
    then counts one cycle; if [execute] left [n] cycles, the next [n - 1]
    ticks only count down: they touch neither the bus nor a register,
    and a pending interrupt waits. After [n] ticks [cyclesRemaining] is 0
    and the next tick calls [execute] again. A method that sets no cycle
    count, as the one for an invalid opcode, occupies one tick. *)
Theorem instruction_occupies_its_cycles (c c1 : CPU.t) (k : nat) :
  CPU.cyclesRemaining c <= 0 ->
  CPU.execute c = Ok (tt, c1) ->
  k = 0%nat \/ Z.of_nat k < CPU.cyclesRemaining c1 ->
  cpu_ticks (S k) c =
  Ok (tt, CPU.set_cyclesRemaining (CPU.cyclesRemaining c1 - 1 - Z.of_nat k) c1).
Proof.
  intros Hn Hrun Hk. cbn [cpu_ticks].
  rewrite (bind_ok _ _ _ _ _ (tick_execute c c1 Hn Hrun)).
  destruct Hk as [->|Hk].
  - cbn [cpu_ticks]. unfold CPU.ret. rewrite Z.sub_0_r. reflexivity.
  - rewrite ticks_wait by (cbn [CPU.cyclesRemaining CPU.set_cyclesRemaining]; lia).
    rewrite set_cyclesRemaining_twice.
    cbn [CPU.cyclesRemaining CPU.set_cyclesRemaining]. reflexivity.
Qed.

Lemma instruction_occupies_its_cycles_witness :
  cpu_ticks 2 (cartridge_cpu [0xea; 0xea; 0xea] 0x8000) =
  Ok (tt, CPU.set_cyclesRemaining
            (CPU.cyclesRemaining (after_execute (cartridge_cpu [0xea; 0xea; 0xea] 0x8000))
             - 1 - Z.of_nat 1)
            (after_execute (cartridge_cpu [0xea; 0xea; 0xea] 0x8000))).
Proof.
  apply (instruction_occupies_its_cycles
           (cartridge_cpu [0xea; 0xea; 0xea] 0x8000)
           (after_execute (cartridge_cpu [0xea; 0xea; 0xea] 0x8000)) 1).
  - vm_compute. discriminate.
  - assert (match CPU.execute (cartridge_cpu [0xea; 0xea; 0xea] 0x8000) with
            | Ok _ => true
            | Throw _ => false
            end = true) as Hok by (vm_compute; reflexivity).
    unfold after_execute.
    destruct (CPU.execute (cartridge_cpu [0xea; 0xea; 0xea] 0x8000)) as [[[] c']|message];
      [reflexivity | discriminate].
  - right. vm_compute. reflexivity.
Defined.

End CPUTicks.
